(** * A shallow embedding of the CS305 peer-to-peer chunk transfer peer

    The embedding follows the Python sources module by module:

    - [Packet]    : src/packet.py (wire codec, with the [struct] and
                    [socket] helpers it calls)
    - [Conn]      : src/connection.py (the per-transfer connection object)
    - [Doubles]   : the congestion window of src/connection.py in double
                    precision
    - [Transfer]  : src/reliable_transfer.py (DATA/ACK state machine)
    - [Hex]       : the hash conversions of src/packet.py
    - [Handshake] : src/handshake.py (WHOHAS / IHAVE / GET / DENIED)
    - [Download]  : the download task of src/download_manager.py
    - [Manager]   : the download manager of src/download_manager.py

    The modules [Wire], [Runs], [Delivery], [Answers] and [Uploads], and
    after them [Formats], [Traces], [Senders], [Managers], [Discovery],
    [Tasks] and [Dispatch], hold the vocabulary of the statements; the
    [...Facts] modules hold the proofs.

    Conventions.  Python integers are unbounded, hence [Z].  Python floats
    (the congestion window, the clock and the RTT estimator) are idealised
    as exact rationals [Q]: the embedding follows the arithmetic the code
    writes, not IEEE rounding.  What is stated about the window and the
    RTT estimator is therefore limited to what rounding preserves (whole
    numbers, signs and orderings); [Doubles] computes the window as the
    code does and shows where the exact value and the code part.  A
    [bytes] object is a [list byte].  A
    dictionary whose iteration order the code relies on is an
    insertion-ordered association list; the receive buffer, only ever used
    through membership, lookup and assignment, is a [gmap].  Exceptions are
    values of the type [exn] carried by [result].  Every read of
    [time.time()] inside one handler call is the single argument [now] of
    that handler.  Of what the code prints only the GOT lines of the
    download manager are modelled ([Manager.printed]); the output of the
    [verbose] levels, the state-change line of [Connection.update_state] and
    the error line of [save_to_file] are left out, and no statement is made
    about them. *)

From Stdlib Require Import ZArith QArith Qround Qabs Lia Lqa List Bool.
From Stdlib Require Import Strings.Byte Strings.Ascii.
From Stdlib Require Import Floats.
From stdpp Require Import base gmap strings list.

Import ListNotations.
Local Open Scope Z_scope.

(* ===================================================================== *)
(** * Python runtime pieces shared by all modules *)
(* ===================================================================== *)

Abbreviation bytes := (list byte).

(** [len(x)] of a bytes object or a list, as a Python integer. *)
Definition len {A} (l : list A) : Z := Z.of_nat (length l).

(** The exceptions the embedded code can raise. *)
Inductive exn :=
| ValueError (msg : string)
| OverflowError
| StructError.

Inductive result (A : Type) :=
| Ok (a : A)
| Raise (e : exn).
Arguments Ok {A} a.
Arguments Raise {A} e.

Definition bind {A B} (r : result A) (k : A -> result B) : result B :=
  match r with
  | Ok a => k a
  | Raise e => Raise e
  end.

Notation "x <-! r ; k" := (bind r (fun x => k))
  (at level 100, r at next level, right associativity).

Definition is_ok {A} (r : result A) : bool :=
  match r with Ok _ => true | Raise _ => false end.

(** [AddressType] of utils/simsocket.py: an [(ip, port)] pair. *)
Abbreviation AddressType := (string * Z)%type.

Definition addr_eqb (a b : AddressType) : bool :=
  bool_decide (a = b).

(** An insertion-ordered Python [dict]: assignment to a present key keeps
    the key's position, assignment to a new key appends. *)
Abbreviation pydict K V := (list (K * V)).

Section PyDict.
Context {K V : Type} `{EqDecision K}.

Fixpoint dict_get (k : K) (d : pydict K V) : option V :=
  match d with
  | [] => None
  | (k', v) :: d' => if decide (k = k') then Some v else dict_get k d'
  end.

Fixpoint dict_set (k : K) (v : V) (d : pydict K V) : pydict K V :=
  match d with
  | [] => [(k, v)]
  | (k', v') :: d' =>
      if decide (k = k') then (k', v) :: d' else (k', v') :: dict_set k v d'
  end.

Definition dict_in (k : K) (d : pydict K V) : bool :=
  match dict_get k d with Some _ => true | None => false end.

End PyDict.

(* ===================================================================== *)
(** * src/packet.py *)
(* ===================================================================== *)

Module Packet.

(** ** The [struct] and [socket] helpers the codec calls *)

(** [sys.byteorder] of the machine the peer runs on. *)
Inductive byteorder := Little | Big.

Definition byte_of_Z (z : Z) : byte :=
  match Byte.of_N (Z.to_N (z mod 256)) with
  | Some b => b
  | None => x00
  end.

Definition Z_of_byte (b : byte) : Z := Z.of_N (Byte.to_N b).

(** [n] bytes of [v], least significant first. *)
Fixpoint le_encode (n : nat) (v : Z) : bytes :=
  match n with
  | O => []
  | S n' => byte_of_Z v :: le_encode n' (v / 256)
  end.

Fixpoint le_decode (bs : bytes) : Z :=
  match bs with
  | [] => 0
  | b :: bs' => Z_of_byte b + 256 * le_decode bs'
  end.

(** Network byte order is big-endian. *)
Definition be_encode (n : nat) (v : Z) : bytes := rev (le_encode n v).
Definition be_decode (bs : bytes) : Z := le_decode (rev bs).

(** The in-memory representation of an unsigned integer on the host. *)
Definition host_encode (ho : byteorder) (n : nat) (v : Z) : bytes :=
  match ho with
  | Little => le_encode n v
  | Big => be_encode n v
  end.

Definition host_decode (ho : byteorder) (bs : bytes) : Z :=
  match ho with
  | Little => le_decode bs
  | Big => be_decode bs
  end.

Definition fits (bits : Z) (x : Z) : bool := (0 <=? x) && (x <? 2 ^ bits).

(** [socket.htons] / [socket.htonl]: the host integer whose in-memory bytes
    are the network-order bytes of [x].  Since Python 3.10 (the sources use
    [match] statements, so nothing older runs them) an argument that does
    not fit the width raises [OverflowError]. *)
Definition htons (ho : byteorder) (x : Z) : result Z :=
  if fits 16 x then Ok (host_decode ho (be_encode 2 x)) else Raise OverflowError.

Definition htonl (ho : byteorder) (x : Z) : result Z :=
  if fits 32 x then Ok (host_decode ho (be_encode 4 x)) else Raise OverflowError.

Definition ntohs (ho : byteorder) (x : Z) : result Z :=
  if fits 16 x then Ok (be_decode (host_encode ho 2 x)) else Raise OverflowError.

Definition ntohl (ho : byteorder) (x : Z) : result Z :=
  if fits 32 x then Ok (be_decode (host_encode ho 4 x)) else Raise OverflowError.

(** Format characters of the [struct] module, native mode (no prefix):
    native sizes and native alignment. *)
Inductive fmt_char := FmtB | FmtH | FmtI.

Definition fmt_size (c : fmt_char) : nat :=
  match c with FmtB => 1 | FmtH => 2 | FmtI => 4 end.

Definition padding (offset : nat) (c : fmt_char) : nat :=
  let a := fmt_size c in
  ((a - offset mod a) mod a)%nat.

Fixpoint calcsize_from (offset : nat) (fmt : list fmt_char) : nat :=
  match fmt with
  | [] => offset
  | c :: fmt' => calcsize_from (offset + padding offset c + fmt_size c) fmt'
  end.

Definition calcsize (fmt : list fmt_char) : Z := Z.of_nat (calcsize_from 0 fmt).

Fixpoint pack_from (ho : byteorder) (offset : nat) (fmt : list fmt_char)
         (vals : list Z) : result bytes :=
  match fmt, vals with
  | [], [] => Ok []
  | c :: fmt', v :: vals' =>
      if fits (8 * Z.of_nat (fmt_size c)) v then
        rest <-! pack_from ho (offset + padding offset c + fmt_size c) fmt' vals' ;
        Ok (repeat x00 (padding offset c) ++ host_encode ho (fmt_size c) v ++ rest)
      else Raise StructError
  | _, _ => Raise StructError
  end.

Definition pack ho fmt vals := pack_from ho 0 fmt vals.

Fixpoint unpack_from (ho : byteorder) (offset : nat) (fmt : list fmt_char)
         (buf : bytes) : list Z :=
  match fmt with
  | [] => []
  | c :: fmt' =>
      let buf' := drop (padding offset c) buf in
      host_decode ho (take (fmt_size c) buf')
        :: unpack_from ho (offset + padding offset c + fmt_size c) fmt'
             (drop (fmt_size c) buf')
  end.

(** [struct.unpack] requires a buffer of exactly [calcsize fmt] bytes. *)
Definition unpack ho fmt (buf : bytes) : result (list Z) :=
  if len buf =? calcsize fmt then Ok (unpack_from ho 0 fmt buf)
  else Raise StructError.

(** ** Constants *)

Definition BUF_SIZE : Z := 1400.
Definition HEADER_FMT : list fmt_char := [FmtB; FmtB; FmtH; FmtI; FmtI].
Definition HEADER_LEN : Z := calcsize HEADER_FMT.
Definition MAX_PAYLOAD_SIZE : Z := BUF_SIZE - HEADER_LEN.
Definition CHUNK_SIZE : Z := 512 * 1024.

Module PktType.
Definition WHOHAS : Z := 0.
Definition IHAVE : Z := 1.
Definition GET : Z := 2.
Definition DATA : Z := 3.
Definition ACK : Z := 4.
Definition DENIED : Z := 5.
End PktType.

Record PacketInfo := {
  pkt_type : Z;
  header_len : Z;
  pkt_len : Z;
  seq_num : Z;
  ack_num : Z;
  payload : bytes;
  from_addr : option AddressType
}.

(** The header every builder packs:
    [struct.pack(HEADER_FMT, type, HEADER_LEN, htons(total), htonl(seq), htonl(ack))]. *)
Definition build_header ho (ty total seq ack : Z) : result bytes :=
  l <-! htons ho total ;
  s <-! htonl ho seq ;
  a <-! htonl ho ack ;
  pack ho HEADER_FMT [ty; HEADER_LEN; l; s; a].

Definition build_who_has_packet ho (chunk_hashes : list bytes) : result bytes :=
  match chunk_hashes with
  | [] => Raise (ValueError "WHOHAS packet must contain at least one chunk hash")
  | _ =>
      let payload := concat chunk_hashes in
      header <-! build_header ho PktType.WHOHAS (HEADER_LEN + len payload) 0 0 ;
      Ok (header ++ payload)
  end.

Definition build_i_have_packet ho (chunk_hashes : list bytes) : result bytes :=
  match chunk_hashes with
  | [] => Raise (ValueError "IHAVE packet must contain at least one chunk hash")
  | _ =>
      let payload := concat chunk_hashes in
      header <-! build_header ho PktType.IHAVE (HEADER_LEN + len payload) 0 0 ;
      Ok (header ++ payload)
  end.

Definition build_get_packet ho (chunk_hash : bytes) : result bytes :=
  if negb (len chunk_hash =? 20) then
    Raise (ValueError "Chunk hash must be exactly 20 bytes (SHA-1)")
  else
    header <-! build_header ho PktType.GET (HEADER_LEN + len chunk_hash) 0 0 ;
    Ok (header ++ chunk_hash).

Definition build_data_packet ho (seq : Z) (data : bytes) : result bytes :=
  if len data >? MAX_PAYLOAD_SIZE then
    Raise (ValueError "Data payload too large")
  else
    header <-! build_header ho PktType.DATA (HEADER_LEN + len data) seq 0 ;
    Ok (header ++ data).

Definition build_ack_packet ho (ack : Z) : result bytes :=
  build_header ho PktType.ACK HEADER_LEN 0 ack.

Definition build_denied_packet ho : result bytes :=
  build_header ho PktType.DENIED HEADER_LEN 0 0.

(** Python slices [b[:n]] and [b[n:]] for [0 <= n]. *)
Definition slice_to (n : Z) (b : bytes) : bytes := take (Z.to_nat n) b.
Definition slice_from (n : Z) (b : bytes) : bytes := drop (Z.to_nat n) b.

Definition parse_packet ho (packet : bytes) (from : option AddressType)
  : result PacketInfo :=
  if len packet <? HEADER_LEN then
    Raise (ValueError "Packet too short")
  else
    fields <-! unpack ho HEADER_FMT (slice_to HEADER_LEN packet) ;
    match fields with
    | [ty; hl; pl; sq; ak] =>
        pl <-! ntohs ho pl ;
        sq <-! ntohl ho sq ;
        ak <-! ntohl ho ak ;
        if negb (len packet =? pl) then
          Raise (ValueError "Packet length mismatch")
        else
          let payload := if hl <? len packet then slice_from hl packet else [] in
          Ok {| pkt_type := ty; header_len := hl; pkt_len := pl;
                seq_num := sq; ack_num := ak; payload := payload;
                from_addr := from |}
    | _ => Raise StructError
    end.

(** [range(0, len(payload), 20)] visits [ceil(len/20)] offsets. *)
Fixpoint split20 (n : nat) (payload : bytes) : list bytes :=
  match n with
  | O => []
  | S n' => take 20 payload :: split20 n' (drop 20 payload)
  end.

Definition extract_chunk_hashes (payload : bytes) : result (list bytes) :=
  if negb (len payload mod 20 =? 0) then
    Raise (ValueError "Payload length must be multiple of 20 (SHA-1 hash size)")
  else
    Ok (split20 (Z.to_nat ((len payload + 19) / 20)) payload).

Definition validate_chunk_hash (hash_bytes : bytes) : bool :=
  len hash_bytes =? 20.

End Packet.

(* ===================================================================== *)
(** * src/connection.py *)
(* ===================================================================== *)

Module Conn.

Inductive ConnectionState := IDLE | HANDSHAKE | TRANSFER | COMPLETE | ERROR.

Inductive TransferDirection := UPLOAD | DOWNLOAD.

#[export] Instance ConnectionState_eq_dec : EqDecision ConnectionState.
Proof. solve_decision. Defined.

#[export] Instance TransferDirection_eq_dec : EqDecision TransferDirection.
Proof. solve_decision. Defined.

(** Python's [int(x)] on a float: truncation towards zero. *)
Definition py_int (x : Q) : Z := Z.quot (Qnum x) (Zpos (Qden x)).

(** Comparisons of floats as booleans. *)
Definition Qltb (x y : Q) : bool := negb (Qle_bool y x).

(** The attributes of a [Connection] object.  [first_packet_time] is the
    attribute [handle_data_packet] attaches on the first new DATA packet
    ([None] while [hasattr] is false); [packet_times] is the attribute
    [handle_ack_packet] looks for with [hasattr], which nothing assigns. *)
Record Connection := {
  peer_addr : AddressType;
  chunk_hash : string;
  direction : TransferDirection;
  state : ConnectionState;
  created_at : Q;
  seq_num : Z;
  ack_num : Z;
  send_buffer : list (Z * bytes);
  recv_buffer : gmap Z bytes;
  chunk_data : bytes;
  cwnd : Q;
  ssthresh : Z;
  estimated_rtt : Q;
  dev_rtt : Q;
  timeout_interval : Q;
  last_send_time : Q;
  last_ack_time : Q;
  duplicate_ack_count : Z;
  retransmission_count : Z;
  packets_sent : Z;
  packets_acked : Z;
  packets_lost : Z;
  bytes_transferred : Z;
  first_packet_time : option Q;
  packet_times : option (gmap Z Q)
}.

(** Attribute assignment [self.f = v], one setter per attribute the code
    assigns after construction. *)
Definition set_state (v : ConnectionState) (c : Connection) : Connection :=
  {| peer_addr := peer_addr c; chunk_hash := chunk_hash c;
     direction := direction c; state := v; created_at := created_at c;
     seq_num := seq_num c; ack_num := ack_num c;
     send_buffer := send_buffer c; recv_buffer := recv_buffer c;
     chunk_data := chunk_data c; cwnd := cwnd c; ssthresh := ssthresh c;
     estimated_rtt := estimated_rtt c; dev_rtt := dev_rtt c;
     timeout_interval := timeout_interval c;
     last_send_time := last_send_time c; last_ack_time := last_ack_time c;
     duplicate_ack_count := duplicate_ack_count c;
     retransmission_count := retransmission_count c;
     packets_sent := packets_sent c; packets_acked := packets_acked c;
     packets_lost := packets_lost c;
     bytes_transferred := bytes_transferred c;
     first_packet_time := first_packet_time c;
     packet_times := packet_times c |}.

Definition set_seq_num (v : Z) (c : Connection) : Connection :=
  {| peer_addr := peer_addr c; chunk_hash := chunk_hash c;
     direction := direction c; state := state c; created_at := created_at c;
     seq_num := v; ack_num := ack_num c; send_buffer := send_buffer c;
     recv_buffer := recv_buffer c; chunk_data := chunk_data c;
     cwnd := cwnd c; ssthresh := ssthresh c;
     estimated_rtt := estimated_rtt c; dev_rtt := dev_rtt c;
     timeout_interval := timeout_interval c;
     last_send_time := last_send_time c; last_ack_time := last_ack_time c;
     duplicate_ack_count := duplicate_ack_count c;
     retransmission_count := retransmission_count c;
     packets_sent := packets_sent c; packets_acked := packets_acked c;
     packets_lost := packets_lost c;
     bytes_transferred := bytes_transferred c;
     first_packet_time := first_packet_time c;
     packet_times := packet_times c |}.

Definition set_ack_num (v : Z) (c : Connection) : Connection :=
  {| peer_addr := peer_addr c; chunk_hash := chunk_hash c;
     direction := direction c; state := state c; created_at := created_at c;
     seq_num := seq_num c; ack_num := v; send_buffer := send_buffer c;
     recv_buffer := recv_buffer c; chunk_data := chunk_data c;
     cwnd := cwnd c; ssthresh := ssthresh c;
     estimated_rtt := estimated_rtt c; dev_rtt := dev_rtt c;
     timeout_interval := timeout_interval c;
     last_send_time := last_send_time c; last_ack_time := last_ack_time c;
     duplicate_ack_count := duplicate_ack_count c;
     retransmission_count := retransmission_count c;
     packets_sent := packets_sent c; packets_acked := packets_acked c;
     packets_lost := packets_lost c;
     bytes_transferred := bytes_transferred c;
     first_packet_time := first_packet_time c;
     packet_times := packet_times c |}.

Definition set_send_buffer (v : list (Z * bytes)) (c : Connection) : Connection :=
  {| peer_addr := peer_addr c; chunk_hash := chunk_hash c;
     direction := direction c; state := state c; created_at := created_at c;
     seq_num := seq_num c; ack_num := ack_num c; send_buffer := v;
     recv_buffer := recv_buffer c; chunk_data := chunk_data c;
     cwnd := cwnd c; ssthresh := ssthresh c;
     estimated_rtt := estimated_rtt c; dev_rtt := dev_rtt c;
     timeout_interval := timeout_interval c;
     last_send_time := last_send_time c; last_ack_time := last_ack_time c;
     duplicate_ack_count := duplicate_ack_count c;
     retransmission_count := retransmission_count c;
     packets_sent := packets_sent c; packets_acked := packets_acked c;
     packets_lost := packets_lost c;
     bytes_transferred := bytes_transferred c;
     first_packet_time := first_packet_time c;
     packet_times := packet_times c |}.

Definition set_recv_buffer (v : gmap Z bytes) (c : Connection) : Connection :=
  {| peer_addr := peer_addr c; chunk_hash := chunk_hash c;
     direction := direction c; state := state c; created_at := created_at c;
     seq_num := seq_num c; ack_num := ack_num c;
     send_buffer := send_buffer c; recv_buffer := v;
     chunk_data := chunk_data c; cwnd := cwnd c; ssthresh := ssthresh c;
     estimated_rtt := estimated_rtt c; dev_rtt := dev_rtt c;
     timeout_interval := timeout_interval c;
     last_send_time := last_send_time c; last_ack_time := last_ack_time c;
     duplicate_ack_count := duplicate_ack_count c;
     retransmission_count := retransmission_count c;
     packets_sent := packets_sent c; packets_acked := packets_acked c;
     packets_lost := packets_lost c;
     bytes_transferred := bytes_transferred c;
     first_packet_time := first_packet_time c;
     packet_times := packet_times c |}.

Definition set_chunk_data (v : bytes) (c : Connection) : Connection :=
  {| peer_addr := peer_addr c; chunk_hash := chunk_hash c;
     direction := direction c; state := state c; created_at := created_at c;
     seq_num := seq_num c; ack_num := ack_num c;
     send_buffer := send_buffer c; recv_buffer := recv_buffer c;
     chunk_data := v; cwnd := cwnd c; ssthresh := ssthresh c;
     estimated_rtt := estimated_rtt c; dev_rtt := dev_rtt c;
     timeout_interval := timeout_interval c;
     last_send_time := last_send_time c; last_ack_time := last_ack_time c;
     duplicate_ack_count := duplicate_ack_count c;
     retransmission_count := retransmission_count c;
     packets_sent := packets_sent c; packets_acked := packets_acked c;
     packets_lost := packets_lost c;
     bytes_transferred := bytes_transferred c;
     first_packet_time := first_packet_time c;
     packet_times := packet_times c |}.

Definition set_cwnd (v : Q) (c : Connection) : Connection :=
  {| peer_addr := peer_addr c; chunk_hash := chunk_hash c;
     direction := direction c; state := state c; created_at := created_at c;
     seq_num := seq_num c; ack_num := ack_num c;
     send_buffer := send_buffer c; recv_buffer := recv_buffer c;
     chunk_data := chunk_data c; cwnd := v; ssthresh := ssthresh c;
     estimated_rtt := estimated_rtt c; dev_rtt := dev_rtt c;
     timeout_interval := timeout_interval c;
     last_send_time := last_send_time c; last_ack_time := last_ack_time c;
     duplicate_ack_count := duplicate_ack_count c;
     retransmission_count := retransmission_count c;
     packets_sent := packets_sent c; packets_acked := packets_acked c;
     packets_lost := packets_lost c;
     bytes_transferred := bytes_transferred c;
     first_packet_time := first_packet_time c;
     packet_times := packet_times c |}.

Definition set_ssthresh (v : Z) (c : Connection) : Connection :=
  {| peer_addr := peer_addr c; chunk_hash := chunk_hash c;
     direction := direction c; state := state c; created_at := created_at c;
     seq_num := seq_num c; ack_num := ack_num c;
     send_buffer := send_buffer c; recv_buffer := recv_buffer c;
     chunk_data := chunk_data c; cwnd := cwnd c; ssthresh := v;
     estimated_rtt := estimated_rtt c; dev_rtt := dev_rtt c;
     timeout_interval := timeout_interval c;
     last_send_time := last_send_time c; last_ack_time := last_ack_time c;
     duplicate_ack_count := duplicate_ack_count c;
     retransmission_count := retransmission_count c;
     packets_sent := packets_sent c; packets_acked := packets_acked c;
     packets_lost := packets_lost c;
     bytes_transferred := bytes_transferred c;
     first_packet_time := first_packet_time c;
     packet_times := packet_times c |}.

Definition set_estimated_rtt (v : Q) (c : Connection) : Connection :=
  {| peer_addr := peer_addr c; chunk_hash := chunk_hash c;
     direction := direction c; state := state c; created_at := created_at c;
     seq_num := seq_num c; ack_num := ack_num c;
     send_buffer := send_buffer c; recv_buffer := recv_buffer c;
     chunk_data := chunk_data c; cwnd := cwnd c; ssthresh := ssthresh c;
     estimated_rtt := v; dev_rtt := dev_rtt c;
     timeout_interval := timeout_interval c;
     last_send_time := last_send_time c; last_ack_time := last_ack_time c;
     duplicate_ack_count := duplicate_ack_count c;
     retransmission_count := retransmission_count c;
     packets_sent := packets_sent c; packets_acked := packets_acked c;
     packets_lost := packets_lost c;
     bytes_transferred := bytes_transferred c;
     first_packet_time := first_packet_time c;
     packet_times := packet_times c |}.

Definition set_dev_rtt (v : Q) (c : Connection) : Connection :=
  {| peer_addr := peer_addr c; chunk_hash := chunk_hash c;
     direction := direction c; state := state c; created_at := created_at c;
     seq_num := seq_num c; ack_num := ack_num c;
     send_buffer := send_buffer c; recv_buffer := recv_buffer c;
     chunk_data := chunk_data c; cwnd := cwnd c; ssthresh := ssthresh c;
     estimated_rtt := estimated_rtt c; dev_rtt := v;
     timeout_interval := timeout_interval c;
     last_send_time := last_send_time c; last_ack_time := last_ack_time c;
     duplicate_ack_count := duplicate_ack_count c;
     retransmission_count := retransmission_count c;
     packets_sent := packets_sent c; packets_acked := packets_acked c;
     packets_lost := packets_lost c;
     bytes_transferred := bytes_transferred c;
     first_packet_time := first_packet_time c;
     packet_times := packet_times c |}.

Definition set_timeout_interval (v : Q) (c : Connection) : Connection :=
  {| peer_addr := peer_addr c; chunk_hash := chunk_hash c;
     direction := direction c; state := state c; created_at := created_at c;
     seq_num := seq_num c; ack_num := ack_num c;
     send_buffer := send_buffer c; recv_buffer := recv_buffer c;
     chunk_data := chunk_data c; cwnd := cwnd c; ssthresh := ssthresh c;
     estimated_rtt := estimated_rtt c; dev_rtt := dev_rtt c;
     timeout_interval := v; last_send_time := last_send_time c;
     last_ack_time := last_ack_time c;
     duplicate_ack_count := duplicate_ack_count c;
     retransmission_count := retransmission_count c;
     packets_sent := packets_sent c; packets_acked := packets_acked c;
     packets_lost := packets_lost c;
     bytes_transferred := bytes_transferred c;
     first_packet_time := first_packet_time c;
     packet_times := packet_times c |}.

Definition set_last_send_time (v : Q) (c : Connection) : Connection :=
  {| peer_addr := peer_addr c; chunk_hash := chunk_hash c;
     direction := direction c; state := state c; created_at := created_at c;
     seq_num := seq_num c; ack_num := ack_num c;
     send_buffer := send_buffer c; recv_buffer := recv_buffer c;
     chunk_data := chunk_data c; cwnd := cwnd c; ssthresh := ssthresh c;
     estimated_rtt := estimated_rtt c; dev_rtt := dev_rtt c;
     timeout_interval := timeout_interval c; last_send_time := v;
     last_ack_time := last_ack_time c;
     duplicate_ack_count := duplicate_ack_count c;
     retransmission_count := retransmission_count c;
     packets_sent := packets_sent c; packets_acked := packets_acked c;
     packets_lost := packets_lost c;
     bytes_transferred := bytes_transferred c;
     first_packet_time := first_packet_time c;
     packet_times := packet_times c |}.

Definition set_last_ack_time (v : Q) (c : Connection) : Connection :=
  {| peer_addr := peer_addr c; chunk_hash := chunk_hash c;
     direction := direction c; state := state c; created_at := created_at c;
     seq_num := seq_num c; ack_num := ack_num c;
     send_buffer := send_buffer c; recv_buffer := recv_buffer c;
     chunk_data := chunk_data c; cwnd := cwnd c; ssthresh := ssthresh c;
     estimated_rtt := estimated_rtt c; dev_rtt := dev_rtt c;
     timeout_interval := timeout_interval c;
     last_send_time := last_send_time c; last_ack_time := v;
     duplicate_ack_count := duplicate_ack_count c;
     retransmission_count := retransmission_count c;
     packets_sent := packets_sent c; packets_acked := packets_acked c;
     packets_lost := packets_lost c;
     bytes_transferred := bytes_transferred c;
     first_packet_time := first_packet_time c;
     packet_times := packet_times c |}.

Definition set_duplicate_ack_count (v : Z) (c : Connection) : Connection :=
  {| peer_addr := peer_addr c; chunk_hash := chunk_hash c;
     direction := direction c; state := state c; created_at := created_at c;
     seq_num := seq_num c; ack_num := ack_num c;
     send_buffer := send_buffer c; recv_buffer := recv_buffer c;
     chunk_data := chunk_data c; cwnd := cwnd c; ssthresh := ssthresh c;
     estimated_rtt := estimated_rtt c; dev_rtt := dev_rtt c;
     timeout_interval := timeout_interval c;
     last_send_time := last_send_time c; last_ack_time := last_ack_time c;
     duplicate_ack_count := v;
     retransmission_count := retransmission_count c;
     packets_sent := packets_sent c; packets_acked := packets_acked c;
     packets_lost := packets_lost c;
     bytes_transferred := bytes_transferred c;
     first_packet_time := first_packet_time c;
     packet_times := packet_times c |}.

Definition set_retransmission_count (v : Z) (c : Connection) : Connection :=
  {| peer_addr := peer_addr c; chunk_hash := chunk_hash c;
     direction := direction c; state := state c; created_at := created_at c;
     seq_num := seq_num c; ack_num := ack_num c;
     send_buffer := send_buffer c; recv_buffer := recv_buffer c;
     chunk_data := chunk_data c; cwnd := cwnd c; ssthresh := ssthresh c;
     estimated_rtt := estimated_rtt c; dev_rtt := dev_rtt c;
     timeout_interval := timeout_interval c;
     last_send_time := last_send_time c; last_ack_time := last_ack_time c;
     duplicate_ack_count := duplicate_ack_count c;
     retransmission_count := v; packets_sent := packets_sent c;
     packets_acked := packets_acked c; packets_lost := packets_lost c;
     bytes_transferred := bytes_transferred c;
     first_packet_time := first_packet_time c;
     packet_times := packet_times c |}.

Definition set_packets_sent (v : Z) (c : Connection) : Connection :=
  {| peer_addr := peer_addr c; chunk_hash := chunk_hash c;
     direction := direction c; state := state c; created_at := created_at c;
     seq_num := seq_num c; ack_num := ack_num c;
     send_buffer := send_buffer c; recv_buffer := recv_buffer c;
     chunk_data := chunk_data c; cwnd := cwnd c; ssthresh := ssthresh c;
     estimated_rtt := estimated_rtt c; dev_rtt := dev_rtt c;
     timeout_interval := timeout_interval c;
     last_send_time := last_send_time c; last_ack_time := last_ack_time c;
     duplicate_ack_count := duplicate_ack_count c;
     retransmission_count := retransmission_count c; packets_sent := v;
     packets_acked := packets_acked c; packets_lost := packets_lost c;
     bytes_transferred := bytes_transferred c;
     first_packet_time := first_packet_time c;
     packet_times := packet_times c |}.

Definition set_packets_acked (v : Z) (c : Connection) : Connection :=
  {| peer_addr := peer_addr c; chunk_hash := chunk_hash c;
     direction := direction c; state := state c; created_at := created_at c;
     seq_num := seq_num c; ack_num := ack_num c;
     send_buffer := send_buffer c; recv_buffer := recv_buffer c;
     chunk_data := chunk_data c; cwnd := cwnd c; ssthresh := ssthresh c;
     estimated_rtt := estimated_rtt c; dev_rtt := dev_rtt c;
     timeout_interval := timeout_interval c;
     last_send_time := last_send_time c; last_ack_time := last_ack_time c;
     duplicate_ack_count := duplicate_ack_count c;
     retransmission_count := retransmission_count c;
     packets_sent := packets_sent c; packets_acked := v;
     packets_lost := packets_lost c;
     bytes_transferred := bytes_transferred c;
     first_packet_time := first_packet_time c;
     packet_times := packet_times c |}.

Definition set_packets_lost (v : Z) (c : Connection) : Connection :=
  {| peer_addr := peer_addr c; chunk_hash := chunk_hash c;
     direction := direction c; state := state c; created_at := created_at c;
     seq_num := seq_num c; ack_num := ack_num c;
     send_buffer := send_buffer c; recv_buffer := recv_buffer c;
     chunk_data := chunk_data c; cwnd := cwnd c; ssthresh := ssthresh c;
     estimated_rtt := estimated_rtt c; dev_rtt := dev_rtt c;
     timeout_interval := timeout_interval c;
     last_send_time := last_send_time c; last_ack_time := last_ack_time c;
     duplicate_ack_count := duplicate_ack_count c;
     retransmission_count := retransmission_count c;
     packets_sent := packets_sent c; packets_acked := packets_acked c;
     packets_lost := v; bytes_transferred := bytes_transferred c;
     first_packet_time := first_packet_time c;
     packet_times := packet_times c |}.

Definition set_bytes_transferred (v : Z) (c : Connection) : Connection :=
  {| peer_addr := peer_addr c; chunk_hash := chunk_hash c;
     direction := direction c; state := state c; created_at := created_at c;
     seq_num := seq_num c; ack_num := ack_num c;
     send_buffer := send_buffer c; recv_buffer := recv_buffer c;
     chunk_data := chunk_data c; cwnd := cwnd c; ssthresh := ssthresh c;
     estimated_rtt := estimated_rtt c; dev_rtt := dev_rtt c;
     timeout_interval := timeout_interval c;
     last_send_time := last_send_time c; last_ack_time := last_ack_time c;
     duplicate_ack_count := duplicate_ack_count c;
     retransmission_count := retransmission_count c;
     packets_sent := packets_sent c; packets_acked := packets_acked c;
     packets_lost := packets_lost c; bytes_transferred := v;
     first_packet_time := first_packet_time c;
     packet_times := packet_times c |}.

Definition set_first_packet_time (v : option Q) (c : Connection) : Connection :=
  {| peer_addr := peer_addr c; chunk_hash := chunk_hash c;
     direction := direction c; state := state c; created_at := created_at c;
     seq_num := seq_num c; ack_num := ack_num c;
     send_buffer := send_buffer c; recv_buffer := recv_buffer c;
     chunk_data := chunk_data c; cwnd := cwnd c; ssthresh := ssthresh c;
     estimated_rtt := estimated_rtt c; dev_rtt := dev_rtt c;
     timeout_interval := timeout_interval c;
     last_send_time := last_send_time c; last_ack_time := last_ack_time c;
     duplicate_ack_count := duplicate_ack_count c;
     retransmission_count := retransmission_count c;
     packets_sent := packets_sent c; packets_acked := packets_acked c;
     packets_lost := packets_lost c;
     bytes_transferred := bytes_transferred c; first_packet_time := v;
     packet_times := packet_times c |}.

Definition set_packet_times (v : option (gmap Z Q)) (c : Connection) : Connection :=
  {| peer_addr := peer_addr c; chunk_hash := chunk_hash c;
     direction := direction c; state := state c; created_at := created_at c;
     seq_num := seq_num c; ack_num := ack_num c;
     send_buffer := send_buffer c; recv_buffer := recv_buffer c;
     chunk_data := chunk_data c; cwnd := cwnd c; ssthresh := ssthresh c;
     estimated_rtt := estimated_rtt c; dev_rtt := dev_rtt c;
     timeout_interval := timeout_interval c;
     last_send_time := last_send_time c; last_ack_time := last_ack_time c;
     duplicate_ack_count := duplicate_ack_count c;
     retransmission_count := retransmission_count c;
     packets_sent := packets_sent c; packets_acked := packets_acked c;
     packets_lost := packets_lost c;
     bytes_transferred := bytes_transferred c;
     first_packet_time := first_packet_time c; packet_times := v |}.

(** [Connection.__init__]; [now] is the [time.time()] read for [created_at]. *)
Definition new_connection (now : Q) (peer : AddressType) (h : string)
           (dir : TransferDirection) : Connection :=
  {| peer_addr := peer; chunk_hash := h; direction := dir; state := IDLE;
     created_at := now;
     seq_num := 0; ack_num := 0;
     send_buffer := []; recv_buffer := ∅; chunk_data := [];
     cwnd := 1; ssthresh := 64;
     estimated_rtt := 1; dev_rtt := 1 # 2;
     timeout_interval := 1 + 4 * (1 # 2);
     last_send_time := 0; last_ack_time := 0;
     duplicate_ack_count := 0; retransmission_count := 0;
     packets_sent := 0; packets_acked := 0; packets_lost := 0;
     bytes_transferred := 0;
     first_packet_time := None; packet_times := None |}.

(** [update_state]; the line it prints for every state change is not
    modelled. *)
Definition update_state (new_state : ConnectionState) (c : Connection) : Connection :=
  set_state new_state c.

Definition is_active (c : Connection) : bool :=
  bool_decide (state c = HANDSHAKE) || bool_decide (state c = TRANSFER).

Definition is_upload (c : Connection) : bool := bool_decide (direction c = UPLOAD).

Definition is_download (c : Connection) : bool := bool_decide (direction c = DOWNLOAD).

Definition get_age (now : Q) (c : Connection) : Q := now - created_at c.

Definition should_retransmit (now : Q) (c : Connection) : bool :=
  Qltb (timeout_interval c) (now - last_send_time c).

(** [update_timeout_on_ack] in exact arithmetic.  The code computes in
    double precision, where [0.15], [0.3] and every product and sum are
    rounded, so the three fields are those of the code only up to rounding:
    what is stated about them below is limited to signs and orderings,
    which rounding to nearest preserves. *)
Definition update_timeout_on_ack (sample_rtt : Q) (c : Connection) : Connection :=
  let alpha := 15 # 100 in
  let beta := 3 # 10 in
  let c := set_estimated_rtt ((1 - alpha) * estimated_rtt c + alpha * sample_rtt) c in
  let c := set_dev_rtt ((1 - beta) * dev_rtt c
                        + beta * Qabs (sample_rtt - estimated_rtt c)) c in
  set_timeout_interval (estimated_rtt c + 4 * dev_rtt c) c.

(** [1.0 / self.cwnd] is [/ cwnd]; the two agree wherever [cwnd] is not zero,
    and [cwnd] is never below 1 (lemma [cc_run_ge] below).  The sum is
    exact here; the code rounds the quotient and the sum to double
    precision ([Doubles.update_cwnd_on_ack] below), so a window that is not
    a whole number is that of the code only up to rounding. *)
Definition update_cwnd_on_ack (c : Connection) : Connection :=
  if Qltb (cwnd c) (inject_Z (ssthresh c)) then
    set_cwnd (cwnd c + 1) c
  else
    set_cwnd (cwnd c + 1 / cwnd c) c.

Definition update_cwnd_on_loss (c : Connection) : Connection :=
  let c := set_ssthresh (Z.max (py_int (cwnd c / 2)) 2) c in
  set_cwnd 1 c.

Definition get_send_window (c : Connection) : Z := Z.max 1 (py_int (cwnd c)).

Definition can_send_more (c : Connection) : bool :=
  if is_upload c then
    let packets_in_flight := seq_num c - ack_num c in
    packets_in_flight <? get_send_window c
  else false.

Definition add_to_send_buffer (seq : Z) (data : bytes) (c : Connection) : Connection :=
  set_send_buffer (send_buffer c ++ [(seq, data)]) c.

Definition get_next_unacked_seq (c : Connection) : option Z :=
  fst <$> List.find (fun '(s, _) => s >? ack_num c) (send_buffer c).

Definition get_packets_to_retransmit (c : Connection) : list Z :=
  if ack_num c <? seq_num c then [ack_num c + 1] else [].

(** [handle_ack]: returns whether the ACK is new, and the mutated object. *)
Definition handle_ack (now : Q) (ack : Z) (c : Connection) : bool * Connection :=
  if ack >? ack_num c then
    let c := set_ack_num ack c in
    let c := set_duplicate_ack_count 0 c in
    let c := set_last_ack_time now c in
    let c := set_send_buffer (filter (fun '(s, _) => s > ack) (send_buffer c)) c in
    let c := update_cwnd_on_ack c in
    let c := set_packets_acked (packets_acked c + 1) c in
    (true, c)
  else
    (false, set_duplicate_ack_count (duplicate_ack_count c + 1) c).

Definition should_fast_retransmit (c : Connection) : bool :=
  duplicate_ack_count c >=? 3.

(** The loop [while self.ack_num + 1 in self.recv_buffer] of
    [add_received_data], on the two attributes it assigns.  Every iteration
    consumes a key of the buffer above the previous ones, so the number of
    keys bounds the number of iterations: [drain_exits] below shows that the
    loop started with that many steps always stops because its condition
    is false. *)
Fixpoint drain (steps : nat) (rb : gmap Z bytes) (ack : Z) (cd : bytes) : Z * bytes :=
  match steps with
  | O => (ack, cd)
  | S steps' =>
      match rb !! (ack + 1) with
      | Some d => drain steps' rb (ack + 1) (cd ++ d)
      | None => (ack, cd)
      end
  end.

Definition add_received_data (seq : Z) (data : bytes) (c : Connection)
  : bool * Connection :=
  if negb (is_download c) then (false, c)
  else
    match recv_buffer c !! seq with
    | None =>
        let c := set_recv_buffer (<[seq := data]> (recv_buffer c)) c in
        let c := set_bytes_transferred (bytes_transferred c + len data) c in
        let '(ack, cd) :=
          drain (size (recv_buffer c)) (recv_buffer c) (ack_num c) (chunk_data c) in
        let c := set_chunk_data cd c in
        let c := set_ack_num ack c in
        (true, c)
    | Some _ => (false, c)
    end.

Definition is_chunk_complete (expected_size : Z) (c : Connection) : bool :=
  if negb (is_download c) then false
  else len (chunk_data c) >=? expected_size.

Definition get_chunk_data (c : Connection) : bytes := chunk_data c.

End Conn.

(* ===================================================================== *)
(** * src/connection.py, continued: the congestion window in doubles *)
(* ===================================================================== *)

(** [cwnd] is a Python float.  [Conn] idealises it as an exact rational;
    this module computes the two updates of the window in IEEE double
    precision, as CPython does, to tell what holds of the code exactly and
    what only up to rounding. *)
Module Doubles.

(** The real number a finite double stands for. *)
Definition exact (x : float) : option Q :=
  match Prim2SF x with
  | S754_zero _ => Some 0%Q
  | S754_finite s m e =>
      Some ((if s then -1 else 1) * inject_Z (Z.pos m) * Qpower 2 e)%Q
  | _ => None
  end.

(** [int(x)] on a finite double: truncation towards zero. *)
Definition py_int (x : float) : Z :=
  match Prim2SF x with
  | S754_finite s m e =>
      let n := if 0 <=? e then Z.pos m * 2 ^ e else Z.pos m / 2 ^ (- e) in
      if s then - n else n
  | _ => 0
  end.

(** The window: [cwnd] with [ssthresh], a Python int of at least 2 and far
    below [2 ^ 53], where comparing a float with it is comparing with its
    conversion. *)
Definition update_cwnd_on_ack (w : float * Z) : float * Z :=
  let '(cwnd, ssthresh) := w in
  if (cwnd <? of_uint63 (Uint63.of_Z ssthresh))%float
  then ((cwnd + 1)%float, ssthresh)
  else ((cwnd + 1 / cwnd)%float, ssthresh).

Definition update_cwnd_on_loss (w : float * Z) : float * Z :=
  let '(cwnd, _) := w in
  (1%float, Z.max (py_int (cwnd / 2)%float) 2).

(** New acknowledgements and losses, from the window of a new connection. *)
Inductive window_event := NewAck | Lost.

Definition window_step (w : float * Z) (e : window_event) : float * Z :=
  match e with
  | NewAck => update_cwnd_on_ack w
  | Lost => update_cwnd_on_loss w
  end.

Definition window_run (es : list window_event) : float * Z :=
  fold_left window_step es (1%float, 64).

End Doubles.

(* ===================================================================== *)
(** * The collaborators under utils/ *)
(* ===================================================================== *)

(** Modelled from the spec: utils/peer_context.py is not among the sources.
    The record keeps the attributes the embedded handlers read: the local
    chunk store, "a read-only mapping hex_hash -> chunk_bytes", the upload
    slot bound [max_conn], the verbosity and the fixed timeout
    ("0 => RTT estimator"). *)
Record PeerContext := {
  has_chunks : gmap string bytes;
  max_conn : Z;
  verbose : Z;
  timeout : Z
}.

(** Modelled from the spec: utils/simsocket.py is not among the sources.
    The transport is "a best-effort send datagram to address primitive";
    sends are "fire-and-forget".  A socket is the sequence of [sendto] calls
    made on it, oldest first. *)
Abbreviation SimSocket := (list (list byte * (string * Z))).

(** Modelled from the spec: the two other attributes of
    utils/peer_context.py that the handshake reads, the peer's own index
    ("this peer's index in the roster") and the roster, "a static list of
    (peer_id, ip, port) triples".  The code converts the identifier and the
    port of an entry with [int(...)]; the entries here hold the converted
    integers. *)
Record Roster := {
  identity : Z;
  peers : list (Z * string * Z)
}.

(* ===================================================================== *)
(** * src/reliable_transfer.py *)
(* ===================================================================== *)

Module Transfer.
Import Conn.

(** ** Procedures that mutate one connection and send on the socket

    A procedure runs on the connection object and the socket; an exception
    leaves both as mutated so far. *)
Definition CM (A : Type) : Type :=
  Connection * SimSocket -> result A * (Connection * SimSocket).

Definition ret {A} (a : A) : CM A := fun s => (Ok a, s).

Definition cbind {A B} (m : CM A) (k : A -> CM B) : CM B :=
  fun s =>
    match m s with
    | (Ok a, s') => k a s'
    | (Raise e, s') => (Raise e, s')
    end.

Definition get : CM Connection := fun s => (Ok (fst s), s).

Definition put (c : Connection) : CM unit := fun s => (Ok tt, (c, snd s)).

Definition modify (f : Connection -> Connection) : CM unit :=
  fun s => (Ok tt, (f (fst s), snd s)).

Definition lift {A} (r : result A) : CM A := fun s => (r, s).

(** [self.sock.sendto(pkt, addr)]. *)
Definition sendto (pkt : bytes) (addr : AddressType) : CM unit :=
  fun s => (Ok tt, (fst s, snd s ++ [(pkt, addr)])).

Notation "x <- m ;; k" := (cbind m (fun x => k))
  (at level 100, m at next level, right associativity).
Notation "m ;; k" := (cbind m (fun _ => k))
  (at level 100, right associativity).

Record ReliableTransfer := {
  context : PeerContext;
  sock : SimSocket;
  download_connections : pydict string Connection;
  upload_connections : pydict (AddressType * string) Connection;
  custom_timeout : option Z
}.

Definition set_sock (v : SimSocket) (rt : ReliableTransfer) : ReliableTransfer :=
  {| context := context rt; sock := v;
     download_connections := download_connections rt;
     upload_connections := upload_connections rt;
     custom_timeout := custom_timeout rt |}.

Definition set_download_connections (v : pydict string Connection)
           (rt : ReliableTransfer) : ReliableTransfer :=
  {| context := context rt; sock := sock rt;
     download_connections := v;
     upload_connections := upload_connections rt;
     custom_timeout := custom_timeout rt |}.

Definition set_upload_connections (v : pydict (AddressType * string) Connection)
           (rt : ReliableTransfer) : ReliableTransfer :=
  {| context := context rt; sock := sock rt;
     download_connections := download_connections rt;
     upload_connections := v;
     custom_timeout := custom_timeout rt |}.

(** [ReliableTransfer.__init__]. *)
Definition new_reliable_transfer (ctx : PeerContext) (s : SimSocket)
  : ReliableTransfer :=
  {| context := ctx; sock := s;
     download_connections := []; upload_connections := [];
     custom_timeout := if timeout ctx >? 0 then Some (timeout ctx) else None |}.

(** [if self.custom_timeout: connection.timeout_interval = self.custom_timeout];
    [None] and [0] are falsy. *)
Definition apply_custom_timeout (rt : ReliableTransfer) (c : Connection)
  : Connection :=
  match custom_timeout rt with
  | Some t => if t =? 0 then c else set_timeout_interval (inject_Z t) c
  | None => c
  end.

Definition create_download_connection (now : Q) (chunk_hash : string)
           (peer_addr : AddressType) (rt : ReliableTransfer)
  : Connection * ReliableTransfer :=
  let connection := new_connection now peer_addr chunk_hash DOWNLOAD in
  let connection := apply_custom_timeout rt connection in
  let connection := update_state TRANSFER connection in
  (connection,
   set_download_connections
     (dict_set chunk_hash connection (download_connections rt)) rt).

(** Python slice [b[start:stop]] for [0 <= start]. *)
Definition slice (start stop : Z) (b : bytes) : bytes :=
  take (Z.to_nat (stop - start)) (drop (Z.to_nat start) b).

(** The loop [for seq_num in range(0, n)] that fills the send buffer. *)
Fixpoint split_chunk (n : nat) (seq : Z) (chunk : bytes) (c : Connection)
  : Connection :=
  match n with
  | O => c
  | S n' =>
      let start := seq * Packet.MAX_PAYLOAD_SIZE in
      let stop := Z.min (start + Packet.MAX_PAYLOAD_SIZE) (len chunk) in
      let packet_data := slice start stop chunk in
      split_chunk n' (seq + 1) chunk (add_to_send_buffer (seq + 1) packet_data c)
  end.

(** [math.ceil(len(chunk_data) / MAX_PAYLOAD_SIZE)]. *)
Definition packet_count (chunk : bytes) : Z :=
  Qceiling (inject_Z (len chunk) / inject_Z Packet.MAX_PAYLOAD_SIZE).

Definition create_upload_connection (now : Q) (peer_addr : AddressType)
           (chunk_hash : string) (rt : ReliableTransfer)
  : Connection * ReliableTransfer :=
  let connection_key := (peer_addr, chunk_hash) in
  let connection := new_connection now peer_addr chunk_hash UPLOAD in
  let connection := apply_custom_timeout rt connection in
  match has_chunks (context rt) !! chunk_hash with
  | None | Some [] => (update_state ERROR connection, rt)
  | Some chunk =>
      let connection :=
        split_chunk (Z.to_nat (packet_count chunk)) 0 chunk connection in
      let connection := update_state TRANSFER connection in
      (connection,
       set_upload_connections
         (dict_set connection_key connection (upload_connections rt)) rt)
  end.

Section WithHost.
Variable ho : Packet.byteorder.

(** The search [for seq_num, packet_data in send_buffer: if seq_num == next_seq]. *)
Definition find_seq (s : Z) (buf : list (Z * bytes)) : option (Z * bytes) :=
  List.find (fun p => fst p =? s) buf.

(** The [while] loop of [send_data_packets].  [max_seq] is read once before
    the loop and [next_seq] grows by one per iteration, so the loop body runs
    at most [max_seq - next_seq + 1] times; [n] counts what is left of that
    bound and the loop conditions are tested as the code tests them. *)
Fixpoint send_loop (now : Q) (n : nat) (max_seq next_seq : Z) : CM unit :=
  match n with
  | O => ret tt
  | S n' =>
      c <- get ;;
      if (next_seq <=? max_seq) && (next_seq <=? ack_num c + get_send_window c)
      then
        match find_seq next_seq (send_buffer c) with
        | None => ret tt
        | Some (_, data) =>
            data_pkt <- lift (Packet.build_data_packet ho next_seq data) ;;
            sendto data_pkt (peer_addr c) ;;
            modify (set_last_send_time now) ;;
            modify (fun c => set_packets_sent (packets_sent c + 1) c) ;;
            modify (set_seq_num next_seq) ;;
            send_loop now n' max_seq (next_seq + 1)
        end
      else ret tt
  end.

Definition send_data_packets (now : Q) : CM unit :=
  c <- get ;;
  if negb (can_send_more c) then ret tt
  else
    let next_seq := Z.max (seq_num c) (ack_num c + 1) in
    let max_seq := len (send_buffer c) in
    send_loop now (Z.to_nat (max_seq - next_seq + 1)) max_seq next_seq.

Definition trigger_fast_retransmit (now : Q) : CM unit :=
  modify update_cwnd_on_loss ;;
  modify (fun c => set_retransmission_count (retransmission_count c + 1) c) ;;
  c <- get ;;
  let lost_seq := ack_num c + 1 in
  match find_seq lost_seq (send_buffer c) with
  | Some (seq, data) =>
      data_pkt <- lift (Packet.build_data_packet ho seq data) ;;
      sendto data_pkt (peer_addr c) ;;
      modify (set_last_send_time now)
  | None => ret tt
  end ;;
  modify (set_duplicate_ack_count 0).

Definition handle_download_timeout : CM unit :=
  modify update_cwnd_on_loss ;;
  modify (fun c => set_packets_lost (packets_lost c + 1) c) ;;
  c <- get ;;
  ack_pkt <- lift (Packet.build_ack_packet ho (ack_num c)) ;;
  sendto ack_pkt (peer_addr c).

Definition handle_upload_timeout (now : Q) : CM unit :=
  modify update_cwnd_on_loss ;;
  modify (fun c => set_packets_lost (packets_lost c + 1) c) ;;
  c <- get ;;
  if ack_num c <? len (send_buffer c) then
    let resend_seq := ack_num c + 1 in
    match List.find (fun p => fst p >=? resend_seq) (send_buffer c) with
    | Some (seq, data) =>
        data_pkt <- lift (Packet.build_data_packet ho seq data) ;;
        sendto data_pkt (peer_addr c) ;;
        modify (set_last_send_time now)
    | None => ret tt
    end
  else ret tt.

(** The part of [handle_data_packet] that runs on the connection found. *)
Definition on_data (now : Q) (seq : Z) (data : bytes) (from : AddressType)
  : CM (option string) :=
  c <- get ;;
  let '(is_new, c') := add_received_data seq data c in
  put c' ;;
  if is_new then
    match first_packet_time c' with
    | Some t0 => modify (update_timeout_on_ack (now - t0))
    | None => modify (set_first_packet_time (Some now))
    end ;;
    c <- get ;;
    ack_pkt <- lift (Packet.build_ack_packet ho (ack_num c)) ;;
    sendto ack_pkt from ;;
    if is_chunk_complete Packet.CHUNK_SIZE c then
      modify (update_state COMPLETE) ;;
      ret (Some (chunk_hash c))
    else ret None
  else
    ack_pkt <- lift (Packet.build_ack_packet ho (ack_num c')) ;;
    sendto ack_pkt from ;;
    ret None.

(** The part of [handle_ack_packet] that runs on the connection found. *)
Definition on_ack (now : Q) (ack : Z) : CM (option string) :=
  c <- get ;;
  let '(is_new_ack, c') := handle_ack now ack c in
  put c' ;;
  if is_new_ack then
    match packet_times c' with
    | Some times =>
        match times !! ack with
        | Some t =>
            modify (update_timeout_on_ack (now - t)) ;;
            modify (set_packet_times (Some (delete ack times)))
        | None => ret tt
        end
    | None => ret tt
    end ;;
    send_data_packets now ;;
    c <- get ;;
    if ack_num c >=? len (send_buffer c) then
      modify (update_state COMPLETE) ;;
      ret (Some (chunk_hash c))
    else ret None
  else
    modify (fun c => set_duplicate_ack_count (duplicate_ack_count c + 1) c) ;;
    c <- get ;;
    (if should_fast_retransmit c then trigger_fast_retransmit now else ret tt) ;;
    ret None.

(** Run a procedure on the connection stored under [key]: the object is
    mutated in place, so the dictionary keeps its order. *)
Definition on_download {A} (key : string) (c : Connection) (m : CM A)
           (rt : ReliableTransfer) : result A * ReliableTransfer :=
  let '(r, (c', s')) := m (c, sock rt) in
  (r, set_sock s'
        (set_download_connections
           (dict_set key c' (download_connections rt)) rt)).

Definition on_upload {A} (key : AddressType * string) (c : Connection)
           (m : CM A) (rt : ReliableTransfer) : result A * ReliableTransfer :=
  let '(r, (c', s')) := m (c, sock rt) in
  (r, set_sock s'
        (set_upload_connections
           (dict_set key c' (upload_connections rt)) rt)).

Definition start_data_upload (now : Q) (peer_addr : AddressType)
           (chunk_hash : string) (rt : ReliableTransfer)
  : result bool * ReliableTransfer :=
  let connection_key := (peer_addr, chunk_hash) in
  match dict_get connection_key (upload_connections rt) with
  | None => (Ok false, rt)
  | Some connection =>
      if negb (bool_decide (state connection = TRANSFER)) then (Ok false, rt)
      else
        on_upload connection_key connection
                  (send_data_packets now ;; ret true) rt
  end.

Definition handle_data_packet (now : Q) (pkt_info : Packet.PacketInfo)
           (from_addr : AddressType) (rt : ReliableTransfer)
  : result (option string) * ReliableTransfer :=
  match List.find (fun kc => addr_eqb (peer_addr (snd kc)) from_addr
                             && bool_decide (state (snd kc) = TRANSFER))
                  (download_connections rt) with
  | None => (Ok None, rt)
  | Some (key, connection) =>
      on_download key connection
        (on_data now (Packet.seq_num pkt_info) (Packet.payload pkt_info) from_addr)
        rt
  end.

Definition handle_ack_packet (now : Q) (pkt_info : Packet.PacketInfo)
           (from_addr : AddressType) (rt : ReliableTransfer)
  : result (option string) * ReliableTransfer :=
  match List.find (fun kc => addr_eqb (fst (fst kc)) from_addr
                             && bool_decide (state (snd kc) = TRANSFER))
                  (upload_connections rt) with
  | None => (Ok None, rt)
  | Some (key, connection) =>
      on_upload key connection (on_ack now (Packet.ack_num pkt_info)) rt
  end.

(** A [for key, connection in d.items()] loop whose body mutates the
    connection and may raise; an exception ends the loop. *)
Fixpoint for_items {K} (body : Connection -> CM (list string))
         (d : pydict K Connection) (s : SimSocket)
  : result (list string) * (pydict K Connection * SimSocket) :=
  match d with
  | [] => (Ok [], ([], s))
  | (k, c) :: d' =>
      match body c (c, s) with
      | (Ok out, (c', s')) =>
          let '(r, (d'', s'')) := for_items body d' s' in
          (outs <-! r ; Ok (out ++ outs), ((k, c') :: d'', s''))
      | (Raise e, (c', s')) => (Raise e, ((k, c') :: d', s'))
      end
  end.

Definition handle_timeouts (now : Q) (rt : ReliableTransfer)
  : result (list string) * ReliableTransfer :=
  let '(r1, (downloads, s1)) :=
    for_items (fun connection =>
                 if is_active connection && should_retransmit now connection
                 then handle_download_timeout ;; ret [chunk_hash connection]
                 else ret [])
              (download_connections rt) (sock rt) in
  let rt := set_sock s1 (set_download_connections downloads rt) in
  match r1 with
  | Raise e => (Raise e, rt)
  | Ok chunks1 =>
      let '(r2, (uploads, s2)) :=
        for_items (fun connection =>
                     if is_active connection && should_retransmit now connection
                     then handle_upload_timeout now ;; ret [chunk_hash connection]
                     else ret [])
                  (upload_connections rt) (sock rt) in
      (chunks2 <-! r2 ; Ok (chunks1 ++ chunks2),
       set_sock s2 (set_upload_connections uploads rt))
  end.

End WithHost.

Definition finished (c : Connection) : bool :=
  bool_decide (state c = COMPLETE) || bool_decide (state c = ERROR).

Definition cleanup_finished_connections (rt : ReliableTransfer)
  : list string * ReliableTransfer :=
  let completed_chunks :=
    map fst (List.filter (fun kc => bool_decide (state (snd kc) = COMPLETE))
                         (download_connections rt)) in
  let rt := set_download_connections
              (List.filter (fun kc => negb (finished (snd kc)))
                           (download_connections rt)) rt in
  let rt := set_upload_connections
              (List.filter (fun kc => negb (finished (snd kc)))
                           (upload_connections rt)) rt in
  (completed_chunks, rt).

End Transfer.

(* ===================================================================== *)
(** * src/packet.py, continued: hash conversions *)
(* ===================================================================== *)

Module Hex.

(** Strings are sequences of code points below 256; everything [bytes.hex]
    produces lies in that range. *)

Definition code (c : ascii) : N := N_of_ascii c.

Definition hex_digit (n : N) : ascii :=
  if (n <? 10)%N then ascii_of_N (48 + n) else ascii_of_N (87 + n).

(** [hash_bytes.hex()]: two lowercase digits per byte. *)
Fixpoint bytes_to_hex_string (hash_bytes : bytes) : string :=
  match hash_bytes with
  | [] => EmptyString
  | b :: bs =>
      String (hex_digit (Byte.to_N b / 16))
        (String (hex_digit (Byte.to_N b mod 16)) (bytes_to_hex_string bs))
  end.

(** [str.isspace] on one code point below 256. *)
Definition is_space (c : ascii) : bool :=
  let n := code c in
  ((9 <=? n) && (n <=? 13) || (28 <=? n) && (n <=? 32)
   || (n =? 133) || (n =? 160))%N.

Fixpoint lstrip (s : string) : string :=
  match s with
  | EmptyString => EmptyString
  | String c s' => if is_space c then lstrip s' else s
  end.

Fixpoint rstrip (s : string) : string :=
  match s with
  | EmptyString => EmptyString
  | String c s' =>
      match rstrip s' with
      | EmptyString => if is_space c then EmptyString else String c EmptyString
      | r => String c r
      end
  end.

(** [str.strip()] *)
Definition strip (s : string) : string := rstrip (lstrip s).

(** [str.lower()] on one code point below 256. *)
Definition lower_char (c : ascii) : ascii :=
  let n := code c in
  if ((65 <=? n) && (n <=? 90)
      || (192 <=? n) && (n <=? 222) && negb (n =? 215))%N
  then ascii_of_N (n + 32) else c.

Fixpoint lower (s : string) : string :=
  match s with
  | EmptyString => EmptyString
  | String c s' => String (lower_char c) (lower s')
  end.

Definition hex_val (c : ascii) : option N :=
  let n := code c in
  if ((48 <=? n) && (n <=? 57))%N then Some (n - 48)%N
  else if ((97 <=? n) && (n <=? 102))%N then Some (n - 87)%N
  else if ((65 <=? n) && (n <=? 70))%N then Some (n - 55)%N
  else None.

(** ASCII whitespace, skipped by [bytes.fromhex] between bytes. *)
Definition is_ascii_space (c : ascii) : bool :=
  let n := code c in
  ((9 <=? n) && (n <=? 13) || (n =? 32))%N.

Definition fromhex_error : exn :=
  ValueError "non-hexadecimal number found in fromhex() arg".

Fixpoint fromhex (s : string) : result bytes :=
  match s with
  | EmptyString => Ok []
  | String c s' =>
      if is_ascii_space c then fromhex s'
      else
        match hex_val c, s' with
        | Some top, String c2 s'' =>
            match hex_val c2 with
            | Some bot =>
                rest <-! fromhex s'' ;
                Ok (Packet.byte_of_Z (Z.of_N (16 * top + bot)) :: rest)
            | None => Raise fromhex_error
            end
        | _, _ => Raise fromhex_error
        end
  end.

Definition hex_string_to_bytes (hex_string : string) : result bytes :=
  let clean_hex := lower (strip hex_string) in
  fromhex clean_hex.

End Hex.

(* ===================================================================== *)
(** * src/handshake.py *)
(* ===================================================================== *)

Module Handshake.
Import Conn.

Record HandshakeManager := {
  context : PeerContext;
  sock : SimSocket;
  active_requests : pydict string (Q * pydict AddressType (list string));
  upload_connections : pydict (AddressType * string) Connection;
  connection_limit : Z
}.

Definition set_sock (v : SimSocket) (hm : HandshakeManager) : HandshakeManager :=
  {| context := context hm; sock := v;
     active_requests := active_requests hm;
     upload_connections := upload_connections hm;
     connection_limit := connection_limit hm |}.

Definition set_upload_connections (v : pydict (AddressType * string) Connection)
           (hm : HandshakeManager) : HandshakeManager :=
  {| context := context hm; sock := sock hm;
     active_requests := active_requests hm;
     upload_connections := v;
     connection_limit := connection_limit hm |}.

(** [HandshakeManager.__init__]. *)
Definition new_handshake_manager (ctx : PeerContext) (s : SimSocket)
  : HandshakeManager :=
  {| context := ctx; sock := s; active_requests := [];
     upload_connections := []; connection_limit := max_conn ctx |}.

Definition sendto (pkt : bytes) (addr : AddressType) (hm : HandshakeManager)
  : HandshakeManager :=
  set_sock (sock hm ++ [(pkt, addr)]) hm.

Definition holds (hm : HandshakeManager) (hash_str : string) : bool :=
  bool_decide (is_Some (has_chunks (context hm) !! hash_str)).

(** The loop that collects [available_hashes]. *)
Fixpoint available (hm : HandshakeManager) (requested_hash_strings : list string)
  : result (list bytes) :=
  match requested_hash_strings with
  | [] => Ok []
  | hash_str :: rest =>
      if holds hm hash_str then
        h <-! Hex.hex_string_to_bytes hash_str ;
        hs <-! available hm rest ;
        Ok (h :: hs)
      else available hm rest
  end.

Section WithHost.
Variable ho : Packet.byteorder.

(** The [try] block of [handle_who_has_request]. *)
Definition who_has_body (pkt_info : Packet.PacketInfo) (from_addr : AddressType)
           (hm : HandshakeManager) : result HandshakeManager :=
  requested_hashes <-! Packet.extract_chunk_hashes (Packet.payload pkt_info) ;
  let requested_hash_strings := map Hex.bytes_to_hex_string requested_hashes in
  available_hashes <-! available hm requested_hash_strings ;
  let current_upload_count := len (upload_connections hm) in
  if current_upload_count >=? connection_limit hm then
    denied_pkt <-! Packet.build_denied_packet ho ;
    Ok (sendto denied_pkt from_addr hm)
  else
    match available_hashes with
    | _ :: _ =>
        ihave_pkt <-! Packet.build_i_have_packet ho available_hashes ;
        Ok (sendto ihave_pkt from_addr hm)
    | [] =>
        denied_pkt <-! Packet.build_denied_packet ho ;
        Ok (sendto denied_pkt from_addr hm)
    end.

(** [except Exception]: the error is logged and the request dropped.  Nothing
    is mutated before the one [sendto], so the manager is unchanged then. *)
Definition handle_who_has_request (pkt_info : Packet.PacketInfo)
           (from_addr : AddressType) (hm : HandshakeManager) : HandshakeManager :=
  match who_has_body pkt_info from_addr hm with
  | Ok hm' => hm'
  | Raise _ => hm
  end.

Definition send_get_request (chunk_hash : string) (peer_addr : AddressType)
           (hm : HandshakeManager) : bool * HandshakeManager :=
  match (hash_bytes <-! Hex.hex_string_to_bytes chunk_hash ;
         Packet.build_get_packet ho hash_bytes) with
  | Ok get_pkt => (true, sendto get_pkt peer_addr hm)
  | Raise _ => (false, hm)
  end.

End WithHost.

Definition handle_get_request (now : Q) (pkt_info : Packet.PacketInfo)
           (from_addr : AddressType) (hm : HandshakeManager)
  : option string * HandshakeManager :=
  if negb (len (Packet.payload pkt_info) =? 20) then (None, hm)
  else
    let requested_hash := Hex.bytes_to_hex_string (Packet.payload pkt_info) in
    if negb (holds hm requested_hash) then (None, hm)
    else
      let current_upload_count := len (upload_connections hm) in
      if current_upload_count >=? connection_limit hm then (None, hm)
      else
        let connection_key := (from_addr, requested_hash) in
        if dict_in connection_key (upload_connections hm) then (None, hm)
        else
          let upload_conn := new_connection now from_addr requested_hash UPLOAD in
          let upload_conn := update_state TRANSFER upload_conn in
          (Some requested_hash,
           set_upload_connections
             (dict_set connection_key upload_conn (upload_connections hm)) hm).

Definition is_upload_connection_available (hm : HandshakeManager) : bool :=
  len (upload_connections hm) <? connection_limit hm.

Definition set_active_requests
           (v : pydict string (Q * pydict AddressType (list string)))
           (hm : HandshakeManager) : HandshakeManager :=
  {| context := context hm; sock := sock hm;
     active_requests := v;
     upload_connections := upload_connections hm;
     connection_limit := connection_limit hm |}.

(** A list comprehension [[f(x) for x in xs]] whose [f] may raise. *)
Fixpoint map_result {A B} (f : A -> result B) (xs : list A) : result (list B) :=
  match xs with
  | [] => Ok []
  | x :: xs' =>
      y <-! f x ;
      ys <-! map_result f xs' ;
      Ok (y :: ys)
  end.

(** The loop over [self.context.peers] of [send_who_has_request]. *)
Definition broadcast (roster : Roster) (whohas_pkt : bytes) (hm : HandshakeManager)
  : HandshakeManager :=
  fold_left (fun hm peer_info =>
               let '(peer_id, ip, port) := peer_info in
               if negb (peer_id =? identity roster)
               then sendto whohas_pkt (ip, port) hm
               else hm)
            (peers roster) hm.

(** The loop [self.active_requests[chunk_hash] = (current_time, {})]. *)
Definition track (now : Q) (chunk_hashes : list string) (hm : HandshakeManager)
  : HandshakeManager :=
  fold_left (fun hm chunk_hash =>
               set_active_requests
                 (dict_set chunk_hash (now, []) (active_requests hm)) hm)
            chunk_hashes hm.

Section Discovery.
Variable ho : Packet.byteorder.

(** [send_who_has_request] has no [try]: an exception of the conversion or
    of the builder reaches the caller, before anything is sent or tracked. *)
Definition send_who_has_request (now : Q) (roster : Roster)
           (chunk_hashes : list string) (hm : HandshakeManager)
  : result unit * HandshakeManager :=
  match chunk_hashes with
  | [] => (Ok tt, hm)
  | _ :: _ =>
      match (hash_bytes_list <-! map_result Hex.hex_string_to_bytes chunk_hashes ;
             Packet.build_who_has_packet ho hash_bytes_list) with
      | Raise e => (Raise e, hm)
      | Ok whohas_pkt =>
          (Ok tt, track now chunk_hashes (broadcast roster whohas_pkt hm))
      end
  end.

End Discovery.

(** The body of the loop of [handle_i_have_response]: the responder map of a
    tracked hash is mutated in place, so the request keeps its place and its
    time. *)
Definition record_response (from_addr : AddressType)
           (available_hash_strings : list string) (hm : HandshakeManager)
           (hash_str : string) : HandshakeManager :=
  match dict_get hash_str (active_requests hm) with
  | Some (request_time, peer_responses) =>
      if dict_in from_addr peer_responses then hm
      else
        set_active_requests
          (dict_set hash_str
                    (request_time,
                     dict_set from_addr available_hash_strings peer_responses)
                    (active_requests hm)) hm
  | None => hm
  end.

(** [handle_i_have_response]: only [extract_chunk_hashes] can raise, before
    anything is recorded; the handler then returns the empty list. *)
Definition handle_i_have_response (pkt_info : Packet.PacketInfo)
           (from_addr : AddressType) (hm : HandshakeManager)
  : list string * HandshakeManager :=
  match Packet.extract_chunk_hashes (Packet.payload pkt_info) with
  | Ok available_hashes =>
      let available_hash_strings := map Hex.bytes_to_hex_string available_hashes in
      (available_hash_strings,
       fold_left (record_response from_addr available_hash_strings)
                 available_hash_strings hm)
  | Raise _ => ([], hm)
  end.

(** [handle_denied_response] only prints. *)
Definition handle_denied_response (pkt_info : Packet.PacketInfo)
           (from_addr : AddressType) (hm : HandshakeManager) : HandshakeManager :=
  hm.

Definition get_download_candidates (chunk_hash : string) (hm : HandshakeManager)
  : list AddressType :=
  match dict_get chunk_hash (active_requests hm) with
  | None => []
  | Some (request_time, peer_responses) => map fst peer_responses
  end.

(** [cleanup_old_requests]: the expired keys are collected first and then
    deleted; the keys of a dictionary are distinct, so this keeps the items
    that are not expired, in order. *)
Definition cleanup_old_requests (now : Q) (timeout : Q) (hm : HandshakeManager)
  : HandshakeManager :=
  set_active_requests
    (List.filter (fun kv => negb (Qltb timeout (now - fst (snd kv))))
                 (active_requests hm)) hm.

Definition finished (c : Connection) : bool :=
  bool_decide (state c = COMPLETE) || bool_decide (state c = ERROR).

(** [cleanup_finished_connections], collected and deleted in the same way. *)
Definition cleanup_finished_connections (hm : HandshakeManager) : HandshakeManager :=
  set_upload_connections
    (List.filter (fun kc => negb (finished (snd kc))) (upload_connections hm)) hm.

End Handshake.

(* ===================================================================== *)
(** * src/download_manager.py: the download task *)
(* ===================================================================== *)

Module Download.

(** The attributes of a [DownloadTask].  [needed_chunks] is a Python [set];
    [received_chunks] is the dictionary that is pickled into the output
    file. *)
Record DownloadTask := {
  output_file : string;
  needed_chunks : gset string;
  received_chunks : pydict string bytes;
  start_time : Q;
  end_time : option Q;
  completed : bool
}.

Definition set_received_chunks (v : pydict string bytes) (t : DownloadTask)
  : DownloadTask :=
  {| output_file := output_file t; needed_chunks := needed_chunks t;
     received_chunks := v; start_time := start_time t;
     end_time := end_time t; completed := completed t |}.

Definition set_end_time (v : option Q) (t : DownloadTask) : DownloadTask :=
  {| output_file := output_file t; needed_chunks := needed_chunks t;
     received_chunks := received_chunks t; start_time := start_time t;
     end_time := v; completed := completed t |}.

Definition set_completed (v : bool) (t : DownloadTask) : DownloadTask :=
  {| output_file := output_file t; needed_chunks := needed_chunks t;
     received_chunks := received_chunks t; start_time := start_time t;
     end_time := end_time t; completed := v |}.

(** [DownloadTask.__init__]; [now] is the [time.time()] read for
    [start_time]. *)
Definition new_download_task (now : Q) (output_file : string)
           (needed_chunks : list string) : DownloadTask :=
  {| output_file := output_file; needed_chunks := list_to_set needed_chunks;
     received_chunks := []; start_time := now; end_time := None;
     completed := false |}.

Definition is_complete (t : DownloadTask) : bool :=
  len (received_chunks t) >=? Z.of_nat (size (needed_chunks t)).

Definition add_chunk (now : Q) (chunk_hash : string) (data : bytes)
           (t : DownloadTask) : bool * DownloadTask :=
  if bool_decide (chunk_hash ∈ needed_chunks t)
     && negb (dict_in chunk_hash (received_chunks t))
  then
    let t := set_received_chunks
               (dict_set chunk_hash data (received_chunks t)) t in
    let t := if is_complete t && negb (completed t)
             then set_end_time (Some now) (set_completed true t)
             else t in
    (true, t)
  else (false, t).

(** [get_missing_chunks] returns a list in the iteration order of the set,
    which Python leaves unspecified; its elements are this set. *)
Definition get_missing_chunks (t : DownloadTask) : gset string :=
  filter (fun chunk => dict_in chunk (received_chunks t) = false) (needed_chunks t).

Definition get_progress (t : DownloadTask) : Q :=
  if bool_decide (needed_chunks t = ∅) then 1
  else inject_Z (len (received_chunks t))
       / inject_Z (Z.of_nat (size (needed_chunks t))).

(** [if self.end_time:] is false for [None] and for [0.0]. *)
Definition get_duration (now : Q) (t : DownloadTask) : Q :=
  match end_time t with
  | Some e => if Qeq_bool e 0 then now - start_time t else e - start_time t
  | None => now - start_time t
  end.

(** [save_to_file]: [writable] tells whether opening and writing the output
    file succeeds (any exception is caught and gives [False]; the error line
    printed then is not modelled).  The second component is the write
    performed: the path and the dictionary pickled into it. *)
Definition save_to_file (writable : bool) (t : DownloadTask)
  : bool * option (string * pydict string bytes) :=
  if negb (is_complete t) then (false, None)
  else if writable then (true, Some (output_file t, received_chunks t))
  else (false, None).

End Download.

(* ===================================================================== *)
(** * src/download_manager.py: the download manager *)
(* ===================================================================== *)

Module Manager.
Import Conn Download.

(** [del d[k]] on a dictionary that holds [k]. *)
Fixpoint dict_del {K V} `{EqDecision K} (k : K) (d : pydict K V) : pydict K V :=
  match d with
  | [] => []
  | (k', v) :: d' => if decide (k = k') then d' else (k', v) :: dict_del k d'
  end.

(** [str.split()]: the maximal runs of characters that are not whitespace.
    [word] is the run being read, if any. *)
Fixpoint split_from (s : string) (word : option string) : list string :=
  match s with
  | EmptyString => match word with Some w => [w] | None => [] end
  | String c s' =>
      if Hex.is_space c then
        match word with
        | Some w => w :: split_from s' None
        | None => split_from s' None
        end
      else
        split_from s' (Some (match word with
                             | Some w => String.append w (String c EmptyString)
                             | None => String c EmptyString
                             end))
  end.

Definition split (s : string) : list string := split_from s None.

Definition startswith_hash (s : string) : bool :=
  match s with
  | String c _ => bool_decide (c = "#"%char)
  | EmptyString => false
  end.

(** A truthy string is a non-empty one. *)
Definition truthy (s : string) : bool :=
  match s with EmptyString => false | String _ _ => true end.

(** The attributes of a [DownloadManager].  The two managers and the
    download manager hold one and the same socket object: [sock] is that
    object, handed to a manager for the time of a call ([on_handshake],
    [on_transfer] below).  The tasks are objects referred to from two
    dictionaries: [tasks] maps a reference to the task it denotes and
    [next_task] is the next unused reference.  [roster] stands for the
    roster attributes of the context (see [Roster]).  [files] lists the
    writes [save_to_file] performed and [printed] the GOT lines the manager
    printed, oldest first; no other output is recorded (see the
    conventions at the head of the file).  [chunk_sources],
    [max_concurrent_downloads] and [download_timeout] are assigned at
    construction and never read. *)
Record DownloadManager := {
  context : PeerContext;
  roster : Roster;
  sock : SimSocket;
  handshake_manager : Handshake.HandshakeManager;
  reliable_transfer : Transfer.ReliableTransfer;
  tasks : gmap nat DownloadTask;
  next_task : nat;
  download_tasks : pydict string nat;
  active_downloads : pydict string nat;
  files : list (string * pydict string bytes);
  printed : list string
}.

Definition request_timeout : Q := 30.

Definition set_sock (v : SimSocket) (dm : DownloadManager) : DownloadManager :=
  {| context := context dm; roster := roster dm; sock := v;
     handshake_manager := handshake_manager dm;
     reliable_transfer := reliable_transfer dm;
     tasks := tasks dm; next_task := next_task dm;
     download_tasks := download_tasks dm;
     active_downloads := active_downloads dm;
     files := files dm; printed := printed dm |}.

Definition set_handshake_manager (v : Handshake.HandshakeManager)
           (dm : DownloadManager) : DownloadManager :=
  {| context := context dm; roster := roster dm; sock := sock dm;
     handshake_manager := v;
     reliable_transfer := reliable_transfer dm;
     tasks := tasks dm; next_task := next_task dm;
     download_tasks := download_tasks dm;
     active_downloads := active_downloads dm;
     files := files dm; printed := printed dm |}.

Definition set_reliable_transfer (v : Transfer.ReliableTransfer)
           (dm : DownloadManager) : DownloadManager :=
  {| context := context dm; roster := roster dm; sock := sock dm;
     handshake_manager := handshake_manager dm;
     reliable_transfer := v;
     tasks := tasks dm; next_task := next_task dm;
     download_tasks := download_tasks dm;
     active_downloads := active_downloads dm;
     files := files dm; printed := printed dm |}.

Definition set_tasks (v : gmap nat DownloadTask) (dm : DownloadManager)
  : DownloadManager :=
  {| context := context dm; roster := roster dm; sock := sock dm;
     handshake_manager := handshake_manager dm;
     reliable_transfer := reliable_transfer dm;
     tasks := v; next_task := next_task dm;
     download_tasks := download_tasks dm;
     active_downloads := active_downloads dm;
     files := files dm; printed := printed dm |}.

Definition set_next_task (v : nat) (dm : DownloadManager) : DownloadManager :=
  {| context := context dm; roster := roster dm; sock := sock dm;
     handshake_manager := handshake_manager dm;
     reliable_transfer := reliable_transfer dm;
     tasks := tasks dm; next_task := v;
     download_tasks := download_tasks dm;
     active_downloads := active_downloads dm;
     files := files dm; printed := printed dm |}.

Definition set_download_tasks (v : pydict string nat) (dm : DownloadManager)
  : DownloadManager :=
  {| context := context dm; roster := roster dm; sock := sock dm;
     handshake_manager := handshake_manager dm;
     reliable_transfer := reliable_transfer dm;
     tasks := tasks dm; next_task := next_task dm;
     download_tasks := v;
     active_downloads := active_downloads dm;
     files := files dm; printed := printed dm |}.

Definition set_active_downloads (v : pydict string nat) (dm : DownloadManager)
  : DownloadManager :=
  {| context := context dm; roster := roster dm; sock := sock dm;
     handshake_manager := handshake_manager dm;
     reliable_transfer := reliable_transfer dm;
     tasks := tasks dm; next_task := next_task dm;
     download_tasks := download_tasks dm;
     active_downloads := v;
     files := files dm; printed := printed dm |}.

Definition set_files (v : list (string * pydict string bytes))
           (dm : DownloadManager) : DownloadManager :=
  {| context := context dm; roster := roster dm; sock := sock dm;
     handshake_manager := handshake_manager dm;
     reliable_transfer := reliable_transfer dm;
     tasks := tasks dm; next_task := next_task dm;
     download_tasks := download_tasks dm;
     active_downloads := active_downloads dm;
     files := v; printed := printed dm |}.

Definition set_printed (v : list string) (dm : DownloadManager) : DownloadManager :=
  {| context := context dm; roster := roster dm; sock := sock dm;
     handshake_manager := handshake_manager dm;
     reliable_transfer := reliable_transfer dm;
     tasks := tasks dm; next_task := next_task dm;
     download_tasks := download_tasks dm;
     active_downloads := active_downloads dm;
     files := files dm; printed := v |}.

(** [DownloadManager.__init__]. *)
Definition new_download_manager (ctx : PeerContext) (r : Roster) (s : SimSocket)
  : DownloadManager :=
  {| context := ctx; roster := r; sock := s;
     handshake_manager := Handshake.new_handshake_manager ctx s;
     reliable_transfer := Transfer.new_reliable_transfer ctx s;
     tasks := ∅; next_task := 0;
     download_tasks := []; active_downloads := [];
     files := []; printed := [] |}.

(** A call of a method of [self.handshake_manager]: the method runs on the
    shared socket, and what it sends is sent on that socket. *)
Definition on_handshake {A}
           (f : Handshake.HandshakeManager -> A * Handshake.HandshakeManager)
           (dm : DownloadManager) : A * DownloadManager :=
  let '(a, hm) := f (Handshake.set_sock (sock dm) (handshake_manager dm)) in
  (a, set_sock (Handshake.sock hm) (set_handshake_manager hm dm)).

(** A call of a method of [self.reliable_transfer], in the same way. *)
Definition on_transfer {A}
           (f : Transfer.ReliableTransfer -> A * Transfer.ReliableTransfer)
           (dm : DownloadManager) : A * DownloadManager :=
  let '(a, rt) := f (Transfer.set_sock (sock dm) (reliable_transfer dm)) in
  (a, set_sock (Transfer.sock rt) (set_reliable_transfer rt dm)).

Section WithHost.
Variable ho : Packet.byteorder.

(** Whether opening and writing a path succeeds. *)
Variable writable : string -> bool.

(** The part shared by [handle_incoming_packet] and [handle_timeouts]: the
    data of a transferred chunk is added to the task [task_ref] refers to,
    and the task is saved when this completes it.  Returns the output file
    when it was saved. *)
Definition deliver_chunk (now : Q) (chunk_hash : string) (chunk_data : bytes)
           (task_ref : nat) (dm : DownloadManager) : option string * DownloadManager :=
  match tasks dm !! task_ref with
  | None => (None, dm)
  | Some download_task =>
      let '(added, download_task) := add_chunk now chunk_hash chunk_data download_task in
      let dm := set_tasks (<[task_ref := download_task]> (tasks dm)) dm in
      if added then
        if is_complete download_task then
          match save_to_file (writable (output_file download_task)) download_task with
          | (true, Some written) =>
              let dm := set_files (files dm ++ [written]) dm in
              let dm := set_printed
                          (printed dm
                             ++ [String.append "GOT " (output_file download_task)]) dm in
              (Some (output_file download_task), dm)
          | _ => (None, dm)
          end
        else (None, dm)
      else (None, dm)
  end.

(** The body of the loop of [schedule_downloads]. *)
Definition schedule_one (now : Q) (dm : DownloadManager) (item : string * nat)
  : DownloadManager :=
  let '(chunk_hash, task_ref) := item in
  match tasks dm !! task_ref with
  | None => dm
  | Some download_task =>
      if dict_in chunk_hash (received_chunks download_task) then dm
      else if dict_in chunk_hash
                      (Transfer.download_connections (reliable_transfer dm)) then dm
      else
        match Handshake.get_download_candidates chunk_hash (handshake_manager dm) with
        | [] => dm
        | peer_addr :: _ =>
            let '(_, dm) :=
              on_transfer (Transfer.create_download_connection now chunk_hash peer_addr)
                          dm in
            let '(_, dm) :=
              on_handshake (Handshake.send_get_request ho chunk_hash peer_addr) dm in
            dm
        end
  end.

Definition schedule_downloads (now : Q) (dm : DownloadManager) : DownloadManager :=
  fold_left (schedule_one now) (active_downloads dm) dm.

Definition start_chunk_discovery (now : Q) (chunk_hashes : list string)
           (dm : DownloadManager) : result unit * DownloadManager :=
  match chunk_hashes with
  | [] => (Ok tt, dm)
  | _ :: _ =>
      on_handshake
        (Handshake.send_who_has_request ho now (roster dm) chunk_hashes) dm
  end.

(** The loop of [start_download] over the lines of the chunk file. *)
Definition wanted (ctx : PeerContext) (lines : list string) : list string :=
  flat_map (fun line =>
              let line := Hex.strip line in
              if truthy line && negb (startswith_hash line) then
                match split line with
                | _ :: chunk_hash :: _ =>
                    if bool_decide (is_Some (has_chunks ctx !! chunk_hash))
                    then [] else [chunk_hash]
                | _ => []
                end
              else [])
           lines.

(** [start_download]: [chunk_file] is what reading the chunk file yields,
    its lines, or [None] when the file cannot be opened or read; every
    exception is caught and gives [False]. *)
Definition start_download (now : Q) (chunk_file : option (list string))
           (output_file : string) (dm : DownloadManager) : bool * DownloadManager :=
  match chunk_file with
  | None => (false, dm)
  | Some lines =>
      match wanted (context dm) lines with
      | [] =>
          (true,
           set_printed (printed dm ++ [String.append "GOT " output_file]) dm)
      | needed_chunks =>
          let download_task := new_download_task now output_file needed_chunks in
          let task_ref := next_task dm in
          let dm := set_next_task (S task_ref)
                      (set_tasks (<[task_ref := download_task]> (tasks dm)) dm) in
          let dm := set_download_tasks
                      (dict_set output_file task_ref (download_tasks dm)) dm in
          let dm := fold_left
                      (fun dm chunk_hash =>
                         set_active_downloads
                           (dict_set chunk_hash task_ref (active_downloads dm)) dm)
                      needed_chunks dm in
          match start_chunk_discovery now needed_chunks dm with
          | (Ok _, dm) => (true, dm)
          | (Raise _, dm) => (false, dm)
          end
      end
  end.

(** The DATA case of [handle_incoming_packet], after [handle_data_packet]
    returned [chunk_hash]. *)
Definition chunk_arrived (now : Q) (chunk_hash : string) (dm : DownloadManager)
  : option string * DownloadManager :=
  if truthy chunk_hash then
    match dict_get chunk_hash (active_downloads dm) with
    | Some task_ref =>
        match dict_get chunk_hash
                       (Transfer.download_connections (reliable_transfer dm)) with
        | Some connection =>
            if is_chunk_complete (512 * 1024) connection then
              deliver_chunk now chunk_hash (get_chunk_data connection) task_ref dm
            else (None, dm)
        | None => (None, dm)
        end
    | None => (None, dm)
    end
  else (None, dm).

(** [handle_incoming_packet]; an exception in a handler is caught, the
    state stays as mutated so far and [None] is returned. *)
Definition handle_incoming_packet (now : Q) (pkt_info : Packet.PacketInfo)
           (from_addr : AddressType) (dm : DownloadManager)
  : option string * DownloadManager :=
  let ty := Packet.pkt_type pkt_info in
  if ty =? Packet.PktType.WHOHAS then
    on_handshake
      (fun hm => (None, Handshake.handle_who_has_request ho pkt_info from_addr hm)) dm
  else if ty =? Packet.PktType.IHAVE then
    let '(_, dm) :=
      on_handshake (Handshake.handle_i_have_response pkt_info from_addr) dm in
    (None, schedule_downloads now dm)
  else if ty =? Packet.PktType.DENIED then
    on_handshake
      (fun hm => (None, Handshake.handle_denied_response pkt_info from_addr hm)) dm
  else if ty =? Packet.PktType.GET then
    let '(chunk_hash, dm) :=
      on_handshake (Handshake.handle_get_request now pkt_info from_addr) dm in
    match chunk_hash with
    | Some chunk_hash =>
        if truthy chunk_hash then
          let '(_, dm) :=
            on_transfer (Transfer.create_upload_connection now from_addr chunk_hash)
                        dm in
          let '(_, dm) :=
            on_transfer (Transfer.start_data_upload ho now from_addr chunk_hash) dm in
          (None, dm)
        else (None, dm)
    | None => (None, dm)
    end
  else if ty =? Packet.PktType.DATA then
    let '(chunk_hash, dm) :=
      on_transfer (Transfer.handle_data_packet ho now pkt_info from_addr) dm in
    match chunk_hash with
    | Ok (Some chunk_hash) => chunk_arrived now chunk_hash dm
    | _ => (None, dm)
    end
  else if ty =? Packet.PktType.ACK then
    let '(_, dm) :=
      on_transfer (Transfer.handle_ack_packet ho now pkt_info from_addr) dm in
    (None, dm)
  else (None, dm).

(** The loop of [handle_timeouts] over the completed chunks. *)
Definition completed_one (now : Q) (acc : list string * DownloadManager)
           (chunk_hash : string) : list string * DownloadManager :=
  let '(completed_files, dm) := acc in
  match dict_get chunk_hash (active_downloads dm) with
  | Some task_ref =>
      match dict_get chunk_hash
                     (Transfer.download_connections (reliable_transfer dm)) with
      | Some connection =>
          if bool_decide (state connection = COMPLETE) then
            match deliver_chunk now chunk_hash (get_chunk_data connection)
                                task_ref dm with
            | (Some file, dm) => (completed_files ++ [file], dm)
            | (None, dm) => (completed_files, dm)
            end
          else acc
      | None => acc
      end
  | None => acc
  end.

(** [handle_timeouts] has no [try]: an exception of the transfer manager
    reaches the caller. *)
Definition handle_timeouts (now : Q) (dm : DownloadManager)
  : result (list string) * DownloadManager :=
  match on_transfer (Transfer.handle_timeouts ho now) dm with
  | (Raise e, dm) => (Raise e, dm)
  | (Ok _, dm) =>
      let '(_, dm) :=
        on_handshake
          (fun hm => (tt, Handshake.cleanup_old_requests now request_timeout hm)) dm in
      let '(completed_chunks, dm) :=
        on_transfer Transfer.cleanup_finished_connections dm in
      let '(_, dm) :=
        on_handshake
          (fun hm => (tt, Handshake.cleanup_finished_connections hm)) dm in
      let '(completed_files, dm) :=
        fold_left (completed_one now) completed_chunks ([], dm) in
      (Ok completed_files, dm)
  end.

End WithHost.

(** [cleanup_completed_tasks].  The hashes of a task are deleted in the
    iteration order of a set; the deletions commute. *)
Definition forget_task (dm : DownloadManager) (output_file : string)
  : DownloadManager :=
  match dict_get output_file (download_tasks dm) with
  | None => dm
  | Some task_ref =>
      let dm :=
        match tasks dm !! task_ref with
        | None => dm
        | Some task =>
            fold_left (fun dm chunk_hash =>
                         if dict_in chunk_hash (active_downloads dm)
                         then set_active_downloads
                                (dict_del chunk_hash (active_downloads dm)) dm
                         else dm)
                      (elements (needed_chunks task)) dm
        end in
      set_download_tasks (dict_del output_file (download_tasks dm)) dm
  end.

Definition cleanup_completed_tasks (dm : DownloadManager) : DownloadManager :=
  let completed_files :=
    map fst (List.filter (fun item => match tasks dm !! snd item with
                                      | Some task => completed task
                                      | None => false
                                      end)
                         (download_tasks dm)) in
  fold_left forget_task completed_files dm.

End Manager.

(* ===================================================================== *)
(** * The vocabulary of the statements about the codec *)
(* ===================================================================== *)

Module Wire.

Import Packet.

Definition wire_header (ty total seq ack : Z) : bytes :=
  [byte_of_Z ty; byte_of_Z HEADER_LEN]
    ++ be_encode 2 total ++ be_encode 4 seq ++ be_encode 4 ack.

Definition parsed (ty total seq ack : Z) (data : bytes)
           (from : option AddressType) : PacketInfo :=
  {| pkt_type := ty; header_len := HEADER_LEN; pkt_len := total;
     seq_num := seq; ack_num := ack; payload := data; from_addr := from |}.

(** What it means for a built datagram to parse back to its fields. *)
Definition roundtrips (ho : byteorder) (built : result bytes)
           (ty seq ack : Z) (data : bytes) : Prop :=
  exists pkt,
    built = Ok pkt /\
    forall from,
      parse_packet ho pkt from
      = Ok (parsed ty (HEADER_LEN + len data) seq ack data from).

(** The six messages as a tagged variant, with the builder of each. *)
Inductive message :=
| WhoHas (chunk_hashes : list bytes)
| IHave (chunk_hashes : list bytes)
| Get (chunk_hash : bytes)
| Data (seq : Z) (data : bytes)
| Ack (ack : Z)
| Denied.

Definition build (ho : byteorder) (m : message) : result bytes :=
  match m with
  | WhoHas hs => build_who_has_packet ho hs
  | IHave hs => build_i_have_packet ho hs
  | Get h => build_get_packet ho h
  | Data seq data => build_data_packet ho seq data
  | Ack ack => build_ack_packet ho ack
  | Denied => build_denied_packet ho
  end.

Definition msg_type (m : message) : Z :=
  match m with
  | WhoHas _ => PktType.WHOHAS
  | IHave _ => PktType.IHAVE
  | Get _ => PktType.GET
  | Data _ _ => PktType.DATA
  | Ack _ => PktType.ACK
  | Denied => PktType.DENIED
  end.

Definition msg_seq (m : message) : Z :=
  match m with Data seq _ => seq | _ => 0 end.

Definition msg_ack (m : message) : Z :=
  match m with Ack ack => ack | _ => 0 end.

Definition msg_payload (m : message) : bytes :=
  match m with
  | WhoHas hs | IHave hs => concat hs
  | Get h => h
  | Data _ data => data
  | Ack _ | Denied => []
  end.

Definition digests (hs : list bytes) : Prop :=
  hs <> [] /\ Forall (fun h => len h = 20) hs.

(** The legal payloads of the six messages: digests of 20 bytes, at least
    one in WHOHAS and IHAVE; DATA of at most 1388 bytes; 32-bit numbers. *)
Definition legal (m : message) : Prop :=
  match m with
  | WhoHas hs | IHave hs => digests hs
  | Get h => len h = 20
  | Data seq data => len data <= 1388 /\ 0 <= seq < 2 ^ 32
  | Ack ack => 0 <= ack < 2 ^ 32
  | Denied => True
  end.

(** The datagram length fits the 16-bit [pkt_len] field. *)
Definition fits_pkt_len (m : message) : Prop :=
  HEADER_LEN + len (msg_payload m) < 2 ^ 16.

Definition parses_back (ho : byteorder) (m : message) : Prop :=
  exists pkt,
    build ho m = Ok pkt /\
    forall from,
      parse_packet ho pkt from
      = Ok {| pkt_type := msg_type m; header_len := 12;
              pkt_len := 12 + len (msg_payload m);
              seq_num := msg_seq m; ack_num := msg_ack m;
              payload := msg_payload m; from_addr := from |}.

Definition digest_of (b : byte) : bytes := repeat b 20.

(** The [pkt_len] a datagram declares: bytes 2 and 3, network order. *)
Definition declared_pkt_len (packet : bytes) : Z :=
  be_decode (take 2 (drop 2 packet)).

(** A 12-byte ACK header that declares 13 bytes. *)
Definition lying_header : bytes :=
  [x04; x0c; x00; x0d; x00; x00; x00; x00; x00; x00; x00; x01].

Definition short_get : PacketInfo :=
  {| pkt_type := PktType.GET; header_len := 12; pkt_len := 19;
     seq_num := 0; ack_num := 0; payload := repeat x00 7; from_addr := None |}.

Definition idle_manager : Handshake.HandshakeManager :=
  Handshake.new_handshake_manager
    {| has_chunks := ∅; max_conn := 4; verbose := 0; timeout := 0 |} [].

End Wire.

(* ===================================================================== *)
(** * Sequences of operations on one connection *)
(* ===================================================================== *)

Module Runs.

Import Conn.

(** Any sequence of [add_received_data] calls. *)
Definition receive_all (ops : list (Z * bytes)) (c : Connection) : Connection :=
  fold_left (fun c op => snd (add_received_data (fst op) (snd op) c)) ops c.

(** The delivered prefix stays in the buffer and the next expected packet is
    not in it. *)
Definition delivered_prefix (c : Connection) : Prop :=
  0 <= ack_num c
  /\ recv_buffer c !! (ack_num c + 1) = None
  /\ forall s, 1 <= s <= ack_num c -> is_Some (recv_buffer c !! s).

(** The events that change the congestion window of a connection. *)
Inductive cc_event :=
| AckArrives (now : Q) (ack : Z)   (* [handle_ack], new or duplicate *)
| Loss.                            (* [update_cwnd_on_loss] *)

Definition cc_step (c : Connection) (e : cc_event) : Connection :=
  match e with
  | AckArrives now ack => snd (handle_ack now ack c)
  | Loss => update_cwnd_on_loss c
  end.

Definition cc_run (es : list cc_event) (c : Connection) : Connection :=
  fold_left cc_step es c.

(** In slow start the window is a whole number. *)
Definition whole_in_slow_start (c : Connection) : Prop :=
  (1 <= cwnd c)%Q
  /\ ((cwnd c < inject_Z (ssthresh c))%Q ->
      exists n : Z, (cwnd c == inject_Z n)%Q).

End Runs.

(* ===================================================================== *)
(** * The vocabulary of the statements about a download *)
(* ===================================================================== *)

Module Delivery.

Import Conn Transfer.

Section Delivery.

Variable ho : Packet.byteorder.
Variables (now0 : Q) (h : string) (peer : AddressType).
Variable p : Z -> bytes.
Variable N : Z.

(** The DATA packet with sequence number [s], as the parser hands it over. *)
Definition data_info (s : Z) : Packet.PacketInfo :=
  {| Packet.pkt_type := Packet.PktType.DATA; Packet.header_len := 12;
     Packet.pkt_len := 12 + len (p s);
     Packet.seq_num := s; Packet.ack_num := 0; Packet.payload := p s;
     Packet.from_addr := Some peer |}.

(** Of the downloads [d] of a manager none but that of [h] is from [peer]:
    [handle_data_packet] finds the connection of a DATA packet by the
    address of its sender alone.  The keys of a dictionary are distinct. *)
Definition sole_download (d : pydict string Connection) : Prop :=
  NoDup (map fst d)
  /\ Forall (fun kc => fst kc <> h -> peer_addr (snd kc) <> peer) d.

(** The manager [rt0] once it has opened the download of [h] from [peer]. *)
Definition opened (rt0 : ReliableTransfer) : ReliableTransfer :=
  snd (create_download_connection now0 h peer rt0).

(** Handling the DATA packets [arrivals], each with its arrival time. *)
Definition deliver (arrivals : list (Q * Z)) (rt : ReliableTransfer)
  : ReliableTransfer :=
  fold_left (fun rt a => snd (handle_data_packet ho (fst a) (data_info (snd a)) peer rt))
            arrivals rt.

Definition in_order (k : Z) : bytes := concat (p <$> seqZ 1 k).

(** What holds of the manager after the arrivals [seen]. *)
Record delivery_inv (seen : list Z) (rt : ReliableTransfer) (c : Connection) : Prop := {
  inv_conns : dict_get h (download_connections rt) = Some c;
  inv_sole : sole_download (download_connections rt);
  inv_peer : peer_addr c = peer;
  inv_hash : chunk_hash c = h;
  inv_dir : direction c = DOWNLOAD;
  inv_state : state c = TRANSFER \/ state c = COMPLETE;
  inv_ack : 0 <= ack_num c <= N;
  inv_next : recv_buffer c !! (ack_num c + 1) = None;
  inv_prefix : forall s, 1 <= s <= ack_num c -> is_Some (recv_buffer c !! s);
  inv_payload : forall k d, recv_buffer c !! k = Some d ->
                            d = p k /\ 1 <= k <= N /\ k ∈ seen;
  inv_data : chunk_data c = in_order (ack_num c);
  inv_recorded : state c = TRANSFER -> forall s, s ∈ seen -> is_Some (recv_buffer c !! s);
  inv_complete : state c = COMPLETE -> ack_num c = N;
  inv_full : state c = COMPLETE -> Packet.CHUNK_SIZE <= len (chunk_data c);
  inv_live : state c = TRANSFER -> len (chunk_data c) < Packet.CHUNK_SIZE
}.

End Delivery.

Arguments inv_conns {h peer p N seen rt c} _.
Arguments inv_sole {h peer p N seen rt c} _.
Arguments inv_peer {h peer p N seen rt c} _.
Arguments inv_hash {h peer p N seen rt c} _.
Arguments inv_dir {h peer p N seen rt c} _.
Arguments inv_state {h peer p N seen rt c} _.
Arguments inv_ack {h peer p N seen rt c} _.
Arguments inv_next {h peer p N seen rt c} _.
Arguments inv_prefix {h peer p N seen rt c} _.
Arguments inv_payload {h peer p N seen rt c} _.
Arguments inv_data {h peer p N seen rt c} _.
Arguments inv_recorded {h peer p N seen rt c} _.
Arguments inv_complete {h peer p N seen rt c} _.
Arguments inv_full {h peer p N seen rt c} _.
Arguments inv_live {h peer p N seen rt c} _.

(** The connection after the receiver's RTT bookkeeping. *)
Definition after_rtt (t : Q) (is_new : bool) (c1 : Connection) : Connection :=
  if is_new then
    match first_packet_time c1 with
    | Some t0 => update_timeout_on_ack (t - t0) c1
    | None => set_first_packet_time (Some t) c1
    end
  else c1.

Definition completes (is_new : bool) (c2 : Connection) : bool :=
  is_new && is_chunk_complete Packet.CHUNK_SIZE c2.

(** A chunk of exactly [CHUNK_SIZE] bytes: 377 full packets and a last one
    of 1012 bytes. *)
Definition full_chunk (s : Z) : bytes :=
  repeat x00 (if s <? 378 then 1388 else 1012).

Definition example_ctx : PeerContext :=
  {| has_chunks := ∅; max_conn := 4; verbose := 0; timeout := 0 |}.

Definition example_peer : AddressType := (EmptyString, 48001).

(** A manager that already downloads the chunk zz from another peer. *)
Definition busy_manager : ReliableTransfer :=
  snd (create_download_connection 0 "zz" ("10.0.0.9"%string, 48009)
         (new_reliable_transfer example_ctx [])).

(** A manager with two downloads, aa and then bb, from [example_peer]. *)
Definition two_from_one_peer : ReliableTransfer :=
  snd (create_download_connection 0 "bb" example_peer
         (snd (create_download_connection 0 "aa" example_peer
                 (new_reliable_transfer example_ctx [])))).

(** The ACK datagram that carries [ack_num = 0]: type 4, header length 12,
    total length 12, sequence number 0, acknowledgement number 0. *)
Definition ack_zero : bytes :=
  [x04; x0c; x00; x0c; x00; x00; x00; x00; x00; x00; x00; x00].

End Delivery.

(* ===================================================================== *)
(** * The vocabulary of the statements about the handshake *)
(* ===================================================================== *)

Module Answers.

Import Conn Handshake.

(** The requested hashes the responder holds, in request order. *)
Definition held (hm : HandshakeManager) (hashes : list bytes) : list bytes :=
  List.filter (fun h => holds hm (Hex.bytes_to_hex_string h)) hashes.

(** The message a WHOHAS for [hashes] is answered with. *)
Definition who_has_answer (hm : HandshakeManager) (hashes : list bytes)
  : Wire.message :=
  if connection_limit hm <=? len (upload_connections hm) then Wire.Denied
  else
    match held hm hashes with
    | [] => Wire.Denied
    | _ :: _ => Wire.IHave (held hm hashes)
    end.

(** A digest made of one repeated byte, a WHOHAS for given digests and a
    peer that holds the chunk of [digest 1]. *)
Definition digest (b : Z) : bytes := repeat (Packet.byte_of_Z b) 20.

Definition who_has_info (hashes : list bytes) : Packet.PacketInfo :=
  {| Packet.pkt_type := Packet.PktType.WHOHAS; Packet.header_len := 12;
     Packet.pkt_len := 12 + len (concat hashes);
     Packet.seq_num := 0; Packet.ack_num := 0; Packet.payload := concat hashes;
     Packet.from_addr := None |}.

Definition keeper : HandshakeManager :=
  new_handshake_manager
    {| has_chunks := {[ Hex.bytes_to_hex_string (digest 1) := [x61; x62; x63] ]};
       max_conn := 2; verbose := 0; timeout := 0 |} [].

End Answers.

(* ===================================================================== *)
(** * Upload scenarios *)
(* ===================================================================== *)

Module Uploads.

Import Conn Transfer.

(** A peer that holds one chunk of [n] zero bytes under the key ab. *)
Definition holder (n : Z) : PeerContext :=
  {| has_chunks := {[ "ab"%string := repeat x00 (Z.to_nat n) ]};
     max_conn := 4; verbose := 0; timeout := 0 |}.

Definition requester : AddressType := ("10.0.0.2"%string, 48002).

(** The manager after a GET for that chunk: [create_upload_connection] followed by
    [start_data_upload], as [handle_incoming_packet] calls them. *)
Definition uploading (n : Z) : ReliableTransfer :=
  let rt := new_reliable_transfer (holder n) [] in
  let rt := snd (create_upload_connection 100 requester "ab" rt) in
  snd (start_data_upload Packet.Little 100 requester "ab" rt).

Definition ack_info (a : Z) : Packet.PacketInfo :=
  {| Packet.pkt_type := Packet.PktType.ACK; Packet.header_len := 12;
     Packet.pkt_len := 12; Packet.seq_num := 0; Packet.ack_num := a;
     Packet.payload := []; Packet.from_addr := Some requester |}.

(** The ACKs [acks] arrive from the requester, one after the other. *)
Definition acked (acks : list Z) (rt : ReliableTransfer) : ReliableTransfer :=
  fold_left (fun rt a => snd (handle_ack_packet Packet.Little 101 (ack_info a)
                                requester rt)) acks rt.

(** The sequence numbers of the DATA packets sent so far, in order. *)
Definition data_sent (rt : ReliableTransfer) : list Z :=
  omap (fun d => match Packet.parse_packet Packet.Little (fst d) None with
                 | Ok info =>
                     if Packet.pkt_type info =? Packet.PktType.DATA
                     then Some (Packet.seq_num info) else None
                 | Raise _ => None
                 end) (sock rt).

Definition the_upload (rt : ReliableTransfer) : option Connection :=
  dict_get (requester, "ab"%string) (upload_connections rt).

End Uploads.

(* ===================================================================== *)
(** * The vocabulary of the further statements about the codec *)
(* ===================================================================== *)

Module Formats.

Import Packet Wire.

(** The checks the six builders make, one after the other, on their
    arguments: a non-empty list whose bytes fit the 16-bit length field for
    WHOHAS and IHAVE, 20 bytes for GET, at most [MAX_PAYLOAD_SIZE] bytes and
    a 32-bit number for DATA, a 32-bit number for ACK. *)
Definition buildable (m : message) : bool :=
  match m with
  | WhoHas hs | IHave hs =>
      match hs with
      | [] => false
      | _ :: _ => fits 16 (HEADER_LEN + len (concat hs))
      end
  | Get h => len h =? 20
  | Data seq data => (len data <=? MAX_PAYLOAD_SIZE) && fits 32 seq
  | Ack ack => fits 32 ack
  | Denied => true
  end.

(** The bytes of a built datagram: the 12 header bytes in network order,
    then the payload. *)
Definition datagram (m : message) : bytes :=
  wire_header (msg_type m) (HEADER_LEN + len (msg_payload m)) (msg_seq m) (msg_ack m)
    ++ msg_payload m.

(** An ACK datagram for the acknowledgement number 1. *)
Definition ack_one : bytes :=
  [x04; x0c; x00; x0c; x00; x00; x00; x00; x00; x00; x00; x01].

End Formats.

(* ===================================================================== *)
(** * Further sequences of operations on one connection *)
(* ===================================================================== *)

Module Traces.

Import Conn.

(** Any sequence of [handle_ack] calls, each with its arrival time. *)
Definition ack_all (acks : list (Q * Z)) (c : Connection) : Connection :=
  fold_left (fun c a => snd (handle_ack (fst a) (snd a) c)) acks c.

(** The highest of [a0] and the acknowledgement numbers of [acks]. *)
Definition highest (acks : list (Q * Z)) (a0 : Z) : Z :=
  fold_left Z.max (map snd acks) a0.

(** The payload of the first operation that carries the sequence number [s]. *)
Definition first_arrival (ops : list (Z * bytes)) (s : Z) : option bytes :=
  snd <$> List.find (fun op => fst op =? s) ops.

(** The number of bytes a receive buffer holds. *)
Definition stored_bytes (rb : gmap Z bytes) : Z :=
  map_fold (fun _ d acc => len d + acc) 0 rb.

(** Any sequence of [update_timeout_on_ack] calls. *)
Definition sample_all (samples : list Q) (c : Connection) : Connection :=
  fold_left (fun c s => update_timeout_on_ack s c) samples c.

Definition fresh (dir : TransferDirection) : Connection :=
  new_connection 0 (EmptyString, 0) EmptyString dir.

End Traces.

(* ===================================================================== *)
(** * The vocabulary of the statements about an upload *)
(* ===================================================================== *)

Module Senders.

Import Conn Transfer.

(** The bytes of packet number [s] of a chunk: the slice the loop of
    [create_upload_connection] cuts for the loop index [s - 1]. *)
Definition piece (chunk : bytes) (s : Z) : bytes :=
  let start := (s - 1) * Packet.MAX_PAYLOAD_SIZE in
  slice start (Z.min (start + Packet.MAX_PAYLOAD_SIZE) (len chunk)) chunk.

(** The send buffer of a new upload: the numbered packets of the chunk. *)
Definition pieces (chunk : bytes) : list (Z * bytes) :=
  (fun s => (s, piece chunk s)) <$> seqZ 1 (packet_count chunk).

(** A send buffer that holds nothing but numbered packets of the chunk. *)
Definition holds_pieces (chunk : bytes) (buf : list (Z * bytes)) : Prop :=
  Forall (fun sd => 1 <= fst sd <= packet_count chunk
                    /\ snd sd = piece chunk (fst sd)) buf.

(** A datagram sent to [peer] that is the DATA packet of a packet number
    of the chunk, with the bytes of that packet. *)
Definition piece_datagram (ho : Packet.byteorder) (chunk : bytes)
           (peer : AddressType) (sent : bytes * AddressType) : Prop :=
  snd sent = peer
  /\ exists s, 1 <= s <= packet_count chunk
               /\ Packet.build_data_packet ho s (piece chunk s) = Ok (fst sent).

(** What can happen to the manager of an uploading peer. *)
Inductive upload_event :=
| Started (now : Q)
| AckPacket (now : Q) (pkt_info : Packet.PacketInfo) (from_addr : AddressType)
| DataPacket (now : Q) (pkt_info : Packet.PacketInfo) (from_addr : AddressType)
| Tick (now : Q)
| Cleanup.

Definition upload_step (ho : Packet.byteorder) (peer : AddressType) (h : string)
           (rt : ReliableTransfer) (e : upload_event) : ReliableTransfer :=
  match e with
  | Started now => snd (start_data_upload ho now peer h rt)
  | AckPacket now pkt_info from_addr =>
      snd (handle_ack_packet ho now pkt_info from_addr rt)
  | DataPacket now pkt_info from_addr =>
      snd (handle_data_packet ho now pkt_info from_addr rt)
  | Tick now => snd (handle_timeouts ho now rt)
  | Cleanup => snd (cleanup_finished_connections rt)
  end.

Definition upload_run (ho : Packet.byteorder) (peer : AddressType) (h : string)
           (es : list upload_event) (rt : ReliableTransfer) : ReliableTransfer :=
  fold_left (upload_step ho peer h) es rt.

(** A peer that holds the chunk [chunk] under the key [h]. *)
Definition keeper_of (h : string) (chunk : bytes) : PeerContext :=
  {| has_chunks := {[ h := chunk ]}; max_conn := 4; verbose := 0; timeout := 0 |}.

(** ** What the sender keeps true

    [chunk] is the chunk being uploaded to [peer]. *)
Section Pieces.

Variable ho : Packet.byteorder.
Variable chunk : bytes.
Variable peer : AddressType.

(** The connection sends to [peer] and buffers packets of the chunk only. *)
Definition serves (c : Connection) : Prop :=
  peer_addr c = peer /\ holds_pieces chunk (send_buffer c).

(** The socket [s'] is [s] followed by DATA packets of the chunk for [peer]. *)
Definition extends (s s' : SimSocket) : Prop :=
  exists sent, s' = s ++ sent /\ Forall (piece_datagram ho chunk peer) sent.

(** The outcome [r] of a procedure started on the socket [s]. *)
Definition fine {A} (r : result A * (Connection * SimSocket)) (s : SimSocket) : Prop :=
  serves (fst (snd r)) /\ extends s (snd (snd r)).

Variable h : string.
Variable sock0 : SimSocket.

(** What holds of the manager of the uploading peer after any events. *)
Definition uploading (rt : ReliableTransfer) : Prop :=
  download_connections rt = []
  /\ (upload_connections rt = []
      \/ exists c, upload_connections rt = [((peer, h), c)] /\ serves c)
  /\ extends sock0 (sock rt).

End Pieces.

End Senders.

(* ===================================================================== *)
(** * The vocabulary of the statements about the transfer manager *)
(* ===================================================================== *)

Module Managers.

Import Conn Transfer.

(** The test [handle_timeouts] makes on every connection. *)
Definition due (now : Q) (c : Connection) : bool :=
  is_active c && should_retransmit now c.

(** The connection under a key is left as it is unless it is due. *)
Definition kept_unless_due {K} (now : Q) (before after : pydict K Connection) : Prop :=
  Forall2 (fun kc kc' => fst kc' = fst kc
                         /\ (due now (snd kc) = false -> kc' = kc))
          before after.

(** What can happen to the manager of a downloading peer. *)
Inductive download_event :=
| Opens (now : Q) (chunk_hash : string) (peer_addr : AddressType)
| Arrives (now : Q) (pkt_info : Packet.PacketInfo) (from_addr : AddressType)
| Acked (now : Q) (pkt_info : Packet.PacketInfo) (from_addr : AddressType)
| Timeouts (now : Q)
| Cleans.

Definition download_step (ho : Packet.byteorder) (rt : ReliableTransfer)
           (e : download_event) : ReliableTransfer :=
  match e with
  | Opens now chunk_hash peer_addr =>
      snd (create_download_connection now chunk_hash peer_addr rt)
  | Arrives now pkt_info from_addr =>
      snd (handle_data_packet ho now pkt_info from_addr rt)
  | Acked now pkt_info from_addr =>
      snd (handle_ack_packet ho now pkt_info from_addr rt)
  | Timeouts now => snd (handle_timeouts ho now rt)
  | Cleans => snd (cleanup_finished_connections rt)
  end.

Definition download_run (ho : Packet.byteorder) (es : list download_event)
           (rt : ReliableTransfer) : ReliableTransfer :=
  fold_left (download_step ho) es rt.

(** A manager that uploads nothing and whose downloads never sent. *)
Definition unsent (rt : ReliableTransfer) : Prop :=
  upload_connections rt = []
  /\ Forall (fun kc => last_send_time (snd kc) = 0%Q) (download_connections rt).

(** A manager with one download that is complete and one that is not. *)
Definition two_downloads : ReliableTransfer :=
  let rt := new_reliable_transfer
              {| has_chunks := ∅; max_conn := 4; verbose := 0; timeout := 0 |} [] in
  let rt := snd (create_download_connection 0 "aa" ("10.0.0.1"%string, 1) rt) in
  let rt := snd (create_download_connection 0 "bb" ("10.0.0.2"%string, 2) rt) in
  set_download_connections
    (map (fun kc => if String.eqb (fst kc) "aa"
                    then (fst kc, update_state COMPLETE (snd kc)) else kc)
         (download_connections rt)) rt.

End Managers.

(* ===================================================================== *)
(** * The vocabulary of the statements about discovery *)
(* ===================================================================== *)

Module Discovery.

Import Conn Handshake.

(** What can happen to a handshake manager: the packets it is handed, the
    requests it is asked to send, and the two clean-ups. *)
Inductive event :=
| WhoHasArrives (pkt_info : Packet.PacketInfo) (from_addr : AddressType)
| IHaveArrives (pkt_info : Packet.PacketInfo) (from_addr : AddressType)
| DeniedArrives (pkt_info : Packet.PacketInfo) (from_addr : AddressType)
| GetArrives (now : Q) (pkt_info : Packet.PacketInfo) (from_addr : AddressType)
| AsksWhoHas (now : Q) (roster : Roster) (chunk_hashes : list string)
| AsksGet (chunk_hash : string) (peer_addr : AddressType)
| ForgetsOld (now : Q) (timeout : Q)
| ForgetsFinished.

Definition step (ho : Packet.byteorder) (hm : HandshakeManager) (e : event)
  : HandshakeManager :=
  match e with
  | WhoHasArrives pkt_info from_addr => handle_who_has_request ho pkt_info from_addr hm
  | IHaveArrives pkt_info from_addr => snd (handle_i_have_response pkt_info from_addr hm)
  | DeniedArrives pkt_info from_addr => handle_denied_response pkt_info from_addr hm
  | GetArrives now pkt_info from_addr => snd (handle_get_request now pkt_info from_addr hm)
  | AsksWhoHas now roster chunk_hashes =>
      snd (send_who_has_request ho now roster chunk_hashes hm)
  | AsksGet chunk_hash peer_addr => snd (send_get_request ho chunk_hash peer_addr hm)
  | ForgetsOld now timeout => cleanup_old_requests now timeout hm
  | ForgetsFinished => cleanup_finished_connections hm
  end.

Definition run (ho : Packet.byteorder) (es : list event) (hm : HandshakeManager)
  : HandshakeManager :=
  fold_left (step ho) es hm.

(** An upload slot as [handle_get_request] fills it. *)
Definition slot (ctx : PeerContext) (kc : (AddressType * string) * Connection) : Prop :=
  state (snd kc) = TRANSFER /\ direction (snd kc) = UPLOAD
  /\ peer_addr (snd kc) = fst (fst kc) /\ chunk_hash (snd kc) = snd (fst kc)
  /\ is_Some (has_chunks ctx !! snd (fst kc)).

(** What holds of the upload slots of a manager after any events. *)
Definition admitted (ctx : PeerContext) (hm : HandshakeManager) : Prop :=
  context hm = ctx /\ connection_limit hm = max_conn ctx
  /\ len (upload_connections hm) <= Z.max 0 (max_conn ctx)
  /\ NoDup (map fst (upload_connections hm))
  /\ Forall (slot ctx) (upload_connections hm).

(** An operation that leaves the upload slots, the limit and the context
    as they are. *)
Definition same_slots (hm hm' : HandshakeManager) : Prop :=
  upload_connections hm' = upload_connections hm
  /\ connection_limit hm' = connection_limit hm
  /\ context hm' = context hm.

(** The addresses a WHOHAS is sent to: the roster without the peer itself. *)
Definition others (roster : Roster) : list AddressType :=
  map (fun peer_info => (snd (fst peer_info), snd peer_info))
      (List.filter (fun peer_info => negb (fst (fst peer_info) =? identity roster))
                   (peers roster)).

(** A parsed packet with the given type and payload. *)
Definition packet_of (ty : Z) (data : bytes) (from : option AddressType)
  : Packet.PacketInfo :=
  {| Packet.pkt_type := ty; Packet.header_len := 12;
     Packet.pkt_len := 12 + len data; Packet.seq_num := 0; Packet.ack_num := 0;
     Packet.payload := data; Packet.from_addr := from |}.

(** A peer that holds the chunk of the digest [1; 1; ...] and has two slots. *)
Definition provider : HandshakeManager :=
  new_handshake_manager
    {| has_chunks := {[ Hex.bytes_to_hex_string (repeat x01 20) := [x61] ]};
       max_conn := 2; verbose := 0; timeout := 0 |} [].

(** A manager that tracks one request, made at time 10, with one responder. *)
Definition tracking : HandshakeManager :=
  set_active_requests
    [("aa"%string, (10%Q, [(("10.0.0.2"%string, 48002), ["aa"%string])]))]
    (new_handshake_manager
       {| has_chunks := ∅; max_conn := 2; verbose := 0; timeout := 0 |} []).

Definition asker : HandshakeManager :=
  new_handshake_manager
    {| has_chunks := ∅; max_conn := 2; verbose := 0; timeout := 0 |} [].

Definition three_peers : Roster :=
  {| identity := 1;
     peers := [(1, "10.0.0.1"%string, 48001); (2, "10.0.0.2"%string, 48002);
               (3, "10.0.0.3"%string, 48003)] |}.

End Discovery.

(* ===================================================================== *)
(** * The vocabulary of the statements about a download task *)
(* ===================================================================== *)

Module Tasks.

Import Download.

(** Any sequence of [add_chunk] calls, each with its time, hash and data. *)
Definition add_all (ops : list (Q * string * bytes)) (t : DownloadTask)
  : DownloadTask :=
  fold_left (fun t op => snd (add_chunk (fst (fst op)) (snd (fst op)) (snd op) t))
            ops t.

(** The data of the first call made for the hash [h]. *)
Definition first_offer (ops : list (Q * string * bytes)) (h : string)
  : option bytes :=
  snd <$> List.find (fun op => bool_decide (snd (fst op) = h)) ops.

(** What holds of a task after any calls of [add_chunk]. *)
Definition sound (t : DownloadTask) : Prop :=
  NoDup (map fst (received_chunks t))
  /\ (forall k, In k (map fst (received_chunks t)) -> k ∈ needed_chunks t)
  /\ (completed t = true <-> is_complete t = true /\ received_chunks t <> []).

End Tasks.

(* ===================================================================== *)
(** * The vocabulary of the statements about the download manager *)
(* ===================================================================== *)

Module Dispatch.

Import Conn Download Manager.

(** What can happen to the download manager of a peer, as the event loop of
    src/peer.py calls it: a parsed packet is handed over, the timeouts are
    handled, downloads are scheduled, a DOWNLOAD command starts a download,
    old requests and completed tasks are cleaned up. *)
Inductive event :=
| Receives (now : Q) (pkt_info : Packet.PacketInfo) (from_addr : AddressType)
| Ticks (now : Q)
| Schedules (now : Q)
| Downloads (now : Q) (chunk_file : option (list string)) (output_file : string)
| ForgetsRequests (now : Q) (timeout : Q)
| ForgetsTasks.

Definition step (ho : Packet.byteorder) (writable : string -> bool)
           (dm : DownloadManager) (e : event) : DownloadManager :=
  match e with
  | Receives now pkt_info from_addr =>
      snd (handle_incoming_packet ho writable now pkt_info from_addr dm)
  | Ticks now => snd (handle_timeouts ho writable now dm)
  | Schedules now => schedule_downloads ho now dm
  | Downloads now chunk_file output_file =>
      snd (start_download ho now chunk_file output_file dm)
  | ForgetsRequests now timeout =>
      snd (on_handshake
             (fun hm => (tt, Handshake.cleanup_old_requests now timeout hm)) dm)
  | ForgetsTasks => cleanup_completed_tasks dm
  end.

Definition run (ho : Packet.byteorder) (writable : string -> bool)
           (es : list event) (dm : DownloadManager) : DownloadManager :=
  fold_left (step ho writable) es dm.

(** What holds of a download manager after any events: the three objects
    share the context, the handshake manager's slots are as admitted, the
    transfer manager uploads only under keys that hold a slot, and the keys
    of its downloads are distinct. *)
Definition wired (ctx : PeerContext) (dm : DownloadManager) : Prop :=
  context dm = ctx
  /\ Transfer.context (reliable_transfer dm) = ctx
  /\ Discovery.admitted ctx (handshake_manager dm)
  /\ (forall key,
        dict_in key (Transfer.upload_connections (reliable_transfer dm)) = true ->
        dict_in key (Handshake.upload_connections (handshake_manager dm)) = true)
  /\ NoDup (map fst (Transfer.download_connections (reliable_transfer dm))).

(** A transfer manager after an operation that keeps the context, adds no
    upload key and keeps the download keys distinct. *)
Definition kept (rt rt' : Transfer.ReliableTransfer) : Prop :=
  Transfer.context rt' = Transfer.context rt
  /\ (forall key, dict_in key (Transfer.upload_connections rt') = true ->
                  dict_in key (Transfer.upload_connections rt) = true)
  /\ (NoDup (map fst (Transfer.download_connections rt)) ->
      NoDup (map fst (Transfer.download_connections rt'))).

(** What holds of the tasks after any events: every task is sound, the
    references from [next_task] on are unused, and every write recorded in
    [files] is the path and the received chunks of a completed task. *)
Definition booked (dm : DownloadManager) : Prop :=
  (forall ref t, tasks dm !! ref = Some t -> Tasks.sound t)
  /\ (forall ref, (next_task dm <= ref)%nat -> tasks dm !! ref = None)
  /\ Forall (fun w => exists ref t,
                 tasks dm !! ref = Some t
                 /\ w = (output_file t, received_chunks t)
                 /\ completed t = true)
            (files dm).

Definition sane (ctx : PeerContext) (dm : DownloadManager) : Prop :=
  wired ctx dm /\ booked dm.

(** The upload slots of the handshake manager. *)
Definition slots (dm : DownloadManager) : pydict (AddressType * string) Connection :=
  Handshake.upload_connections (handshake_manager dm).

(** [dm'] is a sane manager whose slots are those of [dm] and more. *)
Definition advance (ctx : PeerContext) (dm dm' : DownloadManager) : Prop :=
  sane ctx dm' /\ exists more, slots dm' = slots dm ++ more.

(** The parts of a download manager that a delivered chunk changes. *)
Definition outcome (dm : DownloadManager)
  : gmap nat DownloadTask * list (string * pydict string bytes) * list string :=
  (tasks dm, files dm, printed dm).

Definition everything_writable (path : string) : bool := true.

(** A peer that holds nothing, asks for one chunk, is told by the peer at
    [seeder] that it has the chunk, and is sent the chunk in one DATA
    packet. *)
Definition seeder : AddressType := ("10.0.0.2"%string, 48002).

Definition one_chunk : bytes := repeat x00 (Z.to_nat (512 * 1024)).

Definition data_info (seq : Z) (data : bytes) (from : AddressType)
  : Packet.PacketInfo :=
  {| Packet.pkt_type := Packet.PktType.DATA; Packet.header_len := 12;
     Packet.pkt_len := 12 + len data; Packet.seq_num := seq;
     Packet.ack_num := 0; Packet.payload := data;
     Packet.from_addr := Some from |}.

Definition one_chunk_download : list event :=
  [Downloads 0 (Some [String.append "0 " (Hex.bytes_to_hex_string (repeat x01 20))])
             "out";
   Receives 1 (Discovery.packet_of Packet.PktType.IHAVE (repeat x01 20) (Some seeder))
            seeder;
   Receives 2 (data_info 1 one_chunk seeder) seeder].

(** A peer with two upload slots that holds one chunk of 2000 bytes. *)
Definition holder : DownloadManager :=
  new_download_manager
    {| has_chunks := {[ Hex.bytes_to_hex_string (repeat x01 20) := repeat x07 2000 ]};
       max_conn := 2; verbose := 0; timeout := 0 |}
    Discovery.three_peers [].

Definition downloader : DownloadManager :=
  new_download_manager
    {| has_chunks := ∅; max_conn := 2; verbose := 0; timeout := 0 |}
    Discovery.three_peers [].

End Dispatch.

(* ===================================================================== *)
(** * Dictionaries and filters *)
(* ===================================================================== *)

Module DictFacts.

Section Dict.
Context {K V : Type} `{EqDecision K}.
Implicit Types (k : K) (v : V) (d : pydict K V).

Lemma dict_get_set_eq k v d : dict_get k (dict_set k v d) = Some v.
Proof.
  induction d as [|[k' v'] d IH]; cbn.
  - destruct (decide (k = k)); congruence.
  - destruct (decide (k = k')) as [->|Hne]; cbn.
    + destruct (decide (k' = k')); congruence.
    + destruct (decide (k = k')); congruence.
Qed.

Lemma dict_get_set_ne k k' v d :
  k' <> k -> dict_get k' (dict_set k v d) = dict_get k' d.
Proof.
  intros Hne. induction d as [|[k0 v0] d IH]; cbn.
  - destruct (decide (k' = k)); congruence.
  - destruct (decide (k = k0)) as [->|Hk]; cbn.
    + destruct (decide (k' = k0)); congruence.
    + destruct (decide (k' = k0)); [reflexivity|exact IH].
Qed.

Lemma dict_get_None k d : ~ In k (map fst d) <-> dict_get k d = None.
Proof.
  induction d as [|[k' v] d IH]; cbn; [tauto|].
  destruct (decide (k = k')) as [->|Hne].
  - split; [tauto|discriminate].
  - rewrite <- IH. split; [tauto|]. intros Hn [E|Hin]; [congruence|tauto].
Qed.

Lemma dict_get_In k v d : dict_get k d = Some v -> In (k, v) d.
Proof.
  induction d as [|[k' v'] d IH]; cbn; [discriminate|].
  destruct (decide (k = k')) as [->|Hne].
  - intros [= ->]. now left.
  - intros H. right. now apply IH.
Qed.

Lemma dict_in_keys k d : dict_in k d = true <-> In k (map fst d).
Proof.
  unfold dict_in. destruct (dict_get k d) as [v|] eqn:E.
  - split; [intros _|reflexivity].
    apply dict_get_In in E. apply (in_map fst) in E. exact E.
  - split; [discriminate|]. intros Hin. apply dict_get_None in E. contradiction.
Qed.

Lemma dict_set_new k v d : dict_get k d = None -> dict_set k v d = d ++ [(k, v)].
Proof.
  induction d as [|[k' v'] d IH]; cbn; [reflexivity|].
  destruct (decide (k = k')); [discriminate|]. intros H. now rewrite IH.
Qed.

Lemma dict_set_keys k v d :
  map fst (dict_set k v d)
  = if dict_in k d then map fst d else map fst d ++ [k].
Proof.
  unfold dict_in. induction d as [|[k' v'] d IH]; cbn; [reflexivity|].
  destruct (decide (k = k')) as [->|Hne]; cbn; [reflexivity|].
  rewrite IH. destruct (dict_get k d); reflexivity.
Qed.

Lemma dict_set_single k v v' : dict_set k v' [(k, v)] = [(k, v')].
Proof. cbn. destruct (decide (k = k)); congruence. Qed.

Lemma Forall_dict_set (P : K * V -> Prop) k v d :
  (forall k', P (k', v)) -> Forall P d -> Forall P (dict_set k v d).
Proof.
  intros Hv. induction 1 as [|[k0 v0] d H0 Hd IH]; cbn.
  - constructor; [apply Hv|constructor].
  - destruct (decide (k = k0)); constructor; auto.
Qed.

Lemma NoDup_key_unique d k v v' :
  NoDup (map fst d) -> In (k, v) d -> In (k, v') d -> v = v'.
Proof.
  induction d as [|[k0 v0] d IH]; [intros _ []|].
  cbn [map fst]. intros Hnd. apply NoDup_cons in Hnd as [Hni Hnd].
  intros [E1|H1] [E2|H2].
  - congruence.
  - injection E1 as -> ->. exfalso. apply Hni.
    apply list_elem_of_In. apply (in_map fst) in H2. exact H2.
  - injection E2 as -> ->. exfalso. apply Hni.
    apply list_elem_of_In. apply (in_map fst) in H1. exact H1.
  - now apply IH.
Qed.

Lemma Forall_dict_set_key (P : K * V -> Prop) k v d :
  P (k, v) -> Forall P d -> Forall P (dict_set k v d).
Proof.
  intros Hv. induction 1 as [|[k0 v0] d H0 Hd IH]; cbn.
  - constructor; [exact Hv|constructor].
  - destruct (decide (k = k0)) as [<-|]; constructor; auto.
Qed.

Lemma NoDup_dict_set k v d :
  NoDup (map fst d) -> NoDup (map fst (dict_set k v d)).
Proof.
  intros H. rewrite dict_set_keys. destruct (dict_in k d) eqn:E; [exact H|].
  apply NoDup_app. split; [exact H|]. split; [|apply NoDup_singleton].
  intros x Hx Hx'. apply list_elem_of_singleton in Hx'. subst x.
  apply list_elem_of_In, dict_in_keys in Hx. congruence.
Qed.

End Dict.

Lemma filter_twice {A} (f : A -> bool) (l : list A) :
  List.filter f (List.filter f l) = List.filter f l.
Proof.
  induction l as [|x l IH]; [reflexivity|]. cbn.
  destruct (f x) eqn:E; cbn; rewrite ?E, IH; reflexivity.
Qed.

Lemma filter_none {A} (f : A -> bool) (l : list A) :
  Forall (fun x => f x = false) l -> List.filter f l = [].
Proof.
  induction 1 as [|x l Hx _ IH]; [reflexivity|]. cbn. rewrite Hx. exact IH.
Qed.

Lemma filter_all {A} (f : A -> bool) (l : list A) :
  Forall (fun x => f x = true) l -> List.filter f l = l.
Proof.
  induction 1 as [|x l Hx _ IH]; [reflexivity|]. cbn. rewrite Hx, IH. reflexivity.
Qed.

End DictFacts.

(* ===================================================================== *)
(** * The codec: round trip and errors *)
(* ===================================================================== *)

Module PacketFacts.

Import Packet Wire.

Lemma Z_of_byte_range (b : byte) : 0 <= Z_of_byte b < 256.
Proof.
  unfold Z_of_byte. pose proof (Byte.to_N_bounded b). lia.
Qed.

Lemma Z_of_byte_of_Z (z : Z) : Z_of_byte (byte_of_Z z) = z mod 256.
Proof.
  unfold Z_of_byte, byte_of_Z.
  pose proof (Z.mod_pos_bound z 256 ltac:(lia)) as Hr.
  destruct (Byte.of_N (Z.to_N (z mod 256))) as [b|] eqn:E.
  - apply Byte.to_of_N in E. rewrite E. lia.
  - apply Byte.of_N_None_iff in E. lia.
Qed.

Lemma byte_of_Z_of_byte (b : byte) : byte_of_Z (Z_of_byte b) = b.
Proof.
  unfold byte_of_Z.
  rewrite Z.mod_small by apply Z_of_byte_range.
  unfold Z_of_byte. rewrite N2Z.id, Byte.of_to_N. reflexivity.
Qed.

Lemma le_encode_length n v : length (le_encode n v) = n.
Proof. revert v. induction n; intros; simpl; auto. Qed.

Lemma le_decode_range bs : 0 <= le_decode bs < 256 ^ Z.of_nat (length bs).
Proof.
  induction bs as [|b bs IH].
  - simpl. lia.
  - cbn [le_decode length]. rewrite Nat2Z.inj_succ, Z.pow_succ_r by lia.
    pose proof (Z_of_byte_range b). lia.
Qed.

Lemma le_decode_encode n v : le_decode (le_encode n v) = v mod 256 ^ Z.of_nat n.
Proof.
  revert v. induction n as [|n IH]; intros v.
  - simpl. rewrite Z.mod_1_r. reflexivity.
  - cbn [le_encode le_decode]. rewrite IH, Z_of_byte_of_Z.
    rewrite Nat2Z.inj_succ, Z.pow_succ_r by lia.
    rewrite Z.rem_mul_r by lia. reflexivity.
Qed.

Lemma le_encode_decode bs : le_encode (length bs) (le_decode bs) = bs.
Proof.
  induction bs as [|b bs IH]; [reflexivity|].
  cbn [length le_encode le_decode].
  pose proof (Z_of_byte_range b) as Hb.
  assert (Hm : (Z_of_byte b + 256 * le_decode bs) mod 256 = Z_of_byte b)
    by (symmetry; apply Z.mod_unique_pos with (le_decode bs); lia).
  assert (Hd : (Z_of_byte b + 256 * le_decode bs) / 256 = le_decode bs)
    by (symmetry; apply Z.div_unique_pos with (Z_of_byte b); lia).
  rewrite Hd, IH. f_equal.
  unfold byte_of_Z. rewrite Hm.
  unfold Z_of_byte. rewrite N2Z.id, Byte.of_to_N. reflexivity.
Qed.

Lemma be_decode_encode n v : be_decode (be_encode n v) = v mod 256 ^ Z.of_nat n.
Proof.
  unfold be_decode, be_encode. rewrite rev_involutive. apply le_decode_encode.
Qed.

Lemma host_encode_length ho n v : length (host_encode ho n v) = n.
Proof.
  destruct ho; simpl; unfold be_encode; rewrite ?length_rev; apply le_encode_length.
Qed.

Lemma host_decode_range ho bs : 0 <= host_decode ho bs < 256 ^ Z.of_nat (length bs).
Proof.
  destruct ho; simpl; [apply le_decode_range|].
  unfold be_decode. rewrite <- (length_rev bs). apply le_decode_range.
Qed.

(** Writing a host integer that was read from [n] bytes gives the bytes back. *)
Lemma host_encode_decode ho bs :
  host_encode ho (length bs) (host_decode ho bs) = bs.
Proof.
  destruct ho; simpl; [apply le_encode_decode|].
  unfold be_encode, be_decode.
  rewrite <- (length_rev bs), le_encode_decode. apply rev_involutive.
Qed.

Lemma fits_spec bits x : fits bits x = true <-> 0 <= x < 2 ^ bits.
Proof. unfold fits. rewrite andb_true_iff, Z.leb_le, Z.ltb_lt. tauto. Qed.

Lemma host_encode_1 ho v : host_encode ho 1 v = [byte_of_Z v].
Proof. destruct ho; reflexivity. Qed.

Lemma be_encode_length n v : length (be_encode n v) = n.
Proof. unfold be_encode. rewrite length_rev. apply le_encode_length. Qed.

Lemma host_roundtrip ho n v :
  host_encode ho n (host_decode ho (be_encode n v)) = be_encode n v.
Proof.
  rewrite <- (be_encode_length n v) at 1. apply host_encode_decode.
Qed.

Lemma fits_host_decode ho n v :
  fits (8 * Z.of_nat n) (host_decode ho (be_encode n v)) = true.
Proof.
  apply fits_spec.
  pose proof (host_decode_range ho (be_encode n v)) as H.
  rewrite be_encode_length in H.
  replace (2 ^ (8 * Z.of_nat n)) with (256 ^ Z.of_nat n); [exact H|].
  rewrite Z.pow_mul_r by lia. reflexivity.
Qed.

Lemma build_header_ok ho ty total seq ack :
  fits 8 ty = true -> fits 16 total = true ->
  fits 32 seq = true -> fits 32 ack = true ->
  build_header ho ty total seq ack = Ok (wire_header ty total seq ack).
Proof.
  intros Hty Htot Hseq Hack.
  unfold build_header, htons, htonl. rewrite Htot, Hseq, Hack.
  cbn [bind]. unfold pack, HEADER_FMT.
  cbn -[fits host_encode host_decode be_encode Z.of_nat Z.mul].
  rewrite !fits_host_decode, !host_roundtrip, !host_encode_1.
  change (8 * Z.of_nat 1) with 8. rewrite Hty.
  replace (fits 8 HEADER_LEN) with true by reflexivity.
  cbn [bind]. rewrite app_nil_r. reflexivity.
Qed.

Lemma Z_le_0_8 : 0 <= 8.
Proof. lia. Qed.

Lemma mod_fits bits x :
  0 <= bits -> fits bits x = true -> x mod 2 ^ bits = x.
Proof. intros Hb H. apply fits_spec in H. apply Z.mod_small. exact H. Qed.

Lemma ntohs_host ho x : fits 16 x = true ->
  ntohs ho (host_decode ho (be_encode 2 x)) = Ok x.
Proof.
  intros H. unfold ntohs.
  rewrite (fits_host_decode ho 2 x : fits 16 _ = true).
  rewrite host_roundtrip, be_decode_encode.
  f_equal. apply (mod_fits 16); [lia | exact H].
Qed.

Lemma ntohl_host ho x : fits 32 x = true ->
  ntohl ho (host_decode ho (be_encode 4 x)) = Ok x.
Proof.
  intros H. unfold ntohl.
  rewrite (fits_host_decode ho 4 x : fits 32 _ = true).
  rewrite host_roundtrip, be_decode_encode.
  f_equal. apply (mod_fits 32); [lia | exact H].
Qed.

Lemma host_decode_1 ho b : host_decode ho [b] = Z_of_byte b.
Proof. destruct ho; cbn; lia. Qed.

Lemma len_app {A} (l1 l2 : list A) : len (l1 ++ l2) = len l1 + len l2.
Proof. unfold len. rewrite length_app. lia. Qed.

Lemma list_2 {A} (l : list A) : length l = 2%nat -> exists a b, l = [a; b].
Proof. destruct l as [|a [|b [|]]]; try discriminate. eauto. Qed.

Lemma list_4 {A} (l : list A) :
  length l = 4%nat -> exists a b c d, l = [a; b; c; d].
Proof.
  destruct l as [|a [|b [|c [|d [|]]]]]; try discriminate. eauto 6.
Qed.

(** Unpacking reads back, field by field, what the header was packed from. *)
Lemma unpack_wire ho ty total seq ack data :
  unpack ho HEADER_FMT
         (slice_to HEADER_LEN (wire_header ty total seq ack ++ data))
  = Ok [Z_of_byte (byte_of_Z ty); Z_of_byte (byte_of_Z HEADER_LEN);
        host_decode ho (be_encode 2 total);
        host_decode ho (be_encode 4 seq);
        host_decode ho (be_encode 4 ack)]
  /\ slice_from HEADER_LEN (wire_header ty total seq ack ++ data) = data.
Proof.
  unfold wire_header.
  destruct (list_2 _ (be_encode_length 2 total)) as (t1 & t0 & ->).
  destruct (list_4 _ (be_encode_length 4 seq)) as (s3 & s2 & s1 & s0 & ->).
  destruct (list_4 _ (be_encode_length 4 ack)) as (a3 & a2 & a1 & a0 & ->).
  split; [|reflexivity].
  unfold slice_to. change (Z.to_nat HEADER_LEN) with 12%nat.
  cbn [app take]. unfold unpack.
  replace (len _ =? calcsize HEADER_FMT) with true by reflexivity.
  unfold HEADER_FMT.
  cbn -[host_decode Z_of_byte byte_of_Z].
  rewrite !host_decode_1. reflexivity.
Qed.

(** Parsing a datagram made of a well-formed header and its payload. *)
Lemma parse_wire ho ty seq ack data from :
  fits 8 ty = true -> fits 16 (HEADER_LEN + len data) = true ->
  fits 32 seq = true -> fits 32 ack = true ->
  parse_packet ho (wire_header ty (HEADER_LEN + len data) seq ack ++ data) from
  = Ok (parsed ty (HEADER_LEN + len data) seq ack data from).
Proof.
  intros Hty Htot Hseq Hack.
  unfold parse_packet.
  assert (Hlen : len (wire_header ty (HEADER_LEN + len data) seq ack ++ data)
                 = HEADER_LEN + len data).
  { rewrite len_app. reflexivity. }
  rewrite Hlen.
  replace (HEADER_LEN + len data <? HEADER_LEN) with false
    by (symmetry; apply Z.ltb_ge; unfold len; lia).
  destruct (unpack_wire ho ty (HEADER_LEN + len data) seq ack data) as [-> Hpay].
  cbn [bind].
  rewrite ntohs_host, !ntohl_host by assumption.
  cbn [bind]. rewrite Z.eqb_refl. cbn [negb].
  rewrite !Z_of_byte_of_Z.
  rewrite (mod_fits 8 ty Z_le_0_8 Hty : ty mod 256 = ty).
  replace (HEADER_LEN mod 256) with HEADER_LEN by reflexivity.
  unfold parsed.
  destruct (HEADER_LEN <? HEADER_LEN + len data) eqn:E.
  - rewrite Hpay. reflexivity.
  - apply Z.ltb_ge in E. destruct data; [reflexivity|].
    unfold len in E. cbn [length] in E. lia.
Qed.

Lemma roundtrips_header ho ty seq ack data :
  fits 8 ty = true -> fits 16 (HEADER_LEN + len data) = true ->
  fits 32 seq = true -> fits 32 ack = true ->
  roundtrips ho (hdr <-! build_header ho ty (HEADER_LEN + len data) seq ack ;
                 Ok (hdr ++ data)) ty seq ack data.
Proof.
  intros Hty Htot Hseq Hack.
  rewrite build_header_ok by assumption. cbn [bind].
  eexists; split; [reflexivity|]. intros from. now apply parse_wire.
Qed.

Lemma len_nonneg {A} (l : list A) : 0 <= len l.
Proof. unfold len. lia. Qed.

Lemma fits_intro bits x : 0 <= x < 2 ^ bits -> fits bits x = true.
Proof. apply fits_spec. Qed.

Lemma roundtrips_parses_back ho m :
  roundtrips ho (build ho m) (msg_type m) (msg_seq m) (msg_ack m) (msg_payload m) ->
  parses_back ho m.
Proof. intros H. exact H. Qed.

Lemma fits_total (data : bytes) :
  Packet.HEADER_LEN + len data < 2 ^ 16 ->
  fits 16 (Packet.HEADER_LEN + len data) = true.
Proof.
  intros H. apply fits_intro. pose proof (len_nonneg data).
  split; [|exact H]. change HEADER_LEN with 12. lia.
Qed.

Lemma parses_back_who_has ho hs :
  hs <> [] -> fits_pkt_len (WhoHas hs) -> parses_back ho (WhoHas hs).
Proof.
  intros Hne Hfit. apply roundtrips_parses_back.
  destruct hs as [|h hs]; [congruence|].
  apply roundtrips_header; [reflexivity | | reflexivity | reflexivity].
  now apply fits_total.
Qed.

Lemma parses_back_i_have ho hs :
  hs <> [] -> fits_pkt_len (IHave hs) -> parses_back ho (IHave hs).
Proof.
  intros Hne Hfit. apply roundtrips_parses_back.
  destruct hs as [|h hs]; [congruence|].
  apply roundtrips_header; [reflexivity | | reflexivity | reflexivity].
  now apply fits_total.
Qed.

Lemma parses_back_get ho h : len h = 20 -> parses_back ho (Get h).
Proof.
  intros Hh. apply roundtrips_parses_back.
  cbn [build]. unfold build_get_packet.
  replace (len h =? 20) with true by (symmetry; apply Z.eqb_eq; exact Hh).
  cbn [negb]. apply roundtrips_header; [reflexivity | | reflexivity | reflexivity].
  apply fits_total. cbn [msg_payload]. change HEADER_LEN with 12. lia.
Qed.

Lemma parses_back_data ho seq data :
  len data <= 1388 -> 0 <= seq < 2 ^ 32 -> parses_back ho (Data seq data).
Proof.
  intros Hd Hs. apply roundtrips_parses_back.
  cbn [build]. unfold build_data_packet.
  replace (len data >? MAX_PAYLOAD_SIZE) with false
    by (symmetry; change MAX_PAYLOAD_SIZE with 1388; lia).
  apply roundtrips_header; [reflexivity | | | reflexivity].
  - apply fits_total. cbn [msg_payload]. change HEADER_LEN with 12. lia.
  - now apply fits_intro.
Qed.

Lemma parses_back_ack ho ack : 0 <= ack < 2 ^ 32 -> parses_back ho (Ack ack).
Proof.
  intros Ha. apply roundtrips_parses_back.
  cbn [build msg_type msg_seq msg_ack msg_payload]. unfold build_ack_packet.
  pose proof (roundtrips_header ho PktType.ACK 0 ack [] eq_refl eq_refl eq_refl
                (fits_intro 32 ack Ha)) as (pkt & Hb & Hp).
  exists pkt. split; [|exact Hp].
  destruct (build_header ho PktType.ACK (HEADER_LEN + len []) 0 ack) as [hdr|e] eqn:E;
    cbn [bind] in Hb; [|discriminate].
  injection Hb as <-. rewrite app_nil_r. exact E.
Qed.

Lemma parses_back_denied ho : parses_back ho Denied.
Proof.
  apply roundtrips_parses_back.
  cbn [build msg_type msg_seq msg_ack msg_payload]. unfold build_denied_packet.
  pose proof (roundtrips_header ho PktType.DENIED 0 0 [] eq_refl eq_refl eq_refl
                eq_refl) as (pkt & Hb & Hp).
  exists pkt. split; [|exact Hp].
  destruct (build_header ho PktType.DENIED (HEADER_LEN + len []) 0 0) as [hdr|e] eqn:E;
    cbn [bind] in Hb; [|discriminate].
  injection Hb as <-. rewrite app_nil_r. exact E.
Qed.

(** C6 (as amended): every legal message whose datagram length fits the
    16-bit length field is built without error, and parsing the datagram
    gives back its type, header length 12, total length, sequence number,
    acknowledgement number and payload. *)
Theorem codec_roundtrip ho m :
  legal m -> fits_pkt_len m -> parses_back ho m.
Proof.
  intros Hlegal Hfit.
  destruct m as [hs|hs|h|seq data|ack|]; cbn [legal] in Hlegal.
  - destruct Hlegal as [Hne _]. now apply parses_back_who_has.
  - destruct Hlegal as [Hne _]. now apply parses_back_i_have.
  - now apply parses_back_get.
  - destruct Hlegal as [Hd Hs]. now apply parses_back_data.
  - now apply parses_back_ack.
  - apply parses_back_denied.
Qed.

Lemma codec_roundtrip_witness :
  parses_back Little (Data 7 [x61; x62; x63])
  /\ parses_back Big (WhoHas [digest_of x01; digest_of x02]).
Proof.
  split.
  - apply (codec_roundtrip Little (Data 7 [x61; x62; x63])).
    + unfold legal, len. simpl. lia.
    + unfold fits_pkt_len. vm_compute. reflexivity.
  - apply (codec_roundtrip Big (WhoHas [digest_of x01; digest_of x02])).
    + split; [discriminate|]. repeat constructor.
    + unfold fits_pkt_len. vm_compute. reflexivity.
Defined.

(** C6 as stated fails: 3277 digests of 20 bytes are a legal WHOHAS payload,
    yet the datagram would be 65552 bytes long and [htons] refuses the
    length; no datagram is built, on either kind of host. *)
Lemma codec_roundtrip_counterexample :
  legal (WhoHas (repeat (digest_of x00) 3277))
  /\ build Little (WhoHas (repeat (digest_of x00) 3277)) = Raise OverflowError
  /\ build Big (WhoHas (repeat (digest_of x00) 3277)) = Raise OverflowError
  /\ ~ parses_back Little (WhoHas (repeat (digest_of x00) 3277)).
Proof.
  assert (Hl : build Little (WhoHas (repeat (digest_of x00) 3277)) = Raise OverflowError)
    by (vm_compute; reflexivity).
  split; [|split; [exact Hl | split]].
  - split.
    + intros H. apply (f_equal (@length _)) in H. rewrite repeat_length in H.
      discriminate.
    + apply List.Forall_forall. intros h Hin. apply repeat_spec in Hin. subst h.
      reflexivity.
  - vm_compute; reflexivity.
  - intros (pkt & Hb & _). rewrite Hl in Hb. discriminate.
Qed.

Lemma list_12 {A} (l : list A) :
  (12 <= length l)%nat ->
  exists b0 b1 b2 b3 b4 b5 b6 b7 b8 b9 b10 b11 rest,
    l = b0 :: b1 :: b2 :: b3 :: b4 :: b5 :: b6 :: b7 :: b8 :: b9 :: b10 :: b11 :: rest.
Proof.
  intros H.
  do 12 (destruct l as [|? l]; [cbn in H; lia|]).
  eauto 20.
Qed.

Lemma fits_host_decode_raw ho bs n :
  length bs = n -> fits (8 * Z.of_nat n) (host_decode ho bs) = true.
Proof.
  intros <-. apply fits_spec.
  pose proof (host_decode_range ho bs) as H.
  replace (2 ^ (8 * Z.of_nat (length bs))) with (256 ^ Z.of_nat (length bs));
    [exact H|].
  rewrite Z.pow_mul_r by lia. reflexivity.
Qed.

(** On a datagram of at least 12 bytes the parser compares the declared
    length with the actual one and nothing else can fail. *)
Lemma parse_packet_length_check ho packet from :
  HEADER_LEN <= len packet ->
  declared_pkt_len packet <> len packet ->
  parse_packet ho packet from = Raise (ValueError "Packet length mismatch").
Proof.
  intros Hlen Hdecl.
  destruct (list_12 packet) as
    (b0 & b1 & b2 & b3 & b4 & b5 & b6 & b7 & b8 & b9 & b10 & b11 & rest & ->).
  { change HEADER_LEN with 12 in Hlen. unfold len in Hlen. lia. }
  unfold parse_packet.
  replace (len _ <? HEADER_LEN) with false by (symmetry; apply Z.ltb_ge; exact Hlen).
  unfold slice_to. change (Z.to_nat HEADER_LEN) with 12%nat.
  cbn [take]. unfold unpack.
  replace (len _ =? calcsize HEADER_FMT) with true by reflexivity.
  unfold HEADER_FMT.
  cbn -[host_decode ntohs ntohl len].
  unfold ntohs, ntohl.
  rewrite (fits_host_decode_raw ho [b2; b3] 2 eq_refl : fits 16 _ = true).
  cbn [bind].
  rewrite (fits_host_decode_raw ho [b4; b5; b6; b7] 4 eq_refl
           : fits 32 (host_decode ho [b4; b5; b6; b7]) = true).
  cbn [bind]. change (take 0 (take 0 rest)) with (@nil byte).
  rewrite (fits_host_decode_raw ho [b8; b9; b10; b11] 4 eq_refl
           : fits 32 (host_decode ho [b8; b9; b10; b11]) = true).
  cbn [bind].
  rewrite (host_encode_decode ho [b2; b3]
           : host_encode ho 2 (host_decode ho [b2; b3]) = [b2; b3]).
  replace (len _ =? be_decode [b2; b3]) with false; [reflexivity|].
  symmetry. apply Z.eqb_neq. intros E. apply Hdecl. symmetry. exact E.
Qed.

Lemma build_ack_packet_ok ho ack :
  0 <= ack < 2 ^ 32 ->
  build_ack_packet ho ack = Ok (wire_header PktType.ACK HEADER_LEN 0 ack).
Proof.
  intros H. unfold build_ack_packet.
  apply build_header_ok; try reflexivity. now apply fits_intro.
Qed.

End PacketFacts.

(* ===================================================================== *)
(** * The connection: receive buffer and congestion window *)
(* ===================================================================== *)

Module ConnFacts.

Import Conn Runs.

(** ** The receive loop *)

Lemma drain_mono n rb a cd : a <= fst (drain n rb a cd).
Proof.
  revert a cd. induction n as [|n IH]; intros a cd; cbn [drain].
  - simpl. lia.
  - destruct (rb !! (a + 1)) as [d|]; [|simpl; lia].
    specialize (IH (a + 1) (cd ++ d)). lia.
Qed.

(** The loop only looks at keys above the acknowledgement number. *)
Lemma drain_agree n (rb rb' : gmap Z bytes) a cd :
  (forall k, a < k -> rb !! k = rb' !! k) ->
  drain n rb a cd = drain n rb' a cd.
Proof.
  revert a cd. induction n as [|n IH]; intros a cd Hag; cbn [drain]; [reflexivity|].
  pose proof (Hag (a + 1) ltac:(lia)) as E.
  destruct (rb !! (a + 1)) as [d|], (rb' !! (a + 1)) as [d'|];
    try discriminate; [|reflexivity].
  injection E as <-.
  apply IH. intros k Hk. apply Hag. lia.
Qed.

(** As many steps as the buffer has keys are enough: the loop stops because
    [ack_num + 1] is not in the buffer. *)
Lemma drain_exits n (rb : gmap Z bytes) a cd :
  (size rb <= n)%nat -> rb !! (fst (drain n rb a cd) + 1) = None.
Proof.
  revert rb a cd. induction n as [|n IH]; intros rb a cd Hsz; cbn [drain].
  - assert (rb = ∅) as -> by (apply map_size_empty_inv; lia).
    apply lookup_empty.
  - destruct (rb !! (a + 1)) as [d|] eqn:E; [|exact E].
    rewrite (drain_agree n rb (delete (a + 1) rb)).
    + pose proof (drain_mono n (delete (a + 1) rb) (a + 1) (cd ++ d)) as Hm.
      specialize (IH (delete (a + 1) rb) (a + 1) (cd ++ d)).
      rewrite lookup_delete_ne in IH by lia.
      apply IH. rewrite map_size_delete, E. lia.
    + intros k Hk. rewrite lookup_delete_ne by lia. reflexivity.
Qed.

Lemma drain_present n (rb : gmap Z bytes) a cd k :
  a < k <= fst (drain n rb a cd) -> is_Some (rb !! k).
Proof.
  revert a cd. induction n as [|n IH]; intros a cd; cbn [drain].
  - simpl. lia.
  - destruct (rb !! (a + 1)) as [d|] eqn:E; [|simpl; lia].
    intros Hk. destruct (decide (k = a + 1)) as [->|Hne]; [eauto|].
    apply (IH (a + 1) (cd ++ d)). lia.
Qed.

(** What the loop appends: the payloads of the keys it consumes, in order. *)
Lemma drain_data n (rb : gmap Z bytes) (p : Z -> bytes) a cd :
  (forall k d, rb !! k = Some d -> d = p k) ->
  0 <= a ->
  cd = concat (p <$> seqZ 1 a) ->
  snd (drain n rb a cd) = concat (p <$> seqZ 1 (fst (drain n rb a cd))).
Proof.
  intros Hp. revert a cd. induction n as [|n IH]; intros a cd Ha Hcd; cbn [drain].
  - exact Hcd.
  - destruct (rb !! (a + 1)) as [d|] eqn:E; [|exact Hcd].
    apply IH; [lia|].
    rewrite (seqZ_app 1 a 1) by lia.
    rewrite fmap_app, concat_app, <- Hcd.
    rewrite (seqZ_cons (1 + a) 1), seqZ_nil by lia.
    cbn. rewrite app_nil_r. f_equal. rewrite (Hp _ _ E). f_equal. lia.
Qed.

(** ** Receiving data: what [recv_buffer] holds *)

Lemma delivered_prefix_new now peer h dir :
  delivered_prefix (new_connection now peer h dir).
Proof.
  split; [|split]; cbn.
  - lia.
  - reflexivity.
  - intros; lia.
Qed.

Lemma add_received_data_prefix seq data c :
  delivered_prefix c -> delivered_prefix (snd (add_received_data seq data c)).
Proof.
  intros (H0 & Hnext & Hpre). unfold add_received_data.
  destruct (negb (is_download c)); [split; [|split]; assumption|].
  destruct (recv_buffer c !! seq) as [d|] eqn:E; [split; [|split]; assumption|].
  cbn -[drain size].
  set (rb := <[seq:=data]> (recv_buffer c)).
  pose proof (drain_mono (size rb) rb (ack_num c) (chunk_data c)) as Hm.
  pose proof (drain_exits (size rb) rb (ack_num c) (chunk_data c) (Nat.le_refl _)) as Hx.
  pose proof (drain_present (size rb) rb (ack_num c) (chunk_data c)) as Hp.
  destruct (drain (size rb) rb (ack_num c) (chunk_data c)) as [ack cd] eqn:Ed.
  cbn in *. unfold delivered_prefix. cbn. split; [|split]; [lia | exact Hx |].
  intros s Hs. destruct (decide (s <= ack_num c)) as [Hle|Hgt].
  - assert (Hr : 1 <= s <= ack_num c) by lia.
    destruct (Hpre s Hr) as [x Hx']. unfold rb.
    destruct (decide (s = seq)) as [->|Hne]; [congruence|].
    rewrite lookup_insert_ne by congruence. eauto.
  - apply Hp. lia.
Qed.

Lemma receive_all_prefix ops c :
  delivered_prefix c -> delivered_prefix (receive_all ops c).
Proof.
  revert c. induction ops as [|op ops IH]; intros c Hc; [exact Hc|].
  cbn [receive_all fold_left]. apply IH. now apply add_received_data_prefix.
Qed.

(** C3 (as amended): after any sequence of [add_received_data] operations on
    a fresh download connection, [ack_num] is not negative, every sequence
    number of the delivered prefix [1..ack_num] is still a key of
    [recv_buffer], and the next expected sequence number [ack_num + 1] is
    never a key; so every key is at most [ack_num] or greater than
    [ack_num + 1]. *)
Theorem recv_buffer_keys now peer h ops k :
  let c := receive_all ops (new_connection now peer h DOWNLOAD) in
  0 <= ack_num c
  /\ (1 <= k <= ack_num c -> is_Some (recv_buffer c !! k))
  /\ recv_buffer c !! (ack_num c + 1) = None
  /\ (is_Some (recv_buffer c !! k) -> k <= ack_num c \/ ack_num c + 1 < k).
Proof.
  intros c.
  destruct (receive_all_prefix ops _ (delivered_prefix_new now peer h DOWNLOAD))
    as (H0 & Hnext & Hpre).
  fold c in H0, Hnext, Hpre. split; [exact H0|]. split; [apply Hpre|].
  split; [exact Hnext|].
  intros [d Hd].
  destruct (decide (k = ack_num c + 1)) as [->|Hne]; [congruence|lia].
Qed.

Lemma recv_buffer_keys_witness :
  let c := receive_all [(3, [x63]); (1, [x61]); (2, [x62])]
                       (new_connection 0 (EmptyString, 0) EmptyString DOWNLOAD) in
  is_Some (recv_buffer c !! 2) /\ (2 <= ack_num c \/ ack_num c + 1 < 2).
Proof.
  intros c.
  pose proof (recv_buffer_keys 0 (EmptyString, 0) EmptyString
                [(3, [x63]); (1, [x61]); (2, [x62])] 2) as (_ & H1 & _ & H2).
  fold c in H1, H2.
  assert (Hs : is_Some (recv_buffer c !! 2)).
  { apply H1. vm_compute. split; discriminate. }
  split; [exact Hs | exact (H2 Hs)].
Defined.

(** C3 as stated fails: after the first packet is received in order, its key
    1 is in the buffer and [ack_num] is 1, so a key is not above [ack_num]. *)
Lemma recv_buffer_keys_counterexample :
  let c := receive_all [(1, [x61])]
                       (new_connection 0 (EmptyString, 0) EmptyString DOWNLOAD) in
  ~ (forall k, is_Some (recv_buffer c !! k) -> ack_num c < k).
Proof.
  intros c H. specialize (H 1).
  assert (Hs : is_Some (recv_buffer c !! 1)) by (vm_compute; eauto).
  specialize (H Hs). vm_compute in H. discriminate.
Qed.

(** ** Congestion control *)

(** Truncation and floor differ only below zero, where both are below any
    positive lower bound. *)
Lemma max_py_int (q : Q) (k : Z) :
  0 < k -> Z.max (py_int q) k = Z.max (Qfloor q) k.
Proof.
  intros Hk. destruct q as [n d]. unfold py_int, Qfloor. cbn [Qnum Qden].
  destruct (Z_le_gt_dec 0 n) as [Hn|Hn].
  - rewrite Z.quot_div_nonneg by lia. reflexivity.
  - assert (Hq : Z.quot n (Z.pos d) <= 0).
    { apply Z.quot_le_upper_bound; lia. }
    assert (Hf : n / Z.pos d < 0) by (apply Z.div_lt_upper_bound; lia).
    lia.
Qed.

Lemma Qltb_lt (x y : Q) : Qltb x y = true <-> (x < y)%Q.
Proof.
  unfold Qltb. rewrite negb_true_iff.
  destruct (Qle_bool y x) eqn:E.
  - apply Qle_bool_iff in E. split; [discriminate|]. intros H.
    exfalso. apply (Qlt_irrefl x). now apply Qlt_le_trans with y.
  - split; [intros _|reflexivity]. apply Qnot_le_lt. intros H.
    apply Qle_bool_iff in H. congruence.
Qed.

Lemma update_cwnd_on_ack_ge (c : Connection) :
  (1 <= cwnd c)%Q -> (1 <= cwnd (update_cwnd_on_ack c))%Q.
Proof.
  intros H. unfold update_cwnd_on_ack.
  destruct (Qltb (cwnd c) (inject_Z (ssthresh c))); cbn.
  - lra.
  - assert (Hi : (0 <= / cwnd c)%Q) by (apply Qinv_le_0_compat; lra).
    unfold Qdiv. lra.
Qed.

Lemma cc_step_ge c e : (1 <= cwnd c)%Q -> (1 <= cwnd (cc_step c e))%Q.
Proof.
  intros H. destruct e as [now ack|]; cbn [cc_step].
  - unfold handle_ack. destruct (ack >? ack_num c); cbn [snd]; [|exact H].
    cbn [set_packets_acked cwnd].
    refine (update_cwnd_on_ack_ge _ _). exact H.
  - cbn. lra.
Qed.

Lemma cc_run_ge es c : (1 <= cwnd c)%Q -> (1 <= cwnd (cc_run es c))%Q.
Proof.
  revert c. induction es as [|e es IH]; intros c H; [exact H|].
  cbn [cc_run fold_left]. apply IH. now apply cc_step_ge.
Qed.

Lemma update_cwnd_on_ack_whole c :
  whole_in_slow_start c -> whole_in_slow_start (update_cwnd_on_ack c).
Proof.
  intros [H1 Hw]. split; [now apply update_cwnd_on_ack_ge|].
  unfold update_cwnd_on_ack.
  destruct (Qltb (cwnd c) (inject_Z (ssthresh c))) eqn:E; cbn.
  - intros _. apply Qltb_lt in E. destruct (Hw E) as [n Hn].
    exists (n + 1). rewrite Hn, inject_Z_plus. reflexivity.
  - intros Hlt. exfalso.
    assert (Hge : ~ (cwnd c < inject_Z (ssthresh c))%Q).
    { intros H. apply Qltb_lt in H. congruence. }
    assert (Hi : (0 <= / cwnd c)%Q) by (apply Qinv_le_0_compat; lra).
    unfold Qdiv in Hlt. apply Hge. lra.
Qed.

Lemma cc_step_whole c e :
  whole_in_slow_start c -> whole_in_slow_start (cc_step c e).
Proof.
  intros H. destruct e as [now ack|]; cbn [cc_step].
  - unfold handle_ack. destruct (ack >? ack_num c); cbn [snd]; [|exact H].
    refine (update_cwnd_on_ack_whole _ _). exact H.
  - split; cbn; [lra|]. intros _. exists 1. reflexivity.
Qed.

Lemma cc_run_whole es c :
  whole_in_slow_start c -> whole_in_slow_start (cc_run es c).
Proof.
  revert c. induction es as [|e es IH]; intros c H; [exact H|].
  cbn [cc_run fold_left]. apply IH. now apply cc_step_whole.
Qed.




End ConnFacts.

(* ===================================================================== *)
(** * Reliable transfer: the receiver *)
(* ===================================================================== *)

Module TransferFacts.

Import Conn Transfer Delivery.
Import PacketFacts ConnFacts.

Section Delivery.

Variable ho : Packet.byteorder.
Variables (now0 : Q) (h : string) (peer : AddressType).
Variable p : Z -> bytes.
Variable N : Z.
Variable rt0 : ReliableTransfer.

Local Abbreviation data_info := (Delivery.data_info peer p).
Local Abbreviation opened := (Delivery.opened now0 h peer rt0).
Local Abbreviation deliver := (Delivery.deliver ho peer p).
Local Abbreviation in_order := (Delivery.in_order p).
Local Abbreviation sole_download := (Delivery.sole_download h peer).
Local Abbreviation delivery_inv := (Delivery.delivery_inv h peer p N).
Local Abbreviation ack_datagram :=
  (Wire.wire_header Packet.PktType.ACK Packet.HEADER_LEN 0).

Hypothesis N_range : 0 <= N < 2 ^ 32.
Hypothesis not_full_early : forall k, 0 <= k < N -> len (in_order k) < Packet.CHUNK_SIZE.
Hypothesis rt0_sole : sole_download (download_connections rt0).

Lemma find_all_false {A} (f : A -> bool) (l : list A) :
  (forall x, In x l -> f x = false) -> List.find f l = None.
Proof.
  induction l as [|x l IH]; intros H; [reflexivity|]. cbn.
  rewrite (H x) by now left. apply IH. intros y Hy. apply H. now right.
Qed.

(** The connection [handle_data_packet] finds for a DATA packet from
    [peer]. *)
Lemma find_sole d c :
  dict_get h d = Some c -> sole_download d -> peer_addr c = peer ->
  List.find (fun kc => addr_eqb (peer_addr (snd kc)) peer
                       && bool_decide (state (snd kc) = TRANSFER)) d
  = if bool_decide (state c = TRANSFER) then Some (h, c) else None.
Proof.
  intros Hget [Hnd Hall] Hpeer.
  induction d as [|[k v] d IH]; [discriminate|].
  cbn [map fst] in Hnd. apply NoDup_cons in Hnd as [Hni Hnd].
  apply Forall_cons in Hall as [Hkv Hall]. cbn [fst snd] in Hkv.
  cbn [dict_get] in Hget. cbn [List.find snd].
  destruct (decide (h = k)) as [<-|Hne].
  - injection Hget as ->. unfold addr_eqb at 1.
    rewrite Hpeer, bool_decide_eq_true_2 by reflexivity. cbn [andb].
    destruct (bool_decide (state c = TRANSFER)); [reflexivity|].
    apply find_all_false. intros [k' v'] Hin. cbn [snd].
    rewrite List.Forall_forall in Hall. specialize (Hall _ Hin). cbn [fst snd] in Hall.
    unfold addr_eqb. rewrite bool_decide_eq_false_2; [reflexivity|].
    apply Hall. intros ->. apply Hni. apply list_elem_of_In.
    apply (in_map fst) in Hin. exact Hin.
  - unfold addr_eqb at 1. rewrite bool_decide_eq_false_2 by (apply Hkv; congruence).
    cbn [andb]. now apply IH.
Qed.

Lemma sole_dict_set d c :
  sole_download d -> sole_download (dict_set h c d).
Proof.
  intros [Hnd Hall]. split; [now apply DictFacts.NoDup_dict_set|].
  apply DictFacts.Forall_dict_set_key; [|exact Hall]. cbn. congruence.
Qed.

Lemma apply_custom_timeout_cases rt c :
  apply_custom_timeout rt c = c
  \/ exists t, apply_custom_timeout rt c = set_timeout_interval t c.
Proof.
  unfold apply_custom_timeout.
  destruct (custom_timeout rt) as [t|]; [destruct (t =? 0)|]; eauto.
Qed.

Lemma opened_inv : exists c, delivery_inv [] opened c.
Proof.
  unfold Delivery.opened, create_download_connection. cbn [snd].
  exists (update_state TRANSFER
            (apply_custom_timeout rt0 (new_connection now0 peer h DOWNLOAD))).
  pose proof N_range.
  destruct (apply_custom_timeout_cases rt0
              (new_connection now0 peer h DOWNLOAD)) as [->|[t ->]];
    (split; unfold update_state; cbn;
     [ apply DictFacts.dict_get_set_eq | apply sole_dict_set, rt0_sole
     | reflexivity | reflexivity | reflexivity | left; reflexivity
     | lia | reflexivity | intros; lia
     | intros k d Hk; rewrite lookup_empty in Hk; discriminate
     | reflexivity | intros _ s Hs; inversion Hs | discriminate | discriminate
     | intros _; reflexivity ]).
Qed.

Lemma delivery_inv_seen seen seen' rt c :
  delivery_inv seen rt c -> state c = COMPLETE -> seen ⊆ seen' ->
  delivery_inv seen' rt c.
Proof.
  intros [] Hst Hsub. split; try assumption.
  - intros k d Hk. destruct (inv_payload0 k d Hk) as (? & ? & ?).
    repeat split; try assumption; try lia. now apply Hsub.
  - intros Htr. congruence.
Qed.

(** [on_data] as a function of the result of [add_received_data], when the
    ACK can be built. *)
Lemma on_data_run t s data from c sk pkt :
  let r := add_received_data s data c in
  let c2 := after_rtt t (fst r) (snd r) in
  Packet.build_ack_packet ho (ack_num c2) = Ok pkt ->
  on_data ho t s data from (c, sk)
  = (Ok (if completes (fst r) c2 then Some (chunk_hash c2) else None),
     (if completes (fst r) c2 then update_state COMPLETE c2 else c2,
      sk ++ [(pkt, from)])).
Proof.
  intros r c2 Hb. unfold on_data, cbind, get, put. cbn [fst snd].
  subst c2 r. unfold after_rtt, completes in *.
  destruct (add_received_data s data c) as [[|] c1]; cbn [fst snd andb] in *.
  - unfold modify. cbn [fst snd].
    destruct (first_packet_time c1) as [t0|]; cbn [fst snd] in *;
      unfold lift; rewrite Hb; unfold sendto; cbn [fst snd];
      match goal with |- context [is_chunk_complete ?n ?c] =>
        destruct (is_chunk_complete n c) end; reflexivity.
  - unfold lift. rewrite Hb. reflexivity.
Qed.

Lemma after_rtt_fields t b c1 :
  let c2 := after_rtt t b c1 in
  peer_addr c2 = peer_addr c1 /\ chunk_hash c2 = chunk_hash c1
  /\ direction c2 = direction c1 /\ state c2 = state c1
  /\ ack_num c2 = ack_num c1 /\ recv_buffer c2 = recv_buffer c1
  /\ chunk_data c2 = chunk_data c1.
Proof.
  unfold after_rtt. destruct b; [destruct (first_packet_time c1)|]; cbn; tauto.
Qed.

Lemma add_received_data_fields s data c :
  let c1 := snd (add_received_data s data c) in
  peer_addr c1 = peer_addr c /\ chunk_hash c1 = chunk_hash c
  /\ direction c1 = direction c /\ state c1 = state c.
Proof.
  unfold add_received_data.
  destruct (negb (is_download c)); [cbn; tauto|].
  destruct (recv_buffer c !! s); [cbn; tauto|].
  cbn -[drain size].
  destruct (drain _ _ _ _). cbn. tauto.
Qed.

(** A new packet: the buffer gains the key and the loop runs from there. *)
Lemma add_received_data_new s data c :
  direction c = DOWNLOAD -> recv_buffer c !! s = None ->
  let rb := <[s := data]> (recv_buffer c) in
  let r := drain (size rb) rb (ack_num c) (chunk_data c) in
  let c1 := snd (add_received_data s data c) in
  fst (add_received_data s data c) = true
  /\ recv_buffer c1 = rb /\ ack_num c1 = fst r /\ chunk_data c1 = snd r.
Proof.
  intros Hdir Hs rb r c1. subst c1. unfold add_received_data, is_download.
  rewrite Hdir, bool_decide_eq_true_2 by reflexivity. cbn [negb]. rewrite Hs.
  cbn -[drain size]. fold rb. fold r. destruct r. cbn. tauto.
Qed.

Lemma add_received_data_dup s data d c :
  recv_buffer c !! s = Some d -> add_received_data s data c = (false, c).
Proof.
  intros Hs. unfold add_received_data. rewrite Hs.
  destruct (negb (is_download c)); reflexivity.
Qed.

(** One arrival. *)
Lemma data_step seen rt c t s :
  delivery_inv seen rt c -> 1 <= s <= N ->
  let rt' := snd (handle_data_packet ho t (data_info s) peer rt) in
  exists c',
    delivery_inv (seen ++ [s]) rt' c'
    /\ (state c = TRANSFER ->
        sock rt' = sock rt ++ [(ack_datagram (ack_num c'), peer)])
    /\ (state c = COMPLETE -> rt' = rt).
Proof.
  intros Hinv Hs rt'.
  pose proof Hinv as [Hconns Hsole Hpeer Hhash Hdir Hstate Hack Hnext Hpre Hpay
                        Hdata Hrec Hcomp Hfull Hlive].
  unfold rt', handle_data_packet. rewrite (find_sole _ c Hconns Hsole Hpeer).
  destruct Hstate as [Hst|Hst].
  2:{ rewrite Hst, bool_decide_eq_false_2 by discriminate. cbn [snd].
      exists c. split; [|split]; [|congruence|reflexivity].
      apply delivery_inv_seen with seen; [assumption..|].
      intros x Hx. apply elem_of_app. now left. }
  rewrite Hst, bool_decide_eq_true_2 by reflexivity.
  unfold on_download. cbn [Delivery.data_info Packet.seq_num Packet.payload].
  set (r := add_received_data s (p s) c).
  set (c2 := after_rtt t (fst r) (snd r)).
  destruct (after_rtt_fields t (fst r) (snd r)) as (F1 & F2 & F3 & F4 & F5 & F6 & F7).
  destruct (add_received_data_fields s (p s) c) as (G1 & G2 & G3 & G4).
  fold r in G1, G2, G3, G4. fold c2 in F1, F2, F3, F4, F5, F6, F7.
  (* the receive buffer, acknowledgement number and data after the call *)
  assert (Hnew : 0 <= ack_num c2 <= N
                 /\ recv_buffer c2 !! (ack_num c2 + 1) = None
                 /\ (forall k, 1 <= k <= ack_num c2 -> is_Some (recv_buffer c2 !! k))
                 /\ (forall k d, recv_buffer c2 !! k = Some d ->
                                  d = p k /\ 1 <= k <= N /\ k ∈ seen ++ [s])
                 /\ chunk_data c2 = in_order (ack_num c2)
                 /\ (forall k, k ∈ seen ++ [s] -> is_Some (recv_buffer c2 !! k))
                 /\ (fst r = false -> chunk_data c2 = chunk_data c)).
  { rewrite F5, F6, F7.
    destruct (recv_buffer c !! s) as [d|] eqn:Es.
    - subst r. rewrite (add_received_data_dup s (p s) d c Es). cbn [snd].
      split; [lia|]. split; [assumption|]. split; [assumption|].
      split; [|split; [assumption|split]].
      + intros k d' Hk. destruct (Hpay k d' Hk) as (? & ? & ?).
        repeat split; try assumption; try lia. apply elem_of_app; now left.
      + intros k Hk. apply elem_of_app in Hk as [Hk|Hk]; [now apply Hrec|].
        apply list_elem_of_singleton in Hk. subst k. eauto.
      + reflexivity.
    - destruct (add_received_data_new s (p s) c Hdir Es) as (R0 & R1 & R2 & R3).
      fold r in R0, R1, R2, R3. rewrite R1, R2, R3.
      set (rb := <[s:=p s]> (recv_buffer c)) in *.
      assert (Hpay' : forall k d, rb !! k = Some d ->
                                  d = p k /\ 1 <= k <= N /\ k ∈ seen ++ [s]).
      { intros k d Hk. unfold rb in Hk.
        destruct (decide (k = s)) as [->|Hne].
        - rewrite lookup_insert_eq in Hk. injection Hk as <-.
          repeat split; try lia. apply elem_of_app; right. now apply list_elem_of_singleton.
        - rewrite lookup_insert_ne in Hk by congruence.
          destruct (Hpay k d Hk) as (? & ? & ?).
          repeat split; try assumption; try lia. apply elem_of_app; now left. }
      pose proof (drain_mono (size rb) rb (ack_num c) (chunk_data c)) as Hm.
      pose proof (drain_exits (size rb) rb (ack_num c) (chunk_data c)
                    (Nat.le_refl _)) as Hx.
      pose proof (drain_present (size rb) rb (ack_num c) (chunk_data c)) as Hp.
      pose proof (drain_data (size rb) rb p (ack_num c) (chunk_data c)
                    (fun k d Hk => proj1 (Hpay' k d Hk)) (proj1 Hack) Hdata) as Hd.
      set (ack' := fst (drain (size rb) rb (ack_num c) (chunk_data c))) in *.
      assert (Hup : ack' <= N).
      { destruct (decide (ack' = ack_num c)) as [->|Hgt]; [lia|].
        destruct (Hp ack' ltac:(lia)) as [d Hd'].
        destruct (Hpay' _ _ Hd') as (_ & ? & _). lia. }
      split; [lia|]. split; [exact Hx|].
      split; [|split; [exact Hpay'|split; [exact Hd|split; [|congruence]]]].
      + intros k Hk. destruct (decide (k <= ack_num c)) as [Hle|Hgt].
        * assert (Hr : 1 <= k <= ack_num c) by lia.
          destruct (Hpre k Hr) as [x Hx']. unfold rb.
          destruct (decide (k = s)) as [->|Hne]; [congruence|].
          rewrite lookup_insert_ne by congruence. eauto.
        * apply Hp. lia.
      + intros k Hk. unfold rb. destruct (decide (k = s)) as [->|Hne].
        * rewrite lookup_insert_eq. eauto.
        * rewrite lookup_insert_ne by congruence.
          apply elem_of_app in Hk as [Hk|Hk]; [now apply Hrec|].
          apply list_elem_of_singleton in Hk. congruence. }
  destruct Hnew as (N1 & N2 & N3 & N4 & N5 & N6 & N7).
  assert (Hb := build_ack_packet_ok ho (ack_num c2) ltac:(lia)).
  rewrite (on_data_run t s (p s) peer c (sock rt) _ Hb).
  fold r. fold c2. cbn [snd fst].
  destruct (completes (fst r) c2) eqn:Ec.
  - exists (update_state COMPLETE c2). split; [|split].
    + split; unfold update_state; cbn.
      * apply DictFacts.dict_get_set_eq.
      * now apply sole_dict_set.
      * congruence.
      * congruence.
      * congruence.
      * now right.
      * assumption.
      * assumption.
      * assumption.
      * assumption.
      * assumption.
      * discriminate.
      * intros _. unfold completes in Ec. apply andb_true_iff in Ec as [_ Ec].
        unfold is_chunk_complete in Ec.
        destruct (negb (is_download c2)); [discriminate|].
        rewrite N5 in Ec.
        destruct (decide (ack_num c2 = N)) as [|Hne]; [assumption|].
        pose proof (not_full_early (ack_num c2) ltac:(lia)). lia.
      * intros _. unfold completes in Ec. apply andb_true_iff in Ec as [_ Ec].
        unfold is_chunk_complete in Ec.
        destruct (negb (is_download c2)); [discriminate|]. lia.
      * discriminate.
    + intros _. reflexivity.
    + congruence.
  - exists c2. split; [|split].
    + split; cbn.
      * apply DictFacts.dict_get_set_eq.
      * now apply sole_dict_set.
      * congruence.
      * congruence.
      * congruence.
      * left. congruence.
      * assumption.
      * assumption.
      * assumption.
      * assumption.
      * assumption.
      * intros _. exact N6.
      * intros Hc. congruence.
      * intros Hc. congruence.
      * intros _. unfold completes in Ec.
        destruct (fst r) eqn:Er; cbn [andb] in Ec.
        -- unfold is_chunk_complete, is_download in Ec.
           rewrite F3, G3, Hdir, bool_decide_eq_true_2 in Ec by reflexivity.
           cbn [negb] in Ec. lia.
        -- rewrite (N7 eq_refl). now apply Hlive.
    + intros _. reflexivity.
    + congruence.
Qed.

Lemma deliver_snoc pre a rt :
  deliver (pre ++ [a]) rt
  = snd (handle_data_packet ho (fst a) (data_info (snd a)) peer (deliver pre rt)).
Proof. unfold Delivery.deliver. rewrite fold_left_app. reflexivity. Qed.

Lemma deliver_inv pre :
  (forall a, a ∈ pre -> 1 <= snd a <= N) ->
  exists c, delivery_inv (map snd pre) (deliver pre opened) c.
Proof.
  induction pre as [|a pre IH] using rev_ind; intros Hr.
  - apply opened_inv.
  - destruct IH as [c Hc].
    { intros x Hx. apply Hr. apply elem_of_app. now left. }
    destruct (data_step _ _ _ (fst a) (snd a) Hc) as (c' & Hc' & _).
    { apply Hr. apply elem_of_app. right. now apply list_elem_of_singleton. }
    exists c'. rewrite deliver_snoc, map_app. exact Hc'.
Qed.

Section Arrivals.
Variable arrivals : list (Q * Z).
Hypothesis in_range : forall a, a ∈ arrivals -> 1 <= snd a <= N.
Hypothesis covered : forall s, 1 <= s <= N -> s ∈ map snd arrivals.

Lemma range_prefix pre a post :
  arrivals = pre ++ a :: post ->
  (forall x, x ∈ pre -> 1 <= snd x <= N) /\ 1 <= snd a <= N.
Proof.
  intros ->. split.
  - intros x Hx. apply in_range. apply elem_of_app. now left.
  - apply in_range. apply elem_of_app. right. apply elem_of_cons. now left.
Qed.

(** The final state. *)
Lemma delivered_all :
  exists c, dict_get h (download_connections (deliver arrivals opened)) = Some c
            /\ chunk_data c = in_order N /\ ack_num c = N.
Proof.
  destruct (deliver_inv arrivals in_range) as [c Hc].
  exists c. destruct Hc.
  assert (Hn : ack_num c = N).
  { destruct inv_state0 as [Hst|Hst]; [|auto].
    destruct (decide (ack_num c = N)) as [|Hne]; [assumption|].
    assert (Hr : 1 <= ack_num c + 1 <= N) by lia.
    destruct (inv_recorded0 Hst _ (covered _ Hr)) as [d Hd]. congruence. }
  rewrite <- Hn at 1. auto.
Qed.

(** One ACK for every packet handled in [TRANSFER], none afterwards. *)
Lemma one_ack_each pre a post :
  arrivals = pre ++ a :: post ->
  exists c c',
    dict_get h (download_connections (deliver pre opened)) = Some c
    /\ dict_get h (download_connections (deliver (pre ++ [a]) opened)) = Some c'
    /\ (state c = TRANSFER ->
        sock (deliver (pre ++ [a]) opened)
        = sock (deliver pre opened) ++ [(ack_datagram (ack_num c'), peer)])
    /\ (state c <> TRANSFER ->
        sock (deliver (pre ++ [a]) opened) = sock (deliver pre opened)).
Proof.
  intros Hsplit. destruct (range_prefix _ _ _ Hsplit) as [Hpre Ha].
  destruct (deliver_inv pre Hpre) as [c Hc].
  destruct (data_step _ _ _ (fst a) (snd a) Hc Ha) as (c' & Hc' & Htr & Hco).
  rewrite <- deliver_snoc in Hc', Htr, Hco.
  exists c, c'. split; [apply Hc|]. split; [apply Hc'|]. split; [exact Htr|].
  intros Hne. destruct (inv_state Hc) as [|Hst]; [contradiction|].
  rewrite (Hco Hst). reflexivity.
Qed.

(** When no packet comes twice, or the chunk is shorter than [CHUNK_SIZE],
    the connection is still in [TRANSFER] when each packet arrives. *)
Lemma still_transferring pre a post c :
  NoDup (map snd arrivals) \/ len (in_order N) < Packet.CHUNK_SIZE ->
  arrivals = pre ++ a :: post ->
  delivery_inv (map snd pre) (deliver pre opened) c ->
  state c = TRANSFER.
Proof.
  intros Hcase Hsplit Hc.
  destruct (inv_state Hc) as [|Hst]; [assumption|]. exfalso.
  pose proof (inv_complete Hc Hst) as Hn.
  destruct Hcase as [Hnd|Hshort].
  - destruct (range_prefix _ _ _ Hsplit) as [_ Ha].
    assert (Hr : 1 <= snd a <= ack_num c) by lia.
    destruct (inv_prefix Hc _ Hr) as [d Hd].
    destruct (inv_payload Hc _ _ Hd) as (_ & _ & Hin).
    rewrite Hsplit, map_app in Hnd. apply NoDup_app in Hnd as (_ & Hdisj & _).
    apply (Hdisj _ Hin). cbn [map]. apply elem_of_cons. now left.
  - pose proof (inv_full Hc Hst) as Hf.
    rewrite (inv_data Hc), Hn in Hf. lia.
Qed.

Lemma ack_count :
  NoDup (map snd arrivals) \/ len (in_order N) < Packet.CHUNK_SIZE ->
  length (sock (deliver arrivals opened))
  = (length (sock rt0) + length arrivals)%nat.
Proof.
  intros Hcase.
  assert (H : forall pre post, arrivals = pre ++ post ->
                length (sock (deliver pre opened))
                = (length (sock rt0) + length pre)%nat).
  { induction pre as [|a pre IH] using rev_ind; intros post Hsplit.
    - cbn. lia.
    - rewrite <- app_assoc in Hsplit. cbn [app] in Hsplit.
      destruct (one_ack_each _ _ _ Hsplit) as (c & c' & Hc & _ & Htr & _).
      destruct (range_prefix _ _ _ Hsplit) as [Hpre _].
      destruct (deliver_inv pre Hpre) as [c0 Hc0].
      assert (c0 = c) as -> by (pose proof (inv_conns Hc0); congruence).
      rewrite (Htr (still_transferring _ _ _ _ Hcase Hsplit Hc0)).
      rewrite !length_app, (IH _ Hsplit). cbn. lia. }
  apply (H arrivals []). now rewrite app_nil_r.
Qed.

(** A chunk of [CHUNK_SIZE] bytes is complete once every packet has
    arrived; a packet that arrives later is dropped without an ACK. *)
Lemma late_packet_unanswered a :
  Packet.CHUNK_SIZE <= len (in_order N) -> 1 <= snd a <= N ->
  sock (deliver (arrivals ++ [a]) opened) = sock (deliver arrivals opened).
Proof.
  intros Hfull Ha.
  destruct (deliver_inv arrivals in_range) as [c Hc].
  destruct delivered_all as (c0 & Hc0 & Hdata & Hack).
  assert (c0 = c) as -> by (pose proof (inv_conns Hc); congruence).
  assert (Hst : state c = COMPLETE).
  { destruct (inv_state Hc) as [Htr|]; [|assumption].
    pose proof (inv_live Hc Htr) as Hl. rewrite Hdata in Hl. lia. }
  destruct (data_step _ _ _ (fst a) (snd a) Hc Ha) as (_ & _ & _ & Hco).
  rewrite deliver_snoc, (Hco Hst). reflexivity.
Qed.

End Arrivals.

End Delivery.

(** C5 (as amended).  A manager opens the download of a chunk of [N]
    packets with payloads [p 1 .. p N], of which no proper prefix fills
    [CHUNK_SIZE] bytes, from a peer from which it has no other download
    ([handle_data_packet] finds the connection by the sender's address
    alone).  Whatever the order of arrival, and with arbitrary duplicates,
    once every packet has arrived [chunk_data] is the concatenation of the
    payloads in sequence order and [ack_num = N].  Every DATA packet
    handled while the connection is in [TRANSFER] is answered by exactly
    one datagram, the twelve bytes of the ACK that carries the cumulative
    [ack_num], and a packet that arrives after the chunk is complete is
    answered by none; so there are as many ACKs as DATA packets when no
    packet arrives twice, or when the chunk is shorter than
    [CHUNK_SIZE]. *)
Theorem sequence_delivery ho now0 h peer p N rt0 arrivals :
  0 <= N < 2 ^ 32 ->
  (forall k, 0 <= k < N -> len (in_order p k) < Packet.CHUNK_SIZE) ->
  sole_download h peer (download_connections rt0) ->
  (forall a, a ∈ arrivals -> 1 <= snd a <= N) ->
  (forall s, 1 <= s <= N -> s ∈ map snd arrivals) ->
  let run pre := deliver ho peer p pre (opened now0 h peer rt0) in
  let ack_datagram a := Wire.wire_header Packet.PktType.ACK 12 0 a in
  (exists c, dict_get h (download_connections (run arrivals)) = Some c
             /\ chunk_data c = in_order p N /\ ack_num c = N)
  /\ (forall pre a post, arrivals = pre ++ a :: post ->
       exists c c',
         dict_get h (download_connections (run pre)) = Some c
         /\ dict_get h (download_connections (run (pre ++ [a]))) = Some c'
         /\ (state c = TRANSFER ->
             sock (run (pre ++ [a]))
             = sock (run pre) ++ [(ack_datagram (ack_num c'), peer)])
         /\ (state c <> TRANSFER -> sock (run (pre ++ [a])) = sock (run pre)))
  /\ (forall a ho' from,
        0 <= a < 2 ^ 32 ->
        Packet.parse_packet ho' (ack_datagram a) from
        = Ok (Wire.parsed Packet.PktType.ACK 12 0 a [] from))
  /\ (NoDup (map snd arrivals) \/ len (in_order p N) < Packet.CHUNK_SIZE ->
      length (sock (run arrivals)) = (length (sock rt0) + length arrivals)%nat)
  /\ (Packet.CHUNK_SIZE <= len (in_order p N) ->
      forall a, 1 <= snd a <= N ->
                sock (run (arrivals ++ [a])) = sock (run arrivals)).
Proof.
  intros HN Hfull Hsole Hrange Hcov run ack_datagram.
  split; [|split; [|split; [|split]]].
  - now apply delivered_all.
  - intros pre a post Hsplit.
    eapply one_ack_each; eassumption.
  - intros a ho' from Ha.
    pose proof (PacketFacts.parse_wire ho' Packet.PktType.ACK 0 a [] from) as H.
    rewrite app_nil_r in H. apply H; try reflexivity.
    now apply PacketFacts.fits_intro.
  - now apply ack_count.
  - intros Hsize a Ha. eapply late_packet_unanswered; eassumption.
Qed.

Lemma in_order_succ p k :
  0 <= k -> in_order p (k + 1) = in_order p k ++ p (k + 1).
Proof.
  intros Hk. unfold in_order.
  rewrite (seqZ_app 1 k 1) by lia.
  rewrite fmap_app, concat_app.
  rewrite (seqZ_cons (1 + k) 1) by lia.
  rewrite (seqZ_nil (Z.succ (1 + k)) (Z.pred 1)) by lia.
  cbn. rewrite app_nil_r. do 2 f_equal. lia.
Qed.

Lemma in_order_len_uniform p m k :
  0 <= k -> (forall i, 1 <= i <= k -> len (p i) = m) ->
  len (in_order p k) = m * k.
Proof.
  intros Hk. pattern k. apply natlike_ind; [| |exact Hk].
  - intros _. unfold in_order. rewrite seqZ_nil by lia.
    change (len (concat (p <$> []))) with 0. lia.
  - intros x Hx IH Hp. unfold Z.succ. rewrite in_order_succ by lia.
    rewrite PacketFacts.len_app, IH, Hp by (try (intros i Hi; apply Hp); lia).
    lia.
Qed.

Lemma full_chunk_len k :
  0 <= k <= 377 -> len (in_order full_chunk k) = 1388 * k.
Proof.
  intros Hk. apply in_order_len_uniform; [lia|].
  intros i Hi. unfold full_chunk, len. rewrite repeat_length.
  replace (i <? 378) with true by (symmetry; apply Z.ltb_lt; lia).
  reflexivity.
Qed.

Lemma full_chunk_total : len (in_order full_chunk 378) = Packet.CHUNK_SIZE.
Proof.
  change 378 with (377 + 1). rewrite in_order_succ by lia.
  rewrite PacketFacts.len_app, full_chunk_len by lia. reflexivity.
Qed.

(** C5 as stated fails for the ACK count: all 378 packets of a full chunk
    arrive in order, then packet 1 arrives once more.  The arrivals are a
    permutation with a duplicate, 379 DATA packets are received, and 378
    ACKs are sent: the connection is [COMPLETE] when the duplicate arrives
    and [handle_data_packet] finds no connection in [TRANSFER]. *)
Lemma sequence_delivery_counterexample :
  let once := map (pair 1%Q) (seqZ 1 378) in
  let arrivals := once ++ [(1%Q, 1)] in
  let final := deliver Packet.Little example_peer full_chunk arrivals
                 (opened 0 EmptyString example_peer
                    (new_reliable_transfer example_ctx [])) in
  (forall a, a ∈ arrivals -> 1 <= snd a <= 378)
  /\ (forall s, 1 <= s <= 378 -> s ∈ map snd arrivals)
  /\ length arrivals = 379%nat
  /\ length (sock final) = 378%nat.
Proof.
  intros once arrivals final.
  assert (Hsnd : map snd once = seqZ 1 378).
  { unfold once. rewrite map_map. cbn [snd]. apply map_id. }
  assert (Hrange : forall a, a ∈ once -> 1 <= snd a <= 378).
  { intros a Ha. assert (Hin : snd a ∈ seqZ 1 378).
    { rewrite <- Hsnd. apply list_elem_of_In, in_map, list_elem_of_In, Ha. }
    apply elem_of_seqZ in Hin. lia. }
  assert (Hcov : forall s, 1 <= s <= 378 -> s ∈ map snd once).
  { intros s Hs. rewrite Hsnd. apply elem_of_seqZ. lia. }
  assert (Hearly : forall k, 0 <= k < 378 ->
                             len (in_order full_chunk k) < Packet.CHUNK_SIZE).
  { intros k Hk. rewrite full_chunk_len by lia.
    change Packet.CHUNK_SIZE with 524288. lia. }
  assert (HN : 0 <= 378 < 2 ^ 32) by lia.
  assert (Hsole : sole_download EmptyString example_peer
                    (download_connections (new_reliable_transfer example_ctx [])))
    by (split; constructor).
  split; [|split; [|split]].
  - intros a Ha. apply elem_of_app in Ha as [Ha|Ha]; [now apply Hrange|].
    apply list_elem_of_singleton in Ha. subst a. cbn. lia.
  - intros s Hs. unfold arrivals. rewrite map_app. apply elem_of_app. left.
    now apply Hcov.
  - unfold arrivals, once. rewrite length_app, length_map, length_seqZ. reflexivity.
  - unfold final, arrivals.
    rewrite (late_packet_unanswered Packet.Little 0 EmptyString
               example_peer full_chunk 378 (new_reliable_transfer example_ctx [])
               HN Hearly Hsole once Hrange Hcov (1%Q, 1)).
    + rewrite (ack_count Packet.Little 0 EmptyString
                 example_peer full_chunk 378 (new_reliable_transfer example_ctx [])
                 HN Hearly Hsole once Hrange Hcov).
      * unfold once. rewrite length_map, length_seqZ. reflexivity.
      * left. rewrite Hsnd. apply NoDup_seqZ.
    + rewrite full_chunk_total. lia.
    + cbn. lia.
Qed.

Lemma sequence_delivery_witness :
  let p := fun s : Z => [Packet.byte_of_Z s] in
  let arrivals := [(1%Q, 2); (2%Q, 1); (3%Q, 2)] in
  let run pre := deliver Packet.Little example_peer p pre
                   (opened 0 EmptyString example_peer busy_manager) in
  (exists c, dict_get EmptyString (download_connections (run arrivals)) = Some c
             /\ chunk_data c = in_order p 2 /\ ack_num c = 2)
  /\ length (sock (run arrivals)) = 3%nat.
Proof.
  intros p arrivals run.
  assert (HN : 0 <= 2 < 2 ^ 32) by lia.
  assert (Hearly : forall k, 0 <= k < 2 -> len (in_order p k) < Packet.CHUNK_SIZE).
  { intros k Hk. assert (Hc : k = 0 \/ k = 1) by lia.
    destruct Hc as [-> | ->]; reflexivity. }
  assert (Hsole : sole_download EmptyString example_peer
                    (download_connections busy_manager)).
  { split; cbn.
    - apply NoDup_singleton.
    - constructor; [intros _; discriminate|constructor]. }
  assert (Hrange : forall a, a ∈ arrivals -> 1 <= snd a <= 2).
  { intros a Ha. unfold arrivals in Ha.
    repeat (apply elem_of_cons in Ha as [-> | Ha]; [cbn; lia|]).
    inversion Ha. }
  assert (Hcov : forall s, 1 <= s <= 2 -> s ∈ map snd arrivals).
  { intros s Hs. assert (Hc : s = 1 \/ s = 2) by lia.
    destruct Hc as [-> | ->]; cbn.
    - apply elem_of_cons. right. apply elem_of_cons. now left.
    - apply elem_of_cons. now left. }
  destruct (sequence_delivery Packet.Little 0 EmptyString example_peer p 2
              busy_manager arrivals HN Hearly Hsole Hrange Hcov)
    as (Hfinal & _ & _ & Hcount & _).
  split; [exact Hfinal|].
  apply Hcount. right. reflexivity.
Defined.

(** Why the peer must have no other download: of two downloads from one
    peer the first takes every DATA packet; the second receives nothing. *)
Lemma data_routed_by_peer_alone :
  let p := fun s : Z => [Packet.byte_of_Z s] in
  let rt := deliver Packet.Little example_peer p [(1%Q, 1); (2%Q, 2)]
                    two_from_one_peer in
  (ack_num <$> dict_get "aa" (download_connections rt)) = Some 2
  /\ (ack_num <$> dict_get "bb" (download_connections rt)) = Some 0
  /\ (chunk_data <$> dict_get "bb" (download_connections rt)) = Some [].
Proof. vm_compute. repeat split. Qed.

(** ** A fresh download connection and the first timeout tick *)

(** C10: a download connection just created has [last_send_time = 0] and is
    in [TRANSFER]; at any time later than its timeout interval
    [should_retransmit] holds, and the first [handle_timeouts] tick of a
    manager that has only this connection applies the loss update
    ([cwnd] becomes 1, [ssthresh] becomes [max (floor (cwnd / 2)) 2 = 2]),
    counts a lost packet and sends one datagram to the peer, the twelve
    bytes [ack_zero], which every peer parses as an ACK carrying
    [ack_num = 0], although no DATA has arrived. *)
Theorem fresh_download_times_out ho ctx sock0 now0 h peer now :
  let created := create_download_connection now0 h peer
                   (new_reliable_transfer ctx sock0) in
  let c := fst created in
  let tick := handle_timeouts ho now (snd created) in
  (timeout_interval c < now)%Q ->
  last_send_time c = 0%Q /\ ack_num c = 0 /\ cwnd c = 1%Q
  /\ recv_buffer c = ∅ /\ is_active c = true
  /\ should_retransmit now c = true
  /\ fst tick = Ok [h]
  /\ (exists c',
        download_connections (snd tick) = [(h, c')]
        /\ cwnd c' = 1%Q
        /\ ssthresh c' = Z.max (Qfloor (cwnd c / 2)) 2
        /\ ssthresh c' = 2
        /\ packets_lost c' = 1
        /\ ack_num c' = 0)
  /\ sock (snd tick) = sock0 ++ [(ack_zero, peer)]
  /\ (forall ho' from,
        Packet.parse_packet ho' ack_zero from
        = Ok (Wire.parsed Packet.PktType.ACK 12 0 0 [] from)).
Proof.
  intros created c tick Hlate.
  assert (Hretx : should_retransmit now c = true).
  { unfold should_retransmit. apply Qltb_lt.
    assert (Hl : last_send_time c = 0%Q).
    { subst c created. unfold create_download_connection. cbn [fst].
      destruct (apply_custom_timeout_cases (new_reliable_transfer ctx sock0)
                  (new_connection now0 peer h DOWNLOAD)) as [->|[t ->]];
        reflexivity. }
    rewrite Hl. lra. }
  assert (Hb : Packet.build_ack_packet ho 0 = Ok ack_zero).
  { rewrite (PacketFacts.build_ack_packet_ok ho 0) by lia. reflexivity. }
  assert (Hparse : forall ho' from,
             Packet.parse_packet ho' ack_zero from
             = Ok (Wire.parsed Packet.PktType.ACK 12 0 0 [] from)).
  { intros ho' from. destruct ho'; reflexivity. }
  subst tick. unfold handle_timeouts.
  subst c created. unfold create_download_connection in *. cbn [fst snd] in *.
  destruct (apply_custom_timeout_cases (new_reliable_transfer ctx sock0)
              (new_connection now0 peer h DOWNLOAD)) as [E|[t E]];
    rewrite E in *; clear E;
    (split; [reflexivity|]; split; [reflexivity|]; split; [reflexivity|];
     split; [reflexivity|]; split; [reflexivity|]; split; [exact Hretx|];
     cbn [download_connections set_download_connections new_reliable_transfer
          dict_set for_items sock];
     unfold update_state in *;
     replace (is_active _) with true by reflexivity;
     rewrite Hretx; cbn [andb];
     unfold handle_download_timeout, cbind, modify, get, lift, sendto, ret;
     cbn [fst snd];
     replace (ack_num _) with 0 by reflexivity;
     rewrite Hb; cbn;
     split; [reflexivity|];
     split; [eexists; repeat split; reflexivity|];
     split; [reflexivity|exact Hparse]).
Qed.

Lemma fresh_download_times_out_witness :
  let created := create_download_connection 1700000000 EmptyString example_peer
                   (new_reliable_transfer example_ctx []) in
  let tick := handle_timeouts Packet.Little (17000000001 # 10) (snd created) in
  should_retransmit (17000000001 # 10) (fst created) = true
  /\ fst tick = Ok [EmptyString]
  /\ sock (snd tick) = [(ack_zero, example_peer)].
Proof.
  intros created tick.
  assert (Hlate : (timeout_interval (fst created) < 17000000001 # 10)%Q)
    by (vm_compute; reflexivity).
  destruct (fresh_download_times_out Packet.Little example_ctx [] 1700000000
              EmptyString example_peer (17000000001 # 10)%Q Hlate)
    as (_ & _ & _ & _ & _ & H6 & H7 & _ & H9 & _).
  split; [exact H6|]. split; [exact H7|exact H9].
Defined.

End TransferFacts.

(* ===================================================================== *)
(** * Hash conversions *)
(* ===================================================================== *)

Module HexFacts.

Import Hex.

Lemma hex_of_byte (b : byte) :
  let hi := (Byte.to_N b / 16)%N in
  let lo := (Byte.to_N b mod 16)%N in
  is_space (hex_digit hi) = false /\ is_space (hex_digit lo) = false
  /\ lower_char (hex_digit hi) = hex_digit hi
  /\ lower_char (hex_digit lo) = hex_digit lo
  /\ is_ascii_space (hex_digit hi) = false
  /\ hex_val (hex_digit hi) = Some hi /\ hex_val (hex_digit lo) = Some lo
  /\ Packet.byte_of_Z (Z.of_N (16 * hi + lo)) = b.
Proof. destruct b; vm_compute; repeat split; reflexivity. Qed.

Lemma lstrip_hex bs : lstrip (bytes_to_hex_string bs) = bytes_to_hex_string bs.
Proof.
  destruct bs as [|b bs]; [reflexivity|].
  cbn [bytes_to_hex_string lstrip].
  destruct (hex_of_byte b) as (-> & _). reflexivity.
Qed.

Lemma rstrip_hex bs : rstrip (bytes_to_hex_string bs) = bytes_to_hex_string bs.
Proof.
  induction bs as [|b bs IH]; [reflexivity|].
  cbn [bytes_to_hex_string rstrip]. rewrite IH.
  destruct (hex_of_byte b) as (H1 & H2 & _).
  destruct (bytes_to_hex_string bs) eqn:E; rewrite ?H1, ?H2; reflexivity.
Qed.

Lemma lower_hex bs : lower (bytes_to_hex_string bs) = bytes_to_hex_string bs.
Proof.
  induction bs as [|b bs IH]; [reflexivity|].
  cbn [bytes_to_hex_string lower]. rewrite IH.
  destruct (hex_of_byte b) as (_ & _ & -> & -> & _). reflexivity.
Qed.

Lemma fromhex_hex bs : fromhex (bytes_to_hex_string bs) = Ok bs.
Proof.
  induction bs as [|b bs IH]; [reflexivity|].
  cbn [bytes_to_hex_string fromhex].
  destruct (hex_of_byte b) as (_ & _ & _ & _ & -> & -> & -> & ->).
  rewrite IH. reflexivity.
Qed.

(** The hex string of a digest converts back to the digest. *)
Lemma hex_roundtrip bs : hex_string_to_bytes (bytes_to_hex_string bs) = Ok bs.
Proof.
  unfold hex_string_to_bytes, strip.
  rewrite lstrip_hex, rstrip_hex, lower_hex. apply fromhex_hex.
Qed.

End HexFacts.

(* ===================================================================== *)
(** * The handshake: answering WHOHAS *)
(* ===================================================================== *)

Module HandshakeFacts.

Import Conn Handshake Answers.
Import PacketFacts.

Lemma len_concat_digests (hs : list bytes) :
  Forall (fun h => len h = 20) hs -> len (concat hs) = 20 * len hs.
Proof.
  induction 1 as [|h hs Hh _ IH].
  - reflexivity.
  - cbn [concat]. rewrite len_app, IH, Hh. unfold len. cbn [length]. lia.
Qed.

Lemma split20_concat (hs : list bytes) :
  Forall (fun h => len h = 20) hs ->
  Packet.split20 (length hs) (concat hs) = hs.
Proof.
  induction 1 as [|h hs Hh _ IH]; [reflexivity|].
  cbn [length Packet.split20 concat].
  assert (Hl : length h = 20%nat) by (unfold len in Hh; lia).
  rewrite take_app_length' by (symmetry; exact Hl).
  rewrite drop_app_length' by (symmetry; exact Hl).
  rewrite IH. reflexivity.
Qed.

Lemma extract_concat (hs : list bytes) :
  Forall (fun h => len h = 20) hs ->
  Packet.extract_chunk_hashes (concat hs) = Ok hs.
Proof.
  intros H. unfold Packet.extract_chunk_hashes.
  rewrite (len_concat_digests hs H).
  replace (20 * len hs mod 20 =? 0) with true
    by (symmetry; apply Z.eqb_eq; rewrite Z.mul_comm; apply Z.mod_mul; lia).
  cbn [negb].
  replace (Z.to_nat ((20 * len hs + 19) / 20)) with (length hs).
  - rewrite split20_concat by exact H. reflexivity.
  - unfold len.
    replace ((20 * Z.of_nat (length hs) + 19) / 20) with (Z.of_nat (length hs)).
    + now rewrite Nat2Z.id.
    + apply Z.div_unique with 19; lia.
Qed.

Lemma available_held hm hashes :
  available hm (map Hex.bytes_to_hex_string hashes) = Ok (held hm hashes).
Proof.
  induction hashes as [|h hs IH]; [reflexivity|].
  cbn [map available held List.filter].
  destruct (holds hm (Hex.bytes_to_hex_string h)).
  - rewrite HexFacts.hex_roundtrip, IH. reflexivity.
  - exact IH.
Qed.

Lemma held_len hm hashes :
  Forall (fun h => len h = 20) hashes ->
  Forall (fun h => len h = 20) (held hm hashes) /\ len (held hm hashes) <= len hashes.
Proof.
  induction 1 as [|h hs Hh Hhs [IH1 IH2]].
  - split; [constructor|reflexivity].
  - cbn [held List.filter]. fold (held hm hs).
    destruct (holds hm (Hex.bytes_to_hex_string h)).
    + split; [now constructor|]. unfold len in *. cbn [length]. lia.
    + split; [assumption|]. unfold len in *. cbn [length]. lia.
Qed.

Lemma held_spec hm hashes h :
  h ∈ held hm hashes
  <-> h ∈ hashes /\ is_Some (has_chunks (context hm) !! Hex.bytes_to_hex_string h).
Proof.
  unfold held. rewrite !list_elem_of_In, filter_In. unfold holds.
  rewrite bool_decide_eq_true. reflexivity.
Qed.

(** The limit is [max_conn], set at construction; no handler assigns it. *)
Lemma connection_limit_is_max_conn ho ctx s pkt_info from_addr now :
  connection_limit (new_handshake_manager ctx s) = max_conn ctx
  /\ (forall hm, connection_limit (handle_who_has_request ho pkt_info from_addr hm)
                 = connection_limit hm)
  /\ (forall hm, connection_limit (snd (handle_get_request now pkt_info from_addr hm))
                 = connection_limit hm).
Proof.
  split; [reflexivity|]. split; intros hm.
  - unfold handle_who_has_request, who_has_body.
    destruct (Packet.extract_chunk_hashes _); [|reflexivity]. cbn [bind].
    destruct (available hm _) as [hs|]; [|reflexivity]. cbn [bind].
    destruct (_ >=? _).
    + destruct (Packet.build_denied_packet ho); reflexivity.
    + destruct hs.
      * destruct (Packet.build_denied_packet ho); reflexivity.
      * destruct (Packet.build_i_have_packet ho _); reflexivity.
  - unfold handle_get_request.
    repeat match goal with
           | |- context [if ?b then _ else _] => destruct b
           end; reflexivity.
Qed.

(** C9: a WHOHAS carrying 20-byte digests (in a datagram of at most
    [BUF_SIZE] bytes, as [recvfrom] delivers them) is answered by exactly one
    datagram, sent to the requester: DENIED when the number of upload
    connections has reached the limit [max_conn], whatever is held;
    otherwise DENIED when none of the requested hashes is held, and
    otherwise one IHAVE whose payload is the requested hashes that are
    held. *)
Theorem who_has_admission ho hm pkt_info from_addr hashes :
  Packet.payload pkt_info = concat hashes ->
  Forall (fun h => len h = 20) hashes ->
  len (Packet.payload pkt_info) <= Packet.BUF_SIZE ->
  (exists reply,
     Wire.build ho (who_has_answer hm hashes) = Ok reply
     /\ sock (handle_who_has_request ho pkt_info from_addr hm)
        = sock hm ++ [(reply, from_addr)])
  /\ Wire.parses_back ho (who_has_answer hm hashes)
  /\ (connection_limit hm <= len (upload_connections hm) ->
      who_has_answer hm hashes = Wire.Denied)
  /\ (len (upload_connections hm) < connection_limit hm ->
      (forall h, h ∈ hashes ->
                 has_chunks (context hm) !! Hex.bytes_to_hex_string h = None) ->
      who_has_answer hm hashes = Wire.Denied)
  /\ (len (upload_connections hm) < connection_limit hm ->
      (exists h, h ∈ hashes
                 /\ is_Some (has_chunks (context hm) !! Hex.bytes_to_hex_string h)) ->
      who_has_answer hm hashes = Wire.IHave (held hm hashes))
  /\ (forall h, h ∈ held hm hashes
                <-> h ∈ hashes
                    /\ is_Some (has_chunks (context hm) !! Hex.bytes_to_hex_string h)).
Proof.
  intros Hpay H20 Hsize.
  destruct (held_len hm hashes H20) as [Hheld20 Hheldlen].
  assert (Hback : Wire.parses_back ho (who_has_answer hm hashes)).
  { unfold who_has_answer.
    destruct (connection_limit hm <=? len (upload_connections hm));
      [apply PacketFacts.parses_back_denied|].
    destruct (held hm hashes) as [|x xs] eqn:E;
      [apply PacketFacts.parses_back_denied|].
    apply PacketFacts.parses_back_i_have; [discriminate|].
    unfold Wire.fits_pkt_len. cbn [Wire.msg_payload].
    rewrite (len_concat_digests _ Hheld20).
    rewrite Hpay, (len_concat_digests _ H20) in Hsize.
    change Packet.BUF_SIZE with 1400 in Hsize.
    change Packet.HEADER_LEN with 12. lia. }
  split; [|split; [exact Hback|split; [|split; [|split]]]].
  - destruct Hback as (reply & Hbuild & _). exists reply. split; [exact Hbuild|].
    unfold handle_who_has_request, who_has_body.
    rewrite Hpay, (extract_concat _ H20). cbn [bind].
    rewrite available_held. cbn [bind].
    unfold who_has_answer in Hbuild.
    replace (len (upload_connections hm) >=? connection_limit hm)
      with (connection_limit hm <=? len (upload_connections hm))
      by (rewrite Z.geb_leb; reflexivity).
    destruct (connection_limit hm <=? len (upload_connections hm)).
    + cbn [Wire.build] in Hbuild. rewrite Hbuild. reflexivity.
    + destruct (held hm hashes) as [|x xs];
        cbn [Wire.build] in Hbuild; rewrite Hbuild; reflexivity.
  - intros Hfull. unfold who_has_answer.
    replace (connection_limit hm <=? len (upload_connections hm)) with true
      by (symmetry; apply Z.leb_le; exact Hfull).
    reflexivity.
  - intros Hfree Hnone. unfold who_has_answer.
    replace (connection_limit hm <=? len (upload_connections hm)) with false
      by (symmetry; apply Z.leb_gt; exact Hfree).
    destruct (held hm hashes) as [|x xs] eqn:E; [reflexivity|].
    assert (Hx : x ∈ held hm hashes) by (rewrite E; apply elem_of_cons; now left).
    apply held_spec in Hx as [Hin [d Hd]]. rewrite (Hnone x Hin) in Hd. discriminate.
  - intros Hfree (h & Hin & Hsome). unfold who_has_answer.
    replace (connection_limit hm <=? len (upload_connections hm)) with false
      by (symmetry; apply Z.leb_gt; exact Hfree).
    destruct (held hm hashes) as [|x xs] eqn:E; [|reflexivity].
    assert (Hh : h ∈ held hm hashes) by (apply held_spec; split; assumption).
    rewrite E in Hh. inversion Hh.
  - intros h. apply held_spec.
Qed.

(** A WHOHAS whose payload is not a sequence of 20-byte digests is dropped:
    [extract_chunk_hashes] raises, the handler logs, nothing is sent. *)
Lemma who_has_malformed_dropped ho hm pkt_info from_addr :
  len (Packet.payload pkt_info) mod 20 <> 0 ->
  handle_who_has_request ho pkt_info from_addr hm = hm.
Proof.
  intros H. unfold handle_who_has_request, who_has_body, Packet.extract_chunk_hashes.
  replace (len (Packet.payload pkt_info) mod 20 =? 0) with false
    by (symmetry; apply Z.eqb_neq; exact H).
  reflexivity.
Qed.

Lemma who_has_admission_witness :
  (exists reply,
     Wire.build Packet.Little (who_has_answer keeper [digest 2; digest 1]) = Ok reply
     /\ sock (handle_who_has_request Packet.Little (who_has_info [digest 2; digest 1])
                (EmptyString, 0) keeper)
        = [(reply, (EmptyString, 0))])
  /\ who_has_answer keeper [digest 2; digest 1] = Wire.IHave [digest 1].
Proof.
  assert (H20 : Forall (fun h => len h = 20) [digest 2; digest 1])
    by (repeat constructor).
  assert (Hsize : len (Packet.payload (who_has_info [digest 2; digest 1]))
                  <= Packet.BUF_SIZE) by (vm_compute; discriminate).
  destruct (who_has_admission Packet.Little keeper
              (who_has_info [digest 2; digest 1]) (EmptyString, 0)
              [digest 2; digest 1] eq_refl H20 Hsize)
    as (Hreply & _ & _ & _ & Hihave & _).
  split; [exact Hreply|].
  rewrite Hihave.
  - reflexivity.
  - vm_compute. reflexivity.
  - exists (digest 1). split.
    + apply elem_of_cons. right. apply elem_of_cons. now left.
    + vm_compute. eauto.
Defined.

End HandshakeFacts.

(* ===================================================================== *)
(** * Reliable transfer: the sender *)
(* ===================================================================== *)

Module UploadFacts.

Import Conn Transfer Uploads.

(** The loop of [send_data_packets] never needs more iterations than the
    bound it is started with: with any larger count it does the same. *)
Lemma send_loop_enough ho now n max_seq next_seq s :
  (Z.to_nat (max_seq - next_seq + 1) <= n)%nat ->
  send_loop ho now n max_seq next_seq s
  = send_loop ho now (Z.to_nat (max_seq - next_seq + 1)) max_seq next_seq s.
Proof.
  revert next_seq s. induction n as [|n IH]; intros next_seq s Hn.
  - replace (Z.to_nat (max_seq - next_seq + 1)) with 0%nat by lia. reflexivity.
  - destruct (Z.to_nat (max_seq - next_seq + 1)) as [|m] eqn:Em.
    + cbn [send_loop]. unfold cbind, get. cbn [fst snd].
      replace (next_seq <=? max_seq) with false by (symmetry; apply Z.leb_gt; lia).
      reflexivity.
    + cbn [send_loop]. unfold cbind, get. cbn [fst snd].
      destruct ((next_seq <=? max_seq)
                && (next_seq <=? ack_num (fst s) + get_send_window (fst s)));
        [|reflexivity].
      destruct (find_seq next_seq (send_buffer (fst s))) as [[q data]|]; [|reflexivity].
      unfold lift.
      destruct (Packet.build_data_packet ho next_seq data) as [pkt|e]; [|reflexivity].
      unfold sendto, modify. cbn [fst snd].
      rewrite IH by lia. f_equal. lia.
Qed.

(** C1, the code at a failing input: a chunk of two packets; after the ACK
    of packet 1 the connection is [COMPLETE] with [ack_num = 1 < 2], and
    packet 2 was never sent. *)
Lemma upload_complete_before_all_acked :
  packet_count (repeat x00 (Z.to_nat 2000)) = 2
  /\ (state <$> the_upload (uploading 2000)) = Some TRANSFER
  /\ (state <$> the_upload (acked [1] (uploading 2000))) = Some COMPLETE
  /\ (ack_num <$> the_upload (acked [1] (uploading 2000))) = Some 1
  /\ data_sent (acked [1] (uploading 2000)) = [1].
Proof. vm_compute. repeat split; reflexivity. Qed.

(** C2, the code at failing inputs.  Upload start sends packet 1, as
    claimed.  With two packets, the new ACK 1 opens the window to
    [max 1 (floor cwnd) = 2] and the claim has packet 2 sent and
    [seq_num = min 2 (1 + 2) = 2]; the code sends nothing and leaves
    [seq_num = 1].  With ten packets, the new ACK 2 arrives when packets 1 to
    3 are sent; the code sends 3 once more before 4 and 5. *)
Lemma sender_window_not_filled :
  data_sent (uploading 2000) = [1]
  /\ (seq_num <$> the_upload (uploading 2000)) = Some 1
  /\ (get_send_window <$> the_upload (acked [1] (uploading 2000))) = Some 2
  /\ data_sent (acked [1] (uploading 2000)) = [1]
  /\ (seq_num <$> the_upload (acked [1] (uploading 2000))) = Some 1
  /\ (packets_sent <$> the_upload (acked [1] (uploading 2000))) = Some 1
  /\ packet_count (repeat x00 (Z.to_nat 13000)) = 10
  /\ data_sent (acked [1] (uploading 13000)) = [1; 2; 3]
  /\ data_sent (acked [1; 2] (uploading 13000)) = [1; 2; 3; 3; 4; 5].
Proof. vm_compute. repeat split; reflexivity. Qed.

(** C4, the code at a failing input: a chunk of four packets, ACK 1, then
    duplicates of ACK 1.  The first duplicate leaves the counter at 2; the
    second one already retransmits packet 2 and applies the loss update;
    after the third the counter is 2 again, not 0. *)
Lemma duplicate_ack_counted_twice :
  packet_count (repeat x00 (Z.to_nat 5000)) = 4
  /\ data_sent (acked [1] (uploading 5000)) = [1; 2; 3]
  /\ (duplicate_ack_count <$> the_upload (acked [1; 1] (uploading 5000))) = Some 2
  /\ data_sent (acked [1; 1] (uploading 5000)) = [1; 2; 3]
  /\ data_sent (acked [1; 1; 1] (uploading 5000)) = [1; 2; 3; 2]
  /\ (retransmission_count <$> the_upload (acked [1; 1; 1] (uploading 5000))) = Some 1
  /\ (ssthresh <$> the_upload (acked [1; 1; 1] (uploading 5000))) = Some 2
  /\ (cwnd <$> the_upload (acked [1; 1; 1] (uploading 5000))) = Some 1%Q
  /\ (duplicate_ack_count <$> the_upload (acked [1; 1; 1] (uploading 5000))) = Some 0
  /\ data_sent (acked [1; 1; 1; 1] (uploading 5000)) = [1; 2; 3; 2]
  /\ (duplicate_ack_count <$> the_upload (acked [1; 1; 1; 1] (uploading 5000))) = Some 2.
Proof. vm_compute. repeat split; reflexivity. Qed.

End UploadFacts.

(* ===================================================================== *)
(** * The codec: what the builders and the parser do on every input *)
(* ===================================================================== *)

Module FormatFacts.

Import Packet Wire Formats PacketFacts.

Lemma be_encode_decode bs : be_encode (length bs) (be_decode bs) = bs.
Proof.
  unfold be_encode, be_decode.
  rewrite <- (length_rev bs), le_encode_decode. apply rev_involutive.
Qed.

(** What the parser returns on a datagram of at least 12 bytes. *)
Lemma parse_packet_explicit ho b0 b1 b2 b3 b4 b5 b6 b7 b8 b9 b10 b11 rest from :
  let packet :=
    b0 :: b1 :: b2 :: b3 :: b4 :: b5 :: b6 :: b7 :: b8 :: b9 :: b10 :: b11 :: rest in
  parse_packet ho packet from
  = if negb (len packet =? be_decode [b2; b3]) then
      Raise (ValueError "Packet length mismatch")
    else
      Ok {| pkt_type := Z_of_byte b0; header_len := Z_of_byte b1;
            pkt_len := be_decode [b2; b3];
            seq_num := be_decode [b4; b5; b6; b7];
            ack_num := be_decode [b8; b9; b10; b11];
            payload := if Z_of_byte b1 <? len packet
                       then slice_from (Z_of_byte b1) packet else [];
            from_addr := from |}.
Proof.
  intros packet. unfold parse_packet.
  replace (len packet <? HEADER_LEN) with false
    by (symmetry; apply Z.ltb_ge; unfold packet, len; cbn [length];
        change HEADER_LEN with 12; lia).
  unfold slice_to. change (Z.to_nat HEADER_LEN) with 12%nat.
  unfold packet at 1. cbn [take]. unfold unpack.
  replace (len _ =? calcsize HEADER_FMT) with true by reflexivity.
  unfold HEADER_FMT.
  cbn -[host_decode ntohs ntohl len packet].
  unfold ntohs, ntohl.
  rewrite (fits_host_decode_raw ho [b2; b3] 2 eq_refl : fits 16 _ = true).
  cbn [bind].
  rewrite (fits_host_decode_raw ho [b4; b5; b6; b7] 4 eq_refl
           : fits 32 (host_decode ho [b4; b5; b6; b7]) = true).
  cbn [bind]. change (take 0 (take 0 rest)) with (@nil byte).
  rewrite (fits_host_decode_raw ho [b8; b9; b10; b11] 4 eq_refl
           : fits 32 (host_decode ho [b8; b9; b10; b11]) = true).
  cbn [bind].
  rewrite (host_encode_decode ho [b2; b3]
           : host_encode ho 2 (host_decode ho [b2; b3]) = [b2; b3]).
  rewrite (host_encode_decode ho [b4; b5; b6; b7]
           : host_encode ho 4 (host_decode ho [b4; b5; b6; b7]) = [b4; b5; b6; b7]).
  rewrite (host_encode_decode ho [b8; b9; b10; b11]
           : host_encode ho 4 (host_decode ho [b8; b9; b10; b11])
             = [b8; b9; b10; b11]).
  rewrite !host_decode_1. reflexivity.
Qed.

Lemma parse_packet_host ho ho' packet from :
  parse_packet ho packet from = parse_packet ho' packet from.
Proof.
  destruct (Z.ltb_spec (len packet) HEADER_LEN) as [Hs|Hl].
  - unfold parse_packet.
    replace (len packet <? HEADER_LEN) with true by (symmetry; apply Z.ltb_lt; exact Hs).
    reflexivity.
  - destruct (list_12 packet) as
      (b0 & b1 & b2 & b3 & b4 & b5 & b6 & b7 & b8 & b9 & b10 & b11 & rest & ->).
    { change HEADER_LEN with 12 in Hl. unfold len in Hl. lia. }
    rewrite !parse_packet_explicit. reflexivity.
Qed.

Lemma fits_host ho n v : fits (8 * Z.of_nat n) (host_decode ho (be_encode n v)) = true.
Proof. apply fits_host_decode. Qed.

(** The header builder on any arguments. *)
Lemma build_header_cases ho ty total seq ack :
  build_header ho ty total seq ack
  = if negb (fits 16 total) then Raise OverflowError
    else if negb (fits 32 seq) then Raise OverflowError
    else if negb (fits 32 ack) then Raise OverflowError
    else if negb (fits 8 ty) then Raise StructError
    else Ok (wire_header ty total seq ack).
Proof.
  destruct (fits 16 total) eqn:Htot; cbn [negb];
    [|unfold build_header, htons; rewrite Htot; reflexivity].
  destruct (fits 32 seq) eqn:Hseq; cbn [negb];
    [|unfold build_header, htons, htonl; rewrite Htot, Hseq; reflexivity].
  destruct (fits 32 ack) eqn:Hack; cbn [negb];
    [|unfold build_header, htons, htonl; rewrite Htot, Hseq, Hack; reflexivity].
  destruct (fits 8 ty) eqn:Hty; cbn [negb]; [now apply build_header_ok|].
  unfold build_header, htons, htonl. rewrite Htot, Hseq, Hack.
  cbn [bind]. unfold pack, HEADER_FMT. cbn [pack_from fmt_size].
  change (8 * Z.of_nat 1) with 8. rewrite Hty. reflexivity.
Qed.

Lemma build_header_host ho ho' ty total seq ack :
  build_header ho ty total seq ack = build_header ho' ty total seq ack.
Proof. rewrite !build_header_cases. reflexivity. Qed.

Lemma build_host ho ho' m : build ho m = build ho' m.
Proof.
  destruct m as [hs|hs|h|seq data|ack|]; cbn [build].
  - unfold build_who_has_packet. destruct hs; [reflexivity|].
    rewrite (build_header_host ho ho'). reflexivity.
  - unfold build_i_have_packet. destruct hs; [reflexivity|].
    rewrite (build_header_host ho ho'). reflexivity.
  - unfold build_get_packet. rewrite (build_header_host ho ho'). reflexivity.
  - unfold build_data_packet. rewrite (build_header_host ho ho'). reflexivity.
  - apply build_header_host.
  - apply build_header_host.
Qed.

(** X1.  The wire format does not depend on the byte order of the host:
    on a little-endian and on a big-endian machine every builder returns
    the same datagram, or raises the same exception, and the parser returns
    the same fields, or raises the same exception, on every byte string. *)
Theorem wire_format_host_independent ho ho' m packet from :
  build ho m = build ho' m
  /\ parse_packet ho packet from = parse_packet ho' packet from.
Proof.
  split; [apply build_host | apply parse_packet_host].
Qed.

Lemma fits_12_plus (data : bytes) :
  fits 16 (HEADER_LEN + len data) = true ->
  HEADER_LEN + len data < 2 ^ 16.
Proof. intros H. apply fits_spec in H. lia. Qed.

Lemma build_payload ho ty seq ack data :
  fits 8 ty = true -> fits 32 seq = true -> fits 32 ack = true ->
  (hdr <-! build_header ho ty (HEADER_LEN + len data) seq ack ; Ok (hdr ++ data))
  = if fits 16 (HEADER_LEN + len data)
    then Ok (wire_header ty (HEADER_LEN + len data) seq ack ++ data)
    else Raise OverflowError.
Proof.
  intros Hty Hseq Hack. rewrite build_header_cases, Hty, Hseq, Hack.
  destruct (fits 16 (HEADER_LEN + len data)); reflexivity.
Qed.

Lemma build_cases ho m :
  build ho m = Ok (datagram m) /\ buildable m = true
  \/ (exists e, build ho m = Raise e) /\ buildable m = false.
Proof.
  destruct m as [hs|hs|h|seq data|ack|]; cbn [build buildable]; unfold datagram;
    cbn [msg_type msg_seq msg_ack msg_payload].
  - unfold build_who_has_packet. destruct hs as [|h hs]; [right; eauto|].
    rewrite build_payload by reflexivity.
    destruct (fits 16 _); [left|right]; eauto.
  - unfold build_i_have_packet. destruct hs as [|h hs]; [right; eauto|].
    rewrite build_payload by reflexivity.
    destruct (fits 16 _); [left|right]; eauto.
  - unfold build_get_packet.
    destruct (len h =? 20) eqn:E; cbn [negb]; [|right; eauto].
    rewrite build_payload by reflexivity.
    apply Z.eqb_eq in E. rewrite E. left. split; reflexivity.
  - unfold build_data_packet. change MAX_PAYLOAD_SIZE with 1388.
    destruct (len data >? 1388) eqn:E.
    + right. split; [eauto|].
      replace (len data <=? 1388) with false by (symmetry; lia). reflexivity.
    + replace (len data <=? 1388) with true by (symmetry; lia). cbn [andb].
      rewrite build_header_cases.
      replace (fits 16 (HEADER_LEN + len data)) with true
        by (symmetry; apply fits_intro; pose proof (len_nonneg data);
            change HEADER_LEN with 12; lia).
      cbn [negb].
      destruct (fits 32 seq); cbn [negb bind]; [left|right]; eauto.
  - unfold build_ack_packet. rewrite build_header_cases.
    change (len (@nil byte)) with 0. rewrite Z.add_0_r, app_nil_r.
    replace (fits 16 HEADER_LEN) with true by reflexivity.
    replace (fits 32 0) with true by reflexivity.
    cbn [negb]. destruct (fits 32 ack); cbn [negb]; [left|right]; eauto.
  - left. split; [|reflexivity].
    unfold build_denied_packet. rewrite build_header_cases.
    change (len (@nil byte)) with 0. rewrite Z.add_0_r, app_nil_r. reflexivity.
Qed.

(** X2.  A builder succeeds exactly when its argument passes the checks
    collected in [buildable]; note that WHOHAS and IHAVE accept byte strings
    of any length as hashes.  The datagram it then returns is the 12-byte
    header (type, 12, total length, sequence number, acknowledgement number,
    in network order) followed by the payload, so its length is 12 plus the
    length of the payload. *)
Theorem build_succeeds_exactly_when ho m :
  is_ok (build ho m) = buildable m
  /\ (forall pkt, build ho m = Ok pkt ->
        pkt = datagram m /\ len pkt = 12 + len (msg_payload m)).
Proof.
  destruct (build_cases ho m) as [[Hb Hc]|[[e Hb] Hc]]; rewrite Hb, Hc.
  - split; [reflexivity|]. intros pkt [= <-]. split; [reflexivity|].
    unfold datagram. rewrite len_app. reflexivity.
  - split; [reflexivity|]. intros pkt [=].
Qed.

Lemma datagram_len m : len (datagram m) = 12 + len (msg_payload m).
Proof. unfold datagram. rewrite len_app. reflexivity. Qed.

Lemma len_concat_20 (hs : list bytes) :
  Forall (fun h => len h = 20) hs -> len (concat hs) = 20 * len hs.
Proof.
  induction 1 as [|h hs Hh _ IH]; [reflexivity|].
  cbn [concat]. rewrite len_app, IH, Hh. unfold len. cbn [length]. lia.
Qed.

(** X3.  A DATA datagram never exceeds the 1400 bytes the peer reads with
    one [recvfrom(BUF_SIZE)]; a WHOHAS or IHAVE datagram for 20-byte hashes
    stays within them exactly when it lists at most 69 hashes, although the
    builders accept up to 3276. *)
Theorem datagram_fits_receive_buffer ho seq data hs m pkt pkt' :
  build ho (Data seq data) = Ok pkt ->
  Forall (fun h => len h = 20) hs ->
  m = WhoHas hs \/ m = IHave hs ->
  build ho m = Ok pkt' ->
  len pkt <= BUF_SIZE
  /\ len pkt' = 12 + 20 * len hs
  /\ (len pkt' <= BUF_SIZE <-> len hs <= 69).
Proof.
  intros Hd H20 Hm Hw.
  destruct (build_cases ho (Data seq data)) as [[Hb Hc]|[[e Hb] _]];
    [|congruence].
  rewrite Hb in Hd. injection Hd as <-.
  destruct (build_cases ho m) as [[Hb' Hc']|[[e Hb'] _]]; [|congruence].
  rewrite Hb' in Hw. injection Hw as <-.
  rewrite !datagram_len.
  assert (Hpay : msg_payload m = concat hs) by (destruct Hm as [-> | ->]; reflexivity).
  rewrite Hpay, (len_concat_20 hs H20).
  cbn [buildable] in Hc. apply andb_true_iff in Hc as [Hc _].
  apply Z.leb_le in Hc. change MAX_PAYLOAD_SIZE with 1388 in Hc.
  change BUF_SIZE with 1400. cbn [msg_payload].
  split; [lia|]. split; [reflexivity|]. lia.
Qed.

Lemma datagram_fits_receive_buffer_witness :
  len (datagram (Data 7 [x61; x62])) <= BUF_SIZE
  /\ len (datagram (WhoHas [digest_of x01])) = 12 + 20 * 1.
Proof.
  destruct (datagram_fits_receive_buffer Little 7 [x61; x62] [digest_of x01]
              (WhoHas [digest_of x01])
              (datagram (Data 7 [x61; x62])) (datagram (WhoHas [digest_of x01])))
    as (H1 & H2 & _).
  - vm_compute. reflexivity.
  - repeat constructor.
  - left. reflexivity.
  - vm_compute. reflexivity.
  - split; [exact H1 | exact H2].
Defined.

(** X4.  Parsing loses nothing: when the parser accepts a datagram whose
    header-length byte is 12, building the header again from the parsed
    type, total length, sequence number and acknowledgement number, and
    appending the parsed payload, gives the datagram back, on either host. *)
Theorem parse_then_rebuild ho ho' packet from info :
  parse_packet ho packet from = Ok info ->
  header_len info = HEADER_LEN ->
  exists hdr,
    build_header ho' (pkt_type info) (pkt_len info) (seq_num info) (ack_num info)
    = Ok hdr
    /\ hdr ++ payload info = packet
    /\ pkt_len info = len packet.
Proof.
  intros Hp Hh.
  destruct (Z.ltb_spec (len packet) HEADER_LEN) as [Hs|Hl].
  { unfold parse_packet in Hp.
    replace (len packet <? HEADER_LEN) with true in Hp
      by (symmetry; apply Z.ltb_lt; exact Hs).
    discriminate. }
  destruct (list_12 packet) as
    (b0 & b1 & b2 & b3 & b4 & b5 & b6 & b7 & b8 & b9 & b10 & b11 & rest & ->).
  { change HEADER_LEN with 12 in Hl. unfold len in Hl. lia. }
  rewrite parse_packet_explicit in Hp.
  destruct (len _ =? be_decode [b2; b3]) eqn:E; cbn [negb] in Hp; [|discriminate].
  apply Z.eqb_eq in E.
  injection Hp as <-. cbn [header_len] in Hh.
  cbn [pkt_type pkt_len seq_num ack_num payload].
  assert (Hb1 : b1 = x0c).
  { rewrite <- (byte_of_Z_of_byte b1), Hh. reflexivity. }
  exists [b0; b1; b2; b3; b4; b5; b6; b7; b8; b9; b10; b11].
  split; [|split].
  - rewrite build_header_cases.
    rewrite (fits_intro 16 (be_decode [b2; b3])), (fits_intro 32 (be_decode [b4; b5; b6; b7])),
      (fits_intro 32 (be_decode [b8; b9; b10; b11])), (fits_intro 8 (Z_of_byte b0)).
    + cbn [negb]. unfold wire_header.
      rewrite (be_encode_decode [b2; b3] : be_encode 2 _ = _).
      rewrite (be_encode_decode [b4; b5; b6; b7] : be_encode 4 _ = _).
      rewrite (be_encode_decode [b8; b9; b10; b11] : be_encode 4 _ = _).
      rewrite byte_of_Z_of_byte, Hb1. reflexivity.
    + pose proof (Z_of_byte_range b0). lia.
    + pose proof (host_decode_range Big [b8; b9; b10; b11]) as H. exact H.
    + pose proof (host_decode_range Big [b4; b5; b6; b7]) as H. exact H.
    + pose proof (host_decode_range Big [b2; b3]) as H. exact H.
  - rewrite Hh. change HEADER_LEN with 12.
    unfold slice_from. change (Z.to_nat 12) with 12%nat. cbn [drop app].
    destruct (12 <? len _) eqn:E12; [reflexivity|].
    apply Z.ltb_ge in E12. destruct rest; [reflexivity|].
    unfold len in E12. cbn [length] in E12. lia.
  - symmetry. exact E.
Qed.

Lemma parse_then_rebuild_witness :
  exists hdr,
    build_header Big PktType.ACK 12 0 1 = Ok hdr /\ hdr ++ [] = ack_one
    /\ 12 = len ack_one.
Proof.
  exact (parse_then_rebuild Little Big ack_one None
           {| pkt_type := PktType.ACK; header_len := 12; pkt_len := 12;
              seq_num := 0; ack_num := 1; payload := []; from_addr := None |}
           eq_refl eq_refl).
Defined.

Lemma split20_spec n (payload : bytes) :
  length payload = (20 * n)%nat ->
  concat (split20 n payload) = payload
  /\ Forall (fun h => len h = 20) (split20 n payload)
  /\ length (split20 n payload) = n.
Proof.
  revert payload. induction n as [|n IH]; intros payload Hl.
  - destruct payload; [|discriminate]. repeat split. constructor.
  - cbn [split20 concat length].
    destruct (IH (drop 20 payload)) as (H1 & H2 & H3).
    { rewrite length_drop. lia. }
    rewrite H1, H3, take_drop. split; [reflexivity|]. split; [|reflexivity].
    constructor; [|exact H2]. unfold len. rewrite length_take. lia.
Qed.

(** X5.  [extract_chunk_hashes] and concatenation are inverse to each other:
    the hashes extracted from a payload are 20 bytes each, a twentieth of
    the payload's length in number, and concatenate to the payload; and the
    concatenation of 20-byte hashes is extracted to those hashes.  The empty
    payload is accepted and gives no hash. *)
Theorem extract_chunk_hashes_inverse (payload : bytes) (hs : list bytes) :
  (forall hashes, extract_chunk_hashes payload = Ok hashes ->
     concat hashes = payload
     /\ Forall (fun h => len h = 20) hashes
     /\ 20 * len hashes = len payload)
  /\ (Forall (fun h => len h = 20) hs -> extract_chunk_hashes (concat hs) = Ok hs)
  /\ extract_chunk_hashes [] = Ok [].
Proof.
  split; [|split; [|reflexivity]].
  - intros hashes. unfold extract_chunk_hashes.
    destruct (len payload mod 20 =? 0) eqn:E; cbn [negb]; [|discriminate].
    apply Z.eqb_eq in E. intros [= <-].
    assert (Hn : length payload
                 = (20 * Z.to_nat ((len payload + 19) / 20))%nat).
    { apply Z.mod_divide in E; [|lia]. destruct E as [q Hq].
      unfold len in *. rewrite Hq.
      replace ((q * 20 + 19) / 20) with q
        by (apply Z.div_unique with 19; lia).
      lia. }
    set (k := Z.to_nat ((len payload + 19) / 20)) in *.
    destruct (split20_spec k payload Hn) as (H1 & H2 & H3).
    split; [exact H1|]. split; [exact H2|].
    unfold len. rewrite H3. lia.
  - intros H. unfold extract_chunk_hashes.
    rewrite (len_concat_20 hs H).
    replace (20 * len hs mod 20 =? 0) with true
      by (symmetry; apply Z.eqb_eq; rewrite Z.mul_comm; apply Z.mod_mul; lia).
    cbn [negb].
    replace (Z.to_nat ((20 * len hs + 19) / 20)) with (length hs).
    + f_equal. induction H as [|h hs' Hh _ IH]; [reflexivity|].
      cbn [length split20 concat].
      assert (Hl : length h = 20%nat) by (unfold len in Hh; lia).
      rewrite take_app_length' by (symmetry; exact Hl).
      rewrite drop_app_length' by (symmetry; exact Hl).
      rewrite IH. reflexivity.
    + unfold len.
      replace ((20 * Z.of_nat (length hs) + 19) / 20) with (Z.of_nat (length hs)).
      * now rewrite Nat2Z.id.
      * apply Z.div_unique with 19; lia.
Qed.

Lemma extract_chunk_hashes_inverse_witness :
  extract_chunk_hashes (concat [digest_of x01; digest_of x02])
  = Ok [digest_of x01; digest_of x02].
Proof.
  apply (extract_chunk_hashes_inverse [] [digest_of x01; digest_of x02]).
  repeat constructor.
Defined.

Lemma hex_length bs :
  String.length (Hex.bytes_to_hex_string bs) = (2 * length bs)%nat.
Proof.
  induction bs as [|b bs IH]; [reflexivity|].
  cbn [Hex.bytes_to_hex_string String.length length]. rewrite IH. lia.
Qed.

Lemma hex_digit_facts (n : N) :
  (n < 16)%N ->
  Hex.is_space (Hex.hex_digit n) = false
  /\ Hex.lower_char (Hex.hex_digit n) = Hex.hex_digit n
  /\ Hex.is_ascii_space (Hex.hex_digit n) = false
  /\ Hex.hex_val (Hex.hex_digit n) = Some n.
Proof.
  intros H.
  destruct (Byte.of_N (16 * n)) as [b|] eqn:E.
  - apply Byte.to_of_N in E.
    pose proof (HexFacts.hex_of_byte b) as Hb. cbv zeta in Hb. rewrite E in Hb.
    replace (16 * n / 16)%N with n in Hb
      by (symmetry; rewrite N.mul_comm; apply N.div_mul; lia).
    tauto.
  - apply Byte.of_N_None_iff in E. lia.
Qed.

Lemma append_nil (s : string) : String.append EmptyString s = s.
Proof. reflexivity. Qed.

Lemma append_cons c (s t : string) :
  String.append (String c s) t = String c (String.append s t).
Proof. reflexivity. Qed.

Lemma odd_hex_rejected bs n :
  (n < 16)%N ->
  Hex.hex_string_to_bytes
    (String.append (Hex.bytes_to_hex_string bs) (String (Hex.hex_digit n) EmptyString))
  = Raise Hex.fromhex_error.
Proof.
  intros Hn. destruct (hex_digit_facts n Hn) as (Hs & Hl & Ha & Hv).
  set (tail := String (Hex.hex_digit n) EmptyString).
  assert (L : forall bs, Hex.lstrip (String.append (Hex.bytes_to_hex_string bs) tail)
              = String.append (Hex.bytes_to_hex_string bs) tail).
  { intros [|b bs']; cbn [Hex.bytes_to_hex_string];
      rewrite ?append_cons, ?append_nil.
    - unfold tail. cbn [Hex.lstrip]. rewrite Hs. reflexivity.
    - cbn [Hex.lstrip]. destruct (HexFacts.hex_of_byte b) as (-> & _). reflexivity. }
  assert (R : Hex.rstrip (String.append (Hex.bytes_to_hex_string bs) tail)
              = String.append (Hex.bytes_to_hex_string bs) tail).
  { induction bs as [|b bs IH]; cbn [Hex.bytes_to_hex_string];
      rewrite ?append_cons, ?append_nil.
    - unfold tail. cbn [Hex.rstrip]. rewrite Hs. reflexivity.
    - cbn [Hex.rstrip]. rewrite IH.
      destruct (HexFacts.hex_of_byte b) as (H1 & H2 & _).
      destruct (String.append (Hex.bytes_to_hex_string bs) tail) eqn:E;
        rewrite ?H1, ?H2; reflexivity. }
  assert (W : Hex.lower (String.append (Hex.bytes_to_hex_string bs) tail)
              = String.append (Hex.bytes_to_hex_string bs) tail).
  { clear R. induction bs as [|b bs IH]; cbn [Hex.bytes_to_hex_string];
      rewrite ?append_cons, ?append_nil.
    - unfold tail. cbn [Hex.lower]. rewrite Hl. reflexivity.
    - cbn [Hex.lower]. rewrite IH.
      destruct (HexFacts.hex_of_byte b) as (_ & _ & -> & -> & _).
      reflexivity. }
  unfold Hex.hex_string_to_bytes, Hex.strip. rewrite L, R, W.
  clear L R W. induction bs as [|b bs IH]; cbn [Hex.bytes_to_hex_string];
    rewrite ?append_cons, ?append_nil.
  - unfold tail. cbn [Hex.fromhex]. rewrite Ha, Hv. reflexivity.
  - cbn [Hex.fromhex].
    destruct (HexFacts.hex_of_byte b) as (_ & _ & _ & _ & -> & -> & -> & _).
    rewrite IH. reflexivity.
Qed.

(** X6.  The two hash conversions: the hex string of a byte string has two
    characters per byte and converts back to the byte string, so distinct
    hashes have distinct hex strings (the keys under which chunks are held
    and requested); a hex string with one more hexadecimal digit, hence an
    odd number of digits, makes [hex_string_to_bytes] raise [ValueError]. *)
Theorem hash_text_roundtrip (b b' : bytes) (n : N) :
  Hex.hex_string_to_bytes (Hex.bytes_to_hex_string b) = Ok b
  /\ String.length (Hex.bytes_to_hex_string b) = (2 * length b)%nat
  /\ (Hex.bytes_to_hex_string b = Hex.bytes_to_hex_string b' -> b = b')
  /\ ((n < 16)%N ->
      Hex.hex_string_to_bytes
        (String.append (Hex.bytes_to_hex_string b)
                       (String (Hex.hex_digit n) EmptyString))
      = Raise Hex.fromhex_error).
Proof.
  split; [apply HexFacts.hex_roundtrip|].
  split; [apply hex_length|].
  split; [|apply odd_hex_rejected].
  intros H.
  pose proof (HexFacts.hex_roundtrip b) as H1.
  rewrite H, HexFacts.hex_roundtrip in H1. congruence.
Qed.

End FormatFacts.

(* ===================================================================== *)
(** * The codec: what is an error and what is not *)
(* ===================================================================== *)

Module CodecErrorFacts.

Import Packet Wire Formats.

(** C7 (as amended): encoding a DATA packet fails exactly when the payload
    is longer than 1388 bytes or the sequence number does not fit 32 bits;
    the decoder [parse_packet] raises on a datagram shorter than the
    12-byte header and on one whose declared [pkt_len] differs from its
    length; [extract_chunk_hashes], which decodes WHOHAS and IHAVE
    payloads, raises when the length is not a multiple of 20.  A GET
    payload of another length than 20 is no decoding error: [parse_packet]
    accepts the datagram, whatever the length of the payload, and
    [handle_get_request] then refuses the request without an error: it
    returns [None] and leaves the manager as it is, so no upload connection
    is created and nothing is sent. *)
Theorem codec_errors ho seq data packet from chunk_payload get_payload now peer hm :
  (is_ok (build_data_packet ho seq data) = false
   <-> len data > 1388 \/ ~ 0 <= seq < 2 ^ 32)
  /\ (len packet < 12 ->
      parse_packet ho packet from = Raise (ValueError "Packet too short"))
  /\ (12 <= len packet -> declared_pkt_len packet <> len packet ->
      parse_packet ho packet from = Raise (ValueError "Packet length mismatch"))
  /\ (len chunk_payload mod 20 <> 0 ->
      extract_chunk_hashes chunk_payload
      = Raise (ValueError "Payload length must be multiple of 20 (SHA-1 hash size)"))
  /\ (12 + len get_payload < 2 ^ 16 ->
      let info := parsed PktType.GET (12 + len get_payload) 0 0 get_payload from in
      parse_packet ho (wire_header PktType.GET (12 + len get_payload) 0 0
                         ++ get_payload) from
      = Ok info
      /\ (len get_payload <> 20 ->
          Handshake.handle_get_request now info peer hm = (None, hm))).
Proof.
  split; [|split; [|split; [|split]]].
  - assert (Hf : fits 32 seq = true <-> 0 <= seq < 2 ^ 32).
    { unfold fits. rewrite andb_true_iff, Z.leb_le, Z.ltb_lt. tauto. }
    destruct (FormatFacts.build_cases ho (Data seq data)) as [[Hb Hc]|[[e Hb] Hc]];
      cbn [build buildable] in Hb, Hc; rewrite Hb; cbn [is_ok];
      change MAX_PAYLOAD_SIZE with 1388 in Hc.
    + apply andb_true_iff in Hc as [H1 H2]. apply Hf in H2. split; [discriminate|].
      intros [H|H]; [lia|contradiction].
    + split; [intros _|reflexivity].
      apply andb_false_iff in Hc as [H|H]; [left; lia|].
      right. intros H'. apply Hf in H'. congruence.
  - intros H. unfold parse_packet. change HEADER_LEN with 12.
    replace (len packet <? 12) with true by (symmetry; lia). reflexivity.
  - intros H1 H2. now apply PacketFacts.parse_packet_length_check.
  - intros H. unfold extract_chunk_hashes.
    replace (len chunk_payload mod 20 =? 0) with false
      by (symmetry; apply Z.eqb_neq; exact H).
    reflexivity.
  - intros Hfit info. split.
    + apply (PacketFacts.parse_wire ho PktType.GET 0 0 get_payload from);
        try reflexivity.
      apply PacketFacts.fits_intro. pose proof (PacketFacts.len_nonneg get_payload).
      change HEADER_LEN with 12. lia.
    + intros H. unfold Handshake.handle_get_request. cbn [payload info parsed].
      replace (len get_payload =? 20) with false
        by (symmetry; apply Z.eqb_neq; exact H).
      reflexivity.
Qed.

Lemma codec_errors_witness :
  is_ok (build_data_packet Little 1 (repeat x00 (Z.to_nat 1389))) = false
  /\ parse_packet Little [x03; x0c] None = Raise (ValueError "Packet too short")
  /\ parse_packet Little lying_header None
     = Raise (ValueError "Packet length mismatch")
  /\ extract_chunk_hashes [x01]
     = Raise (ValueError "Payload length must be multiple of 20 (SHA-1 hash size)")
  /\ Handshake.handle_get_request 0 short_get (EmptyString, 0) idle_manager
     = (None, idle_manager).
Proof.
  destruct (codec_errors Little 1 (repeat x00 (Z.to_nat 1389)) [x03; x0c] None
              [x01] (repeat x00 7) 0 (EmptyString, 0) idle_manager)
    as (H1 & H2 & _ & H4 & H5).
  destruct (codec_errors Little 1 [] lying_header None [] [] 0
              (EmptyString, 0) idle_manager) as (_ & _ & H3 & _).
  split; [apply H1; left; vm_compute; reflexivity|].
  split; [apply H2; vm_compute; reflexivity|].
  split; [apply H3; vm_compute; discriminate|].
  split; [apply H4; vm_compute; discriminate|].
  apply H5; vm_compute; [reflexivity|discriminate].
Defined.

(** C7 as stated fails on two counts.  A GET datagram with a payload of 7
    bytes is decoded without an error, on either kind of host: nothing in
    the decoder looks at the length of a GET payload.  And a DATA packet
    with an empty payload is refused when its sequence number is [2 ^ 32]:
    encoding does not fail only when the payload exceeds 1388 bytes. *)
Lemma codec_errors_counterexample :
  let datagram := wire_header PktType.GET 19 0 0 ++ repeat x00 7 in
  len (payload short_get) <> 20
  /\ parse_packet Little datagram None = Ok short_get
  /\ parse_packet Big datagram None = Ok short_get
  /\ ~ len (@nil byte) > 1388
  /\ is_ok (build_data_packet Little (2 ^ 32) []) = false
  /\ is_ok (build_data_packet Big (2 ^ 32) []) = false.
Proof.
  intros datagram. repeat split; try (vm_compute; reflexivity);
    vm_compute; discriminate.
Qed.

End CodecErrorFacts.

(* ===================================================================== *)
(** * The connection: acknowledgements, reassembly, timer and window *)
(* ===================================================================== *)

Module TraceFacts.

Import Conn Runs Traces ConnFacts.

Lemma handle_ack_fields t a c :
  let c1 := snd (handle_ack t a c) in
  ack_num c1 = Z.max (ack_num c) a
  /\ send_buffer c1
     = (if a >? ack_num c then filter (fun '(s, _) => s > a) (send_buffer c)
        else send_buffer c)
  /\ fst (handle_ack t a c) = (a >? ack_num c).
Proof.
  unfold handle_ack. destruct (a >? ack_num c) eqn:E; cbn [snd fst].
  - unfold update_cwnd_on_ack.
    match goal with |- context [if ?b then _ else _] => destruct b end;
      cbn; (split; [lia|split; reflexivity]).
  - cbn. split; [lia|split; reflexivity].
Qed.

Lemma filter_above_twice (a b : Z) (buf : list (Z * bytes)) :
  a <= b ->
  filter (fun '(s, _) => s > b) (filter (fun '(s, _) => s > a) buf)
  = filter (fun '(s, _) => s > b) buf.
Proof.
  intros Hab. rewrite list_filter_filter.
  apply list_filter_iff. intros [s d]. lia.
Qed.

Lemma highest_ge acks a0 : a0 <= highest acks a0.
Proof.
  unfold highest. revert a0. induction acks as [|a acks IH]; intros a0; cbn; [lia|].
  specialize (IH (Z.max a0 (snd a))). lia.
Qed.

Lemma ack_all_fields acks c :
  let c' := ack_all acks c in
  ack_num c' = highest acks (ack_num c)
  /\ send_buffer c'
     = (if ack_num c' =? ack_num c then send_buffer c
        else filter (fun '(s, _) => s > ack_num c') (send_buffer c)).
Proof.
  revert c. induction acks as [|[t a] acks IH]; intros c; cbn zeta.
  - cbn. rewrite Z.eqb_refl. split; reflexivity.
  - cbn [ack_all fold_left fst snd].
    destruct (handle_ack_fields t a c) as (Ha & Hb & _). cbv zeta in Ha, Hb.
    set (c1 := snd (handle_ack t a c)) in *.
    destruct (IH c1) as (IHa & IHb). cbv zeta in IHa, IHb.
    fold (ack_all acks c1) in *.
    set (c' := ack_all acks c1) in *.
    pose proof (highest_ge acks (ack_num c1)) as Hge.
    split.
    + rewrite IHa, Ha. reflexivity.
    + rewrite IHb, Hb.
      destruct (a >? ack_num c) eqn:E.
      * replace (ack_num c' =? ack_num c) with false by (symmetry; lia).
        destruct (ack_num c' =? ack_num c1) eqn:E1.
        -- apply Z.eqb_eq in E1. rewrite E1, Ha.
           replace (Z.max (ack_num c) a) with a by lia. reflexivity.
        -- apply filter_above_twice. lia.
      * replace (ack_num c1) with (ack_num c) by lia. reflexivity.
Qed.

Lemma find_head {A} (f : A -> bool) (l : list A) :
  Forall (fun x => f x = true) l -> List.find f l = head l.
Proof. intros H. destruct H as [|x l Hx _]; [reflexivity|]. cbn. now rewrite Hx. Qed.

(** X7.  Acknowledgements are cumulative.  After any sequence of
    [handle_ack] calls the recorded [ack_num] is the highest number
    acknowledged so far, it never decreases, and the send buffer holds
    exactly the packets of the original buffer above it (acknowledged
    packets are dropped from the buffer, so its length shrinks as ACKs
    arrive); the next unacknowledged packet is then the first of the
    buffer. *)
Theorem handle_ack_cumulative acks c :
  let c' := ack_all acks c in
  ack_num c' = highest acks (ack_num c)
  /\ ack_num c <= ack_num c'
  /\ send_buffer c'
     = (if ack_num c' =? ack_num c then send_buffer c
        else filter (fun '(s, _) => s > ack_num c') (send_buffer c))
  /\ ((forall s d, (s, d) ∈ send_buffer c -> ack_num c < s) ->
      get_next_unacked_seq c' = fst <$> head (send_buffer c')).
Proof.
  intros c'. destruct (ack_all_fields acks c) as (Ha & Hb).
  cbv zeta in Ha, Hb. fold c' in Ha, Hb.
  pose proof (highest_ge acks (ack_num c)) as Hge.
  split; [exact Ha|]. split; [lia|]. split; [exact Hb|].
  intros Habove. unfold get_next_unacked_seq. f_equal.
  apply find_head. rewrite Hb.
  destruct (ack_num c' =? ack_num c) eqn:E.
  - apply Z.eqb_eq in E. rewrite E.
    apply List.Forall_forall. intros [s d] Hin.
    apply list_elem_of_In in Hin. specialize (Habove s d Hin). lia.
  - apply List.Forall_forall. intros [s d] Hin.
    apply list_elem_of_In, list_elem_of_filter in Hin as [Hs _]. lia.
Qed.

Lemma handle_ack_cumulative_witness :
  let c := add_to_send_buffer 2 [x62] (add_to_send_buffer 1 [x61] (fresh UPLOAD)) in
  get_next_unacked_seq (ack_all [(1%Q, 1); (2%Q, 1)] c)
  = fst <$> head (send_buffer (ack_all [(1%Q, 1); (2%Q, 1)] c)).
Proof.
  intros c.
  apply (handle_ack_cumulative [(1%Q, 1); (2%Q, 1)] c).
  intros s d Hin. vm_compute in Hin.
  apply list_elem_of_In in Hin.
  destruct Hin as [[= <- <-]|[[= <- <-]|[]]]; vm_compute; reflexivity.
Defined.

(** ** Receiving: the first arrival of a sequence number is the one kept *)

Lemma add_received_data_buffer seq data c :
  is_download c = true ->
  let c1 := snd (add_received_data seq data c) in
  is_download c1 = true
  /\ recv_buffer c1
     = match recv_buffer c !! seq with
       | Some _ => recv_buffer c
       | None => <[seq := data]> (recv_buffer c)
       end
  /\ bytes_transferred c1
     = match recv_buffer c !! seq with
       | Some _ => bytes_transferred c
       | None => bytes_transferred c + len data
       end
  /\ (ack_num c1, chunk_data c1)
     = match recv_buffer c !! seq with
       | Some _ => (ack_num c, chunk_data c)
       | None => drain (size (<[seq := data]> (recv_buffer c)))
                       (<[seq := data]> (recv_buffer c)) (ack_num c) (chunk_data c)
       end.
Proof.
  intros Hd. unfold add_received_data. rewrite Hd. cbn [negb].
  destruct (recv_buffer c !! seq) as [d|] eqn:E; cbn [snd].
  - repeat split; assumption.
  - cbn -[drain size].
    destruct (drain _ _ _ _) as [ack cd]. cbn. repeat split. exact Hd.
Qed.

Lemma receive_all_download ops c :
  is_download c = true -> is_download (receive_all ops c) = true.
Proof.
  revert c. induction ops as [|op ops IH]; intros c Hd; [exact Hd|].
  cbn [receive_all fold_left]. apply IH.
  now destruct (add_received_data_buffer (fst op) (snd op) c Hd) as (H & _).
Qed.

Lemma receive_all_buffer ops c s :
  is_download c = true ->
  recv_buffer (receive_all ops c) !! s
  = match recv_buffer c !! s with
    | Some d => Some d
    | None => first_arrival ops s
    end.
Proof.
  revert c. induction ops as [|[seq data] ops IH]; intros c Hd.
  - cbn. destruct (recv_buffer c !! s); reflexivity.
  - cbn [receive_all fold_left fst snd].
    destruct (add_received_data_buffer seq data c Hd) as (Hd1 & Hb & _).
    cbv zeta in Hd1, Hb.
    fold (receive_all ops (snd (add_received_data seq data c))).
    rewrite (IH _ Hd1), Hb.
    unfold first_arrival. cbn [List.find fst].
    destruct (Z.eqb_spec seq s) as [->|Hne].
    + destruct (recv_buffer c !! s) as [d|] eqn:E; [rewrite E; reflexivity|].
      rewrite lookup_insert_eq. reflexivity.
    + destruct (recv_buffer c !! seq) as [d0|] eqn:E0; [reflexivity|].
      rewrite lookup_insert_ne by exact Hne. reflexivity.
Qed.

Lemma stored_bytes_insert (rb : gmap Z bytes) k d :
  rb !! k = None -> stored_bytes (<[k := d]> rb) = stored_bytes rb + len d.
Proof.
  intros H. unfold stored_bytes.
  rewrite map_fold_insert_L; [lia| |exact H].
  intros. lia.
Qed.

Lemma receive_all_bytes ops c :
  is_download c = true ->
  bytes_transferred c = stored_bytes (recv_buffer c) ->
  bytes_transferred (receive_all ops c)
  = stored_bytes (recv_buffer (receive_all ops c)).
Proof.
  revert c. induction ops as [|[seq data] ops IH]; intros c Hd Hb; [exact Hb|].
  cbn [receive_all fold_left fst snd].
  destruct (add_received_data_buffer seq data c Hd) as (Hd1 & Hr & Ht & _).
  cbv zeta in Hd1, Hr, Ht.
  apply IH; [exact Hd1|]. rewrite Hr, Ht.
  destruct (recv_buffer c !! seq) as [d0|] eqn:E0; [exact Hb|].
  rewrite stored_bytes_insert by exact E0. lia.
Qed.

Lemma receive_all_data (p : Z -> bytes) ops c :
  is_download c = true ->
  (forall k d, recv_buffer (receive_all ops c) !! k = Some d -> d = p k) ->
  0 <= ack_num c ->
  chunk_data c = concat (p <$> seqZ 1 (ack_num c)) ->
  0 <= ack_num (receive_all ops c)
  /\ chunk_data (receive_all ops c)
     = concat (p <$> seqZ 1 (ack_num (receive_all ops c))).
Proof.
  revert c. induction ops as [|[seq data] ops IH]; intros c Hd Hp H0 Hcd.
  - split; assumption.
  - cbn [receive_all fold_left fst snd] in *.
    destruct (add_received_data_buffer seq data c Hd) as (Hd1 & Hr & _ & Hac).
    cbv zeta in Hd1, Hr, Hac.
    set (c1 := snd (add_received_data seq data c)) in *.
    fold (receive_all ops c1) in *.
    assert (Hsub : forall k d, recv_buffer c1 !! k = Some d -> d = p k).
    { intros k d Hk. apply Hp. rewrite (receive_all_buffer ops c1 k Hd1), Hk.
      reflexivity. }
    destruct (recv_buffer c !! seq) as [d0|] eqn:E0.
    + injection Hac as Ha1 Hc1. apply IH; try assumption; [lia|].
      rewrite Hc1, Ha1. exact Hcd.
    + rewrite Hr in Hsub.
      pose proof (drain_mono (size (<[seq:=data]> (recv_buffer c)))
                    (<[seq:=data]> (recv_buffer c)) (ack_num c) (chunk_data c)) as Hm.
      pose proof (drain_data (size (<[seq:=data]> (recv_buffer c)))
                    (<[seq:=data]> (recv_buffer c)) p (ack_num c) (chunk_data c)
                    Hsub H0 Hcd) as Hdd.
      rewrite <- Hac in Hm, Hdd. cbn [fst snd] in Hm, Hdd.
      apply IH; try assumption. lia.
Qed.

(** X8.  A download connection keeps, for every sequence number, the
    payload that arrived first: after any sequence of [add_received_data]
    calls on a new download connection the receive buffer maps each
    sequence number to the payload of its first arrival (a later packet with
    the same number and other bytes changes nothing), [chunk_data] is the
    concatenation of those first payloads for the numbers [1..ack_num], and
    [bytes_transferred] is the number of bytes the buffer holds, each stored
    payload counted once.  A connection that is not a download is left
    untouched. *)
Theorem first_arrival_wins now peer h ops :
  let c := receive_all ops (new_connection now peer h DOWNLOAD) in
  (forall s, recv_buffer c !! s = first_arrival ops s)
  /\ chunk_data c
     = concat ((fun s => default [] (first_arrival ops s)) <$> seqZ 1 (ack_num c))
  /\ bytes_transferred c = stored_bytes (recv_buffer c)
  /\ receive_all ops (new_connection now peer h UPLOAD)
     = new_connection now peer h UPLOAD.
Proof.
  intros c.
  assert (Hb : forall s, recv_buffer c !! s = first_arrival ops s).
  { intros s. unfold c. rewrite receive_all_buffer by reflexivity.
    cbn. rewrite lookup_empty. reflexivity. }
  split; [exact Hb|]. split; [|split].
  - apply receive_all_data; try reflexivity.
    intros k d Hk. fold c in Hk. rewrite Hb in Hk. rewrite Hk. reflexivity.
  - apply receive_all_bytes; reflexivity.
  - clear c Hb. induction ops as [|op ops IH]; [reflexivity|].
    cbn [receive_all fold_left]. exact IH.
Qed.

(** ** The retransmission timer *)

Lemma update_timeout_on_ack_fields s c :
  let c1 := update_timeout_on_ack s c in
  estimated_rtt c1 = ((1 - (15 # 100)) * estimated_rtt c + (15 # 100) * s)%Q
  /\ dev_rtt c1
     = ((1 - (3 # 10)) * dev_rtt c
        + (3 # 10) * Qabs (s - estimated_rtt c1))%Q
  /\ timeout_interval c1 = (estimated_rtt c1 + 4 * dev_rtt c1)%Q.
Proof. repeat split. Qed.

Lemma sample_all_positive samples c :
  Forall (fun s => 0 <= s)%Q samples ->
  (0 < estimated_rtt c)%Q -> (0 <= dev_rtt c)%Q ->
  (timeout_interval c == estimated_rtt c + 4 * dev_rtt c)%Q ->
  let c' := sample_all samples c in
  (0 < estimated_rtt c')%Q /\ (0 <= dev_rtt c')%Q
  /\ (timeout_interval c' == estimated_rtt c' + 4 * dev_rtt c')%Q.
Proof.
  intros Hs. revert c. induction Hs as [|s samples Hs0 _ IH]; intros c He Hd Ht.
  - cbn. repeat split; assumption.
  - cbn [sample_all fold_left].
    destruct (update_timeout_on_ack_fields s c) as (E1 & E2 & E3).
    cbv zeta in E1, E2, E3.
    pose proof (Qabs_nonneg (s - estimated_rtt (update_timeout_on_ack s c))) as Hab.
    apply IH.
    + rewrite E1. lra.
    + rewrite E2. lra.
    + rewrite E3. reflexivity.
Qed.

(** X9.  The retransmission timer stays usable.  From a new connection
    and whatever non-negative RTT samples arrive, the estimated RTT stays
    positive, the deviation stays non-negative, and the timeout interval
    stays positive and at least the estimate.  (Signs and orderings only:
    the code computes the three values in double precision, and rounding
    to nearest keeps a sum of non-negative terms non-negative and at least
    each term.) *)
Theorem timeout_stays_positive now peer h dir samples :
  Forall (fun s => 0 <= s)%Q samples ->
  let c' := sample_all samples (new_connection now peer h dir) in
  (0 < estimated_rtt c')%Q /\ (0 <= dev_rtt c')%Q
  /\ (0 < timeout_interval c')%Q
  /\ (estimated_rtt c' <= timeout_interval c')%Q.
Proof.
  intros Hs c'.
  assert (P1 : (0 < estimated_rtt (new_connection now peer h dir))%Q)
    by (cbn; lra).
  assert (P2 : (0 <= dev_rtt (new_connection now peer h dir))%Q)
    by (cbn; lra).
  assert (P3 : (timeout_interval (new_connection now peer h dir)
                == estimated_rtt (new_connection now peer h dir)
                   + 4 * dev_rtt (new_connection now peer h dir))%Q)
    by (cbn; reflexivity).
  destruct (sample_all_positive samples (new_connection now peer h dir) Hs P1 P2 P3)
    as (He & Hd & Ht).
  fold c' in He, Hd, Ht.
  repeat split; try assumption; lra.
Qed.

Lemma timeout_stays_positive_witness :
  (0 < timeout_interval (sample_all [1 # 10; 0%Q; 3%Q] (fresh DOWNLOAD)))%Q.
Proof.
  assert (Hs : Forall (fun s => 0 <= s)%Q [1 # 10; 0%Q; 3%Q]).
  { repeat constructor; vm_compute; discriminate. }
  exact (proj1 (proj2 (proj2
           (timeout_stays_positive 0 (EmptyString, 0) EmptyString DOWNLOAD
              [1 # 10; 0%Q; 3%Q] Hs)))).
Defined.

(** ** The congestion window over a run *)

Lemma cc_step_ssthresh c e : 2 <= ssthresh c -> 2 <= ssthresh (cc_step c e).
Proof.
  intros H. destruct e as [t a|]; cbn [cc_step].
  - unfold handle_ack. destruct (a >? ack_num c); cbn [snd]; [|exact H].
    unfold update_cwnd_on_ack.
    match goal with |- context [if ?b then _ else _] => destruct b end; exact H.
  - cbn. lia.
Qed.

Lemma cc_run_ssthresh es c : 2 <= ssthresh c -> 2 <= ssthresh (cc_run es c).
Proof.
  revert c. induction es as [|e es IH]; intros c H; [exact H|].
  cbn [cc_run fold_left]. apply IH. now apply cc_step_ssthresh.
Qed.

Lemma Qltb_compat (x y : Q) (n : Z) :
  (x == y)%Q -> Qltb x (inject_Z n) = Qltb y (inject_Z n).
Proof.
  intros E. destruct (Qltb y (inject_Z n)) eqn:Ey.
  - apply Qltb_lt. apply Qltb_lt in Ey. lra.
  - destruct (Qltb x (inject_Z n)) eqn:Ex; [|reflexivity].
    apply Qltb_lt in Ex. assert (Hy : (y < inject_Z n)%Q) by lra.
    apply Qltb_lt in Hy. congruence.
Qed.

(** [k] new acknowledgements in a row: the numbers [a+1 .. a+k]. *)
Lemma slow_start_growth (k : nat) c (n : Z) ts :
  length ts = k ->
  (cwnd c == inject_Z n)%Q ->
  n + Z.of_nat k <= ssthresh c ->
  let acks := zip ts (seqZ (ack_num c + 1) (Z.of_nat k)) in
  (cwnd (ack_all acks c) == inject_Z (n + Z.of_nat k))%Q
  /\ ssthresh (ack_all acks c) = ssthresh c
  /\ ack_num (ack_all acks c) = ack_num c + Z.of_nat k.
Proof.
  revert c n ts. induction k as [|k IH]; intros c n ts Hl Hc Hn.
  - destruct ts; [|discriminate]. cbn. rewrite Z.add_0_r.
    split; [exact Hc|]. split; [reflexivity|lia].
  - destruct ts as [|t ts]; [discriminate|]. injection Hl as Hl.
    rewrite Nat2Z.inj_succ in *. cbv zeta.
    rewrite seqZ_cons by lia. cbn [zip zip_with ack_all fold_left fst snd].
    assert (Hnew : (ack_num c + 1 >? ack_num c) = true) by lia.
    assert (Hlt : Qltb (cwnd c) (inject_Z (ssthresh c)) = true).
    { apply Qltb_lt. rewrite Hc. rewrite <- Zlt_Qlt. lia. }
    set (c1 := snd (handle_ack t (ack_num c + 1) c)).
    assert (H1 : cwnd c1 = (cwnd c + 1)%Q /\ ssthresh c1 = ssthresh c
                 /\ ack_num c1 = ack_num c + 1).
    { unfold c1, handle_ack. rewrite Hnew. cbn [snd].
      unfold update_cwnd_on_ack. cbn. rewrite Hlt. cbn. repeat split. }
    destruct H1 as (Hc1 & Hs1 & Ha1).
    specialize (IH c1 (n + 1) ts Hl).
    cbv zeta in IH. rewrite Hs1, Ha1 in IH.
    replace (Z.succ (ack_num c + 1)) with (ack_num c + 1 + 1) by lia.
    replace (Z.pred (Z.succ (Z.of_nat k))) with (Z.of_nat k) by lia.
    fold (ack_all (zip ts (seqZ (ack_num c + 1 + 1) (Z.of_nat k))) c1).
    destruct IH as (I1 & I2 & I3).
    + rewrite Hc1, Hc. rewrite inject_Z_plus. reflexivity.
    + lia.
    + split; [|split].
      * rewrite I1. replace (n + 1 + Z.of_nat k) with (n + Z.succ (Z.of_nat k)) by lia.
        reflexivity.
      * exact I2.
      * lia.
Qed.

(** X10.  The congestion window over a run.  Whatever ACKs and losses a
    connection sees, [ssthresh] never falls below 2.  A loss restarts slow
    start: the next new ACK brings [cwnd] to exactly 2.  In slow start the
    window grows by one per new ACK: from a new connection ([cwnd = 1],
    [ssthresh = 64]) the ACKs [1 .. k], for [k <= 63], bring [cwnd] to
    [1 + k] and the send window to [1 + k]. *)
Theorem congestion_window_trajectory now peer h dir es c t a (k : nat) ts :
  a > ack_num c ->
  length ts = k -> (k <= 63)%nat ->
  let c0 := new_connection now peer h dir in
  let grown := ack_all (zip ts (seqZ 1 (Z.of_nat k))) c0 in
  2 <= ssthresh (cc_run es c0)
  /\ (cwnd (snd (handle_ack t a (update_cwnd_on_loss c))) == 2)%Q
  /\ (cwnd grown == inject_Z (1 + Z.of_nat k))%Q
  /\ get_send_window grown = 1 + Z.of_nat k.
Proof.
  intros Ha Hl Hk c0 grown.
  split; [apply cc_run_ssthresh; cbn; lia|]. split; [|].
  - unfold handle_ack. cbn [update_cwnd_on_loss set_cwnd set_ssthresh ack_num].
    replace (a >? ack_num c) with true by (symmetry; lia). cbn [snd].
    unfold update_cwnd_on_ack. cbn.
    assert (Hlt : Qltb 1 (inject_Z (Z.max (py_int (cwnd c / 2)) 2)) = true).
    { apply Qltb_lt. change 1%Q with (inject_Z 1). rewrite <- Zlt_Qlt. lia. }
    rewrite Hlt. cbn. reflexivity.
  - destruct (slow_start_growth k c0 1 ts Hl) as (G1 & G2 & G3).
    + reflexivity.
    + cbn. lia.
    + cbn [c0 new_connection ack_num] in G1. change (0 + 1) with 1 in G1.
      fold c0 in G1. fold grown in G1. split; [exact G1|].
      unfold get_send_window.
      rewrite Z.max_comm, (max_py_int (cwnd grown) 1) by lia.
      assert (Hf : Qfloor (cwnd grown) = 1 + Z.of_nat k).
      { rewrite G1. apply Qfloor_Z. }
      rewrite Hf. lia.
Qed.

Lemma congestion_window_trajectory_witness :
  get_send_window (ack_all (zip [1%Q; 2%Q; 3%Q] (seqZ 1 (Z.of_nat 3))) (fresh UPLOAD))
  = 1 + Z.of_nat 3.
Proof.
  assert (Ha : 1 > ack_num (fresh UPLOAD)) by (vm_compute; reflexivity).
  assert (Hk : (3 <= 63)%nat) by lia.
  exact (proj2 (proj2 (proj2
           (congestion_window_trajectory 0 (EmptyString, 0) EmptyString UPLOAD
              [] (fresh UPLOAD) 0 1 3 [1%Q; 2%Q; 3%Q] Ha eq_refl Hk)))).
Defined.

End TraceFacts.

(* ===================================================================== *)
(** * Reliable transfer: what an upload sends *)
(* ===================================================================== *)

Module SenderFacts.

Import Conn Transfer Senders PacketFacts DictFacts.

Lemma packet_count_spec chunk :
  packet_count chunk = (len chunk + 1387) / 1388.
Proof.
  unfold packet_count, Qceiling, Qfloor.
  change Packet.MAX_PAYLOAD_SIZE with 1388.
  cbn [inject_Z Qdiv Qmult Qinv Qnum Qden Qopp Z.opp].
  change (Qinv (inject_Z 1388)) with (1 # 1388)%Q.
  cbn [Qmult Qnum Qden Qopp].
  rewrite Z.mul_1_r. change (Z.pos (1 * 1388)) with 1388.
  pose proof (len_nonneg chunk).
  Z.to_euclidean_division_equations. lia.
Qed.

Lemma packet_count_bounds chunk :
  (packet_count chunk - 1) * 1388 < len chunk <= packet_count chunk * 1388
  \/ chunk = [] /\ packet_count chunk = 0.
Proof.
  rewrite packet_count_spec. pose proof (len_nonneg chunk).
  destruct chunk as [|b chunk].
  - right. split; reflexivity.
  - left. unfold len in *. cbn [length] in *.
    Z.to_euclidean_division_equations. lia.
Qed.

Lemma piece_take chunk s :
  1 <= s ->
  piece chunk s = take 1388 (drop (Z.to_nat ((s - 1) * 1388)) chunk).
Proof.
  intros Hs. unfold piece, slice. change Packet.MAX_PAYLOAD_SIZE with 1388.
  cbv zeta.
  set (start := (s - 1) * 1388).
  pose proof (length_drop chunk (Z.to_nat start)) as Hl.
  destruct (Z_le_gt_dec (start + 1388) (len chunk)) as [Hle|Hgt].
  - rewrite Z.min_l by lia. f_equal. lia.
  - rewrite Z.min_r by lia.
    rewrite !take_ge; [reflexivity| |]; unfold len in *; lia.
Qed.

Lemma concat_pieces chunk (k : nat) :
  concat (piece chunk <$> seqZ 1 (Z.of_nat k)) = take (k * 1388) chunk.
Proof.
  induction k as [|k IH]; [reflexivity|].
  rewrite Nat2Z.inj_succ, <- Z.add_1_r.
  rewrite (seqZ_app 1 (Z.of_nat k) 1) by lia.
  rewrite fmap_app, concat_app, IH.
  rewrite (seqZ_cons (1 + Z.of_nat k) 1), (seqZ_nil (Z.succ (1 + Z.of_nat k)) (Z.pred 1))
    by lia.
  cbn [fmap list_fmap concat]. rewrite app_nil_r.
  rewrite piece_take by lia.
  replace (Z.to_nat ((1 + Z.of_nat k - 1) * 1388)) with (k * 1388)%nat by lia.
  rewrite take_take_drop. f_equal. lia.
Qed.

Lemma split_chunk_buffer n seq chunk c :
  0 <= seq ->
  let c' := split_chunk n seq chunk c in
  send_buffer c'
  = send_buffer c ++ ((fun s => (s, piece chunk s)) <$> seqZ (seq + 1) (Z.of_nat n))
  /\ c' = set_send_buffer (send_buffer c') c.
Proof.
  revert seq c. induction n as [|n IH]; intros seq c Hseq; cbv zeta.
  - cbn. rewrite app_nil_r. split; [reflexivity|]. destruct c; reflexivity.
  - cbn [split_chunk]. destruct (IH (seq + 1) (add_to_send_buffer (seq + 1)
        (slice (seq * Packet.MAX_PAYLOAD_SIZE)
               (Z.min (seq * Packet.MAX_PAYLOAD_SIZE + Packet.MAX_PAYLOAD_SIZE)
                      (len chunk)) chunk) c)) as (E1 & E2); [lia|].
    cbv zeta in E1, E2. split.
    + rewrite E1. cbn [add_to_send_buffer set_send_buffer send_buffer].
      rewrite <- app_assoc. f_equal.
      rewrite Nat2Z.inj_succ, (seqZ_cons (seq + 1)) by lia.
      cbn [fmap list_fmap app]. f_equal.
      * unfold piece. cbv zeta. replace (seq + 1 - 1) with seq by lia. reflexivity.
      * f_equal. f_equal; lia.
    + rewrite E2 at 1. reflexivity.
Qed.

Lemma pieces_spec chunk :
  chunk <> [] ->
  concat (map snd (pieces chunk)) = chunk
  /\ map fst (pieces chunk) = seqZ 1 (packet_count chunk)
  /\ Forall (fun sd => 1 <= len (snd sd) <= Packet.MAX_PAYLOAD_SIZE) (pieces chunk)
  /\ holds_pieces chunk (pieces chunk)
  /\ 1 <= packet_count chunk.
Proof.
  intros Hne.
  destruct (packet_count_bounds chunk) as [Hb|[-> _]]; [|congruence].
  assert (Hl : 1 <= len chunk).
  { destruct chunk; [congruence|]. unfold len. cbn [length]. lia. }
  assert (Hn : 1 <= packet_count chunk) by lia.
  unfold pieces. split; [|split; [|split; [|split]]].
  - rewrite <- list_fmap_compose.
    change (snd ∘ (fun s => (s, piece chunk s))) with (piece chunk).
    rewrite <- (Z2Nat.id (packet_count chunk)) by lia.
    rewrite concat_pieces. apply take_ge. unfold len in *. lia.
  - rewrite <- list_fmap_compose. apply list_fmap_id.
  - apply List.Forall_forall. intros [s d] Hin.
    apply list_elem_of_In, list_elem_of_fmap in Hin as (s' & [= -> ->] & Hs).
    apply elem_of_seqZ in Hs. cbn [snd].
    rewrite piece_take by lia. unfold len. rewrite length_take, length_drop.
    change Packet.MAX_PAYLOAD_SIZE with 1388. unfold len in *. lia.
  - apply List.Forall_forall. intros [s d] Hin.
    apply list_elem_of_In, list_elem_of_fmap in Hin as (s' & [= -> ->] & Hs).
    apply elem_of_seqZ in Hs. cbn [fst snd]. split; [lia|reflexivity].
  - exact Hn.
Qed.

Lemma apply_custom_timeout_same rt c :
  let c' := apply_custom_timeout rt c in
  c' = set_timeout_interval (timeout_interval c') c.
Proof.
  unfold apply_custom_timeout.
  destruct (custom_timeout rt) as [t|]; [destruct (t =? 0)|];
    destruct c; reflexivity.
Qed.

Lemma create_upload_spec now peer h rt :
  let c := fst (create_upload_connection now peer h rt) in
  let rt' := snd (create_upload_connection now peer h rt) in
  match has_chunks (context rt) !! h with
  | Some ((_ :: _) as chunk) =>
      send_buffer c = pieces chunk
      /\ map fst (send_buffer c) = seqZ 1 (packet_count chunk)
      /\ concat (map snd (send_buffer c)) = chunk
      /\ Forall (fun sd => 1 <= len (snd sd) <= Packet.MAX_PAYLOAD_SIZE)
                (send_buffer c)
      /\ packet_count chunk = (len chunk + 1387) / 1388
      /\ state c = TRANSFER /\ direction c = UPLOAD
      /\ seq_num c = 0 /\ ack_num c = 0
      /\ dict_get (peer, h) (upload_connections rt') = Some c
      /\ sock rt' = sock rt
  | _ => state c = ERROR /\ rt' = rt
  end.
Proof.
  intros c rt'. subst c rt'. unfold create_upload_connection.
  destruct (has_chunks (context rt) !! h) as [[|b chunk]|] eqn:E;
    cbn [fst snd]; try (split; reflexivity).
  set (ch := b :: chunk).
  assert (Hne : ch <> []) by discriminate.
  destruct (pieces_spec ch Hne) as (P1 & P2 & P3 & P4 & P5).
  destruct (split_chunk_buffer (Z.to_nat (packet_count ch)) 0 ch
              (apply_custom_timeout rt (new_connection now peer h UPLOAD)))
    as (S1 & S2); [lia|]. cbv zeta in S1, S2.
  assert (Hbuf : send_buffer
                   (split_chunk (Z.to_nat (packet_count ch)) 0 ch
                      (apply_custom_timeout rt (new_connection now peer h UPLOAD)))
                 = pieces ch).
  { rewrite S1. rewrite (apply_custom_timeout_same rt). cbn [send_buffer set_timeout_interval new_connection].
    rewrite Z2Nat.id by lia. reflexivity. }
  unfold update_state. cbn [send_buffer set_state].
  rewrite Hbuf.
  split; [reflexivity|]. split; [exact P2|]. split; [exact P1|].
  split; [exact P3|]. split; [apply packet_count_spec|].
  split; [reflexivity|].
  rewrite S2, (apply_custom_timeout_same rt).
  cbn [direction seq_num ack_num set_send_buffer set_timeout_interval new_connection set_state].
  repeat split. apply dict_get_set_eq.
Qed.

(** X11.  [create_upload_connection] cuts the chunk into its packets.  When
    the peer holds a non-empty chunk under the requested hash, the new
    connection is an upload in [TRANSFER] with nothing sent or acknowledged,
    registered under [(peer_addr, chunk_hash)]; its send buffer holds the
    packets numbered [1 .. N] in order, [N] being the length divided by 1388
    and rounded up; every packet has between 1 and 1388 bytes and their
    concatenation is the chunk.  When the hash is unknown, or the chunk is
    empty, the connection returned is in [ERROR] and the manager is
    unchanged: nothing is registered. *)
Theorem upload_splits_chunk now peer h rt :
  let c := fst (create_upload_connection now peer h rt) in
  let rt' := snd (create_upload_connection now peer h rt) in
  match has_chunks (context rt) !! h with
  | Some ((_ :: _) as chunk) =>
      send_buffer c = pieces chunk
      /\ map fst (send_buffer c) = seqZ 1 (packet_count chunk)
      /\ concat (map snd (send_buffer c)) = chunk
      /\ Forall (fun sd => 1 <= len (snd sd) <= Packet.MAX_PAYLOAD_SIZE)
                (send_buffer c)
      /\ packet_count chunk = (len chunk + 1387) / 1388
      /\ state c = TRANSFER /\ direction c = UPLOAD
      /\ seq_num c = 0 /\ ack_num c = 0
      /\ dict_get (peer, h) (upload_connections rt') = Some c
      /\ sock rt' = sock rt
  | _ => state c = ERROR /\ rt' = rt
  end.
Proof. exact (create_upload_spec now peer h rt). Qed.

Section Pieces.

Variable ho : Packet.byteorder.
Variable chunk : bytes.
Variable peer : AddressType.

Local Abbreviation serves := (Senders.serves chunk peer).
Local Abbreviation extends := (Senders.extends ho chunk peer).
Local Abbreviation fine := (Senders.fine ho chunk peer).

Lemma extends_refl s : extends s s.
Proof. exists []. rewrite app_nil_r. split; [reflexivity|constructor]. Qed.

Lemma extends_trans s1 s2 s3 : extends s1 s2 -> extends s2 s3 -> extends s1 s3.
Proof.
  intros (a & -> & Ha) (b & -> & Hb). exists (a ++ b).
  rewrite app_assoc. split; [reflexivity|]. apply Forall_app. split; assumption.
Qed.

Lemma fine_ret {A} (a : A) c s : serves c -> fine (ret a (c, s)) s.
Proof. intros H. split; [exact H|apply extends_refl]. Qed.

Lemma fine_bind {A B} (m : CM A) (k : A -> CM B) c s :
  fine (m (c, s)) s ->
  (forall a c1 s1, m (c, s) = (Ok a, (c1, s1)) -> serves c1 ->
                   fine (k a (c1, s1)) s1) ->
  fine (cbind m k (c, s)) s.
Proof.
  intros [Hs He] Hk. unfold cbind.
  destruct (m (c, s)) as [[a|e] [c1 s1]] eqn:E; cbn [fst snd] in *.
  - destruct (Hk a c1 s1 eq_refl Hs) as [Hs' He'].
    split; [exact Hs'|]. eapply extends_trans; eassumption.
  - split; assumption.
Qed.

Lemma fine_modify (f : Connection -> Connection) c s :
  serves c -> serves (f c) -> fine (modify f (c, s)) s.
Proof. intros _ H. split; [exact H|apply extends_refl]. Qed.

Lemma fine_lift {A} (r : result A) c s : serves c -> fine (lift r (c, s)) s.
Proof. intros H. split; [exact H|apply extends_refl]. Qed.

Lemma fine_sendto pkt addr c s :
  serves c -> piece_datagram ho chunk peer (pkt, addr) ->
  fine (sendto pkt addr (c, s)) s.
Proof.
  intros H Hd. split; [exact H|]. exists [(pkt, addr)].
  split; [reflexivity|]. constructor; [exact Hd|constructor].
Qed.

Lemma serves_same c c' :
  peer_addr c' = peer_addr c -> send_buffer c' = send_buffer c ->
  serves c -> serves c'.
Proof. intros E1 E2 [H1 H2]. split; [congruence|]. rewrite E2. exact H2. Qed.

Lemma serves_in c q d :
  serves c -> In (q, d) (send_buffer c) ->
  1 <= q <= packet_count chunk /\ d = piece chunk q.
Proof.
  intros [_ H] Hin. unfold holds_pieces in H.
  rewrite List.Forall_forall in H. exact (H (q, d) Hin).
Qed.

(** Sending a packet found in the buffer. *)
Lemma fine_send_found now (q : Z) (d : bytes) c s (k : CM unit) :
  serves c -> In (q, d) (send_buffer c) ->
  (forall c1 s1, serves c1 -> fine (k (c1, s1)) s1) ->
  fine ((data_pkt <- lift (Packet.build_data_packet ho q d) ;;
         sendto data_pkt (peer_addr c) ;;
         modify (set_last_send_time now) ;; k) (c, s)) s.
Proof.
  intros Hs Hin Hk. destruct (serves_in c q d Hs Hin) as [Hq ->].
  apply fine_bind; [now apply fine_lift|].
  intros pkt c1 s1 E Hs1. unfold lift in E. injection E as E <- <-.
  apply fine_bind.
  { apply fine_sendto; [exact Hs|]. split; [exact (proj1 Hs)|]. eauto. }
  intros [] c2 s2 _ Hs2.
  apply fine_bind.
  { apply fine_modify; [exact Hs2|]. revert Hs2. now apply serves_same. }
  intros [] c3 s3 _ Hs3. now apply Hk.
Qed.

Lemma find_seq_in q buf x d :
  find_seq q buf = Some (x, d) -> x = q /\ In (q, d) buf.
Proof.
  unfold find_seq. intros H. apply find_some in H as [Hin Hq].
  cbn [fst] in Hq. apply Z.eqb_eq in Hq. subst x. split; [reflexivity|exact Hin].
Qed.

Lemma send_loop_fine now n max_seq next_seq c s :
  serves c -> fine (send_loop ho now n max_seq next_seq (c, s)) s.
Proof.
  revert next_seq c s. induction n as [|n IH]; intros next_seq c s Hs.
  - now apply fine_ret.
  - cbn [send_loop]. apply fine_bind; [now apply fine_ret|].
    intros a c1 s1 E _. unfold get in E. cbn [fst] in E. injection E as <- <- <-.
    destruct ((next_seq <=? max_seq)
              && (next_seq <=? ack_num c + get_send_window c));
      [|now apply fine_ret].
    destruct (find_seq next_seq (send_buffer c)) as [[x d]|] eqn:Ef;
      [|now apply fine_ret].
    apply find_seq_in in Ef as [-> Hin].
    apply (fine_send_found now next_seq d c s); [exact Hs|exact Hin|].
    intros c1 s1 Hs1.
    apply fine_bind.
    { apply fine_modify; [exact Hs1|]. revert Hs1. now apply serves_same. }
    intros [] c2 s2 _ Hs2.
    apply fine_bind.
    { apply fine_modify; [exact Hs2|]. revert Hs2. now apply serves_same. }
    intros [] c3 s3 _ Hs3. now apply IH.
Qed.

Lemma send_data_packets_fine now c s :
  serves c -> fine (send_data_packets ho now (c, s)) s.
Proof.
  intros Hs. unfold send_data_packets.
  apply fine_bind; [now apply fine_ret|].
  intros a c1 s1 E _. unfold get in E. cbn [fst] in E. injection E as <- <- <-.
  destruct (negb (can_send_more c)); [now apply fine_ret|].
  now apply send_loop_fine.
Qed.

Lemma trigger_fast_retransmit_fine now c s :
  serves c -> fine (trigger_fast_retransmit ho now (c, s)) s.
Proof.
  intros Hs. unfold trigger_fast_retransmit.
  apply fine_bind.
  { apply fine_modify; [exact Hs|]. revert Hs. now apply serves_same. }
  intros [] c1 s1 _ Hs1.
  apply fine_bind.
  { apply fine_modify; [exact Hs1|]. revert Hs1. now apply serves_same. }
  intros [] c2 s2 _ Hs2.
  apply fine_bind; [now apply fine_ret|].
  intros a c3 s3 E _. unfold get in E. cbn [fst] in E. injection E as <- <- <-.
  apply fine_bind.
  - destruct (find_seq (ack_num c2 + 1) (send_buffer c2)) as [[x d]|] eqn:Ef;
      [|now apply fine_ret].
    apply find_seq_in in Ef as [-> Hin].
    pose proof (fine_send_found now (ack_num c2 + 1) d c2 s2 (ret tt) Hs2 Hin) as H.
    assert (Hk : forall c4 s4, serves c4 -> fine (ret tt (c4, s4)) s4)
      by (intros; now apply fine_ret).
    specialize (H Hk). clear Hk.
    unfold Senders.fine in *. unfold cbind in *.
    destruct (lift (Packet.build_data_packet ho (ack_num c2 + 1) d) (c2, s2))
      as [[pkt|e] [c5 s5]]; cbn [fst snd] in *; exact H.
  - intros [] c4 s4 _ Hs4.
    apply fine_modify; [exact Hs4|]. revert Hs4. now apply serves_same.
Qed.

Lemma handle_upload_timeout_fine now c s :
  serves c -> fine (handle_upload_timeout ho now (c, s)) s.
Proof.
  intros Hs. unfold handle_upload_timeout.
  apply fine_bind.
  { apply fine_modify; [exact Hs|]. revert Hs. now apply serves_same. }
  intros [] c1 s1 _ Hs1.
  apply fine_bind.
  { apply fine_modify; [exact Hs1|]. revert Hs1. now apply serves_same. }
  intros [] c2 s2 _ Hs2.
  apply fine_bind; [now apply fine_ret|].
  intros a c3 s3 E _. unfold get in E. cbn [fst] in E. injection E as <- <- <-.
  destruct (ack_num c2 <? len (send_buffer c2)); [|now apply fine_ret].
  destruct (List.find (fun p => fst p >=? ack_num c2 + 1) (send_buffer c2))
    as [[x d]|] eqn:Ef; [|now apply fine_ret].
  apply find_some in Ef as [Hin _].
  pose proof (fine_send_found now x d c2 s2 (ret tt) Hs2 Hin) as H.
  assert (Hk : forall c4 s4, serves c4 -> fine (ret tt (c4, s4)) s4)
    by (intros; now apply fine_ret).
  specialize (H Hk). clear Hk.
  unfold Senders.fine in *. unfold cbind in *.
  destruct (lift (Packet.build_data_packet ho x d) (c2, s2))
    as [[pkt|e] [c5 s5]]; cbn [fst snd] in *; [|exact H].
  destruct (sendto pkt (peer_addr c2) (c5, s5)) as [[[]|e] [c6 s6]];
    cbn [fst snd] in *; [|exact H].
  destruct (modify (set_last_send_time now) (c6, s6)) as [[[]|e] [c7 s7]];
    cbn [fst snd] in *; exact H.
Qed.

Lemma handle_ack_serves now ack c :
  serves c -> serves (snd (handle_ack now ack c)).
Proof.
  intros [Hp Hb]. unfold handle_ack.
  destruct (ack >? ack_num c); cbn [snd]; [|split; [exact Hp|exact Hb]].
  unfold update_cwnd_on_ack.
  match goal with |- context [if ?b then _ else _] => destruct b end;
    (split; [exact Hp|]); cbn [send_buffer set_packets_acked set_cwnd
      set_send_buffer set_last_ack_time set_duplicate_ack_count set_ack_num];
    unfold holds_pieces in *; rewrite List.Forall_forall in *;
    intros x Hx; apply Hb;
    apply list_elem_of_In in Hx; apply list_elem_of_filter in Hx as [_ Hx];
    apply list_elem_of_In; exact Hx.
Qed.

Lemma on_ack_fine now ack c s :
  serves c -> fine (on_ack ho now ack (c, s)) s.
Proof.
  intros Hs. unfold on_ack.
  apply fine_bind; [now apply fine_ret|].
  intros a c1 s1 E _. unfold get in E. cbn [fst] in E. injection E as <- <- <-.
  pose proof (handle_ack_serves now ack c Hs) as Hs'.
  destruct (handle_ack now ack c) as [is_new c']. cbn [snd] in Hs'.
  apply fine_bind.
  { split; [exact Hs'|apply extends_refl]. }
  intros [] c1 s1 _ Hs1.
  destruct is_new.
  - apply fine_bind.
    { destruct (packet_times c') as [times|]; [|now apply fine_ret].
      destruct (times !! ack) as [t|]; [|now apply fine_ret].
      apply fine_bind.
      { apply fine_modify; [exact Hs1|]. revert Hs1. now apply serves_same. }
      intros [] c2 s2 _ Hs2.
      apply fine_modify; [exact Hs2|]. revert Hs2. now apply serves_same. }
    intros [] c2 s2 _ Hs2.
    apply fine_bind; [now apply send_data_packets_fine|].
    intros [] c3 s3 _ Hs3.
    apply fine_bind; [now apply fine_ret|].
    intros a c4 s4 E _. unfold get in E. cbn [fst] in E. injection E as <- <- <-.
    destruct (ack_num c3 >=? len (send_buffer c3)); [|now apply fine_ret].
    apply fine_bind.
    { apply fine_modify; [exact Hs3|]. revert Hs3. now apply serves_same. }
    intros [] c5 s5 _ Hs5. now apply fine_ret.
  - apply fine_bind.
    { apply fine_modify; [exact Hs1|]. revert Hs1. now apply serves_same. }
    intros [] c2 s2 _ Hs2.
    apply fine_bind; [now apply fine_ret|].
    intros a c4 s4 E _. unfold get in E. cbn [fst] in E. injection E as <- <- <-.
    apply fine_bind.
    { destruct (should_fast_retransmit c2);
        [now apply trigger_fast_retransmit_fine|now apply fine_ret]. }
    intros [] c5 s5 _ Hs5. now apply fine_ret.
Qed.

Variable h : string.
Variable sock0 : SimSocket.

Local Abbreviation uploading := (Senders.uploading ho chunk peer h sock0).

Lemma on_upload_uploading {A} (m : CM A) c rt :
  download_connections rt = [] ->
  upload_connections rt = [((peer, h), c)] ->
  extends sock0 (sock rt) ->
  fine (m (c, sock rt)) (sock rt) ->
  uploading (snd (on_upload (peer, h) c m rt)).
Proof.
  intros Hd Hu He [Hs Hx]. unfold on_upload.
  destruct (m (c, sock rt)) as [r [c' s']]. cbn [fst snd] in *.
  split; [exact Hd|]. split.
  - right. exists c'. cbn. rewrite Hu, dict_set_single. split; [reflexivity|exact Hs].
  - cbn. eapply extends_trans; eassumption.
Qed.

Lemma upload_step_uploading rt e :
  uploading rt -> uploading (upload_step ho peer h rt e).
Proof.
  intros (Hd & Hu & He). destruct e as [now|now info from|now info from|now|];
    cbn [upload_step].
  - unfold start_data_upload. destruct Hu as [Hu|(c & Hu & Hs)]; rewrite Hu.
    + cbn. split; [exact Hd|]. split; [now left|exact He].
    + cbn [dict_get]. destruct (decide ((peer, h) = (peer, h))); [|congruence].
      destruct (negb (bool_decide (state c = TRANSFER))).
      * cbn. split; [exact Hd|]. split; [right; eauto|exact He].
      * apply on_upload_uploading; try assumption.
        apply fine_bind; [now apply send_data_packets_fine|].
        intros [] c1 s1 _ Hs1. now apply fine_ret.
  - unfold handle_ack_packet. destruct Hu as [Hu|(c & Hu & Hs)]; rewrite Hu.
    + cbn. split; [exact Hd|]. split; [now left|exact He].
    + cbn [List.find fst snd].
      destruct (addr_eqb peer from && bool_decide (state c = TRANSFER)).
      * apply on_upload_uploading; try assumption. now apply on_ack_fine.
      * cbn. split; [exact Hd|]. split; [right; eauto|exact He].
  - unfold handle_data_packet. rewrite Hd. cbn.
    split; [exact Hd|]. split; [exact Hu|exact He].
  - unfold handle_timeouts. rewrite Hd. cbn [for_items].
    cbn [upload_connections sock set_sock set_download_connections].
    destruct Hu as [Hu|(c & Hu & Hs)]; rewrite Hu.
    + cbn. split; [reflexivity|]. split; [now left|exact He].
    + cbn [for_items].
      assert (Hf : fine ((if is_active c && should_retransmit now c
                          then handle_upload_timeout ho now;; ret [chunk_hash c]
                          else ret []) (c, sock rt)) (sock rt)).
      { destruct (is_active c && should_retransmit now c); [|now apply fine_ret].
        apply fine_bind; [now apply handle_upload_timeout_fine|].
        intros [] c1 s1 _ Hs1. now apply fine_ret. }
      destruct ((if is_active c && should_retransmit now c
                 then handle_upload_timeout ho now;; ret [chunk_hash c]
                 else ret []) (c, sock rt)) as [[out|e] [c' s']];
        destruct Hf as [Hs' Hx]; cbn [fst snd] in *.
      * split; [reflexivity|]. split; [right; eauto|].
        eapply extends_trans; eassumption.
      * split; [reflexivity|]. split; [right; eauto|].
        eapply extends_trans; eassumption.
  - unfold cleanup_finished_connections. cbn [snd].
    split; [cbn; rewrite Hd; reflexivity|]. split; [|exact He].
    cbn. destruct Hu as [Hu|(c & Hu & Hs)]; rewrite Hu; [now left|].
    cbn. destruct (negb (finished c)); [right; eauto|now left].
Qed.

Lemma upload_run_uploading es rt :
  uploading rt -> uploading (upload_run ho peer h es rt).
Proof.
  revert rt. induction es as [|e es IH]; intros rt H; [exact H|].
  cbn [upload_run fold_left]. apply IH. now apply upload_step_uploading.
Qed.

End Pieces.



Lemma send_loop_step ho now n max_seq next_seq c s x d pkt :
  (next_seq <=? max_seq) && (next_seq <=? ack_num c + get_send_window c) = true ->
  find_seq next_seq (send_buffer c) = Some (x, d) ->
  Packet.build_data_packet ho next_seq d = Ok pkt ->
  send_loop ho now (S n) max_seq next_seq (c, s)
  = send_loop ho now n max_seq (next_seq + 1)
      (set_seq_num next_seq
         (set_packets_sent (packets_sent c + 1) (set_last_send_time now c)),
       s ++ [(pkt, peer_addr c)]).
Proof.
  intros Hc Hf Hb. cbn [send_loop]. unfold cbind at 1. unfold get at 1.
  cbn [fst snd]. rewrite Hc, Hf.
  unfold cbind, lift, sendto, modify. rewrite Hb. cbn [fst snd]. reflexivity.
Qed.

Lemma send_loop_stop ho now n max_seq next_seq c s :
  (next_seq <=? max_seq) && (next_seq <=? ack_num c + get_send_window c) = false ->
  send_loop ho now n max_seq next_seq (c, s) = (Ok tt, (c, s)).
Proof.
  intros Hc. destruct n as [|n]; [reflexivity|].
  cbn [send_loop]. unfold cbind at 1. unfold get at 1. cbn [fst snd].
  rewrite Hc. reflexivity.
Qed.

Lemma send_first ho now c s d rest :
  direction c = UPLOAD -> seq_num c = 0 -> ack_num c = 0 -> cwnd c = 1%Q ->
  send_buffer c = (1, d) :: rest -> len d <= Packet.MAX_PAYLOAD_SIZE ->
  exists pkt,
    Packet.build_data_packet ho 1 d = Ok pkt
    /\ send_data_packets ho now (c, s)
       = (Ok tt,
          (set_seq_num 1
             (set_packets_sent (packets_sent c + 1) (set_last_send_time now c)),
           s ++ [(pkt, peer_addr c)])).
Proof.
  intros Hdir Hseq Hack Hcw Hbuf Hd.
  destruct (FormatFacts.build_cases ho (Wire.Data 1 d)) as [[Hb _]|[_ Hc]].
  2:{ cbn [Formats.buildable] in Hc.
      replace (len d <=? Packet.MAX_PAYLOAD_SIZE) with true in Hc
        by (symmetry; apply Z.leb_le; exact Hd).
      discriminate. }
  cbn [Wire.build] in Hb. eexists. split; [exact Hb|].
  assert (Hw : get_send_window c = 1).
  { unfold get_send_window. rewrite Hcw. reflexivity. }
  unfold send_data_packets. unfold cbind at 1. unfold get at 1. cbn [fst snd].
  assert (Hcan : can_send_more c = true).
  { unfold can_send_more, is_upload. rewrite Hw, Hdir, Hseq, Hack. reflexivity. }
  rewrite Hcan. cbn [negb]. rewrite Hseq, Hack.
  change (Z.max 0 (0 + 1)) with 1.
  assert (Hn : exists n, Z.to_nat (len (send_buffer c) - 1 + 1) = S n).
  { exists (length rest). rewrite Hbuf. unfold len. cbn [length]. lia. }
  destruct Hn as [n ->].
  rewrite (send_loop_step ho now n (len (send_buffer c)) 1 c s 1 d _ ltac:(rewrite Hack, Hw, Hbuf; apply andb_true_iff; split; [apply Z.leb_le; unfold len; cbn [length]; lia|reflexivity]) ltac:(rewrite Hbuf; reflexivity) Hb).
  apply send_loop_stop. cbn [ack_num set_seq_num set_packets_sent set_last_send_time].
  unfold get_send_window.
  cbn [cwnd set_seq_num set_packets_sent set_last_send_time].
  rewrite Hack, Hcw. apply andb_false_r.
Qed.


End SenderFacts.

(* ===================================================================== *)
(** * Reliable transfer: clean-up and timeouts *)
(* ===================================================================== *)

Module ManagerFacts.

Import Conn Transfer Managers DictFacts.

(** X14.  [cleanup_finished_connections] removes exactly the connections
    in [COMPLETE] or [ERROR], changes no other connection and sends
    nothing; it returns the keys of the downloads that were [COMPLETE];
    running it again removes and returns nothing.  After the call the
    returned hashes are no longer keys of [download_connections]: a caller
    that looks one up gets [None]. *)
Theorem cleanup_removes_finished rt kc :
  let done := fst (cleanup_finished_connections rt) in
  let rt' := snd (cleanup_finished_connections rt) in
  (In kc (download_connections rt')
   <-> In kc (download_connections rt) /\ finished (snd kc) = false)
  /\ (forall ku, In ku (upload_connections rt')
                 <-> In ku (upload_connections rt) /\ finished (snd ku) = false)
  /\ (forall h, In h done
                <-> exists c, In (h, c) (download_connections rt)
                              /\ state c = COMPLETE)
  /\ sock rt' = sock rt
  /\ cleanup_finished_connections rt' = ([], rt')
  /\ (NoDup (map fst (download_connections rt)) ->
      forall h, In h done -> dict_get h (download_connections rt') = None).
Proof.
  intros done rt'. subst done rt'. unfold cleanup_finished_connections.
  cbn [fst snd download_connections upload_connections sock
       set_download_connections set_upload_connections].
  assert (Hdone : forall h,
            In h (map fst (List.filter
                             (fun kc => bool_decide (state (snd kc) = COMPLETE))
                             (download_connections rt)))
            <-> exists c, In (h, c) (download_connections rt) /\ state c = COMPLETE).
  { intros h. rewrite in_map_iff. split.
    - intros ([h' c] & <- & Hin). apply filter_In in Hin as [Hin Hc].
      cbn [snd] in Hc. apply bool_decide_eq_true in Hc. eauto.
    - intros (c & Hin & Hc). exists (h, c). split; [reflexivity|].
      apply filter_In. split; [exact Hin|]. cbn [snd].
      now apply bool_decide_eq_true. }
  split; [|split; [|split; [exact Hdone|split; [reflexivity|split]]]].
  - rewrite filter_In, negb_true_iff. reflexivity.
  - intros ku. rewrite filter_In, negb_true_iff. reflexivity.
  - rewrite !filter_twice. f_equal.
    rewrite filter_none; [reflexivity|].
    apply List.Forall_forall. intros [h c] Hin.
    apply filter_In in Hin as [_ Hf]. cbn [snd] in *.
    apply negb_true_iff in Hf. unfold finished in Hf.
    apply orb_false_iff in Hf as [Hf _]. exact Hf.
  - intros Hnd h Hin. apply Hdone in Hin as (c & Hin & Hc).
    apply dict_get_None. rewrite in_map_iff. intros ([h' c'] & E & Hin').
    cbn [fst] in E. subst h'. apply filter_In in Hin' as [Hin' Hf].
    cbn [snd] in Hf.
    assert (c' = c) by (eapply NoDup_key_unique; eassumption). subst c'.
    unfold finished in Hf. apply negb_true_iff, orb_false_iff in Hf as [Hf _].
    apply bool_decide_eq_false in Hf. contradiction.
Qed.

Lemma cleanup_removes_finished_witness :
  dict_get "aa" (download_connections (snd (cleanup_finished_connections two_downloads)))
  = None.
Proof.
  apply (cleanup_removes_finished two_downloads
           ("aa"%string, new_connection 0 (EmptyString, 0) EmptyString DOWNLOAD)).
  - vm_compute. repeat constructor; intros H; inversion H; subst;
      try discriminate; match goal with H : _ ∈ [] |- _ => inversion H end.
  - vm_compute. left. reflexivity.
Defined.

(** ** One tick of [handle_timeouts] *)

Lemma kept_refl {K} now (d : pydict K Connection) : kept_unless_due now d d.
Proof.
  unfold kept_unless_due. induction d as [|kc d IH]; constructor; [tauto|exact IH].
Qed.

Lemma for_items_tick {K} now (body : Connection -> CM (list string))
      (d : pydict K Connection) s :
  (forall c s, due now c = false -> body c (c, s) = (Ok [], (c, s))) ->
  (forall c s, exists sent, snd (snd (body c (c, s))) = s ++ sent
                            /\ (length sent <= 1)%nat) ->
  kept_unless_due now d (fst (snd (for_items body d s)))
  /\ exists sent,
       snd (snd (for_items body d s)) = s ++ sent
       /\ (length sent
           <= length (List.filter (fun kc => due now (snd kc)) d))%nat.
Proof.
  intros Hidle Hone. revert s. induction d as [|[k c] d IH]; intros s.
  - cbn. split; [constructor|]. exists []. rewrite app_nil_r. split; [reflexivity|cbn; lia].
  - cbn [for_items List.filter snd].
    destruct (Hone c s) as (sent1 & Hs1 & Hl1).
    destruct (due now c) eqn:Ed.
    + destruct (body c (c, s)) as [[out|e] [c' s']]; cbn [fst snd] in *; subst s'.
      * destruct (IH (s ++ sent1)) as (Hk & sent2 & Hs2 & Hl2).
        destruct (for_items body d (s ++ sent1)) as [r [d'' s'']].
        cbn [fst snd] in *. subst s''. split.
        -- constructor; [|exact Hk]. cbn [fst snd]. split; [reflexivity|congruence].
        -- exists (sent1 ++ sent2). rewrite app_assoc. split; [reflexivity|].
           rewrite length_app. cbn [length]. lia.
      * split.
        -- constructor; [|apply kept_refl]. cbn [fst snd]. split; [reflexivity|congruence].
        -- exists sent1. split; [reflexivity|]. cbn [length]. lia.
    + rewrite (Hidle c s Ed).
      destruct (IH s) as (Hk & sent2 & Hs2 & Hl2).
      destruct (for_items body d s) as [r [d'' s'']].
      cbn [fst snd] in *. subst s''. split.
      * constructor; [|exact Hk]. cbn. split; reflexivity.
      * exists sent2. split; [reflexivity|exact Hl2].
Qed.

Lemma handle_download_timeout_one ho c s :
  exists sent, snd (snd (handle_download_timeout ho (c, s))) = s ++ sent
               /\ (length sent <= 1)%nat.
Proof.
  unfold handle_download_timeout, cbind, modify, get, lift, sendto. cbn [fst snd].
  destruct (Packet.build_ack_packet ho _) as [pkt|e]; cbn [fst snd].
  - eexists [_]. split; [reflexivity|]. cbn. lia.
  - exists []. rewrite app_nil_r. split; [reflexivity|]. cbn. lia.
Qed.

Lemma handle_upload_timeout_one ho now c s :
  exists sent, snd (snd (handle_upload_timeout ho now (c, s))) = s ++ sent
               /\ (length sent <= 1)%nat.
Proof.
  unfold handle_upload_timeout, cbind, modify, get, lift, sendto, ret. cbn [fst snd].
  assert (Hnil : exists sent : SimSocket, s = s ++ sent /\ (length sent <= 1)%nat).
  { exists []. rewrite app_nil_r. split; [reflexivity|]. cbn. lia. }
  match goal with |- context [if ?b then _ else _] => destruct b end;
    cbn [fst snd]; [|exact Hnil].
  match goal with |- context [List.find ?f ?l] => destruct (List.find f l) as [[q d]|] end;
    cbn [fst snd]; [|exact Hnil].
  destruct (Packet.build_data_packet ho q d) as [pkt|e]; cbn [fst snd]; [|exact Hnil].
  eexists [_]. split; [reflexivity|]. cbn. lia.
Qed.

Lemma tick_body_one (m : CM unit) (x : list string) (b : bool) c s :
  (exists sent, snd (snd (m (c, s))) = s ++ sent /\ (length sent <= 1)%nat) ->
  exists sent,
    snd (snd ((if b then m ;; ret x else ret []) (c, s))) = s ++ sent
    /\ (length sent <= 1)%nat.
Proof.
  intros H. destruct b.
  - unfold cbind, ret. destruct (m (c, s)) as [[[]|e] [c' s']]; exact H.
  - exists []. rewrite app_nil_r. split; [reflexivity|]. cbn. lia.
Qed.

(** X15.  One tick of [handle_timeouts] adds, removes and reorders no
    connection, leaves every connection untouched that is not active or
    whose timeout has not expired, and sends at most one datagram for each
    of the others, appended to what was sent before. *)
Theorem timeout_tick_bounded ho now rt :
  let rt' := snd (handle_timeouts ho now rt) in
  kept_unless_due now (download_connections rt) (download_connections rt')
  /\ kept_unless_due now (upload_connections rt) (upload_connections rt')
  /\ exists sent,
       sock rt' = sock rt ++ sent
       /\ len sent
          <= len (List.filter (fun kc => due now (snd kc)) (download_connections rt))
             + len (List.filter (fun kc => due now (snd kc)) (upload_connections rt)).
Proof.
  cbv zeta. unfold handle_timeouts.
  set (body1 := fun connection : Connection =>
                  if is_active connection && should_retransmit now connection
                  then handle_download_timeout ho ;; ret [chunk_hash connection]
                  else ret []).
  set (body2 := fun connection : Connection =>
                  if is_active connection && should_retransmit now connection
                  then handle_upload_timeout ho now ;; ret [chunk_hash connection]
                  else ret []).
  destruct (for_items_tick now body1 (download_connections rt) (sock rt))
    as (K1 & sent1 & S1 & L1).
  { intros c s E. unfold body1. unfold due in E. rewrite E. reflexivity. }
  { intros c s. apply tick_body_one. apply handle_download_timeout_one. }
  destruct (for_items body1 (download_connections rt) (sock rt))
    as [r1 [downloads s1]]. cbn [fst snd] in K1, S1. subst s1.
  destruct r1 as [chunks1|e]; cbn [snd].
  - cbn [upload_connections sock set_sock set_download_connections].
    destruct (for_items_tick now body2 (upload_connections rt) (sock rt ++ sent1))
      as (K2 & sent2 & S2 & L2).
    { intros c s E. unfold body2. unfold due in E. rewrite E. reflexivity. }
    { intros c s. apply tick_body_one. apply handle_upload_timeout_one. }
    destruct (for_items body2 (upload_connections rt) (sock rt ++ sent1))
      as [r2 [uploads s2]]. cbn [fst snd] in K2, S2. subst s2.
    cbn [snd download_connections upload_connections sock set_sock
         set_upload_connections set_download_connections].
    split; [exact K1|]. split; [exact K2|].
    exists (sent1 ++ sent2). rewrite app_assoc. split; [reflexivity|].
    unfold len. rewrite length_app. lia.
  - cbn [download_connections upload_connections sock set_sock
         set_download_connections].
    split; [exact K1|]. split; [apply kept_refl|].
    exists sent1. split; [reflexivity|]. unfold len. lia.
Qed.

(** ** The retransmission clock of a download *)

Lemma on_data_last_send ho now seq data from c s :
  last_send_time (fst (snd (on_data ho now seq data from (c, s))))
  = last_send_time c.
Proof.
  unfold on_data, cbind, get, put. cbn [fst snd].
  assert (Ha : last_send_time (snd (add_received_data seq data c))
               = last_send_time c).
  { unfold add_received_data. destruct (negb (is_download c)); [reflexivity|].
    destruct (recv_buffer c !! seq); [reflexivity|].
    cbn -[drain size]. destruct (drain _ _ _ _). reflexivity. }
  destruct (add_received_data seq data c) as [[|] c1]; cbn [fst snd] in *.
  - unfold modify, lift, sendto, ret. cbn [fst snd].
    destruct (first_packet_time c1) as [t0|]; cbn [fst snd];
      match goal with |- context [Packet.build_ack_packet ?h ?a] =>
        destruct (Packet.build_ack_packet h a) end; cbn [fst snd];
      try exact Ha;
      match goal with |- context [is_chunk_complete ?n ?x] =>
        destruct (is_chunk_complete n x) end; cbn [fst snd]; exact Ha.
  - unfold lift, sendto, ret.
    destruct (Packet.build_ack_packet ho (ack_num c1)); cbn [fst snd]; exact Ha.
Qed.

Lemma for_items_unsent {K} now ho (d : pydict K Connection) s :
  Forall (fun kc => last_send_time (snd kc) = 0%Q) d ->
  Forall (fun kc => last_send_time (snd kc) = 0%Q)
    (fst (snd (for_items
                 (fun connection =>
                    if is_active connection && should_retransmit now connection
                    then handle_download_timeout ho ;; ret [chunk_hash connection]
                    else ret []) d s))).
Proof.
  intros H. revert s. induction H as [|[k c] d Hc Hd IH]; intros s; [constructor|].
  cbn [for_items].
  assert (Hb : last_send_time
                 (fst (snd ((if is_active c && should_retransmit now c
                             then handle_download_timeout ho ;; ret [chunk_hash c]
                             else ret []) (c, s)))) = 0%Q).
  { destruct (is_active c && should_retransmit now c); [|exact Hc].
    unfold handle_download_timeout, cbind, modify, get, lift, sendto, ret.
    cbn [fst snd].
    destruct (Packet.build_ack_packet ho _); cbn [fst snd]; exact Hc. }
  destruct ((if is_active c && should_retransmit now c
             then handle_download_timeout ho ;; ret [chunk_hash c]
             else ret []) (c, s)) as [[out|e] [c' s']]; cbn [fst snd] in *.
  - specialize (IH s').
    destruct (for_items _ d s') as [r [d'' s'']]. cbn [fst snd] in *.
    constructor; [exact Hb|exact IH].
  - constructor; [exact Hb|exact Hd].
Qed.

Lemma download_step_unsent ho rt e : unsent rt -> unsent (download_step ho rt e).
Proof.
  intros [Hu Hd]. destruct e as [now h peer|now info from|now info from|now|];
    cbn [download_step].
  - unfold create_download_connection. cbn [snd]. split; [exact Hu|].
    cbn [download_connections set_download_connections].
    apply Forall_dict_set; [|exact Hd].
    intros k'. cbn [snd]. unfold update_state, apply_custom_timeout.
    destruct (custom_timeout rt) as [t|]; [destruct (t =? 0)|]; reflexivity.
  - unfold handle_data_packet.
    destruct (List.find _ (download_connections rt)) as [[key c]|] eqn:Ef;
      [|split; assumption].
    apply find_some in Ef as [Hin _].
    rewrite List.Forall_forall in Hd. pose proof (Hd _ Hin) as Hc. cbn [snd] in Hc.
    unfold on_download.
    pose proof (on_data_last_send ho now (Packet.seq_num info) (Packet.payload info)
                  from c (sock rt)) as Hl.
    destruct (on_data ho now _ _ from (c, sock rt)) as [r [c' s']].
    cbn [fst snd] in *. split; [exact Hu|].
    cbn [download_connections set_sock set_download_connections].
    apply Forall_dict_set; [intros; cbn [snd]; congruence|].
    apply List.Forall_forall. exact Hd.
  - unfold handle_ack_packet. rewrite Hu. cbn. split; assumption.
  - unfold handle_timeouts.
    pose proof (for_items_unsent now ho (download_connections rt) (sock rt) Hd) as Hf.
    destruct (for_items _ (download_connections rt) (sock rt)) as [r1 [downloads s1]].
    cbn [fst snd] in Hf.
    destruct r1 as [chunks1|e]; cbn [snd].
    + cbn [upload_connections set_sock set_download_connections]. rewrite Hu.
      cbn [for_items]. cbn. split; [reflexivity|exact Hf].
    + split; [exact Hu|exact Hf].
  - unfold cleanup_finished_connections. cbn [snd]. split.
    + cbn. rewrite Hu. reflexivity.
    + cbn. apply List.Forall_forall. intros kc Hin.
      apply filter_In in Hin as [Hin _].
      rewrite List.Forall_forall in Hd. now apply Hd.
Qed.

Lemma download_run_unsent ho es rt : unsent rt -> unsent (download_run ho es rt).
Proof.
  revert rt. induction es as [|e es IH]; intros rt H; [exact H|].
  cbn [download_run fold_left]. apply IH. now apply download_step_unsent.
Qed.

(** X16.  The retransmission clock of a download is never restarted.  In a
    manager that only downloads, whatever connections are opened, whatever
    DATA and ACK packets arrive, and however often timeouts are handled and
    connections cleaned up, [last_send_time] of every download connection
    stays at its initial value 0: nothing on the receiving side assigns it.
    A download connection in [TRANSFER] is therefore due at every call of
    [handle_timeouts] made at a clock time beyond its timeout interval. *)
Theorem download_clock_never_restarts ho ctx sock0 es now kc :
  let rt := download_run ho es (new_reliable_transfer ctx sock0) in
  In kc (download_connections rt) ->
  last_send_time (snd kc) = 0%Q
  /\ should_retransmit now (snd kc) = Qltb (timeout_interval (snd kc)) now
  /\ (state (snd kc) = TRANSFER -> (timeout_interval (snd kc) < now)%Q ->
      due now (snd kc) = true).
Proof.
  intros rt Hin.
  destruct (download_run_unsent ho es (new_reliable_transfer ctx sock0)) as [_ Hd].
  { split; [reflexivity|constructor]. }
  fold rt in Hd. rewrite List.Forall_forall in Hd. pose proof (Hd kc Hin) as Hl.
  assert (Hs : should_retransmit now (snd kc) = Qltb (timeout_interval (snd kc)) now).
  { unfold should_retransmit. rewrite Hl. unfold Qltb. f_equal.
    destruct (Qle_bool (now - 0) (timeout_interval (snd kc))) eqn:E1;
      destruct (Qle_bool now (timeout_interval (snd kc))) eqn:E2; try reflexivity.
    - apply Qle_bool_iff in E1.
      assert (H : (now <= timeout_interval (snd kc))%Q) by lra.
      apply Qle_bool_iff in H. congruence.
    - apply Qle_bool_iff in E2.
      assert (H : (now - 0 <= timeout_interval (snd kc))%Q) by lra.
      apply Qle_bool_iff in H. congruence. }
  split; [exact Hl|]. split; [exact Hs|].
  intros Hst Hlt. unfold due, is_active. rewrite Hs, Hst.
  apply ConnFacts.Qltb_lt in Hlt. rewrite Hlt. reflexivity.
Qed.

Lemma download_clock_never_restarts_witness :
  let rt := download_run Packet.Little
              [Opens 5 "aa" ("10.0.0.1"%string, 1); Timeouts 9; Timeouts 10]
              (new_reliable_transfer (Senders.keeper_of "ab" []) []) in
  Forall (fun kc => last_send_time (snd kc) = 0%Q) (download_connections rt).
Proof.
  intros rt. apply List.Forall_forall. intros kc Hin.
  exact (proj1 (download_clock_never_restarts Packet.Little
                  (Senders.keeper_of "ab" []) []
                  [Opens 5 "aa" ("10.0.0.1"%string, 1); Timeouts 9; Timeouts 10]
                  0 kc Hin)).
Defined.

End ManagerFacts.

(* ===================================================================== *)
(** * The handshake: slots, GET, WHOHAS and IHAVE *)
(* ===================================================================== *)

Module DiscoveryFacts.

Import Conn Handshake Discovery DictFacts.

(** ** What the operations leave alone *)

Lemma same_slots_refl hm : same_slots hm hm.
Proof. repeat split. Qed.

Lemma same_slots_trans hm1 hm2 hm3 :
  same_slots hm1 hm2 -> same_slots hm2 hm3 -> same_slots hm1 hm3.
Proof. unfold same_slots. intros (A & B & C) (D & E & F). repeat split; congruence. Qed.

Lemma fold_same_slots {A} (f : HandshakeManager -> A -> HandshakeManager) l hm :
  (forall hm x, same_slots hm (f hm x)) -> same_slots hm (fold_left f l hm).
Proof.
  intros Hf. revert hm. induction l as [|x l IH]; intros hm; [apply same_slots_refl|].
  cbn [fold_left]. eapply same_slots_trans; [apply Hf|apply IH].
Qed.

Lemma who_has_cases ho pkt_info from_addr hm :
  handle_who_has_request ho pkt_info from_addr hm = hm
  \/ exists pkt, handle_who_has_request ho pkt_info from_addr hm
                 = sendto pkt from_addr hm.
Proof.
  unfold handle_who_has_request, who_has_body.
  destruct (Packet.extract_chunk_hashes _) as [hs|e]; cbn [bind]; [|now left].
  destruct (available hm _) as [av|e]; cbn [bind]; [|now left].
  destruct (_ >=? _).
  - destruct (Packet.build_denied_packet ho) as [pkt|e]; cbn [bind]; [right; eauto|now left].
  - destruct av as [|a av].
    + destruct (Packet.build_denied_packet ho) as [pkt|e]; cbn [bind];
        [right; eauto|now left].
    + destruct (Packet.build_i_have_packet ho _) as [pkt|e]; cbn [bind];
        [right; eauto|now left].
Qed.

Lemma record_response_slots from_addr l hm hash_str :
  same_slots hm (record_response from_addr l hm hash_str)
  /\ sock (record_response from_addr l hm hash_str) = sock hm.
Proof.
  unfold record_response.
  destruct (dict_get hash_str (active_requests hm)) as [[t pr]|];
    [destruct (dict_in from_addr pr)|]; repeat split.
Qed.

Lemma step_same_slots ho hm e :
  (forall now pkt_info from_addr, e <> GetArrives now pkt_info from_addr) ->
  e <> ForgetsFinished ->
  same_slots hm (step ho hm e).
Proof.
  intros Hg Hf. destruct e as [i f|i f|i f|now i f|now r hs|h p|now t|];
    cbn [step]; try congruence.
  - destruct (who_has_cases ho i f hm) as [->|[pkt ->]]; repeat split.
  - unfold handle_i_have_response.
    destruct (Packet.extract_chunk_hashes _); cbn [snd]; [|apply same_slots_refl].
    apply fold_same_slots. intros hm0 x. apply record_response_slots.
  - apply same_slots_refl.
  - unfold send_who_has_request. destruct hs as [|h0 hs]; [apply same_slots_refl|].
    destruct (_ <-! _ ; _) as [pkt|e]; cbn [snd]; [|apply same_slots_refl].
    apply (same_slots_trans _ (broadcast r pkt hm)).
    + unfold broadcast. apply fold_same_slots.
      intros hm0 [[peer_id ip] port]. destruct (negb _); repeat split.
    + unfold track. apply fold_same_slots. intros hm0 x. repeat split.
  - unfold send_get_request. destruct (_ <-! _ ; _); repeat split.
  - repeat split.
Qed.

(** ** The upload slots *)

Lemma len_app_one {A} (l : list A) (x : A) : len (l ++ [x]) = len l + 1.
Proof. unfold len. rewrite length_app. cbn. lia. Qed.

Lemma get_request_cases now pkt_info from_addr hm :
  let h := Hex.bytes_to_hex_string (Packet.payload pkt_info) in
  handle_get_request now pkt_info from_addr hm
  = if (len (Packet.payload pkt_info) =? 20) && holds hm h
       && (len (upload_connections hm) <? connection_limit hm)
       && negb (dict_in (from_addr, h) (upload_connections hm))
    then (Some h,
          set_upload_connections
            (upload_connections hm
               ++ [((from_addr, h),
                    update_state TRANSFER (new_connection now from_addr h UPLOAD))])
            hm)
    else (None, hm).
Proof.
  cbv zeta. unfold handle_get_request.
  destruct (len (Packet.payload pkt_info) =? 20); cbn [negb andb]; [|reflexivity].
  destruct (holds hm _); cbn [negb andb]; [|reflexivity].
  rewrite Z.geb_leb, Z.ltb_antisym.
  destruct (connection_limit hm <=? len (upload_connections hm));
    cbn [negb andb]; [reflexivity|].
  unfold dict_in.
  destruct (dict_get _ (upload_connections hm)) eqn:E; cbn [negb]; [reflexivity|].
  rewrite (dict_set_new _ _ _ E). reflexivity.
Qed.

Lemma step_admitted ho ctx hm e : admitted ctx hm -> admitted ctx (step ho hm e).
Proof.
  intros (Hc & Hl & Hn & Hd & Hs).
  assert (Hsame : forall hm', same_slots hm hm' -> admitted ctx hm').
  { intros hm' (A & B & C). unfold admitted. rewrite A, B, C. repeat split; assumption. }
  destruct e as [i f|i f|i f|now i f|now r hs|h p|now t|];
    try (apply Hsame, step_same_slots; congruence).
  - cbn [step]. rewrite get_request_cases. cbv zeta.
    destruct (_ && _) eqn:E; cbn [snd];
      [|unfold admitted; repeat split; assumption].
    apply andb_true_iff in E as [E E4]. apply andb_true_iff in E as [E E3].
    apply andb_true_iff in E as [E1 E2].
    apply Z.ltb_lt in E3. apply negb_true_iff in E4.
    unfold admitted.
    cbn [context connection_limit upload_connections set_upload_connections].
    split; [exact Hc|]. split; [exact Hl|]. split; [|split].
    + rewrite len_app_one. lia.
    + rewrite map_app. cbn [map fst]. apply NoDup_app. split; [exact Hd|].
      split; [|apply NoDup_singleton].
      intros k Hk Hk'. apply list_elem_of_singleton in Hk'. subst k.
      apply list_elem_of_In, dict_in_keys in Hk. congruence.
    + apply Forall_app. split; [exact Hs|]. constructor; [|constructor].
      unfold slot. cbn. repeat split.
      unfold holds in E2. apply bool_decide_eq_true in E2. rewrite <- Hc. exact E2.
  - cbn [step]. unfold cleanup_finished_connections, admitted.
    cbn [context connection_limit upload_connections set_upload_connections].
    rewrite filter_all; [repeat split; assumption|].
    apply List.Forall_forall. intros kc Hin.
    rewrite List.Forall_forall in Hs. destruct (Hs kc Hin) as (Hst & _).
    unfold finished. rewrite Hst. reflexivity.
Qed.

Lemma run_admitted ho ctx es hm : admitted ctx hm -> admitted ctx (run ho es hm).
Proof.
  revert hm. induction es as [|e es IH]; intros hm H; [exact H|].
  cbn [run fold_left]. apply IH. now apply step_admitted.
Qed.

Lemma new_admitted ctx s : admitted ctx (new_handshake_manager ctx s).
Proof.
  unfold admitted. cbn [context connection_limit upload_connections
                         new_handshake_manager map].
  split; [reflexivity|]. split; [reflexivity|]. split; [unfold len; cbn; lia|].
  split; constructor.
Qed.

(** X17.  The admission bound.  Whatever packets a handshake manager is
    handed and whatever it is asked to send or clean up, it never holds
    more upload connections than [max_conn] (none at all when [max_conn] is
    not positive); the keys [(peer_addr, chunk_hash)] are distinct, and the
    connection under a key is an upload in [TRANSFER] for that peer and
    that hash, of a chunk the peer holds. *)
Theorem upload_slots_bounded ho ctx s es :
  let hm := run ho es (new_handshake_manager ctx s) in
  len (upload_connections hm) <= Z.max 0 (max_conn ctx)
  /\ connection_limit hm = max_conn ctx
  /\ NoDup (map fst (upload_connections hm))
  /\ Forall (slot ctx) (upload_connections hm).
Proof.
  intros hm.
  destruct (run_admitted ho ctx es _ (new_admitted ctx s)) as (_ & Hl & Hn & Hd & Hs).
  repeat split; assumption.
Qed.

Lemma step_grows ho ctx hm e :
  admitted ctx hm ->
  exists more, upload_connections (step ho hm e) = upload_connections hm ++ more.
Proof.
  intros (Hc & Hl & Hn & Hd & Hs).
  destruct e as [i f|i f|i f|now i f|now r hs|h p|now t|];
    try (exists []; rewrite app_nil_r; apply step_same_slots; congruence).
  - cbn [step]. rewrite get_request_cases. cbv zeta.
    destruct (_ && _); cbn [snd upload_connections set_upload_connections].
    + eauto.
    + exists []. now rewrite app_nil_r.
  - exists []. rewrite app_nil_r. cbn [step]. unfold cleanup_finished_connections.
    cbn [upload_connections set_upload_connections].
    apply filter_all. apply List.Forall_forall. intros kc Hin.
    rewrite List.Forall_forall in Hs. destruct (Hs kc Hin) as (Hst & _).
    unfold finished. rewrite Hst. reflexivity.
Qed.

Lemma run_grows ho ctx es hm :
  admitted ctx hm ->
  exists more, upload_connections (run ho es hm) = upload_connections hm ++ more.
Proof.
  revert hm. induction es as [|e es IH]; intros hm H.
  - exists []. now rewrite app_nil_r.
  - cbn [run fold_left].
    destruct (step_grows ho ctx hm e H) as [m1 E1].
    destruct (IH _ (step_admitted ho ctx hm e H)) as [m2 E2].
    exists (m1 ++ m2). fold (run ho es (step ho hm e)). rewrite E2, E1.
    now rewrite app_assoc.
Qed.

(** X18.  An upload slot is never released.  The connections a handshake
    manager stores stay in [TRANSFER] (nothing in the manager changes the
    state of a stored connection), so [cleanup_finished_connections]
    removes none of them: it leaves every manager reached from a new one
    unchanged.  The stored connections only grow, by appending; once the
    limit is reached [is_upload_connection_available] is false for good and
    every later GET is refused. *)
Theorem upload_slots_never_released ho ctx s es es' now pkt_info from_addr :
  let hm := run ho es (new_handshake_manager ctx s) in
  let hm' := run ho es' hm in
  cleanup_finished_connections hm = hm
  /\ (exists more, upload_connections hm' = upload_connections hm ++ more)
  /\ (is_upload_connection_available hm = false ->
      is_upload_connection_available hm' = false
      /\ handle_get_request now pkt_info from_addr hm' = (None, hm')).
Proof.
  intros hm hm'.
  pose proof (run_admitted ho ctx es _ (new_admitted ctx s)) as Ha. fold hm in Ha.
  pose proof (run_admitted ho ctx es' hm Ha) as Ha'. fold hm' in Ha'.
  destruct (run_grows ho ctx es' hm Ha) as [more Hm]. fold hm' in Hm.
  split; [|split; [eauto|]].
  - destruct Ha as (_ & _ & _ & _ & Hs).
    unfold cleanup_finished_connections.
    rewrite filter_all; [destruct hm; reflexivity|].
    apply List.Forall_forall. intros kc Hin.
    rewrite List.Forall_forall in Hs. destruct (Hs kc Hin) as (Hst & _).
    unfold finished. rewrite Hst. reflexivity.
  - unfold is_upload_connection_available. intros Hfull.
    apply Z.ltb_ge in Hfull.
    destruct Ha as (_ & Hl & _), Ha' as (_ & Hl' & _).
    assert (Hge : connection_limit hm' <= len (upload_connections hm')).
    { rewrite Hl', <- Hl, Hm. unfold len in *. rewrite length_app. lia. }
    split; [apply Z.ltb_ge; exact Hge|].
    rewrite get_request_cases. cbv zeta.
    replace (len (upload_connections hm') <? connection_limit hm') with false
      by (symmetry; apply Z.ltb_ge; exact Hge).
    rewrite andb_false_r. reflexivity.
Qed.

(** ** GET: from the requester to the provider *)

Lemma send_get_ok ho d peer_addr hm :
  len d = 20 ->
  send_get_request ho (Hex.bytes_to_hex_string d) peer_addr hm
  = (true, sendto (Formats.datagram (Wire.Get d)) peer_addr hm).
Proof.
  intros Hd. unfold send_get_request. rewrite HexFacts.hex_roundtrip. cbn [bind].
  destruct (FormatFacts.build_cases ho (Wire.Get d)) as [[Hb _]|[_ Hc]].
  - cbn [Wire.build] in Hb. rewrite Hb. reflexivity.
  - cbn [Formats.buildable] in Hc. apply Z.eqb_neq in Hc. contradiction.
Qed.

Lemma send_get_bad ho d peer_addr hm :
  len d <> 20 ->
  send_get_request ho (Hex.bytes_to_hex_string d) peer_addr hm = (false, hm).
Proof.
  intros Hd. unfold send_get_request. rewrite HexFacts.hex_roundtrip. cbn [bind].
  unfold Packet.build_get_packet.
  replace (len d =? 20) with false by (symmetry; apply Z.eqb_neq; exact Hd).
  reflexivity.
Qed.

Lemma parse_datagram ho m from :
  Wire.legal m -> Wire.fits_pkt_len m ->
  Packet.parse_packet ho (Formats.datagram m) from
  = Ok {| Packet.pkt_type := Wire.msg_type m; Packet.header_len := 12;
          Packet.pkt_len := 12 + len (Wire.msg_payload m);
          Packet.seq_num := Wire.msg_seq m; Packet.ack_num := Wire.msg_ack m;
          Packet.payload := Wire.msg_payload m; Packet.from_addr := from |}.
Proof.
  intros Hl Hf.
  assert (Hp : Wire.parses_back ho m).
  { destruct m as [hs|hs|h|seq data|ack|]; cbn [Wire.legal] in Hl.
    - apply PacketFacts.parses_back_who_has; [apply Hl|exact Hf].
    - apply PacketFacts.parses_back_i_have; [apply Hl|exact Hf].
    - now apply PacketFacts.parses_back_get.
    - apply PacketFacts.parses_back_data; apply Hl.
    - now apply PacketFacts.parses_back_ack.
    - apply PacketFacts.parses_back_denied. }
  destruct Hp as (pkt & Hb & Hparse).
  destruct (FormatFacts.build_cases ho m) as [[Hb' _]|[[e Hb'] _]]; [|congruence].
  rewrite Hb' in Hb. injection Hb as <-. apply Hparse.
Qed.

(** X19.  A GET travels from the requester to the provider.  For a 20-byte
    hash, [send_get_request] sends one datagram and returns [True]; the
    provider, on either host byte order, parses it back to a GET with that
    hash as payload, and [handle_get_request] accepts it exactly when the
    provider holds the chunk, has a free slot and no connection yet for this
    peer and hash; it then appends an upload connection in [TRANSFER] under
    [(from_addr, hash)] and returns the hash.  The same GET handled again
    is refused.  For a hash string that is not 20 bytes long nothing is
    sent and [send_get_request] returns [False]. *)
Theorem get_request_served ho ho' now now' d d' peer_addr from_addr hm_r hm_p :
  len d = 20 -> len d' <> 20 ->
  let h := Hex.bytes_to_hex_string d in
  exists pkt info,
    send_get_request ho h peer_addr hm_r = (true, sendto pkt peer_addr hm_r)
    /\ Packet.parse_packet ho' pkt (Some from_addr) = Ok info
    /\ Packet.pkt_type info = Packet.PktType.GET /\ Packet.payload info = d
    /\ handle_get_request now info from_addr hm_p
       = (if holds hm_p h
             && (len (upload_connections hm_p) <? connection_limit hm_p)
             && negb (dict_in (from_addr, h) (upload_connections hm_p))
          then (Some h,
                set_upload_connections
                  (upload_connections hm_p
                     ++ [((from_addr, h),
                          update_state TRANSFER
                            (new_connection now from_addr h UPLOAD))]) hm_p)
          else (None, hm_p))
    /\ fst (handle_get_request now' info from_addr
              (snd (handle_get_request now info from_addr hm_p))) = None
    /\ send_get_request ho (Hex.bytes_to_hex_string d') peer_addr hm_r
       = (false, hm_r).
Proof.
  intros Hd Hd' h.
  eexists. eexists.
  split; [apply send_get_ok; exact Hd|].
  split; [apply (parse_datagram ho' (Wire.Get d)); [exact Hd|]|].
  { unfold Wire.fits_pkt_len. cbn [Wire.msg_payload]. rewrite Hd. reflexivity. }
  split; [reflexivity|]. split; [reflexivity|].
  assert (Hc : forall t hm,
             handle_get_request t
               {| Packet.pkt_type := Wire.msg_type (Wire.Get d); Packet.header_len := 12;
                  Packet.pkt_len := 12 + len (Wire.msg_payload (Wire.Get d));
                  Packet.seq_num := Wire.msg_seq (Wire.Get d);
                  Packet.ack_num := Wire.msg_ack (Wire.Get d);
                  Packet.payload := Wire.msg_payload (Wire.Get d);
                  Packet.from_addr := Some from_addr |} from_addr hm
             = if holds hm h
                  && (len (upload_connections hm) <? connection_limit hm)
                  && negb (dict_in (from_addr, h) (upload_connections hm))
               then (Some h,
                     set_upload_connections
                       (upload_connections hm
                          ++ [((from_addr, h),
                               update_state TRANSFER
                                 (new_connection t from_addr h UPLOAD))]) hm)
               else (None, hm)).
  { intros t hm. rewrite get_request_cases. cbv zeta.
    cbn [Packet.payload Wire.msg_payload].
    replace (len d =? 20) with true by (symmetry; apply Z.eqb_eq; exact Hd).
    reflexivity. }
  split; [apply Hc|]. split; [|apply send_get_bad; exact Hd'].
  rewrite (Hc now hm_p).
  destruct (holds hm_p h && (len (upload_connections hm_p) <? connection_limit hm_p)
            && negb (dict_in (from_addr, h) (upload_connections hm_p))) eqn:E;
    cbn [snd].
  - rewrite Hc.
    cbn [upload_connections set_upload_connections].
    assert (Hin : dict_in (from_addr, h)
                    (upload_connections hm_p
                       ++ [((from_addr, h),
                            update_state TRANSFER
                              (new_connection now from_addr h UPLOAD))]) = true).
    { apply dict_in_keys. rewrite map_app. apply in_or_app. right. now left. }
    rewrite Hin. cbn [negb]. rewrite andb_false_r. reflexivity.
  - rewrite Hc, E. reflexivity.
Qed.

Lemma get_request_served_witness :
  exists pkt info,
    send_get_request Packet.Little (Hex.bytes_to_hex_string (repeat x01 20))
                     ("10.0.0.2"%string, 48002) asker
    = (true, sendto pkt ("10.0.0.2"%string, 48002) asker)
    /\ Packet.parse_packet Packet.Big pkt (Some ("10.0.0.1"%string, 48001)) = Ok info
    /\ Packet.payload info = repeat x01 20.
Proof.
  assert (H1 : len (repeat x01 20) = 20) by reflexivity.
  assert (H2 : len [x01] <> 20) by (vm_compute; discriminate).
  destruct (get_request_served Packet.Little Packet.Big 0 1 (repeat x01 20) [x01]
              ("10.0.0.2"%string, 48002) ("10.0.0.1"%string, 48001)
              asker provider H1 H2) as (pkt & info & A & B & _ & C & _).
  exists pkt, info. split; [exact A|]. split; [exact B|exact C].
Defined.

(** ** WHOHAS: the broadcast *)

Lemma broadcast_fields roster pkt hm :
  sock (broadcast roster pkt hm)
  = sock hm ++ map (fun a => (pkt, a)) (others roster)
  /\ active_requests (broadcast roster pkt hm) = active_requests hm
  /\ same_slots hm (broadcast roster pkt hm).
Proof.
  unfold broadcast, others, same_slots. revert hm.
  induction (peers roster) as [|[[peer_id ip] port] l IH]; intros hm.
  - cbn. rewrite app_nil_r. repeat split.
  - cbn [fold_left List.filter fst snd].
    destruct (negb (peer_id =? identity roster)).
    + destruct (IH (sendto pkt (ip, port) hm)) as (A & B & C & D & E).
      cbn [map fst snd]. rewrite A, B, C, D, E. cbn. rewrite <- app_assoc.
      repeat split.
    + apply IH.
Qed.

Lemma track_fields now hs hm h :
  dict_get h (active_requests (track now hs hm))
  = (if bool_decide (h ∈ hs) then Some (now, [])
     else dict_get h (active_requests hm))
  /\ sock (track now hs hm) = sock hm
  /\ same_slots hm (track now hs hm).
Proof.
  unfold track, same_slots. revert hm. induction hs as [|x hs IH]; intros hm.
  - cbn. repeat split.
  - cbn [fold_left].
    destruct (IH (set_active_requests
                    (dict_set x (now, []) (active_requests hm)) hm))
      as (A & B & C & D & E).
    rewrite A, B, C, D, E. split; [|repeat split].
    cbn [active_requests set_active_requests].
    destruct (decide (h ∈ hs)) as [Hin|Hni].
    + rewrite !bool_decide_eq_true_2; [reflexivity|now right|exact Hin].
    + rewrite (bool_decide_eq_false_2 _ Hni).
      destruct (decide (h = x)) as [->|Hne].
      * rewrite dict_get_set_eq, bool_decide_eq_true_2; [reflexivity|now left].
      * rewrite dict_get_set_ne by exact Hne.
        rewrite bool_decide_eq_false_2; [reflexivity|].
        intros E1. apply elem_of_cons in E1 as [E1|E1]; [congruence|contradiction].
Qed.

Lemma map_result_hex ds :
  map_result Hex.hex_string_to_bytes (map Hex.bytes_to_hex_string ds) = Ok ds.
Proof.
  induction ds as [|d ds IH]; [reflexivity|].
  cbn [map map_result]. rewrite HexFacts.hex_roundtrip. cbn [bind].
  rewrite IH. reflexivity.
Qed.

Lemma send_who_has_fields ho now roster ds hm h :
  Formats.buildable (Wire.WhoHas ds) = true ->
  let hashes := map Hex.bytes_to_hex_string ds in
  let r := send_who_has_request ho now roster hashes hm in
  fst r = Ok tt
  /\ sock (snd r)
     = sock hm ++ map (fun a => (Formats.datagram (Wire.WhoHas ds), a)) (others roster)
  /\ (In h hashes -> dict_get h (active_requests (snd r)) = Some (now, [])
                     /\ get_download_candidates h (snd r) = [])
  /\ (~ In h hashes ->
      dict_get h (active_requests (snd r)) = dict_get h (active_requests hm))
  /\ upload_connections (snd r) = upload_connections hm
  /\ send_who_has_request ho now roster [] hm = (Ok tt, hm).
Proof.
  intros Hb hashes r.
  assert (Hr : r = (Ok tt, track now hashes
                             (broadcast roster (Formats.datagram (Wire.WhoHas ds)) hm))).
  { unfold r, send_who_has_request, hashes.
    destruct ds as [|d ds']; [discriminate|].
    cbn [map]. change (Hex.bytes_to_hex_string d :: map Hex.bytes_to_hex_string ds')
      with (map Hex.bytes_to_hex_string (d :: ds')).
    rewrite map_result_hex. cbn [bind].
    destruct (FormatFacts.build_cases ho (Wire.WhoHas (d :: ds')))
      as [[Hb' _]|[_ Hc]]; [|congruence].
    cbn [Wire.build] in Hb'. rewrite Hb'. reflexivity. }
  rewrite Hr. cbn [fst snd].
  destruct (broadcast_fields roster (Formats.datagram (Wire.WhoHas ds)) hm)
    as (B1 & B2 & B3 & _).
  destruct (track_fields now hashes
              (broadcast roster (Formats.datagram (Wire.WhoHas ds)) hm) h)
    as (T1 & T2 & T3 & _).
  split; [reflexivity|]. split; [rewrite T2; exact B1|].
  split; [|split; [|split; [congruence|reflexivity]]].
  - intros Hin. apply list_elem_of_In in Hin.
    rewrite bool_decide_eq_true_2 in T1 by exact Hin.
    split; [exact T1|]. unfold get_download_candidates. rewrite T1. reflexivity.
  - intros Hni. rewrite bool_decide_eq_false_2 in T1
      by (intros Hin; apply Hni, list_elem_of_In; exact Hin).
    rewrite T1, B2. reflexivity.
Qed.

(** X20.  The WHOHAS broadcast.  Asked to discover the hashes of the byte
    strings [ds] (at least one, and few enough for the 16-bit length field),
    [send_who_has_request] sends one and the same datagram, the WHOHAS
    listing [ds] in order, to every roster entry whose identifier differs
    from the peer's own, in roster order, and to no one else; it then tracks
    every requested hash with the time of the call and no responder,
    forgetting the responders of a hash that was tracked before, and leaves
    the other tracked hashes and the upload slots alone.  With no hash to
    discover it does nothing. *)
Theorem who_has_broadcast ho now roster ds hm h :
  Formats.buildable (Wire.WhoHas ds) = true ->
  let hashes := map Hex.bytes_to_hex_string ds in
  let r := send_who_has_request ho now roster hashes hm in
  fst r = Ok tt
  /\ sock (snd r)
     = sock hm ++ map (fun a => (Formats.datagram (Wire.WhoHas ds), a)) (others roster)
  /\ (In h hashes -> dict_get h (active_requests (snd r)) = Some (now, [])
                     /\ get_download_candidates h (snd r) = [])
  /\ (~ In h hashes ->
      dict_get h (active_requests (snd r)) = dict_get h (active_requests hm))
  /\ upload_connections (snd r) = upload_connections hm
  /\ send_who_has_request ho now roster [] hm = (Ok tt, hm).
Proof. apply send_who_has_fields. Qed.

Lemma who_has_broadcast_witness :
  sock (snd (send_who_has_request Packet.Little 7 three_peers
               (map Hex.bytes_to_hex_string [repeat x01 20]) asker))
  = sock asker
    ++ map (fun a => (Formats.datagram (Wire.WhoHas [repeat x01 20]), a))
           (others three_peers).
Proof.
  assert (Hb : Formats.buildable (Wire.WhoHas [repeat x01 20]) = true)
    by reflexivity.
  exact (proj1 (proj2 (who_has_broadcast Packet.Little 7 three_peers
                         [repeat x01 20] asker EmptyString Hb))).
Defined.

(** ** IHAVE: recording the candidates *)

Lemma candidates_in from_addr h hm t pr :
  dict_get h (active_requests hm) = Some (t, pr) ->
  (from_addr ∈ get_download_candidates h hm <-> dict_in from_addr pr = true).
Proof.
  intros E. unfold get_download_candidates. rewrite E.
  rewrite list_elem_of_In. symmetry. apply dict_in_keys.
Qed.

Lemma record_response_candidates from_addr l hm x h :
  let hm' := record_response from_addr l hm x in
  get_download_candidates h hm'
  = (if bool_decide (h = x) && dict_in h (active_requests hm)
        && negb (bool_decide (from_addr ∈ get_download_candidates h hm))
     then get_download_candidates h hm ++ [from_addr]
     else get_download_candidates h hm)
  /\ dict_in h (active_requests hm') = dict_in h (active_requests hm).
Proof.
  cbv zeta. unfold record_response.
  destruct (dict_get x (active_requests hm)) as [[t pr]|] eqn:E.
  - pose proof (candidates_in from_addr x hm t pr E) as Hc.
    destruct (dict_in from_addr pr) eqn:Ein.
    + split; [|reflexivity].
      destruct (decide (h = x)) as [->|Hne].
      * rewrite (bool_decide_eq_true_2 (from_addr ∈ _)) by (apply Hc; reflexivity).
        cbn [negb]. rewrite andb_false_r. reflexivity.
      * rewrite (bool_decide_eq_false_2 _ Hne). reflexivity.
    + cbn [active_requests set_active_requests]. unfold get_download_candidates, dict_in.
      cbn [active_requests set_active_requests].
      destruct (decide (h = x)) as [->|Hne].
      * rewrite dict_get_set_eq, E. rewrite (bool_decide_eq_true_2 _ eq_refl).
        cbn [andb].
        rewrite bool_decide_eq_false_2.
        2:{ intros Hin. apply list_elem_of_In, dict_in_keys in Hin. congruence. }
        cbn [negb]. rewrite dict_set_keys, Ein. split; reflexivity.
      * rewrite dict_get_set_ne by exact Hne.
        rewrite (bool_decide_eq_false_2 _ Hne). split; reflexivity.
  - split; [|reflexivity].
    destruct (decide (h = x)) as [->|Hne].
    + unfold dict_in. rewrite E. rewrite andb_false_r. reflexivity.
    + rewrite (bool_decide_eq_false_2 _ Hne). reflexivity.
Qed.

Lemma fold_record_candidates from_addr l hs hm h :
  let hm' := fold_left (record_response from_addr l) hs hm in
  get_download_candidates h hm'
  = (if bool_decide (h ∈ hs) && dict_in h (active_requests hm)
        && negb (bool_decide (from_addr ∈ get_download_candidates h hm))
     then get_download_candidates h hm ++ [from_addr]
     else get_download_candidates h hm)
  /\ dict_in h (active_requests hm') = dict_in h (active_requests hm).
Proof.
  cbv zeta. revert hm. induction hs as [|x hs IH]; intros hm.
  - cbn [fold_left]. rewrite bool_decide_eq_false_2 by apply not_elem_of_nil.
    split; reflexivity.
  - cbn [fold_left].
    destruct (IH (record_response from_addr l hm x)) as [I1 I2].
    destruct (record_response_candidates from_addr l hm x h) as [R1 R2].
    cbv zeta in R1, R2. rewrite I1, I2, R1, R2. split; [|reflexivity].
    destruct (decide (h = x)) as [->|Hne].
    + rewrite (bool_decide_eq_true_2 (x = x) eq_refl).
      rewrite (bool_decide_eq_true_2 (x ∈ x :: hs)) by (now left).
      cbn [andb].
      destruct (dict_in x (active_requests hm)); cbn [andb];
        [|rewrite !andb_false_r; reflexivity].
      destruct (bool_decide (from_addr ∈ get_download_candidates x hm)) eqn:Ef;
        cbn [negb]; rewrite ?andb_true_r, ?andb_false_r.
      * rewrite Ef. cbn [negb]. rewrite andb_false_r. reflexivity.
      * rewrite (bool_decide_eq_true_2 (from_addr ∈ _ ++ [from_addr])).
        2:{ apply elem_of_app. right. now left. }
        cbn [negb]. rewrite andb_false_r. reflexivity.
    + rewrite (bool_decide_eq_false_2 _ Hne). cbn [andb].
      destruct (decide (h ∈ hs)) as [Hin|Hni].
      * rewrite (bool_decide_eq_true_2 (h ∈ hs) Hin).
        rewrite (bool_decide_eq_true_2 (h ∈ x :: hs)) by (now right).
        reflexivity.
      * rewrite (bool_decide_eq_false_2 _ Hni).
        rewrite (bool_decide_eq_false_2 (h ∈ x :: hs)); [reflexivity|].
        intros E1. apply elem_of_cons in E1 as [E1|E1]; [congruence|contradiction].
Qed.

Lemma record_response_noop from_addr l hm x :
  (dict_in x (active_requests hm) = true ->
   from_addr ∈ get_download_candidates x hm) ->
  record_response from_addr l hm x = hm.
Proof.
  intros H. unfold record_response.
  destruct (dict_get x (active_requests hm)) as [[t pr]|] eqn:E; [|reflexivity].
  assert (Hin : dict_in x (active_requests hm) = true)
    by (unfold dict_in; rewrite E; reflexivity).
  apply H, (candidates_in from_addr x hm t pr E) in Hin. rewrite Hin. reflexivity.
Qed.

Lemma fold_record_noop from_addr l hs hm :
  (forall x, x ∈ hs -> dict_in x (active_requests hm) = true ->
             from_addr ∈ get_download_candidates x hm) ->
  fold_left (record_response from_addr l) hs hm = hm.
Proof.
  induction hs as [|x hs IH]; intros H; [reflexivity|].
  cbn [fold_left]. rewrite record_response_noop.
  - apply IH. intros y Hy. apply H. now right.
  - apply H. now left.
Qed.

Lemma hex_elem (d : bytes) (ds : list bytes) :
  Hex.bytes_to_hex_string d ∈ map Hex.bytes_to_hex_string ds <-> d ∈ ds.
Proof.
  rewrite list_elem_of_fmap. split.
  - intros (d' & E & Hin).
    assert (d = d').
    { pose proof (HexFacts.hex_roundtrip d) as H1.
      rewrite E, HexFacts.hex_roundtrip in H1. congruence. }
    now subst.
  - intros Hin. eauto.
Qed.

Lemma i_have_fields pkt_info from_addr hm ds h :
  Packet.payload pkt_info = concat ds -> Forall (fun d => len d = 20) ds ->
  let hashes := map Hex.bytes_to_hex_string ds in
  let r := handle_i_have_response pkt_info from_addr hm in
  fst r = hashes
  /\ get_download_candidates h (snd r)
     = (if bool_decide (h ∈ hashes) && dict_in h (active_requests hm)
           && negb (bool_decide (from_addr ∈ get_download_candidates h hm))
        then get_download_candidates h hm ++ [from_addr]
        else get_download_candidates h hm)
  /\ handle_i_have_response pkt_info from_addr (snd r) = r
  /\ sock (snd r) = sock hm
  /\ upload_connections (snd r) = upload_connections hm.
Proof.
  intros Hpay H20 hashes r.
  assert (Hr : r = (hashes, fold_left (record_response from_addr hashes) hashes hm)).
  { unfold r, handle_i_have_response. rewrite Hpay, (HandshakeFacts.extract_concat ds H20).
    reflexivity. }
  rewrite Hr. cbn [fst snd].
  split; [reflexivity|]. split; [apply fold_record_candidates|]. split; [|split].
  - unfold handle_i_have_response.
    rewrite Hpay, (HandshakeFacts.extract_concat ds H20). fold hashes. f_equal.
    apply fold_record_noop. intros x Hx Ht.
    destruct (fold_record_candidates from_addr hashes hashes hm x) as [C1 C2].
    cbv zeta in C1, C2. rewrite C2 in Ht. rewrite C1, Ht.
    rewrite (bool_decide_eq_true_2 _ Hx). cbn [andb].
    destruct (bool_decide (from_addr ∈ get_download_candidates x hm)) eqn:Ef;
      cbn [negb].
    + now apply bool_decide_eq_true in Ef.
    + apply elem_of_app. right. now left.
  - assert (F : forall hs hm0,
               sock (fold_left (record_response from_addr hashes) hs hm0) = sock hm0).
    { induction hs as [|x hs IH]; intros hm0; [reflexivity|].
      cbn [fold_left]. rewrite IH. apply record_response_slots. }
    apply F.
  - apply (fold_same_slots (record_response from_addr hashes)).
    intros hm0 x. apply record_response_slots.
Qed.

(** X21.  Recording an IHAVE.  For a payload that lists 20-byte hashes,
    [handle_i_have_response] returns their hex strings in order and records
    the sender as a candidate for every listed hash that is being tracked:
    the sender is appended to the candidates of such a hash unless it is
    already among them, and the candidates of every other hash stay as they
    are (an IHAVE for a hash that was never asked for is ignored).  Handling
    the same IHAVE again changes nothing; nothing is sent and no upload slot
    is touched.  A payload whose length is not a multiple of 20 is dropped:
    the handler returns the empty list and records nothing. *)
Theorem i_have_records_candidates pkt_info bad_info from_addr hm ds h :
  Packet.payload pkt_info = concat ds -> Forall (fun d => len d = 20) ds ->
  len (Packet.payload bad_info) mod 20 <> 0 ->
  let hashes := map Hex.bytes_to_hex_string ds in
  let r := handle_i_have_response pkt_info from_addr hm in
  fst r = hashes
  /\ get_download_candidates h (snd r)
     = (if bool_decide (h ∈ hashes) && dict_in h (active_requests hm)
           && negb (bool_decide (from_addr ∈ get_download_candidates h hm))
        then get_download_candidates h hm ++ [from_addr]
        else get_download_candidates h hm)
  /\ handle_i_have_response pkt_info from_addr (snd r) = r
  /\ sock (snd r) = sock hm
  /\ upload_connections (snd r) = upload_connections hm
  /\ handle_i_have_response bad_info from_addr hm = ([], hm).
Proof.
  intros Hpay H20 Hbad hashes r.
  destruct (i_have_fields pkt_info from_addr hm ds h Hpay H20) as (A & B & C & D & E).
  repeat (split; [assumption|]).
  unfold handle_i_have_response, Packet.extract_chunk_hashes.
  replace (len (Packet.payload bad_info) mod 20 =? 0) with false
    by (symmetry; apply Z.eqb_neq; exact Hbad).
  reflexivity.
Qed.

Lemma i_have_records_candidates_witness :
  let hm := snd (send_who_has_request Packet.Little 7 three_peers
                   (map Hex.bytes_to_hex_string [repeat x01 20]) asker) in
  let info := packet_of Packet.PktType.IHAVE (concat [repeat x01 20]) None in
  get_download_candidates (Hex.bytes_to_hex_string (repeat x01 20))
    (snd (handle_i_have_response info ("10.0.0.2"%string, 48002) hm))
  = [("10.0.0.2"%string, 48002)].
Proof.
  intros hm info.
  assert (H20 : Forall (fun d => len d = 20) [repeat x01 20]) by (repeat constructor).
  assert (Hbad : len (Packet.payload (packet_of 0 [x00] None)) mod 20 <> 0)
    by (vm_compute; discriminate).
  destruct (i_have_records_candidates info (packet_of 0 [x00] None)
              ("10.0.0.2"%string, 48002) hm [repeat x01 20]
              (Hex.bytes_to_hex_string (repeat x01 20)) eq_refl H20 Hbad)
    as (_ & B & _).
  rewrite B. vm_compute. reflexivity.
Defined.

(** ** Discovery, end to end *)

Lemma who_has_reply ho hm pkt_info from_addr ds :
  Packet.payload pkt_info = concat ds -> Forall (fun d => len d = 20) ds ->
  len ds <= 69 ->
  len (upload_connections hm) < connection_limit hm ->
  Answers.held hm ds <> [] ->
  handle_who_has_request ho pkt_info from_addr hm
  = sendto (Formats.datagram (Wire.IHave (Answers.held hm ds))) from_addr hm.
Proof.
  intros Hpay H20 H69 Hfree Hheld.
  unfold handle_who_has_request, who_has_body.
  rewrite Hpay, (HandshakeFacts.extract_concat ds H20). cbn [bind].
  rewrite HandshakeFacts.available_held. cbn [bind].
  replace (len (upload_connections hm) >=? connection_limit hm) with false
    by (symmetry; rewrite Z.geb_leb; apply Z.leb_gt; exact Hfree).
  destruct (HandshakeFacts.held_len hm ds H20) as [Hh20 Hhl].
  destruct (FormatFacts.build_cases ho (Wire.IHave (Answers.held hm ds)))
    as [[Hb _]|[_ Hc]].
  - cbn [Wire.build] in Hb.
    destruct (Answers.held hm ds) as [|x xs] eqn:E; [congruence|].
    rewrite Hb. reflexivity.
  - exfalso. cbn [Formats.buildable] in Hc.
    destruct (Answers.held hm ds) as [|x xs] eqn:E; [congruence|].
    rewrite (FormatFacts.len_concat_20 _ Hh20) in Hc.
    apply (f_equal negb) in Hc. cbn [negb] in Hc.
    apply negb_true_iff in Hc. apply not_true_iff_false in Hc. apply Hc.
    apply PacketFacts.fits_intro. change Packet.HEADER_LEN with 12.
    pose proof (PacketFacts.len_nonneg (x :: xs)). lia.
Qed.

(** X22.  Discovery, end to end.  A peer asks for the hashes of [ds] (at
    most 69, one receive buffer); every other peer of the roster is sent the
    WHOHAS.  A provider with a free upload slot that holds at least one of
    the chunks parses the WHOHAS (on its own byte order) and answers the
    asking peer with one IHAVE listing the hashes it holds, in request
    order.  The asking peer parses the IHAVE, and [handle_i_have_response]
    returns those hashes and makes the provider the one candidate of every
    requested hash it holds; the requested hashes it does not hold keep no
    candidate. *)
Theorem discovery_round_trip ho_a ho_p now roster ds d asker_addr provider_addr
        hm_a hm_p :
  Forall (fun d => len d = 20) ds -> len ds <= 69 ->
  Answers.held hm_p ds <> [] ->
  len (upload_connections hm_p) < connection_limit hm_p ->
  let hashes := map Hex.bytes_to_hex_string ds in
  let whohas := Formats.datagram (Wire.WhoHas ds) in
  let ihave := Formats.datagram (Wire.IHave (Answers.held hm_p ds)) in
  let hm_a1 := snd (send_who_has_request ho_a now roster hashes hm_a) in
  sock hm_a1 = sock hm_a ++ map (fun a => (whohas, a)) (others roster)
  /\ exists info1 info2,
       Packet.parse_packet ho_p whohas (Some asker_addr) = Ok info1
       /\ Packet.pkt_type info1 = Packet.PktType.WHOHAS
       /\ sock (handle_who_has_request ho_p info1 asker_addr hm_p)
          = sock hm_p ++ [(ihave, asker_addr)]
       /\ Packet.parse_packet ho_a ihave (Some provider_addr) = Ok info2
       /\ Packet.pkt_type info2 = Packet.PktType.IHAVE
       /\ fst (handle_i_have_response info2 provider_addr hm_a1)
          = map Hex.bytes_to_hex_string (Answers.held hm_p ds)
       /\ (In d ds ->
           get_download_candidates (Hex.bytes_to_hex_string d)
             (snd (handle_i_have_response info2 provider_addr hm_a1))
           = if holds hm_p (Hex.bytes_to_hex_string d) then [provider_addr] else []).
Proof.
  intros H20 H69 Hheld Hfree hashes whohas ihave hm_a1.
  destruct (HandshakeFacts.held_len hm_p ds H20) as [Hh20 Hhl].
  assert (Hne : ds <> []) by (intros ->; apply Hheld; reflexivity).
  assert (Hb : Formats.buildable (Wire.WhoHas ds) = true).
  { cbn [Formats.buildable]. destruct ds as [|x xs] eqn:E; [congruence|].
    rewrite <- E in *. rewrite (FormatFacts.len_concat_20 _ H20).
    apply PacketFacts.fits_intro. change Packet.HEADER_LEN with 12.
    pose proof (PacketFacts.len_nonneg ds). lia. }
  pose proof (send_who_has_fields ho_a now roster ds hm_a
                (Hex.bytes_to_hex_string d) Hb) as (_ & S1 & S2 & _).
  fold hashes in S1, S2. fold hm_a1 in S1, S2. fold whohas in S1.
  split; [exact S1|].
  eexists. eexists.
  split.
  { apply (parse_datagram ho_p (Wire.WhoHas ds)).
    - split; assumption.
    - unfold Wire.fits_pkt_len. cbn [Wire.msg_payload].
      rewrite (FormatFacts.len_concat_20 _ H20). change Packet.HEADER_LEN with 12. lia. }
  split; [reflexivity|]. split.
  { erewrite (who_has_reply ho_p hm_p _ asker_addr ds);
      [reflexivity|reflexivity|assumption..]. }
  split.
  { apply (parse_datagram ho_a (Wire.IHave (Answers.held hm_p ds))).
    - split; assumption.
    - unfold Wire.fits_pkt_len. cbn [Wire.msg_payload].
      rewrite (FormatFacts.len_concat_20 _ Hh20). change Packet.HEADER_LEN with 12. lia. }
  split; [reflexivity|].
  match goal with |- context [handle_i_have_response ?i _ _] => set (info2 := i) end.
  destruct (i_have_fields info2 provider_addr hm_a1 (Answers.held hm_p ds)
              (Hex.bytes_to_hex_string d) eq_refl Hh20) as (A & B & _).
  split; [exact A|].
  intros Hin. rewrite B.
  destruct (S2 ltac:(unfold hashes; apply in_map; exact Hin)) as [T1 T2].
  rewrite T2. unfold dict_in. rewrite T1.
  rewrite (bool_decide_eq_false_2 (provider_addr ∈ [])) by apply not_elem_of_nil.
  cbn [negb]. rewrite !andb_true_r.
  destruct (holds hm_p (Hex.bytes_to_hex_string d)) eqn:Eh.
  - rewrite bool_decide_eq_true_2; [reflexivity|].
    apply hex_elem, HandshakeFacts.held_spec. split; [now apply list_elem_of_In|].
    unfold holds in Eh. now apply bool_decide_eq_true in Eh.
  - rewrite bool_decide_eq_false_2; [reflexivity|].
    intros Hx. apply hex_elem, HandshakeFacts.held_spec in Hx as [_ Hx].
    unfold holds in Eh. apply bool_decide_eq_false in Eh. contradiction.
Qed.

Lemma discovery_round_trip_witness :
  let hm_a1 := snd (send_who_has_request Packet.Little 7 three_peers
                      (map Hex.bytes_to_hex_string [repeat x01 20]) asker) in
  sock hm_a1
  = sock asker
    ++ map (fun a => (Formats.datagram (Wire.WhoHas [repeat x01 20]), a))
           (others three_peers).
Proof.
  assert (H20 : Forall (fun d => len d = 20) [repeat x01 20]) by (repeat constructor).
  assert (H69 : len [repeat x01 20] <= 69) by (vm_compute; discriminate).
  assert (Hheld : Answers.held provider [repeat x01 20] <> [])
    by (vm_compute; discriminate).
  assert (Hfree : len (upload_connections provider) < connection_limit provider)
    by reflexivity.
  exact (proj1 (discovery_round_trip Packet.Little Packet.Big 7 three_peers
                  [repeat x01 20] (repeat x01 20)
                  ("10.0.0.1"%string, 48001) ("10.0.0.2"%string, 48002)
                  asker provider H20 H69 Hheld Hfree)).
Defined.

(** ** Forgetting old requests *)

Lemma dict_get_filter {V} (f : string * V -> bool) (d : pydict string V) h v :
  NoDup (map fst d) -> dict_get h d = Some v ->
  dict_get h (List.filter f d) = if f (h, v) then Some v else None.
Proof.
  induction d as [|[k v0] d IH]; [discriminate|].
  cbn [map fst dict_get List.filter]. intros Hnd. apply NoDup_cons in Hnd as [Hni Hnd].
  destruct (decide (h = k)) as [->|Hne].
  - intros [= ->]. destruct (f (k, v)) eqn:Ef.
    + cbn [dict_get]. destruct (decide (k = k)); congruence.
    + apply dict_get_None. intros Hin. apply Hni, list_elem_of_In.
      apply in_map_iff in Hin as ([k' v'] & E & Hin). cbn [fst] in E. subst k'.
      apply filter_In in Hin as [Hin _]. apply (in_map fst) in Hin. exact Hin.
  - intros Hg. destruct (f (k, v0)).
    + cbn [dict_get]. destruct (decide (h = k)); [congruence|]. now apply IH.
    + now apply IH.
Qed.

Lemma NoDup_filter_keys {V} (f : string * V -> bool) (d : pydict string V) :
  NoDup (map fst d) -> NoDup (map fst (List.filter f d)).
Proof.
  induction d as [|[k v] d IH]; [intros; constructor|].
  cbn [map fst List.filter]. intros Hnd. apply NoDup_cons in Hnd as [Hni Hnd].
  destruct (f (k, v)); [|now apply IH].
  cbn [map fst]. apply NoDup_cons. split; [|now apply IH].
  intros Hin. apply Hni. apply list_elem_of_In in Hin. apply list_elem_of_In.
  apply in_map_iff in Hin as ([k' v'] & E & Hin). cbn [fst] in E. subst k'.
  apply filter_In in Hin as [Hin _]. apply (in_map fst) in Hin. exact Hin.
Qed.

(** X23.  Forgetting old requests.  [cleanup_old_requests] forgets exactly
    the tracked hashes whose request is older than the timeout, together
    with the candidates recorded for them, and keeps the others with their
    candidates; it sends nothing, touches no upload slot, and a second call
    with the same clock changes nothing more.  A hash that was forgotten has
    no candidate any more, whoever answered. *)
Theorem old_requests_expire now timeout hm h t pr :
  NoDup (map fst (active_requests hm)) ->
  dict_get h (active_requests hm) = Some (t, pr) ->
  let hm' := cleanup_old_requests now timeout hm in
  ((timeout < now - t)%Q ->
   dict_get h (active_requests hm') = None /\ get_download_candidates h hm' = [])
  /\ ((now - t <= timeout)%Q ->
      dict_get h (active_requests hm') = Some (t, pr)
      /\ get_download_candidates h hm' = get_download_candidates h hm)
  /\ sock hm' = sock hm /\ upload_connections hm' = upload_connections hm
  /\ cleanup_old_requests now timeout hm' = hm'
  /\ NoDup (map fst (active_requests hm')).
Proof.
  intros Hnd Hg hm'.
  pose proof (dict_get_filter
                (fun kv => negb (Qltb timeout (now - fst (snd kv))))
                (active_requests hm) h (t, pr) Hnd Hg) as Hf.
  cbn [fst snd] in Hf.
  split; [|split; [|split; [reflexivity|split; [reflexivity|split]]]].
  - intros Hlt. apply ConnFacts.Qltb_lt in Hlt. rewrite Hlt in Hf. cbn [negb] in Hf.
    unfold hm', cleanup_old_requests, get_download_candidates.
    cbn [active_requests set_active_requests]. rewrite Hf. split; reflexivity.
  - intros Hle.
    assert (Hb : Qltb timeout (now - t) = false).
    { destruct (Qltb timeout (now - t)) eqn:E; [|reflexivity].
      apply ConnFacts.Qltb_lt in E. lra. }
    rewrite Hb in Hf. cbn [negb] in Hf.
    unfold hm', cleanup_old_requests, get_download_candidates.
    cbn [active_requests set_active_requests]. rewrite Hf, Hg. split; reflexivity.
  - unfold hm', cleanup_old_requests.
    cbn [active_requests set_active_requests context sock upload_connections
         connection_limit].
    rewrite filter_twice. reflexivity.
  - unfold hm', cleanup_old_requests. cbn [active_requests set_active_requests].
    now apply NoDup_filter_keys.
Qed.

Lemma old_requests_expire_witness :
  get_download_candidates "aa" tracking = [("10.0.0.2"%string, 48002)]
  /\ get_download_candidates "aa" (cleanup_old_requests 41 30 tracking) = [].
Proof.
  split; [reflexivity|].
  assert (Hnd : NoDup (map fst (active_requests tracking))).
  { cbn. apply NoDup_singleton. }
  destruct (old_requests_expire 41 30 tracking "aa" 10
              [(("10.0.0.2"%string, 48002), ["aa"%string])] Hnd eq_refl)
    as (H & _).
  apply H. vm_compute. reflexivity.
Defined.

End DiscoveryFacts.

(* ===================================================================== *)
(** * The download task *)
(* ===================================================================== *)

Module TaskFacts.

Import Download Tasks DictFacts.

Lemma received_size t :
  NoDup (map fst (received_chunks t)) ->
  len (received_chunks t)
  = Z.of_nat (size (list_to_set (map fst (received_chunks t)) : gset string)).
Proof.
  intros H. rewrite size_list_to_set by exact H. unfold len.
  rewrite length_map. reflexivity.
Qed.

Lemma received_le t :
  sound t -> len (received_chunks t) <= Z.of_nat (size (needed_chunks t)).
Proof.
  intros (Hnd & Hsub & _). rewrite received_size by exact Hnd.
  apply Nat2Z.inj_le, subseteq_size. intros k Hk.
  apply elem_of_list_to_set, list_elem_of_In in Hk. now apply Hsub.
Qed.

Lemma is_complete_iff t :
  sound t ->
  (is_complete t = true
   <-> forall x, x ∈ needed_chunks t -> dict_in x (received_chunks t) = true).
Proof.
  intros Hs. pose proof Hs as (Hnd & Hsub & _).
  unfold is_complete. rewrite Z.geb_leb, Z.leb_le. split.
  - intros Hle x Hx. apply dict_in_keys, list_elem_of_In.
    rewrite received_size in Hle by exact Hnd. apply Nat2Z.inj_le in Hle.
    assert (E : (list_to_set (map fst (received_chunks t)) : gset string)
                = needed_chunks t).
    { apply set_subseteq_size_eq; [|exact Hle]. intros k Hk.
      apply elem_of_list_to_set, list_elem_of_In in Hk. now apply Hsub. }
    rewrite <- E in Hx. now apply elem_of_list_to_set in Hx.
  - intros Hall. rewrite received_size by exact Hnd.
    apply Nat2Z.inj_le, subseteq_size. intros x Hx.
    apply elem_of_list_to_set, list_elem_of_In, dict_in_keys. now apply Hall.
Qed.

Lemma add_chunk_cases now h data t :
  add_chunk now h data t
  = if bool_decide (h ∈ needed_chunks t) && negb (dict_in h (received_chunks t))
    then
      let t1 := set_received_chunks (received_chunks t ++ [(h, data)]) t in
      (true, if is_complete t1 && negb (completed t)
             then set_end_time (Some now) (set_completed true t1) else t1)
    else (false, t).
Proof.
  unfold add_chunk.
  destruct (bool_decide (h ∈ needed_chunks t)); cbn [andb]; [|reflexivity].
  unfold dict_in. destruct (dict_get h (received_chunks t)) eqn:E; cbn [negb];
    [reflexivity|].
  rewrite (dict_set_new _ _ _ E). reflexivity.
Qed.

Lemma add_chunk_sound now h data t :
  sound t ->
  let t' := snd (add_chunk now h data t) in
  sound t'
  /\ needed_chunks t' = needed_chunks t /\ output_file t' = output_file t
  /\ (forall x, dict_get x (received_chunks t')
                = match dict_get x (received_chunks t) with
                  | Some d => Some d
                  | None => if bool_decide (h = x) && bool_decide (x ∈ needed_chunks t)
                            then Some data else None
                  end).
Proof.
  intros Hs. pose proof Hs as (Hnd & Hsub & Hcomp). cbv zeta.
  rewrite add_chunk_cases.
  destruct (bool_decide (h ∈ needed_chunks t)) eqn:Eh; cbn [andb].
  2:{ cbn [snd]. split; [exact Hs|]. split; [reflexivity|]. split; [reflexivity|].
      intros x. destruct (dict_get x (received_chunks t)); [reflexivity|].
      destruct (decide (h = x)) as [->|Hne].
      - rewrite Eh, andb_false_r. reflexivity.
      - rewrite (bool_decide_eq_false_2 _ Hne). reflexivity. }
  apply bool_decide_eq_true in Eh.
  destruct (dict_in h (received_chunks t)) eqn:Ein; cbn [negb].
  { cbn [snd]. split; [exact Hs|]. split; [reflexivity|]. split; [reflexivity|].
    intros x. destruct (dict_get x (received_chunks t)) eqn:Ex; [reflexivity|].
    destruct (decide (h = x)) as [->|Hne].
    - unfold dict_in in Ein. rewrite Ex in Ein. discriminate.
    - rewrite (bool_decide_eq_false_2 _ Hne). reflexivity. }
  cbv zeta. cbn [snd].
  set (t1 := set_received_chunks (received_chunks t ++ [(h, data)]) t).
  assert (Hnd1 : NoDup (map fst (received_chunks t1))).
  { cbn. rewrite map_app. apply NoDup_app. split; [exact Hnd|].
    split; [|apply NoDup_singleton].
    intros k Hk Hk'. apply list_elem_of_singleton in Hk'. subst k.
    apply list_elem_of_In, dict_in_keys in Hk. cbn [fst] in Hk. congruence. }
  assert (Hsub1 : forall k, In k (map fst (received_chunks t1)) -> k ∈ needed_chunks t1).
  { cbn. intros k Hk. rewrite map_app in Hk. apply in_app_or in Hk as [Hk|[<-|[]]];
      [now apply Hsub|exact Eh]. }
  assert (Hne1 : received_chunks t1 <> []).
  { cbn. intros E. apply (f_equal (@length _)) in E. rewrite length_app in E.
    cbn in E. lia. }
  assert (Hget : forall x, dict_get x (received_chunks t1)
                = match dict_get x (received_chunks t) with
                  | Some d => Some d
                  | None => if bool_decide (h = x) && bool_decide (x ∈ needed_chunks t)
                            then Some data else None
                  end).
  { intros x. cbn [received_chunks t1 set_received_chunks].
    assert (Eg : dict_get h (received_chunks t) = None).
    { unfold dict_in in Ein. destruct (dict_get h (received_chunks t)); [discriminate|reflexivity]. }
    rewrite <- (dict_set_new h data _ Eg).
    destruct (decide (h = x)) as [<-|Hne].
    - rewrite dict_get_set_eq, Eg, (bool_decide_eq_true_2 _ eq_refl),
        (bool_decide_eq_true_2 _ Eh). reflexivity.
    - rewrite dict_get_set_ne by congruence.
      rewrite (bool_decide_eq_false_2 _ Hne). cbn [andb].
      destruct (dict_get x (received_chunks t)); reflexivity. }
  destruct (is_complete t1) eqn:Ec1; cbn [andb].
  - destruct (completed t) eqn:Ect; cbn [negb].
    + split; [|split; [reflexivity|split; [reflexivity|exact Hget]]].
      split; [exact Hnd1|]. split; [exact Hsub1|].
      cbn [completed t1 set_received_chunks]. rewrite Ect.
      split; [intros _; split; [exact Ec1|exact Hne1]|reflexivity].
    + split; [|split; [reflexivity|split; [reflexivity|exact Hget]]].
      split; [exact Hnd1|]. split; [exact Hsub1|].
      cbn [completed set_end_time set_completed].
      split; [intros _; split; [exact Ec1|exact Hne1]|reflexivity].
  - split; [|split; [reflexivity|split; [reflexivity|exact Hget]]].
    split; [exact Hnd1|]. split; [exact Hsub1|].
    cbn [completed t1 set_received_chunks].
    split; [|intros [E _]; congruence].
    intros Ect. exfalso. apply Hcomp in Ect as [Ect _].
    unfold is_complete in Ect, Ec1. cbn [received_chunks needed_chunks t1
      set_received_chunks] in Ec1.
    rewrite Z.geb_leb in Ect, Ec1. apply Z.leb_le in Ect. apply Z.leb_gt in Ec1.
    unfold len in *. rewrite length_app in Ec1. lia.
Qed.

Lemma add_all_sound ops t x :
  sound t ->
  let t' := add_all ops t in
  sound t'
  /\ needed_chunks t' = needed_chunks t /\ output_file t' = output_file t
  /\ dict_get x (received_chunks t')
     = match dict_get x (received_chunks t) with
       | Some d => Some d
       | None => if bool_decide (x ∈ needed_chunks t) then first_offer ops x
                 else None
       end.
Proof.
  cbv zeta. revert t. induction ops as [|[[now h] data] ops IH]; intros t Hs.
  - cbn. split; [exact Hs|]. split; [reflexivity|]. split; [reflexivity|].
    destruct (dict_get x (received_chunks t)); [reflexivity|].
    destruct (bool_decide _); reflexivity.
  - cbn [add_all fold_left fst snd].
    destruct (add_chunk_sound now h data t Hs) as (Hs1 & Hn1 & Hf1 & Hg1).
    cbv zeta in Hs1, Hn1, Hf1, Hg1.
    destruct (IH _ Hs1) as (Hs2 & Hn2 & Hf2 & Hg2).
    fold (add_all ops (snd (add_chunk now h data t))).
    split; [exact Hs2|]. split; [congruence|]. split; [congruence|].
    rewrite Hg2, Hg1, Hn1. unfold first_offer. cbn [List.find fst snd].
    destruct (dict_get x (received_chunks t)); [reflexivity|].
    destruct (decide (h = x)) as [->|Hne].
    + rewrite (bool_decide_eq_true_2 _ eq_refl). cbn [andb].
      destruct (bool_decide (x ∈ needed_chunks t)); reflexivity.
    + rewrite (bool_decide_eq_false_2 _ Hne). cbn [andb]. reflexivity.
Qed.

Lemma new_sound now file needed : sound (new_download_task now file needed).
Proof.
  split; [constructor|]. split; [intros k []|].
  cbn. split; [discriminate|]. intros [_ H]. congruence.
Qed.

Lemma progress_range t :
  sound t -> (0 <= get_progress t <= 1)%Q.
Proof.
  intros Hs. pose proof (received_le t Hs) as Hle.
  unfold get_progress. destruct (bool_decide (needed_chunks t = ∅)) eqn:E.
  - split; lra.
  - apply bool_decide_eq_false in E.
    assert (Hpos : (0 < size (needed_chunks t))%nat).
    { destruct (size (needed_chunks t)) eqn:Esz; [|lia].
      apply size_empty_iff in Esz. exfalso. apply E. now apply leibniz_equiv. }
    assert (Hq : (0 < inject_Z (Z.of_nat (size (needed_chunks t))))%Q).
    { change 0%Q with (inject_Z 0). rewrite <- Zlt_Qlt. lia. }
    split.
    + apply Qle_shift_div_l; [exact Hq|]. rewrite Qmult_0_l.
      change 0%Q with (inject_Z 0). rewrite <- Zle_Qle. unfold len. lia.
    + apply Qle_shift_div_r; [exact Hq|]. rewrite Qmult_1_l.
      rewrite <- Zle_Qle. exact Hle.
Qed.

(** X24.  The download task.  After any calls of [add_chunk] on a new task:
    the task holds, for every needed hash, the data of the first call made
    for it, and nothing for a hash that is not needed (a later call for the
    same hash never replaces the data); the task is complete exactly when
    every needed hash has its data; [completed] is set exactly when the task
    is complete and at least one chunk was added; the progress lies between
    0 and 1; and when [save_to_file] succeeds, the dictionary it writes to
    the output file has exactly the needed hashes as keys. *)
Theorem task_completion now file needed ops h writable :
  let t := add_all ops (new_download_task now file needed) in
  dict_get h (received_chunks t)
  = (if bool_decide (h ∈ needed) then first_offer ops h else None)
  /\ NoDup (map fst (received_chunks t))
  /\ (is_complete t = true
      <-> forall x, x ∈ needed -> dict_in x (received_chunks t) = true)
  /\ (completed t = true <-> is_complete t = true /\ received_chunks t <> [])
  /\ (0 <= get_progress t <= 1)%Q
  /\ (fst (save_to_file writable t) = true ->
      snd (save_to_file writable t) = Some (file, received_chunks t)
      /\ forall x, dict_in x (received_chunks t) = true <-> x ∈ needed).
Proof.
  intros t.
  destruct (add_all_sound ops (new_download_task now file needed) h
              (new_sound now file needed)) as (Hs & Hn & Hf & Hg).
  cbv zeta in Hs, Hn, Hf, Hg. fold t in Hs, Hn, Hf, Hg.
  cbn [received_chunks needed_chunks output_file new_download_task dict_get] in Hn, Hf, Hg.
  assert (Hin : forall x, x ∈ needed_chunks t <-> x ∈ needed).
  { intros x. rewrite Hn. apply elem_of_list_to_set. }
  pose proof (is_complete_iff t Hs) as Hc.
  split; [|split; [apply Hs|split; [|split; [apply Hs|split; [now apply progress_range|]]]]].
  - rewrite Hg. destruct (decide (h ∈ needed)) as [H1|H1].
    + rewrite !bool_decide_eq_true_2; [reflexivity|exact H1|].
      apply elem_of_list_to_set. exact H1.
    + rewrite !bool_decide_eq_false_2; [reflexivity|exact H1|].
      intros H2. apply H1. apply elem_of_list_to_set in H2. exact H2.
  - rewrite Hc. split; intros H x Hx; apply H, Hin; exact Hx.
  - unfold save_to_file. destruct (is_complete t) eqn:Ec; cbn [negb fst snd];
      [|discriminate].
    destruct writable; cbn [fst snd]; [|discriminate]. intros _.
    rewrite Hf. split; [reflexivity|]. intros x. split.
    + intros Hx. apply Hin. destruct Hs as (_ & Hsub & _). apply Hsub.
      now apply dict_in_keys.
    + intros Hx. apply Hc; [reflexivity|]. now apply Hin.
Qed.

Lemma task_completion_witness :
  let t := add_all [(1%Q, "aa"%string, [x61]); (2%Q, "aa"%string, [x62])]
                   (new_download_task 0 "out" ["aa"%string]) in
  snd (save_to_file true t) = Some ("out"%string, received_chunks t)
  /\ dict_get "aa" (received_chunks t) = Some [x61].
Proof.
  intros t.
  destruct (task_completion 0 "out" ["aa"%string]
              [(1%Q, "aa"%string, [x61]); (2%Q, "aa"%string, [x62])]
              "aa" true) as (A & _ & _ & _ & _ & F).
  fold t in A, F. split.
  - apply F. vm_compute. reflexivity.
  - rewrite A. vm_compute. reflexivity.
Defined.

Lemma add_all_app ops op t :
  add_all (ops ++ [op]) t
  = snd (add_chunk (fst (fst op)) (snd (fst op)) (snd op) (add_all ops t)).
Proof. unfold add_all. now rewrite fold_left_app. Qed.

Lemma add_chunk_completed now h data t :
  completed t = true ->
  completed (snd (add_chunk now h data t)) = true
  /\ end_time (snd (add_chunk now h data t)) = end_time t.
Proof.
  intros Hc. rewrite add_chunk_cases. destruct (_ && _); cbn [snd]; [|auto].
  cbv zeta. rewrite Hc, andb_false_r. cbn. auto.
Qed.

Lemma add_all_clock now file needed ops :
  let t0 := new_download_task now file needed in
  let t := add_all ops t0 in
  start_time t = now
  /\ (completed t = false -> end_time t = None)
  /\ (completed t = true ->
      exists before op after,
        ops = before ++ op :: after
        /\ completed (add_all before t0) = false
        /\ completed (add_all (before ++ [op]) t0) = true
        /\ end_time t = Some (fst (fst op))).
Proof.
  cbv zeta. induction ops as [|[[tm h] data] ops IH] using rev_ind.
  - cbn. split; [reflexivity|]. split; [reflexivity|discriminate].
  - rewrite add_all_app. cbn [fst snd].
    set (t := add_all ops (new_download_task now file needed)) in *.
    destruct IH as (I1 & I2 & I3).
    destruct (completed t) eqn:Hc.
    + destruct (add_chunk_completed tm h data t Hc) as [E1 E2].
      destruct (I3 eq_refl) as (before & op & after & -> & H1 & H2 & H3).
      split; [|split].
      * rewrite add_chunk_cases. destruct (_ && _); cbn [snd]; [|exact I1].
        cbv zeta. destruct (_ && _); exact I1.
      * congruence.
      * intros _. exists before, op, (after ++ [(tm, h, data)]).
        split; [now rewrite <- app_assoc|]. split; [exact H1|].
        split; [exact H2|]. congruence.
    + rewrite add_chunk_cases.
      destruct (bool_decide (h ∈ needed_chunks t)
                && negb (dict_in h (received_chunks t))) eqn:E1; cbn [snd].
      2:{ split; [exact I1|]. split; [intros _; exact (I2 eq_refl)|]. congruence. }
      cbv zeta. rewrite Hc. cbn [negb]. rewrite andb_true_r.
      destruct (is_complete _) eqn:E2.
      * split; [exact I1|]. split; [discriminate|]. intros _.
        exists ops, (tm, h, data), []. split; [reflexivity|].
        split; [exact Hc|]. split; [|reflexivity].
        rewrite add_all_app. cbn [fst snd]. fold t.
        rewrite add_chunk_cases, E1. cbv zeta. rewrite Hc. cbn [negb].
        rewrite andb_true_r, E2. reflexivity.
      * cbn. split; [exact I1|]. split; [intros _; exact (I2 eq_refl)|]. congruence.
Qed.

Lemma missing_spec t :
  sound t ->
  get_missing_chunks t
  = needed_chunks t ∖ list_to_set (map fst (received_chunks t)).
Proof.
  intros _. apply set_eq. intros x. unfold get_missing_chunks.
  rewrite elem_of_filter, elem_of_difference, elem_of_list_to_set.
  rewrite list_elem_of_In, <- dict_in_keys.
  destruct (dict_in x (received_chunks t)); split; intros [H1 H2];
    split; solve [assumption | congruence | intros ?; congruence].
Qed.

(** X30.  The missing chunks and the duration of a task.  After any calls
    of [add_chunk] on a new task, the missing chunks are the needed ones
    that were not received, and their number and the number of received
    chunks add up to the number of needed chunks; the task is complete
    exactly when nothing is missing.  While the task is not completed it
    has no end time and its duration is the time elapsed since it was
    created; once it is completed its end time is the time of the call
    that completed it, the first call after which [completed] is set, and
    (unless that time is 0) its duration is that time less the time of
    creation. *)
Theorem missing_chunks_and_duration now file needed ops :
  let t := add_all ops (new_download_task now file needed) in
  (forall x, x ∈ get_missing_chunks t
             <-> x ∈ needed /\ dict_in x (received_chunks t) = false)
  /\ Z.of_nat (size (get_missing_chunks t)) + len (received_chunks t)
     = Z.of_nat (size (list_to_set needed : gset string))
  /\ (is_complete t = true <-> get_missing_chunks t = ∅)
  /\ (completed t = false ->
      end_time t = None /\ forall at_time, (get_duration at_time t = at_time - now)%Q)
  /\ (completed t = true ->
      exists before op after,
        ops = before ++ op :: after
        /\ completed (add_all before (new_download_task now file needed)) = false
        /\ completed (add_all (before ++ [op]) (new_download_task now file needed))
           = true
        /\ end_time t = Some (fst (fst op))
        /\ (Qeq_bool (fst (fst op)) 0 = false ->
            forall at_time,
              (get_duration at_time t = fst (fst op) - now)%Q)).
Proof.
  intros t.
  destruct (add_all_sound ops (new_download_task now file needed) ""%string
              (new_sound now file needed)) as (Hs & Hn & _).
  cbv zeta in Hs, Hn. fold t in Hs, Hn. cbn [needed_chunks new_download_task] in Hn.
  destruct (add_all_clock now file needed ops) as (C1 & C2 & C3).
  cbv zeta in C1, C2, C3. fold t in C1, C2, C3.
  pose proof Hs as (Hnd & Hsub & _).
  assert (Hsubset : (list_to_set (map fst (received_chunks t)) : gset string)
                    ⊆ needed_chunks t).
  { intros k Hk. apply elem_of_list_to_set, list_elem_of_In in Hk. now apply Hsub. }
  split; [|split; [|split; [|split]]].
  - intros x. unfold get_missing_chunks. rewrite elem_of_filter, Hn.
    rewrite elem_of_list_to_set. tauto.
  - rewrite (missing_spec t Hs), (size_difference _ _ Hsubset).
    rewrite <- Hn. pose proof (subseteq_size _ _ Hsubset) as Hle.
    rewrite (received_size t Hnd). lia.
  - rewrite (is_complete_iff t Hs). split.
    + intros Hall. apply set_eq. intros x. unfold get_missing_chunks.
      rewrite elem_of_filter. split; [|intros Hx; now apply elem_of_empty in Hx].
      intros [H1 H2]. rewrite (Hall x H2) in H1. discriminate.
    + intros He x Hx. destruct (dict_in x (received_chunks t)) eqn:E; [reflexivity|].
      assert (Hm : x ∈ get_missing_chunks t).
      { unfold get_missing_chunks. apply elem_of_filter. auto. }
      rewrite He in Hm. now apply elem_of_empty in Hm.
  - intros Hc. split; [now apply C2|]. intros at_time. unfold get_duration.
    rewrite (C2 Hc), C1. reflexivity.
  - intros Hc. destruct (C3 Hc) as (before & op & after & E & H1 & H2 & H3).
    exists before, op, after. repeat (split; [assumption|]).
    intros Hz at_time. unfold get_duration. rewrite H3, Hz, C1. reflexivity.
Qed.

End TaskFacts.

(* ===================================================================== *)
(** * The download manager *)
(* ===================================================================== *)

Module DispatchFacts.

Import Conn Download Manager Dispatch DictFacts.

(** ** The transfer manager's operations keep what [kept] says *)

Lemma kept_same rt : kept rt rt.
Proof. repeat split; auto. Qed.

Lemma kept_then rt1 rt2 rt3 : kept rt1 rt2 -> kept rt2 rt3 -> kept rt1 rt3.
Proof.
  intros (A & B & C) (D & E & F). split; [congruence|]. split; auto.
Qed.

Lemma dict_in_set_old {K V} `{EqDecision K} (k key : K) (v : V) (d : pydict K V) :
  dict_in key d = true -> dict_in k (dict_set key v d) = true -> dict_in k d = true.
Proof.
  intros Hk H. apply dict_in_keys in H. rewrite dict_set_keys, Hk in H.
  now apply dict_in_keys.
Qed.

Lemma on_upload_kept {A} key c (m : Transfer.CM A) rt :
  dict_in key (Transfer.upload_connections rt) = true ->
  kept rt (snd (Transfer.on_upload key c m rt)).
Proof.
  intros Hk. unfold Transfer.on_upload.
  destruct (m (c, Transfer.sock rt)) as [r [c' s']]. cbn [snd].
  split; [reflexivity|]. split; [|intros H; exact H].
  intros k. cbn. now apply dict_in_set_old.
Qed.

Lemma on_download_kept {A} key c (m : Transfer.CM A) rt :
  kept rt (snd (Transfer.on_download key c m rt)).
Proof.
  unfold Transfer.on_download.
  destruct (m (c, Transfer.sock rt)) as [r [c' s']]. cbn [snd].
  split; [reflexivity|]. split; [intros k H; exact H|].
  cbn. apply NoDup_dict_set.
Qed.

Lemma for_items_keys {K} (body : Connection -> Transfer.CM (list string))
      (d : pydict K Connection) s :
  map fst (fst (snd (Transfer.for_items body d s))) = map fst d.
Proof.
  revert s. induction d as [|[k c] d IH]; intros s; [reflexivity|].
  cbn [Transfer.for_items].
  destruct (body c (c, s)) as [[out|e] [c' s']]; [|reflexivity].
  specialize (IH s'). destruct (Transfer.for_items body d s') as [r [d'' s'']].
  cbn [fst snd map] in *. now rewrite IH.
Qed.

Lemma find_dict_in {K V} `{EqDecision K} (f : K * V -> bool) (d : pydict K V) k v :
  List.find f d = Some (k, v) -> dict_in k d = true.
Proof.
  intros H. apply find_some in H as [H _]. apply dict_in_keys.
  apply (in_map fst) in H. exact H.
Qed.

Lemma handle_timeouts_kept ho now rt : kept rt (snd (Transfer.handle_timeouts ho now rt)).
Proof.
  unfold Transfer.handle_timeouts.
  match goal with |- context [Transfer.for_items ?b (Transfer.download_connections rt) ?s] =>
    pose proof (for_items_keys b (Transfer.download_connections rt) s) as K1;
    destruct (Transfer.for_items b (Transfer.download_connections rt) s)
      as [r1 [downloads s1]] end.
  cbn [fst snd] in K1.
  destruct r1 as [chunks1|e].
  - cbn [Transfer.upload_connections Transfer.sock Transfer.set_sock
         Transfer.set_download_connections].
    match goal with |- context [Transfer.for_items ?b (Transfer.upload_connections rt) ?s] =>
      pose proof (for_items_keys b (Transfer.upload_connections rt) s) as K2;
      destruct (Transfer.for_items b (Transfer.upload_connections rt) s)
        as [r2 [uploads s2]] end.
    cbn [fst snd] in K2. cbn [snd].
    split; [reflexivity|]. split.
    + intros k H. cbn in H. apply dict_in_keys in H. rewrite K2 in H.
      now apply dict_in_keys.
    + cbn. now rewrite K1.
  - cbn [snd]. split; [reflexivity|]. split; [intros k H; exact H|].
    cbn. now rewrite K1.
Qed.

Lemma NoDup_filter_fst {K V} (f : K * V -> bool) (d : pydict K V) :
  NoDup (map fst d) -> NoDup (map fst (List.filter f d)).
Proof.
  induction d as [|[k v] d IH]; [intros; constructor|].
  cbn [map fst List.filter]. intros Hnd. apply NoDup_cons in Hnd as [Hni Hnd].
  destruct (f (k, v)); [|now apply IH].
  cbn [map fst]. apply NoDup_cons. split; [|now apply IH].
  intros Hin. apply Hni. apply list_elem_of_In in Hin. apply list_elem_of_In.
  apply in_map_iff in Hin as ([k' v'] & E & Hin). cbn [fst] in E. subst k'.
  apply filter_In in Hin as [Hin _]. apply (in_map fst) in Hin. exact Hin.
Qed.

Lemma cleanup_kept rt : kept rt (snd (Transfer.cleanup_finished_connections rt)).
Proof.
  unfold Transfer.cleanup_finished_connections. cbn [snd].
  split; [reflexivity|]. split.
  - intros k H. cbn in H. apply dict_in_keys in H. apply dict_in_keys.
    apply in_map_iff in H as (kc & E & Hin). apply filter_In in Hin as [Hin _].
    apply in_map_iff. eauto.
  - cbn. apply NoDup_filter_fst.
Qed.

Lemma step_kept ho rt e : kept rt (Managers.download_step ho rt e).
Proof.
  destruct e as [now h peer|now info from|now info from|now|]; cbn [Managers.download_step].
  - unfold Transfer.create_download_connection. cbn [snd].
    split; [reflexivity|]. split; [intros k H; exact H|]. cbn. apply NoDup_dict_set.
  - unfold Transfer.handle_data_packet.
    destruct (List.find _ _) as [[key c]|]; [apply on_download_kept|apply kept_same].
  - unfold Transfer.handle_ack_packet.
    destruct (List.find _ _) as [[key c]|] eqn:E; [|apply kept_same].
    apply on_upload_kept. eapply find_dict_in. exact E.
  - apply handle_timeouts_kept.
  - apply cleanup_kept.
Qed.

Lemma start_kept ho now peer h rt :
  kept rt (snd (Transfer.start_data_upload ho now peer h rt)).
Proof.
  unfold Transfer.start_data_upload.
  destruct (dict_get (peer, h) (Transfer.upload_connections rt)) as [c|] eqn:E;
    [|apply kept_same].
  destruct (negb _); [apply kept_same|].
  apply on_upload_kept. unfold dict_in. rewrite E. reflexivity.
Qed.

(** ** Calls of the two managers *)

Lemma on_handshake_eq {A}
      (f : Handshake.HandshakeManager -> A * Handshake.HandshakeManager) dm :
  on_handshake f dm
  = (fst (f (Handshake.set_sock (sock dm) (handshake_manager dm))),
     let hm := snd (f (Handshake.set_sock (sock dm) (handshake_manager dm))) in
     set_sock (Handshake.sock hm) (set_handshake_manager hm dm)).
Proof. unfold on_handshake. destruct (f _); reflexivity. Qed.

Lemma on_transfer_eq {A}
      (f : Transfer.ReliableTransfer -> A * Transfer.ReliableTransfer) dm :
  on_transfer f dm
  = (fst (f (Transfer.set_sock (sock dm) (reliable_transfer dm))),
     let rt := snd (f (Transfer.set_sock (sock dm) (reliable_transfer dm))) in
     set_sock (Transfer.sock rt) (set_reliable_transfer rt dm)).
Proof. unfold on_transfer. destruct (f _); reflexivity. Qed.

Lemma advance_same ctx dm : sane ctx dm -> advance ctx dm dm.
Proof. intros H. split; [exact H|]. exists []. now rewrite app_nil_r. Qed.

Lemma advance_then ctx dm1 dm2 dm3 :
  advance ctx dm1 dm2 -> advance ctx dm2 dm3 -> advance ctx dm1 dm3.
Proof.
  intros [_ [m1 E1]] [H [m2 E2]]. split; [exact H|].
  exists (m1 ++ m2). now rewrite E2, E1, app_assoc.
Qed.

Lemma fold_advance {S X} ctx (proj : S -> DownloadManager) (f : S -> X -> S) l a :
  (forall a x, sane ctx (proj a) -> advance ctx (proj a) (proj (f a x))) ->
  sane ctx (proj a) -> advance ctx (proj a) (proj (fold_left f l a)).
Proof.
  intros Hf. revert a. induction l as [|x l IH]; intros a H; [now apply advance_same|].
  cbn [fold_left]. eapply advance_then; [apply Hf, H|]. apply IH. apply Hf, H.
Qed.

Lemma dict_in_app {K V} `{EqDecision K} (k : K) (d more : pydict K V) :
  dict_in k d = true -> dict_in k (d ++ more) = true.
Proof.
  intros H. apply dict_in_keys. apply dict_in_keys in H.
  rewrite map_app. apply in_or_app. now left.
Qed.

Lemma advance_handshake {A} ho ctx e
      (f : Handshake.HandshakeManager -> A * Handshake.HandshakeManager) dm :
  (forall hm, snd (f hm) = Discovery.step ho hm e) ->
  sane ctx dm -> advance ctx dm (snd (on_handshake f dm)).
Proof.
  intros Hf [(Hc & Hr & Ha & Hk & Hd) Hb]. rewrite on_handshake_eq. cbn [snd].
  rewrite Hf. set (hm0 := Handshake.set_sock (sock dm) (handshake_manager dm)).
  assert (Ha0 : Discovery.admitted ctx hm0) by exact Ha.
  destruct (DiscoveryFacts.step_grows ho ctx hm0 e Ha0) as [more Hm].
  split; [split|].
  - split; [exact Hc|]. split; [exact Hr|].
    split; [apply DiscoveryFacts.step_admitted, Ha0|]. split; [|exact Hd].
    intros key H. cbn. rewrite Hm. apply dict_in_app. now apply Hk.
  - exact Hb.
  - exists more. exact Hm.
Qed.

Lemma advance_transfer {A} ctx
      (f : Transfer.ReliableTransfer -> A * Transfer.ReliableTransfer) dm :
  (forall rt, kept rt (snd (f rt))) ->
  sane ctx dm -> advance ctx dm (snd (on_transfer f dm)).
Proof.
  intros Hf [(Hc & Hr & Ha & Hk & Hd) Hb]. rewrite on_transfer_eq. cbn [snd].
  destruct (Hf (Transfer.set_sock (sock dm) (reliable_transfer dm))) as (K1 & K2 & K3).
  split; [split|].
  - split; [exact Hc|]. split; [cbn; rewrite K1; exact Hr|]. split; [exact Ha|].
    split; [|cbn; apply K3, Hd].
    intros key H. apply Hk. cbn in H. apply K2 in H. exact H.
  - exact Hb.
  - exists []. now rewrite app_nil_r.
Qed.

Lemma dict_in_set_cases {K V} `{EqDecision K} (k key : K) (v : V) (d : pydict K V) :
  dict_in k (dict_set key v d) = true -> k = key \/ dict_in k d = true.
Proof.
  intros H. apply dict_in_keys in H. rewrite dict_set_keys in H.
  destruct (dict_in key d).
  - right. now apply dict_in_keys.
  - apply in_app_or in H as [H|[H|[]]]; [right; now apply dict_in_keys|now left].
Qed.

Lemma advance_create_upload ctx now peer h dm :
  dict_in (peer, h) (slots dm) = true ->
  sane ctx dm ->
  advance ctx dm (snd (on_transfer (Transfer.create_upload_connection now peer h) dm)).
Proof.
  intros Hs [(Hc & Hr & Ha & Hk & Hd) Hb]. rewrite on_transfer_eq. cbn [snd].
  split; [split|]; [|exact Hb|exists []; now rewrite app_nil_r].
  unfold Transfer.create_upload_connection.
  cbn [Transfer.context Transfer.set_sock].
  destruct (has_chunks _ !! h) as [[|b chunk]|];
    cbn [snd]; (split; [exact Hc|]; split; [exact Hr|]; split; [exact Ha|];
                split; [|exact Hd]); try exact Hk.
  intros key H. cbn in H. apply dict_in_set_cases in H as [->|H]; [exact Hs|].
  now apply Hk.
Qed.

Lemma get_request_slot now pkt_info from_addr hm h :
  fst (Handshake.handle_get_request now pkt_info from_addr hm) = Some h ->
  dict_in (from_addr, h)
          (Handshake.upload_connections
             (snd (Handshake.handle_get_request now pkt_info from_addr hm))) = true.
Proof.
  rewrite DiscoveryFacts.get_request_cases. cbv zeta.
  destruct (_ && _); cbn [fst snd]; [|discriminate].
  intros [= <-]. cbn. apply dict_in_keys. rewrite map_app. apply in_or_app.
  right. now left.
Qed.

(** ** Changes of the tasks alone *)

Lemma advance_books ctx dm dm' :
  sane ctx dm ->
  context dm' = context dm -> handshake_manager dm' = handshake_manager dm ->
  reliable_transfer dm' = reliable_transfer dm ->
  booked dm' -> advance ctx dm dm'.
Proof.
  intros [W _] E1 E2 E3 Hb. split; [split; [|exact Hb]|].
  - unfold wired. rewrite E1, E2, E3. exact W.
  - exists []. unfold slots. now rewrite E2, app_nil_r.
Qed.

Lemma add_chunk_done now h data t :
  Tasks.sound t -> completed t = true -> add_chunk now h data t = (false, t).
Proof.
  intros Hs Hc. rewrite TaskFacts.add_chunk_cases.
  destruct (bool_decide (h ∈ needed_chunks t)) eqn:E; [|reflexivity].
  apply bool_decide_eq_true in E.
  pose proof Hs as (_ & _ & H3). apply H3 in Hc as [Hc _].
  pose proof (proj1 (TaskFacts.is_complete_iff t Hs) Hc h E) as Hin.
  rewrite Hin. reflexivity.
Qed.

Lemma add_chunk_added now h data t :
  fst (add_chunk now h data t) = true ->
  received_chunks (snd (add_chunk now h data t)) <> [].
Proof.
  rewrite TaskFacts.add_chunk_cases. destruct (_ && _); [|discriminate].
  cbv zeta. cbn [fst snd]. intros _.
  destruct (_ && _); cbn; intros H; apply app_eq_nil in H as [_ H]; discriminate.
Qed.

Lemma deliver_managers wr now h data ref dm :
  let dm' := snd (deliver_chunk wr now h data ref dm) in
  context dm' = context dm /\ handshake_manager dm' = handshake_manager dm
  /\ reliable_transfer dm' = reliable_transfer dm /\ sock dm' = sock dm
  /\ active_downloads dm' = active_downloads dm.
Proof.
  cbv zeta. unfold deliver_chunk.
  destruct (tasks dm !! ref) as [t|]; [|repeat split].
  destruct (add_chunk now h data t) as [added t'].
  destruct added; [|repeat split].
  destruct (is_complete t'); [|repeat split].
  destruct (save_to_file _ t') as [[|] [w|]]; repeat split.
Qed.

Lemma deliver_booked wr now h data ref dm :
  booked dm -> booked (snd (deliver_chunk wr now h data ref dm)).
Proof.
  intros (B1 & B2 & B3). unfold deliver_chunk.
  destruct (tasks dm !! ref) as [t|] eqn:Et; [|exact (conj B1 (conj B2 B3))].
  pose proof (TaskFacts.add_chunk_sound now h data t (B1 _ _ Et)) as Hs.
  cbv zeta in Hs. destruct Hs as (Hs & _).
  pose proof (add_chunk_added now h data t) as Hadd.
  assert (Hdone : completed t = true -> snd (add_chunk now h data t) = t).
  { intros Hc. now rewrite (add_chunk_done now h data t (B1 _ _ Et) Hc). }
  destruct (add_chunk now h data t) as [added t']. cbn [fst snd] in *.
  set (dm1 := set_tasks (<[ref := t']> (tasks dm)) dm).
  assert (Hb1 : booked dm1).
  { split; [|split].
    - intros r0 t0. cbn. destruct (decide (r0 = ref)) as [->|Hne].
      + rewrite lookup_insert_eq. intros [= <-]. exact Hs.
      + rewrite lookup_insert_ne by congruence. apply B1.
    - intros r0 Hr. cbn. destruct (decide (r0 = ref)) as [->|Hne].
      + rewrite (B2 _ Hr) in Et. discriminate.
      + rewrite lookup_insert_ne by congruence. now apply B2.
    - cbn. eapply Forall_impl; [exact B3|]. intros w (r0 & t0 & H1 & H2 & H3).
      destruct (decide (r0 = ref)) as [->|Hne].
      + exists ref, t'. rewrite lookup_insert_eq.
        assert (t0 = t) as -> by congruence. rewrite (Hdone H3). auto.
      + exists r0, t0. rewrite lookup_insert_ne by congruence. auto. }
  destruct added; [|exact Hb1].
  destruct (is_complete t') eqn:Ec; [|exact Hb1].
  unfold save_to_file. rewrite Ec. cbn [negb].
  destruct (wr (output_file t')); [|exact Hb1]. cbn [snd].
  destruct Hb1 as (C1 & C2 & C3). split; [exact C1|]. split; [exact C2|].
  cbn. apply Forall_app. split; [exact C3|]. constructor; [|constructor].
  exists ref, t'. rewrite lookup_insert_eq. split; [reflexivity|].
  split; [reflexivity|]. destruct Hs as (_ & _ & H3). apply H3. auto.
Qed.

Lemma advance_deliver ctx wr now h data ref dm :
  sane ctx dm -> advance ctx dm (snd (deliver_chunk wr now h data ref dm)).
Proof.
  intros H. destruct (deliver_managers wr now h data ref dm) as (E1 & E2 & E3 & _).
  apply advance_books; try assumption. apply deliver_booked, H.
Qed.

(** ** Every event keeps the manager sane *)

Lemma schedule_one_advance ho ctx now dm item :
  sane ctx dm -> advance ctx dm (schedule_one ho now dm item).
Proof.
  intros H. destruct item as [h ref]. unfold schedule_one.
  destruct (tasks dm !! ref) as [t|]; [|now apply advance_same].
  destruct (dict_in h (received_chunks t)); [now apply advance_same|].
  destruct (dict_in h _); [now apply advance_same|].
  destruct (Handshake.get_download_candidates h _) as [|peer l];
    [now apply advance_same|].
  pose proof (advance_transfer ctx (Transfer.create_download_connection now h peer) dm
                (fun rt => step_kept ho rt (Managers.Opens now h peer)) H) as A1.
  destruct (on_transfer _ dm) as [c dm1]. cbn [snd] in A1.
  pose proof (advance_handshake ho ctx (Discovery.AsksGet h peer)
                (Handshake.send_get_request ho h peer) dm1
                (fun hm => eq_refl) (proj1 A1)) as A2.
  destruct (on_handshake _ dm1) as [b dm2]. cbn [snd] in A2.
  eapply advance_then; eassumption.
Qed.

Lemma schedule_advance ho ctx now dm :
  sane ctx dm -> advance ctx dm (schedule_downloads ho now dm).
Proof.
  intros H. unfold schedule_downloads.
  apply (fold_advance ctx (fun dm => dm)); [|exact H].
  intros a x. apply schedule_one_advance.
Qed.

Lemma chunk_arrived_advance ctx wr now h dm :
  sane ctx dm -> advance ctx dm (snd (chunk_arrived wr now h dm)).
Proof.
  intros H. unfold chunk_arrived.
  destruct (truthy h); [|now apply advance_same].
  destruct (dict_get h (active_downloads dm)); [|now apply advance_same].
  destruct (dict_get h _); [|now apply advance_same].
  destruct (is_chunk_complete _ _); [|now apply advance_same].
  now apply advance_deliver.
Qed.

Lemma completed_one_advance ctx wr now acc h :
  sane ctx (snd acc) -> advance ctx (snd acc) (snd (completed_one wr now acc h)).
Proof.
  intros H. destruct acc as [l dm]. cbn [snd] in *. unfold completed_one.
  destruct (dict_get h (active_downloads dm)); [|now apply advance_same].
  destruct (dict_get h _) as [c|]; [|now apply advance_same].
  destruct (bool_decide _); [|now apply advance_same].
  pose proof (advance_deliver ctx wr now h (get_chunk_data c) n dm H) as A.
  destruct (deliver_chunk _ _ _ _ _ _) as [[file|] dm1]; exact A.
Qed.

Lemma fold_active (f : pydict string nat -> string -> pydict string nat) l dm :
  fold_left (fun dm h => set_active_downloads (f (active_downloads dm) h) dm) l dm
  = set_active_downloads (fold_left f l (active_downloads dm)) dm.
Proof.
  revert dm. induction l as [|h l IH]; intros dm; [now destruct dm|].
  cbn [fold_left]. rewrite IH. reflexivity.
Qed.

Lemma receive_advance ho wr ctx now pkt_info from_addr dm :
  sane ctx dm ->
  advance ctx dm (snd (handle_incoming_packet ho wr now pkt_info from_addr dm)).
Proof.
  intros H. unfold handle_incoming_packet. cbv zeta.
  destruct (_ =? Packet.PktType.WHOHAS).
  { apply (advance_handshake ho ctx (Discovery.WhoHasArrives pkt_info from_addr));
      [reflexivity|exact H]. }
  destruct (_ =? Packet.PktType.IHAVE).
  { pose proof (advance_handshake ho ctx (Discovery.IHaveArrives pkt_info from_addr)
                  (Handshake.handle_i_have_response pkt_info from_addr) dm
                  (fun hm => eq_refl) H) as A1.
    destruct (on_handshake _ dm) as [l dm1]. cbn [snd] in *.
    eapply advance_then; [exact A1|]. apply schedule_advance, A1. }
  destruct (_ =? Packet.PktType.DENIED).
  { apply (advance_handshake ho ctx (Discovery.DeniedArrives pkt_info from_addr));
      [reflexivity|exact H]. }
  destruct (_ =? Packet.PktType.GET).
  { pose proof (advance_handshake ho ctx (Discovery.GetArrives now pkt_info from_addr)
                  (Handshake.handle_get_request now pkt_info from_addr) dm
                  (fun hm => eq_refl) H) as A1.
    pose proof (get_request_slot now pkt_info from_addr
                  (Handshake.set_sock (sock dm) (handshake_manager dm))) as Hs.
    rewrite on_handshake_eq in A1 |- *. cbn [snd] in A1. cbv zeta in A1 |- *.
    cbv beta iota.
    destruct (fst (Handshake.handle_get_request _ _ _ _)) as [h|]; [|exact A1].
    destruct (truthy h); [|exact A1].
    specialize (Hs h eq_refl).
    match type of A1 with advance _ _ ?d => set (dm1 := d) in * end.
    pose proof (advance_create_upload ctx now from_addr h dm1 Hs (proj1 A1)) as A2.
    destruct (on_transfer _ dm1) as [c dm2]. cbn [snd] in A2.
    pose proof (advance_transfer ctx (Transfer.start_data_upload ho now from_addr h) dm2
                  (fun rt => start_kept ho now from_addr h rt) (proj1 A2)) as A3.
    destruct (on_transfer _ dm2) as [b dm3]. cbn [snd] in *.
    eapply advance_then; [exact A1|]. eapply advance_then; eassumption. }
  destruct (_ =? Packet.PktType.DATA).
  { pose proof (advance_transfer ctx
                  (Transfer.handle_data_packet ho now pkt_info from_addr) dm
                  (fun rt => step_kept ho rt (Managers.Arrives now pkt_info from_addr))
                  H) as A1.
    destruct (on_transfer _ dm) as [r dm1]. cbn [snd] in A1.
    destruct r as [[h|]|e]; cbn [snd]; try exact A1.
    eapply advance_then; [exact A1|]. apply chunk_arrived_advance, A1. }
  destruct (_ =? Packet.PktType.ACK).
  { pose proof (advance_transfer ctx
                  (Transfer.handle_ack_packet ho now pkt_info from_addr) dm
                  (fun rt => step_kept ho rt (Managers.Acked now pkt_info from_addr))
                  H) as A1.
    destruct (on_transfer _ dm) as [r dm1]. exact A1. }
  now apply advance_same.
Qed.

Lemma tick_advance ho wr ctx now dm :
  sane ctx dm -> advance ctx dm (snd (handle_timeouts ho wr now dm)).
Proof.
  intros H. unfold handle_timeouts.
  pose proof (advance_transfer ctx (Transfer.handle_timeouts ho now) dm
                (fun rt => step_kept ho rt (Managers.Timeouts now)) H) as A1.
  destruct (on_transfer _ dm) as [[l|e] dm1]; cbn [snd] in A1; [|exact A1].
  pose proof (advance_handshake ho ctx (Discovery.ForgetsOld now request_timeout)
                (fun hm => (tt, Handshake.cleanup_old_requests now request_timeout hm))
                dm1 (fun hm => eq_refl) (proj1 A1)) as A2.
  destruct (on_handshake _ dm1) as [u dm2]. cbn [snd] in A2.
  pose proof (advance_transfer ctx Transfer.cleanup_finished_connections dm2
                (fun rt => step_kept ho rt Managers.Cleans) (proj1 A2)) as A3.
  destruct (on_transfer _ dm2) as [done dm3]. cbn [snd] in A3.
  pose proof (advance_handshake ho ctx Discovery.ForgetsFinished
                (fun hm => (tt, Handshake.cleanup_finished_connections hm))
                dm3 (fun hm => eq_refl) (proj1 A3)) as A4.
  destruct (on_handshake _ dm3) as [u' dm4]. cbn [snd] in A4.
  pose proof (fold_advance ctx snd (completed_one wr now) done ([], dm4)
                (fun a x => completed_one_advance ctx wr now a x) (proj1 A4)) as A5.
  destruct (fold_left _ done _) as [files dm5]. cbn [snd] in *.
  eapply advance_then; [exact A1|]. eapply advance_then; [exact A2|].
  eapply advance_then; [exact A3|]. eapply advance_then; eassumption.
Qed.

Lemma start_advance ho ctx now chunk_file out dm :
  sane ctx dm -> advance ctx dm (snd (start_download ho now chunk_file out dm)).
Proof.
  intros H. unfold start_download.
  destruct chunk_file as [lines|]; [|now apply advance_same].
  destruct (wanted (context dm) lines) as [|h0 needed] eqn:Ew.
  { cbn [snd]. apply advance_books; try reflexivity; [exact H|]. exact (proj2 H). }
  set (l := h0 :: needed). cbv zeta. rewrite (fold_active (fun d h => dict_set h _ d)).
  match goal with |- context [start_chunk_discovery ho now l ?d] => set (dm1 := d) end.
  assert (A1 : advance ctx dm dm1).
  { apply advance_books; try reflexivity; [exact H|].
    destruct H as [_ (B1 & B2 & B3)]. split; [|split].
    - intros r0 t0. cbn. destruct (decide (r0 = next_task dm)) as [->|Hne].
      + rewrite lookup_insert_eq. intros [= <-]. apply TaskFacts.new_sound.
      + rewrite lookup_insert_ne by congruence. apply B1.
    - intros r0 Hr. cbn in Hr |- *. rewrite lookup_insert_ne by lia.
      apply B2. lia.
    - cbn. eapply Forall_impl; [exact B3|]. intros w (r0 & t0 & H1 & H2 & H3).
      exists r0, t0. rewrite lookup_insert_ne; [auto|].
      intros <-. rewrite B2 in H1 by lia. discriminate. }
  pose proof (advance_handshake ho ctx (Discovery.AsksWhoHas now (roster dm1) l)
                (Handshake.send_who_has_request ho now (roster dm1) l) dm1
                (fun hm => eq_refl) (proj1 A1)) as A2.
  unfold start_chunk_discovery. change (h0 :: needed) with l.
  unfold l at 1. cbv iota. destruct (on_handshake _ dm1) as [[u|e] dm2]; cbn [snd] in *;
    exact (advance_then _ _ _ _ A1 A2).
Qed.

Lemma forget_hashes l dm :
  let dm' := fold_left (fun dm h => if dict_in h (active_downloads dm)
                                    then set_active_downloads
                                           (dict_del h (active_downloads dm)) dm
                                    else dm) l dm in
  context dm' = context dm /\ handshake_manager dm' = handshake_manager dm
  /\ reliable_transfer dm' = reliable_transfer dm /\ tasks dm' = tasks dm
  /\ next_task dm' = next_task dm /\ files dm' = files dm
  /\ download_tasks dm' = download_tasks dm.
Proof.
  revert dm. induction l as [|h l IH]; intros dm; [repeat split|].
  cbn [fold_left]. cbv zeta in IH |- *.
  destruct (dict_in h (active_downloads dm)); [|apply IH].
  destruct (IH (set_active_downloads (dict_del h (active_downloads dm)) dm))
    as (-> & -> & -> & -> & -> & -> & ->). repeat split.
Qed.

Lemma forget_advance ctx dm out :
  sane ctx dm -> advance ctx dm (forget_task dm out).
Proof.
  intros H. unfold forget_task.
  destruct (dict_get out (download_tasks dm)) as [ref|]; [|now apply advance_same].
  destruct (tasks dm !! ref) as [t|].
  - destruct (forget_hashes (elements (needed_chunks t)) dm)
      as (E1 & E2 & E3 & E4 & E5 & E6 & _). cbv zeta in *.
    apply advance_books; cbn; try assumption.
    unfold booked. cbn. rewrite E4, E5, E6. exact (proj2 H).
  - apply advance_books; try reflexivity; [exact H|]. exact (proj2 H).
Qed.

Lemma step_advance ho wr ctx dm e :
  sane ctx dm -> advance ctx dm (step ho wr dm e).
Proof.
  intros H. destruct e as [now i f|now|now|now cf out|now t|]; cbn [step].
  - now apply receive_advance.
  - now apply tick_advance.
  - now apply schedule_advance.
  - now apply start_advance.
  - apply (advance_handshake ho ctx (Discovery.ForgetsOld now t)); [reflexivity|exact H].
  - unfold cleanup_completed_tasks.
    apply (fold_advance ctx (fun dm => dm)); [|exact H].
    intros a x. apply forget_advance.
Qed.

Lemma run_advance ho wr ctx es dm :
  sane ctx dm -> advance ctx dm (run ho wr es dm).
Proof.
  revert dm. induction es as [|e es IH]; intros dm H; [now apply advance_same|].
  cbn [run fold_left]. eapply advance_then; [apply step_advance, H|].
  apply IH. apply step_advance, H.
Qed.

Lemma new_sane ctx r s : sane ctx (new_download_manager ctx r s).
Proof.
  split.
  - split; [reflexivity|]. split; [reflexivity|].
    split; [apply DiscoveryFacts.new_admitted|]. split; [|constructor].
    intros key H. discriminate.
  - split; [|split].
    + intros ref t H. cbn in H. rewrite lookup_empty in H. discriminate.
    + intros ref _. apply lookup_empty.
    + constructor.
Qed.

(** X25.  Over the whole life of a download manager, whatever packets
    arrive, whenever the timeouts are handled, downloads scheduled or
    started and the clean-ups run, the handshake manager holds at most
    [max_conn] upload slots, an upload slot once taken is never given back
    (the slots only grow, by appending), and the transfer manager uploads
    only under keys [(peer_addr, chunk_hash)] that hold a slot.  So once
    [max_conn] GET requests have been admitted the slots never change
    again and no upload to a new peer or for a new chunk is ever created:
    a peer serves at most [max_conn] pairs of peer and chunk. *)
Theorem manager_upload_slots_for_life ho wr ctx r s es es' :
  let dm := run ho wr es (new_download_manager ctx r s) in
  let dm' := run ho wr es' dm in
  len (slots dm) <= Z.max 0 (max_conn ctx)
  /\ (exists more, slots dm' = slots dm ++ more)
  /\ (forall key,
        dict_in key (Transfer.upload_connections (reliable_transfer dm)) = true ->
        dict_in key (slots dm) = true)
  /\ (max_conn ctx <= len (slots dm) ->
      slots dm' = slots dm
      /\ forall key,
          dict_in key (Transfer.upload_connections (reliable_transfer dm')) = true ->
          dict_in key (slots dm) = true).
Proof.
  intros dm dm'.
  destruct (run_advance ho wr ctx es _ (new_sane ctx r s)) as [Hs _]. fold dm in Hs.
  destruct (run_advance ho wr ctx es' dm Hs) as [Hs' [more Hm]]. fold dm' in Hs', Hm.
  destruct Hs as [(_ & _ & (_ & _ & Hl & _) & Hk & _) _].
  destruct Hs' as [(_ & _ & (_ & _ & Hl' & _) & Hk' & _) _].
  split; [exact Hl|]. split; [eauto|]. split; [exact Hk|].
  intros Hfull. fold (slots dm') in Hl'. fold (slots dm') in Hk'.
  assert (more = []) as ->.
  { rewrite Hm in Hl'. unfold len in *. rewrite length_app in Hl'.
    destruct more; [reflexivity|]. cbn [length] in Hl'. lia. }
  rewrite app_nil_r in Hm. rewrite <- Hm. split; [reflexivity|exact Hk'].
Qed.

Lemma cleanup_forgets_completed rt h :
  NoDup (map fst (Transfer.download_connections rt)) ->
  In h (fst (Transfer.cleanup_finished_connections rt)) ->
  dict_get h (Transfer.download_connections
                (snd (Transfer.cleanup_finished_connections rt))) = None.
Proof.
  intros Hnd Hin. unfold Transfer.cleanup_finished_connections in *.
  cbn [fst snd] in *. cbn.
  apply in_map_iff in Hin as ([h' c] & E & Hin). cbn [fst] in E. subst h'.
  apply filter_In in Hin as [Hin Hc]. cbn [snd] in Hc.
  apply dict_get_None. intros Hk.
  apply in_map_iff in Hk as ([h' c'] & E & Hk). cbn [fst] in E. subst h'.
  apply filter_In in Hk as [Hk Hf]. cbn [snd] in Hf.
  assert (c' = c) as -> by (eapply NoDup_key_unique; eassumption).
  unfold Transfer.finished in Hf. rewrite Hc in Hf. discriminate.
Qed.

Lemma completed_noop wr now l acc :
  (forall h, In h l ->
             dict_get h (Transfer.download_connections
                           (reliable_transfer (snd acc))) = None) ->
  fold_left (completed_one wr now) l acc = acc.
Proof.
  induction l as [|h l IH]; intros H; [reflexivity|].
  cbn [fold_left].
  assert (E : completed_one wr now acc h = acc).
  { destruct acc as [fs dm]. unfold completed_one. cbn [snd] in H.
    destruct (dict_get h (active_downloads dm)); [|reflexivity].
    rewrite (H h) by now left. reflexivity. }
  rewrite E. apply IH. intros h' Hin. apply H. now right.
Qed.

(** X26.  Handling the timeouts never completes a download.  The chunk
    hashes [cleanup_finished_connections] returns have just been deleted
    from [download_connections], so the loop of [handle_timeouts] over the
    completed chunks finds no connection for any of them: no chunk is added
    to a task, no file is written and no GOT line is printed; the call
    returns the empty list, or raises what the transfer manager raised. *)
Theorem timeouts_deliver_nothing ho wr ctx r s es now :
  let dm := run ho wr es (new_download_manager ctx r s) in
  outcome (snd (handle_timeouts ho wr now dm)) = outcome dm
  /\ (fst (handle_timeouts ho wr now dm) = Ok []
      \/ exists e, fst (handle_timeouts ho wr now dm) = Raise e).
Proof.
  intros dm.
  destruct (run_advance ho wr ctx es _ (new_sane ctx r s)) as [H _]. fold dm in H.
  unfold handle_timeouts.
  pose proof (advance_transfer ctx (Transfer.handle_timeouts ho now) dm
                (fun rt => step_kept ho rt (Managers.Timeouts now)) H) as A1.
  rewrite on_transfer_eq in A1 |- *. cbv zeta in A1 |- *. cbn [snd] in A1.
  destruct (fst (Transfer.handle_timeouts ho now _)) as [l|e];
    [|split; [reflexivity|right; eauto]].
  match type of A1 with advance _ _ ?d => set (dm1 := d) in * end.
  pose proof (advance_handshake ho ctx (Discovery.ForgetsOld now request_timeout)
                (fun hm => (tt, Handshake.cleanup_old_requests now request_timeout hm))
                dm1 (fun hm => eq_refl) (proj1 A1)) as A2.
  rewrite on_handshake_eq in A2 |- *. cbv zeta in A2 |- *. cbn [snd] in A2.
  match type of A2 with advance _ _ ?d => set (dm2 := d) in * end.
  rewrite on_transfer_eq. cbv zeta.
  set (rt2 := Transfer.set_sock (sock dm2) (reliable_transfer dm2)).
  rewrite on_handshake_eq. cbv zeta.
  rewrite completed_noop.
  - split; [reflexivity|now left].
  - intros h Hin. cbn - [Transfer.cleanup_finished_connections].
    apply cleanup_forgets_completed; [|exact Hin].
    destruct A2 as [[(_ & _ & _ & _ & Hd) _] _]. exact Hd.
Qed.

(** X27.  What a download manager writes.  Every write recorded by
    [save_to_file], over any events, is the output file of a task of the
    manager together with the dictionary of its received chunks, and that
    task is completed: the dictionary is not empty, its keys are distinct
    and they are exactly the needed chunks of the task.  A file is never
    written with a chunk missing, nor with a chunk that was not asked
    for. *)
Theorem written_files_hold_needed_chunks ho wr ctx r s es path contents :
  let dm := run ho wr es (new_download_manager ctx r s) in
  In (path, contents) (files dm) ->
  exists ref t,
    tasks dm !! ref = Some t
    /\ output_file t = path /\ received_chunks t = contents
    /\ completed t = true /\ contents <> []
    /\ NoDup (map fst contents)
    /\ (list_to_set (map fst contents) : gset string) = needed_chunks t.
Proof.
  intros dm Hin.
  destruct (run_advance ho wr ctx es _ (new_sane ctx r s)) as [[_ Hb] _].
  fold dm in Hb. destruct Hb as (B1 & _ & B3).
  rewrite List.Forall_forall in B3.
  destruct (B3 _ Hin) as (ref & t & Ht & [= -> ->] & Hc).
  exists ref, t. pose proof (B1 _ _ Ht) as Hs.
  pose proof Hs as (Hnd & Hsub & H3). apply H3 in Hc as Hc'. destruct Hc' as [Hic Hne].
  repeat (split; [assumption || reflexivity|]).
  apply set_eq. intros x. rewrite elem_of_list_to_set. split.
  - intros Hx. apply Hsub. now apply list_elem_of_In.
  - intros Hx. apply list_elem_of_In, dict_in_keys.
    now apply (proj1 (TaskFacts.is_complete_iff t Hs) Hic).
Qed.

Lemma written_files_hold_needed_chunks_witness :
  exists path contents ref t,
    let dm := run Packet.Little everything_writable one_chunk_download downloader in
    In (path, contents) (files dm)
    /\ tasks dm !! ref = Some t
    /\ output_file t = path /\ received_chunks t = contents
    /\ (list_to_set (map fst contents) : gset string) = needed_chunks t.
Proof.
  set (dm := run Packet.Little everything_writable one_chunk_download downloader).
  assert (Hlen : length (files dm) = 1%nat) by (vm_compute; reflexivity).
  destruct (files dm) as [|[path contents] l] eqn:E; [discriminate|].
  assert (Hin : In (path, contents) (files dm)) by (rewrite E; left; reflexivity).
  destruct (written_files_hold_needed_chunks Packet.Little everything_writable _
              Discovery.three_peers [] one_chunk_download path contents Hin)
    as (ref & t & H1 & H2 & H3 & _ & _ & _ & H4).
  exists path, contents, ref, t. cbv zeta. fold dm. rewrite E.
  split; [left; reflexivity|]. split; [exact H1|]. split; [exact H2|].
  split; [exact H3|exact H4].
Defined.

(** ** What a packet can do to the files *)

Lemma on_handshake_books {A}
      (f : Handshake.HandshakeManager -> A * Handshake.HandshakeManager) dm :
  let dm' := snd (on_handshake f dm) in
  tasks dm' = tasks dm /\ files dm' = files dm /\ printed dm' = printed dm
  /\ active_downloads dm' = active_downloads dm.
Proof. rewrite on_handshake_eq. repeat split. Qed.

Lemma on_transfer_books {A}
      (f : Transfer.ReliableTransfer -> A * Transfer.ReliableTransfer) dm :
  let dm' := snd (on_transfer f dm) in
  tasks dm' = tasks dm /\ files dm' = files dm /\ printed dm' = printed dm
  /\ active_downloads dm' = active_downloads dm.
Proof. rewrite on_transfer_eq. repeat split. Qed.

Lemma schedule_books ho now dm :
  let dm' := schedule_downloads ho now dm in
  tasks dm' = tasks dm /\ files dm' = files dm /\ printed dm' = printed dm.
Proof.
  unfold schedule_downloads. generalize (active_downloads dm) as l.
  intros l. revert dm. induction l as [|[h ref] l IH]; intros dm; [repeat split|].
  cbn [fold_left]. cbv zeta in IH |- *.
  assert (E : tasks (schedule_one ho now dm (h, ref)) = tasks dm
              /\ files (schedule_one ho now dm (h, ref)) = files dm
              /\ printed (schedule_one ho now dm (h, ref)) = printed dm).
  { unfold schedule_one. destruct (tasks dm !! ref) as [t|]; [|repeat split].
    destruct (dict_in h (received_chunks t)); [repeat split|].
    destruct (dict_in h _); [repeat split|].
    destruct (Handshake.get_download_candidates h _) as [|peer l'];
      [repeat split|].
    rewrite on_transfer_eq. cbv zeta. rewrite on_handshake_eq. repeat split. }
  destruct E as (E1 & E2 & E3).
  destruct (IH (schedule_one ho now dm (h, ref))) as (-> & -> & ->). auto.
Qed.

Lemma deliver_writes wr now h data ref dm :
  match deliver_chunk wr now h data ref dm with
  | (Some file, dm') =>
      exists contents,
        files dm' = files dm ++ [(file, contents)]
        /\ printed dm' = printed dm ++ [String.append "GOT " file]
        /\ wr file = true
  | (None, dm') => files dm' = files dm /\ printed dm' = printed dm
  end.
Proof.
  unfold deliver_chunk. destruct (tasks dm !! ref) as [t|]; [|split; reflexivity].
  destruct (add_chunk now h data t) as [[|] t']; [|split; reflexivity].
  destruct (is_complete t') eqn:Ec; [|split; reflexivity].
  unfold save_to_file. rewrite Ec. cbn [negb].
  destruct (wr (output_file t')) eqn:Ew; [|split; reflexivity].
  eexists. split; [reflexivity|]. split; [reflexivity|exact Ew].
Qed.

(** X28.  Only a DATA packet writes a file.  [handle_incoming_packet]
    returns an output file exactly when the packet was a DATA packet from
    which [save_to_file] wrote that file: the write is then the last one
    recorded and the path was writable.  In every other case, whatever the
    type of the packet and also when a handler raises, no file is
    written. *)
Theorem only_data_writes_a_file ho wr now pkt_info from_addr dm :
  let r := handle_incoming_packet ho wr now pkt_info from_addr dm in
  match fst r with
  | Some file =>
      Packet.pkt_type pkt_info = Packet.PktType.DATA
      /\ wr file = true
      /\ exists contents, files (snd r) = files dm ++ [(file, contents)]
  | None => files (snd r) = files dm
  end.
Proof.
  cbv zeta. unfold handle_incoming_packet. cbv zeta.
  destruct (_ =? Packet.PktType.WHOHAS).
  { rewrite on_handshake_eq. reflexivity. }
  destruct (_ =? Packet.PktType.IHAVE).
  { rewrite on_handshake_eq. cbv zeta. cbn [fst snd].
    match goal with |- context [schedule_downloads ho now ?d] =>
      destruct (schedule_books ho now d) as (_ & -> & _) end.
    reflexivity. }
  destruct (_ =? Packet.PktType.DENIED).
  { rewrite on_handshake_eq. reflexivity. }
  destruct (_ =? Packet.PktType.GET).
  { rewrite on_handshake_eq. cbv zeta.
    destruct (fst (Handshake.handle_get_request _ _ _ _)) as [h|];
      [|reflexivity].
    destruct (truthy h); [|reflexivity].
    rewrite on_transfer_eq. cbv zeta. rewrite on_transfer_eq. reflexivity. }
  destruct (_ =? Packet.PktType.DATA) eqn:Ed.
  { apply Z.eqb_eq in Ed. rewrite on_transfer_eq. cbv zeta.
    match goal with |- context [set_sock ?a (set_reliable_transfer ?b dm)] =>
      set (dm1 := set_sock a (set_reliable_transfer b dm)) end.
    destruct (fst (Transfer.handle_data_packet _ _ _ _ _)) as [[h|]|e];
      try reflexivity.
    unfold chunk_arrived. destruct (truthy h); [|reflexivity].
    destruct (dict_get h (active_downloads dm1)) as [ref|]; [|reflexivity].
    destruct (dict_get h _) as [c|]; [|reflexivity].
    destruct (is_chunk_complete _ c); [|reflexivity].
    pose proof (deliver_writes wr now h (get_chunk_data c) ref dm1) as Hw.
    destruct (deliver_chunk wr now h (get_chunk_data c) ref dm1) as [[file|] dm2];
      cbn [fst snd].
    - destruct Hw as (contents & H1 & _ & H3). split; [exact Ed|].
      split; [exact H3|]. exists contents. exact H1.
    - exact (proj1 Hw). }
  destruct (_ =? Packet.PktType.ACK).
  { rewrite on_transfer_eq. reflexivity. }
  reflexivity.
Qed.

(** ** A GET request *)

Lemma create_then_start ho now0 now peer h rt chunk :
  has_chunks (Transfer.context rt) !! h = Some chunk -> chunk <> [] ->
  let rt0 := snd (Transfer.create_upload_connection now0 peer h rt) in
  let r := Transfer.start_data_upload ho now peer h rt0 in
  fst r = Ok true
  /\ exists pkt c,
       Packet.build_data_packet ho 1 (take 1388 chunk) = Ok pkt
       /\ Transfer.sock (snd r) = Transfer.sock rt ++ [(pkt, peer)]
       /\ dict_get (peer, h) (Transfer.upload_connections (snd r)) = Some c
       /\ seq_num c = 1 /\ packets_sent c = 1 /\ last_send_time c = now
       /\ ack_num c = 0 /\ state c = TRANSFER
       /\ send_buffer c = Senders.pieces chunk
       /\ Transfer.download_connections (snd r) = Transfer.download_connections rt.
Proof.
  intros E Hne rt0 r.
  pose proof (SenderFacts.create_upload_spec now0 peer h rt) as H.
  cbv zeta in H. fold rt0 in H. rewrite E in H.
  destruct chunk as [|b chunk']; [congruence|]. set (chunk := b :: chunk') in *.
  destruct H as (Hb & _ & _ & _ & _ & Hst & Hdir & Hseq & Hack & Hget & Hs).
  set (c0 := fst (Transfer.create_upload_connection now0 peer h rt)) in *.
  assert (Hcw : cwnd c0 = 1%Q /\ peer_addr c0 = peer /\ packets_sent c0 = 0).
  { unfold c0, Transfer.create_upload_connection. rewrite E. cbn [fst].
    destruct (SenderFacts.split_chunk_buffer
                (Z.to_nat (Transfer.packet_count chunk)) 0 chunk
                (Transfer.apply_custom_timeout rt (new_connection now0 peer h UPLOAD)))
      as (_ & S2); [lia|].
    cbv zeta in S2. fold chunk. rewrite S2, (SenderFacts.apply_custom_timeout_same _).
    repeat split. }
  destruct Hcw as (Hcw & Hpeer & Hps).
  destruct (SenderFacts.pieces_spec chunk Hne) as (_ & _ & _ & _ & Hn).
  assert (Hp : Senders.pieces chunk
               = (1, Senders.piece chunk 1)
                   :: ((fun s => (s, Senders.piece chunk s))
                         <$> seqZ (Z.succ 1) (Z.pred (Transfer.packet_count chunk)))).
  { unfold Senders.pieces. rewrite seqZ_cons by lia. reflexivity. }
  assert (Hd : len (Senders.piece chunk 1) <= Packet.MAX_PAYLOAD_SIZE).
  { rewrite SenderFacts.piece_take by lia. unfold len.
    rewrite length_take. change Packet.MAX_PAYLOAD_SIZE with 1388. lia. }
  pose proof Hb as Hb0. rewrite Hp in Hb.
  destruct (SenderFacts.send_first ho now c0 (Transfer.sock rt0)
              (Senders.piece chunk 1) _ Hdir Hseq Hack Hcw Hb Hd)
    as (pkt & Hbuild & Hsend).
  assert (Hdl : Transfer.download_connections rt0 = Transfer.download_connections rt).
  { unfold rt0, Transfer.create_upload_connection. rewrite E. reflexivity. }
  unfold r, Transfer.start_data_upload. cbv zeta. rewrite Hget.
  rewrite Hst. rewrite (bool_decide_eq_true_2 _ (eq_refl TRANSFER)). cbn [negb].
  unfold Transfer.on_upload, Transfer.cbind.
  rewrite Hpeer in Hsend. rewrite Hsend. unfold Transfer.ret. cbn [fst snd].
  split; [reflexivity|].
  exists pkt. eexists. split; [|split; [|split]].
  - rewrite SenderFacts.piece_take in Hbuild by lia. exact Hbuild.
  - cbn. rewrite Hs. reflexivity.
  - cbn [Transfer.upload_connections Transfer.set_sock
         Transfer.set_upload_connections].
    apply dict_get_set_eq.
  - cbn [seq_num packets_sent last_send_time ack_num state send_buffer
           set_seq_num set_packets_sent set_last_send_time].
    rewrite Hps, Hack, Hst, Hb0. repeat split. exact Hdl.
Qed.

Lemma transfer_sock_same rt : Transfer.set_sock (Transfer.sock rt) rt = rt.
Proof. now destruct rt. Qed.

Lemma hex_truthy d : d <> [] -> truthy (Hex.bytes_to_hex_string d) = true.
Proof. destruct d; [congruence|reflexivity]. Qed.



End DispatchFacts.
